(** * Registry text import/export (regproc.c): model and verification

    A shallow embedding of the registry file parser (the state machine
    driven by [import_registry_file]) and of the exporter
    ([export_registry_key] and the functions below it).

    Conventions of the embedding.
    - A [WCHAR] is a 16-bit code unit and a [BYTE] an octet, both carried
      by [Z].  A C string is the list of its characters before the
      terminating NUL; a pointer into a line is the suffix it points to.
    - [unsigned long] and [DWORD] are 32 bits wide (the Windows data
      model the program is built for).
    - Where C leaves the behaviour undefined (a read or write outside a
      buffer, a NULL dereference) the model stops with an explicit fault
      instead of inventing a result.
    - Where the parser leaves the line it was given and reads on in the
      buffer of the line reader, the model stops as well, and says so. *)

From Stdlib Require Import Ascii String ZArith List Bool Lia.
Import ListNotations.
Local Open Scope Z_scope.

(** ** Characters and strings *)

Abbreviation WCHAR := Z (only parsing).
Abbreviation BYTE := Z (only parsing).
Abbreviation wstr := (list Z) (only parsing).

(** Character constants; notations, so that arithmetic tactics see the
    code points. *)
Abbreviation NUL := 0 (only parsing).
Abbreviation TAB := 9 (only parsing).
Abbreviation LF := 10 (only parsing).
Abbreviation CR := 13 (only parsing).
Abbreviation SPACE := 32 (only parsing).
Abbreviation DQUOTE := 34 (only parsing).
Abbreviation LPAREN := 40 (only parsing).
Abbreviation RPAREN := 41 (only parsing).
Abbreviation PLUS := 43 (only parsing).
Abbreviation COMMA := 44 (only parsing).
Abbreviation MINUS := 45 (only parsing).
Abbreviation COLON := 58 (only parsing).
Abbreviation SEMICOLON := 59 (only parsing).
Abbreviation EQUALS := 61 (only parsing).
Abbreviation ATSIGN := 64 (only parsing).
Abbreviation LBRACKET := 91 (only parsing).
Abbreviation BACKSLASH := 92 (only parsing).
Abbreviation RBRACKET := 93 (only parsing).

Definition wc (a : ascii) : WCHAR := Z.of_N (N_of_ascii a).

(** [W "text"] is the wide string literal. *)
Fixpoint W (s : string) : wstr :=
  match s with
  | EmptyString => []
  | String a r => wc a :: W r
  end.

Definition CRLF : wstr := [CR; LF].

(** A space or a tab. *)
Definition is_blank (c : WCHAR) : bool := (c =? SPACE) || (c =? TAB).

(** Skipping blanks: the loop [while (is_blank( *s )) s++]. *)
Fixpoint skip_blanks (s : wstr) : wstr :=
  match s with
  | c :: r => if is_blank c then skip_blanks r else s
  | [] => []
  end.

(** The rest of the line is empty or starts a comment. *)
Definition at_eol_or_comment (s : wstr) : bool :=
  match s with
  | [] => true
  | c :: _ => c =? SEMICOLON
  end.

(** The string seen through a C string pointer stops at the first NUL. *)
Fixpoint cstr (s : wstr) : wstr :=
  match s with
  | [] => []
  | c :: r => if c =? NUL then [] else c :: cstr r
  end.

(** [strncmpW(tag, s, len) == 0] for a tag without NUL: [s] starts with
    [tag]. *)
Fixpoint starts_with (tag s : wstr) : bool :=
  match tag, s with
  | [], _ => true
  | t :: tag', c :: s' => (t =? c) && starts_with tag' s'
  | _ :: _, [] => false
  end.

(** [strcmpW(a, b) == 0] *)
Fixpoint wstr_eqb (a b : wstr) : bool :=
  match a, b with
  | [], [] => true
  | x :: a', y :: b' => (x =? y) && wstr_eqb a' b'
  | _, _ => false
  end.

(** ** Character classes and number scanning

    Modelled from the spec: the character classification and conversion
    helpers of wine/unicode.h and the C library ([isspaceW], [isxdigitW],
    [tolowerW], [strtoulW], [wcstoul]) are not part of the sources; they
    are given their C-locale (ASCII) behaviour. *)

Definition isspaceW (c : WCHAR) : bool :=
  ((TAB <=? c) && (c <=? CR)) || (c =? SPACE).

Definition is_decimal (c : WCHAR) : bool := (48 <=? c) && (c <=? 57).
Definition is_lower (c : WCHAR) : bool := (97 <=? c) && (c <=? 122).
Definition is_upper (c : WCHAR) : bool := (65 <=? c) && (c <=? 90).

Definition isxdigitW (c : WCHAR) : bool :=
  is_decimal c || ((97 <=? c) && (c <=? 102)) || ((65 <=? c) && (c <=? 70)).

Definition tolowerW (c : WCHAR) : WCHAR :=
  if is_upper c then c + 32 else c.

(** Value of a character as a digit, for bases up to 36. *)
Definition digit_value (c : WCHAR) : option Z :=
  if is_decimal c then Some (c - 48)
  else if is_lower c then Some (c - 97 + 10)
  else if is_upper c then Some (c - 65 + 10)
  else None.

Definition hex_digit_value (c : WCHAR) : option Z :=
  match digit_value c with
  | Some d => if d <? 16 then Some d else None
  | None => None
  end.

Definition ULONG_MAX : Z := 4294967295.

(** The longest run of hexadecimal digits at the head of [s]: the value
    accumulated so far (unbounded), the number of digits and the rest. *)
Fixpoint scan_hex (s : wstr) (acc : Z) (n : nat) : Z * nat * wstr :=
  match s with
  | c :: r =>
      match hex_digit_value c with
      | Some d => scan_hex r (16 * acc + d) (S n)
      | None => (acc, n, s)
      end
  | [] => (acc, n, s)
  end.

Fixpoint skip_space (s : wstr) : wstr :=
  match s with
  | c :: r => if isspaceW c then skip_space r else s
  | [] => []
  end.

Record strtoul_result := {
  ul_value : Z;        (* the converted value, an unsigned long *)
  ul_end : wstr;       (* the end pointer *)
  ul_erange : bool     (* the call stored ERANGE in errno *)
}.

(** [strtoul(s, &end, 16)]: white space, an optional sign, an optional
    0x prefix and the hexadecimal digits.  Without digits there is no
    conversion: the value is 0 and [end] is [s] (after a bare 0x prefix,
    the 0 alone is converted).  A value above [ULONG_MAX] is reported as
    [ULONG_MAX] with ERANGE; a minus sign negates modulo 2^32. *)
Definition strtoul16 (s : wstr) : strtoul_result :=
  let s1 := skip_space s in
  let '(neg, s2) :=
    match s1 with
    | c :: r => if c =? MINUS then (true, r)
                else if c =? PLUS then (false, r) else (false, s1)
    | [] => (false, s1)
    end in
  let '(prefixed, s3) :=
    match s2 with
    | c0 :: x :: r =>
        if (c0 =? 48) && ((x =? 120) || (x =? 88)) then (true, r) else (false, s2)
    | _ => (false, s2)
    end in
  let '(v, n, rest) := scan_hex s3 0 0 in
  match n with
  | O =>
      if prefixed
      then {| ul_value := 0; ul_end := tl s2; ul_erange := false |}
      else {| ul_value := 0; ul_end := s; ul_erange := false |}
  | S _ =>
      if ULONG_MAX <? v
      then {| ul_value := ULONG_MAX; ul_end := rest; ul_erange := true |}
      else {| ul_value := (if neg then (- v) mod 2 ^ 32 else v);
              ul_end := rest; ul_erange := false |}
  end.

(** ** Byte buffers *)

(** The bytes of a wide string in memory (little endian). *)
Definition wchar_bytes (c : WCHAR) : list BYTE := [c mod 256; (c / 256) mod 256].

Definition wide_bytes (s : wstr) : list BYTE := flat_map wchar_bytes s.

(** A byte buffer read as an array of [WCHAR]; an odd last byte is not
    part of it. *)
Fixpoint wide_chars (b : list BYTE) : wstr :=
  match b with
  | lo :: hi :: r => (lo + 256 * hi) :: wide_chars r
  | _ => []
  end.

(** The four bytes of a [DWORD] in memory. *)
Definition dword_bytes (d : Z) : list BYTE :=
  [d mod 256; (d / 256) mod 256; (d / 65536) mod 256; (d / 16777216) mod 256].

(** Registry value types (winnt.h). *)
Abbreviation REG_NONE := 0 (only parsing).
Abbreviation REG_SZ := 1 (only parsing).
Abbreviation REG_EXPAND_SZ := 2 (only parsing).
Abbreviation REG_BINARY := 3 (only parsing).
Abbreviation REG_DWORD := 4 (only parsing).
Abbreviation REG_MULTI_SZ := 7 (only parsing).

(** ** The registry

    Modelled from the spec: the backing key-value store (the registry API
    behind [RegCreateKeyExW], [RegSetValueExW], [RegDeleteValueW],
    [RegDeleteTreeW], [RegEnumValueW], [RegEnumKeyExW] and [RegOpenKeyExW])
    is an external collaborator.  A key holds its values and its subkeys
    in enumeration order; names are compared exactly; a new value or
    subkey is enumerated last; creating a key always succeeds. *)

Inductive root_class :=
  | HKEY_LOCAL_MACHINE | HKEY_USERS | HKEY_CLASSES_ROOT
  | HKEY_CURRENT_CONFIG | HKEY_CURRENT_USER | HKEY_DYN_DATA.

Definition reg_class_keys : list root_class :=
  [HKEY_LOCAL_MACHINE; HKEY_USERS; HKEY_CLASSES_ROOT;
   HKEY_CURRENT_CONFIG; HKEY_CURRENT_USER; HKEY_DYN_DATA].

(** Modelled from the spec: the table [reg_class_namesW] is declared
    extern and defined outside the sources; the six root class names, in
    the order of [reg_class_keys]. *)
Definition reg_class_namesW : list wstr :=
  [W "HKEY_LOCAL_MACHINE"; W "HKEY_USERS"; W "HKEY_CLASSES_ROOT";
   W "HKEY_CURRENT_CONFIG"; W "HKEY_CURRENT_USER"; W "HKEY_DYN_DATA"].

Record reg_value := { val_type : Z; val_data : list BYTE }.

Inductive reg_key :=
  | Key (values : list (wstr * reg_value)) (subkeys : list (wstr * reg_key)).

Definition key_values (k : reg_key) := let 'Key vs _ := k in vs.
Definition key_subkeys (k : reg_key) := let 'Key _ ks := k in ks.

Definition empty_key : reg_key := Key [] [].

Record registry := {
  hklm : reg_key; hku : reg_key; hkcr : reg_key;
  hkcc : reg_key; hkcu : reg_key; hkdd : reg_key
}.

Definition empty_registry : registry :=
  {| hklm := empty_key; hku := empty_key; hkcr := empty_key;
     hkcc := empty_key; hkcu := empty_key; hkdd := empty_key |}.

Definition get_root (r : registry) (c : root_class) : reg_key :=
  match c with
  | HKEY_LOCAL_MACHINE => hklm r | HKEY_USERS => hku r
  | HKEY_CLASSES_ROOT => hkcr r | HKEY_CURRENT_CONFIG => hkcc r
  | HKEY_CURRENT_USER => hkcu r | HKEY_DYN_DATA => hkdd r
  end.

Definition set_root (r : registry) (c : root_class) (k : reg_key) : registry :=
  match c with
  | HKEY_LOCAL_MACHINE =>
      {| hklm := k; hku := hku r; hkcr := hkcr r; hkcc := hkcc r; hkcu := hkcu r; hkdd := hkdd r |}
  | HKEY_USERS =>
      {| hklm := hklm r; hku := k; hkcr := hkcr r; hkcc := hkcc r; hkcu := hkcu r; hkdd := hkdd r |}
  | HKEY_CLASSES_ROOT =>
      {| hklm := hklm r; hku := hku r; hkcr := k; hkcc := hkcc r; hkcu := hkcu r; hkdd := hkdd r |}
  | HKEY_CURRENT_CONFIG =>
      {| hklm := hklm r; hku := hku r; hkcr := hkcr r; hkcc := k; hkcu := hkcu r; hkdd := hkdd r |}
  | HKEY_CURRENT_USER =>
      {| hklm := hklm r; hku := hku r; hkcr := hkcr r; hkcc := hkcc r; hkcu := k; hkdd := hkdd r |}
  | HKEY_DYN_DATA =>
      {| hklm := hklm r; hku := hku r; hkcr := hkcr r; hkcc := hkcc r; hkcu := hkcu r; hkdd := k |}
  end.

(** An open key handle names its key: the root class and the names of
    the keys below it. *)
Abbreviation HKEY := (root_class * list (list Z))%type (only parsing).

(** The components of a key path; the separator is the backslash and
    empty components are dropped. *)
Fixpoint split_path_aux (p cur : wstr) : list wstr :=
  match p with
  | [] => match cur with [] => [] | _ => [rev cur] end
  | c :: r =>
      if c =? BACKSLASH
      then match cur with
           | [] => split_path_aux r []
           | _ => rev cur :: split_path_aux r []
           end
      else split_path_aux r (c :: cur)
  end.

Definition split_path (p : wstr) : list wstr := split_path_aux p [].

Fixpoint assoc {A} (n : wstr) (l : list (wstr * A)) : option A :=
  match l with
  | [] => None
  | (m, a) :: r => if wstr_eqb m n then Some a else assoc n r
  end.

(** Replace the entry named [n] by [f] of it, or add [f d] at the end. *)
Fixpoint upsert {A} (n : wstr) (f : A -> A) (d : A) (l : list (wstr * A)) : list (wstr * A) :=
  match l with
  | [] => [(n, f d)]
  | (m, a) :: r => if wstr_eqb m n then (m, f a) :: r else (m, a) :: upsert n f d r
  end.

Fixpoint remove_assoc {A} (n : wstr) (l : list (wstr * A)) : list (wstr * A) :=
  match l with
  | [] => []
  | (m, a) :: r => if wstr_eqb m n then r else (m, a) :: remove_assoc n r
  end.

Fixpoint lookup_key (path : list wstr) (k : reg_key) : option reg_key :=
  match path with
  | [] => Some k
  | n :: rest =>
      match assoc n (key_subkeys k) with
      | Some sub => lookup_key rest sub
      | None => None
      end
  end.

(** The key at [path] below [k], created with the keys above it where
    missing. *)
Fixpoint create_path (path : list wstr) (k : reg_key) : reg_key :=
  match path with
  | [] => k
  | n :: rest =>
      Key (key_values k) (upsert n (create_path rest) empty_key (key_subkeys k))
  end.

(** Apply [f] to the key at [path], when it exists. *)
Fixpoint modify_key (path : list wstr) (f : reg_key -> reg_key) (k : reg_key) : reg_key :=
  match path with
  | [] => f k
  | n :: rest =>
      match assoc n (key_subkeys k) with
      | Some _ => Key (key_values k) (upsert n (modify_key rest f) empty_key (key_subkeys k))
      | None => k
      end
  end.

(** Remove the key at [path] with everything below it. *)
Fixpoint delete_tree (path : list wstr) (k : reg_key) : reg_key :=
  match path with
  | [] => k
  | [n] => Key (key_values k) (remove_assoc n (key_subkeys k))
  | n :: rest =>
      match assoc n (key_subkeys k) with
      | Some _ => Key (key_values k) (upsert n (delete_tree rest) empty_key (key_subkeys k))
      | None => k
      end
  end.

(** [RegCreateKeyExW(key_class, key_path, ..., &hkey, NULL)]; a NULL or
    empty path opens the root class itself. *)
Definition RegCreateKeyExW (r : registry) (c : root_class) (key_path : option wstr)
  : registry * option HKEY :=
  let path := match key_path with Some p => split_path p | None => [] end in
  (set_root r c (create_path path (get_root r c)), Some (c, path)).

(** [RegSetValueExW(hkey, value_name, 0, type, data, size)]; a NULL value
    name is the default value, whose name is empty.  Fails without
    effect on a NULL handle or a key that is gone. *)
Definition RegSetValueExW (r : registry) (h : option HKEY) (value_name : option wstr)
    (type : Z) (data : list BYTE) : registry :=
  match h with
  | None => r
  | Some (c, path) =>
      let n := match value_name with Some n => n | None => [] end in
      let v := {| val_type := type; val_data := data |} in
      set_root r c
        (modify_key path
           (fun k => Key (upsert n (fun _ => v) v (key_values k)) (key_subkeys k))
           (get_root r c))
  end.

(** [RegDeleteValueW(hkey, value_name)] *)
Definition RegDeleteValueW (r : registry) (h : option HKEY) (value_name : option wstr)
  : registry :=
  match h with
  | None => r
  | Some (c, path) =>
      let n := match value_name with Some n => n | None => [] end in
      set_root r c
        (modify_key path
           (fun k => Key (remove_assoc n (key_values k)) (key_subkeys k))
           (get_root r c))
  end.

(** [RegDeleteTreeW(key_class, key_name)] *)
Definition RegDeleteTreeW (r : registry) (c : root_class) (key_name : wstr) : registry :=
  set_root r c (delete_tree (split_path key_name) (get_root r c)).

(** The calls made to the registry API, for statements about what an
    import does to the store. *)
Inductive reg_call :=
  | CallCreateKey (c : root_class) (key_path : option wstr)
  | CallCloseKey (h : HKEY)
  | CallSetValue (h : option HKEY) (value_name : option wstr) (type : Z) (data : list BYTE)
  | CallDeleteValue (h : option HKEY) (value_name : option wstr)
  | CallDeleteTree (c : root_class) (key_name : wstr).

(** ** The active code page

    Modelled from the spec: [MultiByteToWideChar] and
    [WideCharToMultiByte] with [CP_ACP] belong to the system, not to the
    sources.  The code page is taken as a single-byte one: a table from
    bytes to characters and one back, which leave ASCII alone. *)
Class CodePage := {
  mb_to_wc : BYTE -> WCHAR;
  wc_to_mb : WCHAR -> BYTE;
  mb_to_wc_ascii : forall b, 0 <= b < 128 -> mb_to_wc b = b;
  mb_to_wc_high : forall b, ~ (0 <= b < 128) -> ~ (0 <= mb_to_wc b < 128);
  wc_to_mb_ascii : forall c, 0 <= c < 128 -> wc_to_mb c = c;
  wc_to_mb_byte : forall c, 0 <= wc_to_mb c < 256
}.

(** Latin-1: a byte is its own code point; a character outside the code
    page becomes a question mark. *)
#[export, refine] Instance latin1 : CodePage := {|
  mb_to_wc := fun b => b;
  wc_to_mb := fun c => if (0 <=? c) && (c <? 256) then c else 63
|}.
Proof.
  - reflexivity.
  - intros b H; exact H.
  - intros c H.
    destruct (0 <=? c) eqn:E1; destruct (c <? 256) eqn:E2; simpl; lia.
  - intros c.
    destruct (0 <=? c) eqn:E1; destruct (c <? 256) eqn:E2; simpl; lia.
Defined.

(** ** The parser *)

Inductive parser_state :=
  | HEADER | PARSE_WIN31_LINE | LINE_START | KEY_NAME | DELETE_KEY
  | DEFAULT_VALUE_NAME | QUOTED_VALUE_NAME | DATA_START | DELETE_VALUE
  | DATA_TYPE | STRING_DATA | DWORD_DATA | HEX_DATA | EOL_BACKSLASH
  | HEX_MULTILINE | UNKNOWN_DATA | SET_VALUE.

Inductive reg_versions :=
  | REG_VERSION_31 | REG_VERSION_40 | REG_VERSION_50
  | REG_VERSION_FUZZY | REG_VERSION_INVALID.

(** The line reader: the stream behind [FILE *fp] and the static
    variables of [get_lineA] and [get_lineW].  The units of the stream
    are the bytes of the file or, for a Unicode file, its wide
    characters: [fread] takes whole units, and a last odd byte is never
    read.  [size] is 0 as long as no buffer is allocated; [next] is the
    C string at the pointer [next], [None] for NULL. *)
Record reader := {
  stream : list Z;              (* the units of the file not yet read *)
  size : nat;                   (* [size], the units allocated at [buf] *)
  next : option (list Z)        (* the string at [next] *)
}.

Definition REG_VAL_BUF_SIZE : nat := 4096.

(** [struct parser], with the globals the state functions work on: the
    registry, the record of the calls made to it, whether [errno] is
    [ERANGE], and the memory behind the line that the position points
    into.  This memory is what [get_line] leaves there (nothing for
    [get_lineA], whose line is a copy of its own; the rest of the buffer
    string and its NUL for [get_lineW]) and what [data_start_state],
    which cuts the blanks off the end of the line, adds to it; the other
    state functions that cut the line are followed by a state that reads
    a new one. *)
Record parser := {
  file : reader;                (* the stream behind [FILE *file] and get_line's buffer *)
  two_wchars : WCHAR * WCHAR;   (* first two characters from the encoding check *)
  is_unicode : bool;
  reg_version : option reg_versions;  (* [None] is the initial -1 *)
  hkey : option HKEY;
  key_name : option wstr;
  value_name : option wstr;
  parse_type : Z;
  data_type : Z;
  data : list BYTE;             (* the [data_size] bytes at [data] *)
  data_cap : nat;               (* bytes allocated at [data] *)
  backslash : bool;
  state : parser_state;
  reg : registry;
  calls : list reg_call;        (* most recent call first *)
  errno_erange : bool;
  behind : list Z               (* memory: the cells behind the NUL that ends the
                                   line, as far as the line or the buffer string
                                   of the reader goes *)
}.

Definition set_file (p : parser) (x : reader) : parser :=
  {| file := x; two_wchars := two_wchars p; is_unicode := is_unicode p;
     reg_version := reg_version p; hkey := hkey p; key_name := key_name p;
     value_name := value_name p; parse_type := parse_type p; data_type := data_type p;
     data := data p; data_cap := data_cap p; backslash := backslash p; state := state p;
     reg := reg p; calls := calls p; errno_erange := errno_erange p;
     behind := behind p |}.

Definition set_reg_version (p : parser) (x : option reg_versions) : parser :=
  {| file := file p; two_wchars := two_wchars p; is_unicode := is_unicode p;
     reg_version := x; hkey := hkey p; key_name := key_name p;
     value_name := value_name p; parse_type := parse_type p; data_type := data_type p;
     data := data p; data_cap := data_cap p; backslash := backslash p; state := state p;
     reg := reg p; calls := calls p; errno_erange := errno_erange p;
     behind := behind p |}.

Definition set_key (p : parser) (h : option HKEY) (n : option wstr) : parser :=
  {| file := file p; two_wchars := two_wchars p; is_unicode := is_unicode p;
     reg_version := reg_version p; hkey := h; key_name := n;
     value_name := value_name p; parse_type := parse_type p; data_type := data_type p;
     data := data p; data_cap := data_cap p; backslash := backslash p; state := state p;
     reg := reg p; calls := calls p; errno_erange := errno_erange p;
     behind := behind p |}.

Definition set_value_name (p : parser) (x : option wstr) : parser :=
  {| file := file p; two_wchars := two_wchars p; is_unicode := is_unicode p;
     reg_version := reg_version p; hkey := hkey p; key_name := key_name p;
     value_name := x; parse_type := parse_type p; data_type := data_type p;
     data := data p; data_cap := data_cap p; backslash := backslash p; state := state p;
     reg := reg p; calls := calls p; errno_erange := errno_erange p;
     behind := behind p |}.

Definition set_types (p : parser) (pt dt : Z) : parser :=
  {| file := file p; two_wchars := two_wchars p; is_unicode := is_unicode p;
     reg_version := reg_version p; hkey := hkey p; key_name := key_name p;
     value_name := value_name p; parse_type := pt; data_type := dt;
     data := data p; data_cap := data_cap p; backslash := backslash p; state := state p;
     reg := reg p; calls := calls p; errno_erange := errno_erange p;
     behind := behind p |}.

Definition set_data (p : parser) (d : list BYTE) (cap : nat) : parser :=
  {| file := file p; two_wchars := two_wchars p; is_unicode := is_unicode p;
     reg_version := reg_version p; hkey := hkey p; key_name := key_name p;
     value_name := value_name p; parse_type := parse_type p; data_type := data_type p;
     data := d; data_cap := cap; backslash := backslash p; state := state p;
     reg := reg p; calls := calls p; errno_erange := errno_erange p;
     behind := behind p |}.

Definition set_backslash (p : parser) (x : bool) : parser :=
  {| file := file p; two_wchars := two_wchars p; is_unicode := is_unicode p;
     reg_version := reg_version p; hkey := hkey p; key_name := key_name p;
     value_name := value_name p; parse_type := parse_type p; data_type := data_type p;
     data := data p; data_cap := data_cap p; backslash := x; state := state p;
     reg := reg p; calls := calls p; errno_erange := errno_erange p;
     behind := behind p |}.

(** [set_state(parser, state)] *)
Definition set_state (p : parser) (x : parser_state) : parser :=
  {| file := file p; two_wchars := two_wchars p; is_unicode := is_unicode p;
     reg_version := reg_version p; hkey := hkey p; key_name := key_name p;
     value_name := value_name p; parse_type := parse_type p; data_type := data_type p;
     data := data p; data_cap := data_cap p; backslash := backslash p; state := x;
     reg := reg p; calls := calls p; errno_erange := errno_erange p;
     behind := behind p |}.

(** A call to the registry: its effect and its record. *)
Definition set_reg (p : parser) (r : registry) (c : reg_call) : parser :=
  {| file := file p; two_wchars := two_wchars p; is_unicode := is_unicode p;
     reg_version := reg_version p; hkey := hkey p; key_name := key_name p;
     value_name := value_name p; parse_type := parse_type p; data_type := data_type p;
     data := data p; data_cap := data_cap p; backslash := backslash p; state := state p;
     reg := r; calls := c :: calls p; errno_erange := errno_erange p;
     behind := behind p |}.

Definition set_errno (p : parser) (x : bool) : parser :=
  {| file := file p; two_wchars := two_wchars p; is_unicode := is_unicode p;
     reg_version := reg_version p; hkey := hkey p; key_name := key_name p;
     value_name := value_name p; parse_type := parse_type p; data_type := data_type p;
     data := data p; data_cap := data_cap p; backslash := backslash p; state := state p;
     reg := reg p; calls := calls p; errno_erange := x; behind := behind p |}.

Definition set_behind (p : parser) (x : list Z) : parser :=
  {| file := file p; two_wchars := two_wchars p; is_unicode := is_unicode p;
     reg_version := reg_version p; hkey := hkey p; key_name := key_name p;
     value_name := value_name p; parse_type := parse_type p; data_type := data_type p;
     data := data p; data_cap := data_cap p; backslash := backslash p; state := state p;
     reg := reg p; calls := calls p; errno_erange := errno_erange p; behind := x |}.

(** *** Numbers *)

(** The number of characters at the head of [s] that satisfy
    [isxdigitW]. *)
Fixpoint count_xdigits (s : wstr) : nat :=
  match s with
  | c :: r => if isxdigitW c then S (count_xdigits r) else O
  | [] => O
  end.

(** [convert_hex_to_dword(str, dw)]: [None] is FALSE, [Some dw] is TRUE
    with the value stored. *)
Definition convert_hex_to_dword (str : wstr) : option Z :=
  let str := skip_blanks str in
  match str with
  | [] => None
  | _ =>
      let count := count_xdigits str in
      if (8 <? Z.of_nat count) then None
      else if negb (at_eol_or_comment (skip_blanks (skipn count str))) then None
      else
        (* the string is cut after the digits, which alone are converted *)
        Some (ul_value (strtoul16 (firstn count str)))
  end.

(** The loop of [convert_hex_csv_to_hex] over the characters at [s];
    [fuel] bounds its iterations, each of which consumes a character.
    The result is the return value, the parser and the new [*str] when
    the function assigns it. *)
Fixpoint hex_csv_loop (fuel : nat) (p : parser) (s : wstr)
  : option (bool * parser * option wstr) :=
  match fuel with
  | O => None
  | S fuel' =>
      match s with
      | [] => Some (true, p, None)
      | _ :: _ =>
          let r := strtoul16 s in
          let p := if ul_erange r then set_errno p true else p in
          let v := ul_value r in
          let e := ul_end r in
          if 255 <? v then Some (false, p, None)
          else if (Nat.eqb (length e) (length s)) && (v =? 0) then
            (* [s == end]: nothing was converted *)
            let e := skip_blanks e in
            match e with
            | c :: e' =>
                if c =? BACKSLASH then Some (true, set_backslash p true, Some e')
                else if c =? SEMICOLON then Some (true, p, None)
                else Some (false, p, None)
            | [] => Some (false, p, None)
            end
          else
            let p := set_data p (data p ++ [v]) (data_cap p) in
            match e with
            | c :: e' =>
                if negb (c =? COMMA) then
                  Some (at_eol_or_comment (skip_blanks e), p, None)
                else hex_csv_loop fuel' p e'
            | [] => hex_csv_loop fuel' p []
            end
      end
  end.

(** [convert_hex_csv_to_hex(parser, &str)] *)
Definition convert_hex_csv_to_hex (p : parser) (str : wstr) : bool * parser * wstr :=
  let p := set_backslash p false in
  (* The worst case is 1 digit + 1 comma per byte *)
  let size := (Nat.div (length str + 1) 2 + length (data p))%nat in
  let p := set_data p (data p) size in
  match hex_csv_loop (S (length str)) p str with
  | Some (ret, p, Some str') => (ret, p, str')
  | Some (ret, p, None) => (ret, p, str)
  | None => (false, p, str)   (* not reached: see [hex_csv_loop_fuel] *)
  end.

(** [parse_data_type(parser, &line)] *)
Definition parse_data_type (p : parser) (line : wstr) : bool * parser * wstr :=
  if starts_with [DQUOTE] line then
    (true, set_types p REG_SZ REG_SZ, skipn 1 line)
  else if starts_with (W "hex:") line then
    (true, set_types p REG_BINARY REG_BINARY, skipn 4 line)
  else if starts_with (W "dword:") line then
    (true, set_types p REG_DWORD REG_DWORD, skipn 6 line)
  else if starts_with (W "hex(") line then
    let p := set_types p REG_BINARY REG_BINARY in
    let line := skipn 4 line in
    match line with
    | [] => (false, p, line)
    | _ :: rest =>
        if match rest with x :: _ => tolowerW x =? 120 | [] => false end
        then (false, p, line)
        else
          (* "hex(xx):" is special *)
          let r := strtoul16 line in
          let p := if ul_erange r then set_errno p true else p in
          let val := ul_value r in
          match ul_end r with
          | c1 :: c2 :: rest' =>
              if negb (c1 =? RPAREN) || negb (c2 =? COLON)
                 || ((val =? ULONG_MAX) && errno_erange p)
              then (false, p, line)
              else (true, set_types p REG_BINARY val, rest')
          | _ => (false, p, line)
          end
    end
  else (false, p, line).

(** *** Strings and key names *)

(** What [REGPROC_unescape_string] leaves behind. *)
Inductive unescaped :=
  | Closed (value unparsed : wstr)   (* TRUE: the closing quote was found *)
  | Unclosed (value : wstr)          (* FALSE: the string ended first *)
  | Overrun.                         (* a backslash ended the string: the result is
                                        whether the character behind the terminator
                                        is a quote, and [unparsed] points behind it *)

Definition unescape_char (e : WCHAR) : WCHAR :=
  if e =? 110 then LF          (* n *)
  else if e =? 114 then CR     (* r *)
  else if e =? 48 then NUL     (* 0 *)
  else e.                      (* backslash, quote, or anything else as it is *)

(** [REGPROC_unescape_string(str, &unparsed)]; the value is what the
    function writes over [str], which may hold NUL characters from the
    escape for it.  The loop runs over the [lstrlenW(str)] characters
    before the first NUL. *)
Fixpoint REGPROC_unescape_string (str : wstr) : unescaped :=
  match str with
  | [] => Unclosed []
  | c :: r =>
      if c =? NUL then Unclosed []
      else if c =? BACKSLASH then
        match r with
        | [] => Overrun
        | e :: r' =>
            if e =? NUL then Overrun
            else
              match REGPROC_unescape_string r' with
              | Closed v u => Closed (unescape_char e :: v) u
              | Unclosed v => Unclosed (unescape_char e :: v)
              | Overrun => Overrun
              end
        end
      else if c =? DQUOTE then Closed [] r
      else
        match REGPROC_unescape_string r with
        | Closed v u => Closed (c :: v) u
        | Unclosed v => Unclosed (c :: v)
        | Overrun => Overrun
        end
  end.

(** [strncmpiW(s, name, len) == 0] with [len] the length of [name]. *)
Fixpoint starts_with_nocase (name s : wstr) : bool :=
  match name, s with
  | [], _ => true
  | t :: name', c :: s' => (tolowerW t =? tolowerW c) && starts_with_nocase name' s'
  | _ :: _, [] => false
  end.

(** [strchrW(s, c)]: the suffix at the first [c]. *)
Fixpoint strchrW (s : wstr) (c : WCHAR) : option wstr :=
  match s with
  | [] => None
  | x :: r => if x =? c then Some s else strchrW r c
  end.

Fixpoint find_class (names : list wstr) (keys : list root_class) (key_name : wstr)
  : option root_class :=
  match names, keys with
  | n :: names', k :: keys' =>
      if starts_with_nocase n key_name
         && match skipn (length n) key_name with
            | [] => true
            | c :: _ => c =? BACKSLASH
            end
      then Some k
      else find_class names' keys' key_name
  | _, _ => None
  end.

(** [parse_key_name(key_name, &key_path)]: the root class, if any, and
    the path after the first backslash, NULL without one. *)
Definition parse_key_name (key_name : wstr) : option root_class * option wstr :=
  (find_class reg_class_namesW reg_class_keys key_name,
   match strchrW key_name BACKSLASH with
   | Some s => Some (tl s)
   | None => None
   end).

(** [close_key(parser)] *)
Definition close_key (p : parser) : parser :=
  match hkey p with
  | Some h => set_key (set_reg p (reg p) (CallCloseKey h)) None None
  | None => p
  end.

(** [open_key(parser, path)]; the result is whether it returned
    [ERROR_SUCCESS]. *)
Definition open_key (p : parser) (path : wstr) : bool * parser :=
  let p := close_key p in
  match parse_key_name path with
  | (None, _) => (false, p)
  | (Some key_class, key_path) =>
      let '(r, h) := RegCreateKeyExW (reg p) key_class key_path in
      let p := set_reg p r (CallCreateKey key_class key_path) in
      match h with
      | Some _ => (true, set_key p h (Some path))
      | None => (false, set_key p None (key_name p))
      end
  end.

(** [free_parser_data(parser)] *)
Definition free_parser_data (p : parser) : parser := set_data p [] 0.

(** [GetWideStringN(strA, chars, &len)] followed by the size in bytes:
    the buffer converted from the code page to wide characters. *)
Definition GetWideStringN `{CodePage} (strA : list BYTE) : list BYTE :=
  wide_bytes (map mb_to_wc strA).

(** [GetMultiByteStringN(strW, chars, &len)] on the first [size / 2]
    wide characters of a buffer. *)
Definition GetMultiByteStringN `{CodePage} (data : list BYTE) : list BYTE :=
  map wc_to_mb (wide_chars data).

(** [prepare_hex_string_data(parser)]; [None] when it reads before the
    buffer (no data) or writes behind it (no room for the zero). *)
Definition prepare_hex_string_data `{CodePage} (p : parser) : option parser :=
  if (data_type p =? REG_EXPAND_SZ) || (data_type p =? REG_MULTI_SZ) then
    match data p with
    | [] => None
    | _ :: _ =>
        let terminated :=
          if last (data p) 0 =? 0 then Some p
          else if (length (data p) <? data_cap p)%nat
               then Some (set_data p (data p ++ [0]) (data_cap p))
               else None in
        match terminated with
        | None => None
        | Some p =>
            if is_unicode p then Some p
            else let d := GetWideStringN (data p) in Some (set_data p d (length d))
        end
    end
  else Some p.

(** [parse_file_header(s)] *)
Definition parse_file_header (s : wstr) : reg_versions :=
  let s := skip_blanks s in
  if wstr_eqb s (W "REGEDIT") then REG_VERSION_31
  else if wstr_eqb s (W "REGEDIT4") then REG_VERSION_40
  else if wstr_eqb s (W "Windows Registry Editor Version 5.00") then REG_VERSION_50
  else if starts_with (W "REGEDIT") s then REG_VERSION_FUZZY
  else REG_VERSION_INVALID.

(** *** Lines *)

(** The text up to the first CR or LF and the text after that
    terminator, where CR LF is one terminator: [strpbrk] on the buffer
    string and the step over the terminator, which looks for the LF in
    this string only. *)
Fixpoint break_line (text : list Z) : option (list Z * list Z) :=
  match text with
  | [] => None
  | c :: r =>
      if c =? CR then
        Some ([], match r with
                  | d :: r' => if d =? LF then r' else r
                  | [] => r
                  end)
      else if c =? LF then Some ([], r)
      else match break_line r with
           | Some (l, rest) => Some (c :: l, rest)
           | None => None
           end
  end.

(** The loop [while (next)] of [get_lineA] and [get_lineW], with [buf]
    the string at [line], which is [next], and [st] the stream.  A line
    terminator in the string ends the line.  Without one the string is
    moved to the start of the buffer, the buffer is doubled when fewer
    than three units are free, and [fread] appends up to
    [size - len - 1] units; the string then ends at the first NUL among
    them.  When [fread] gives nothing, the string is the last line and
    [next] becomes NULL.  The result is the reader after the call, the
    line and the cells behind the NUL that ends it (none are known
    behind the last line).  [fuel] bounds the refills, each of which
    takes a unit from the stream.  The string is taken to be shorter
    than the buffer, as the loop keeps it. *)
Fixpoint read_line (fuel : nat) (sz : nat) (buf : list Z) (st : list Z) {struct fuel}
  : option (reader * list Z * list Z) :=
  match break_line buf with
  | Some (l, rest) =>
      Some ({| stream := st; size := sz; next := Some rest |}, l,
            skipn (S (length l)) buf ++ [NUL])
  | None =>
      let len := length buf in
      let sz' := if (sz - len <? 3)%nat then (2 * sz)%nat else sz in
      let count := Nat.min (sz' - len - 1) (length st) in
      match count with
      | O => Some ({| stream := st; size := sz'; next := None |}, buf, [])
      | S _ =>
          match fuel with
          | O => None
          | S fuel' =>
              read_line fuel' sz' (buf ++ cstr (firstn count st)) (skipn count st)
          end
      end
  end.

(** [get_line(parser->file)], which is [get_lineW] for a Unicode file
    and [get_lineA], with the conversion from the code page into a
    string of its own, otherwise.  With [next] NULL the buffer is
    released and the result is NULL. *)
Definition get_line `{CodePage} (p : parser) : parser * option wstr :=
  let f := file p in
  let '(sz, nxt) :=
    if (size f =? 0)%nat then (REG_VAL_BUF_SIZE, Some []) else (size f, next f) in
  match nxt with
  | None =>
      (set_behind (set_file p {| stream := stream f; size := 0%nat; next := None |}) [],
       None)
  | Some buf =>
      match read_line (length (stream f)) sz buf (stream f) with
      | Some (f', l, cells) =>
          if is_unicode p then (set_behind (set_file p f') cells, Some l)
          else (set_behind (set_file p f') [], Some (map mb_to_wc l))
      | None => (p, None)   (* not reached: see [read_line_fuel] *)
      end
  end.

(** [get_line(NULL)]: the static buffer is released. *)
Definition get_line_reset (p : parser) : parser :=
  set_behind
    (set_file p {| stream := stream (file p); size := 0%nat; next := next (file p) |}) [].

(** *** The state functions

    A state function returns the next position in the line, or NULL.
    Modelled from the spec: [error_exit] is declared in regproc.h, which
    is not part of the sources; as its callers rely on, it reports and
    ends the process. *)
Inductive step_result :=
  | Next (p : parser) (pos : wstr)   (* a position was returned *)
  | Stop (p : parser)                (* NULL was returned *)
  | Exit (p : parser)                (* [error_exit] ended the process *)
  | Fault                            (* undefined behaviour *)
  | Astray (p : parser).             (* the parser reads on behind the line, in the
                                        buffer of the reader, or reads a cell of the
                                        buffer that the model does not know: not
                                        followed *)

Section StateMachine.
Context `{CodePage}.

(** handler for parser HEADER state *)
Definition header_state (p : parser) (pos : wstr) : step_result :=
  match get_line p with
  | (p, None) => Stop p
  | (p, Some line) =>
      let v :=
        if negb (is_unicode p)
        then parse_file_header (cstr (fst (two_wchars p) :: snd (two_wchars p) :: line))
        else parse_file_header line in
      let p := set_reg_version p (Some v) in
      match v with
      | REG_VERSION_31 => Next (set_state p PARSE_WIN31_LINE) line
      | REG_VERSION_40 | REG_VERSION_50 => Next (set_state p LINE_START) line
      | _ => Stop (get_line_reset p)
      end
  end.

(** The characters before the first one that satisfies [isspaceW]. *)
Fixpoint key_end (line : wstr) : nat :=
  match line with
  | c :: r => if isspaceW c then O else S (key_end r)
  | [] => O
  end.

(** handler for parser PARSE_WIN31_LINE state *)
Definition parse_win31_line_state (p : parser) (pos : wstr) : step_result :=
  match get_line p with
  | (p, None) => Stop p
  | (p, Some line) =>
      if negb (starts_with (W "HKEY_CLASSES_ROOT") line) then Next p line
      else
        let n := key_end line in
        let at_end := skipn n line in
        let v1 := skip_blanks at_end in
        let v2 := match v1 with c :: r => if c =? EQUALS then r else v1 | [] => v1 end in
        let v3 := match v2 with c :: r => if c =? SPACE then r else v2 | [] => v2 end in
        (* the NUL written at the end of the key name also ends a value
           that starts at that very character *)
        let value := if Nat.eqb (length v3) (length at_end) then [] else v3 in
        let line := firstn n line in
        match open_key p line with
        | (false, p) => Next p line
        | (true, p) =>
            let p := set_value_name p None in
            let p := set_types p (parse_type p) REG_SZ in
            let d := wide_bytes (value ++ [NUL]) in
            let p := set_data p d (length d) in
            Next (set_state p SET_VALUE) value
        end
  end.

(** The scan of [line_start_state] over the line at [p]. *)
Fixpoint line_start_scan (p : parser) (l : wstr) : step_result :=
  match l with
  | [] => Next p []
  | c :: r =>
      if c =? LBRACKET then Next (set_state p KEY_NAME) r
      else if c =? ATSIGN then Next (set_state p DEFAULT_VALUE_NAME) l
      else if c =? DQUOTE then Next (set_state p QUOTED_VALUE_NAME) r
      else if is_blank c then line_start_scan p r
      else Next p l
  end.

(** handler for parser LINE_START state *)
Definition line_start_state (p : parser) (pos : wstr) : step_result :=
  match get_line p with
  | (p, None) => Stop p
  | (p, Some line) => line_start_scan p line
  end.

(** The string before the last [c] in it: [strrchrW(s, c)] and the NUL
    written there. *)
Fixpoint cut_at_last (s : wstr) (c : WCHAR) : option wstr :=
  match s with
  | [] => None
  | x :: r =>
      match cut_at_last r c with
      | Some k => Some (x :: k)
      | None => if x =? c then Some [] else None
      end
  end.

(** handler for parser KEY_NAME state *)
Definition key_name_state (p : parser) (pos : wstr) : step_result :=
  let blank := match pos with c :: _ => is_blank c | [] => false end in
  if blank then Next (set_state p LINE_START) pos
  else
    match cut_at_last pos RBRACKET with
    | None => Next (set_state p LINE_START) pos
    | Some name =>
        match name with
        | c :: r =>
            if c =? MINUS then Next (set_state p DELETE_KEY) r
            else Next (set_state (snd (open_key p name)) LINE_START) name
        | [] => Next (set_state (snd (open_key p name)) LINE_START) name
        end
    end.

(** [delete_registry_key(reg_key_name)] *)
Definition delete_registry_key (p : parser) (reg_key_name : wstr) : step_result :=
  match reg_key_name with
  | [] => Next p reg_key_name
  | _ :: _ =>
      match parse_key_name reg_key_name with
      | (None, _) => Exit p                       (* STRING_INVALID_SYSTEM_KEY *)
      | (Some key_class, None) => Fault           (* [*key_name] with a NULL [key_name] *)
      | (Some key_class, Some []) => Exit p       (* STRING_DELETE_FAILED *)
      | (Some key_class, Some key_name) =>
          Next (set_reg p (RegDeleteTreeW (reg p) key_class key_name)
                        (CallDeleteTree key_class key_name))
               reg_key_name
      end
  end.

(** handler for parser DELETE_KEY state *)
Definition delete_key_state (p : parser) (pos : wstr) : step_result :=
  let named := match pos with c :: _ => (c =? 72) || (c =? 104) | [] => false end in
  if named then
    match delete_registry_key p pos with
    | Next p _ => Next (set_state p LINE_START) pos
    | r => r
    end
  else Next (set_state p LINE_START) pos.

(** handler for parser DEFAULT_VALUE_NAME state *)
Definition default_value_name_state (p : parser) (pos : wstr) : step_result :=
  Next (set_state (set_value_name p None) DATA_START) (tl pos).

(** handler for parser QUOTED_VALUE_NAME state *)
Definition quoted_value_name_state (p : parser) (pos : wstr) : step_result :=
  let p := set_value_name p None in
  match REGPROC_unescape_string pos with
  | Overrun =>
      (* the text ends in a backslash: the character behind its NUL is
         compared with the quote.  Behind the copy that [get_lineA] makes
         there is no memory; behind the last line of [get_lineW] the
         buffer holds what the model does not know.  With a quote there,
         the result is TRUE and the position is in the buffer behind the
         line. *)
      match behind p with
      | [] => if is_unicode p then Astray p else Fault
      | x :: m =>
          if x =? DQUOTE then Astray p else Next (set_state p LINE_START) (cstr m)
      end
  | Unclosed _ => Next (set_state p LINE_START) []
  | Closed val_name rest =>
      Next (set_state (set_value_name p (Some (cstr val_name))) DATA_START) rest
  end.

(** The string without the blanks at its end. *)
Fixpoint trim_trailing (s : wstr) : wstr :=
  match s with
  | [] => []
  | c :: r =>
      match trim_trailing r with
      | [] => if is_blank c then [] else [c]
      | r' => c :: r'
      end
  end.

(** The cells behind the NUL that [data_start_state] writes at the end
    of [s] without its trailing blanks: the NUL takes the place of the
    first blank cut off, or of the NUL that was there; behind it are the
    other blanks, the old NUL and what was behind that. *)
Definition behind_trimmed (s : wstr) (cells : list Z) : list Z :=
  tl (skipn (length (trim_trailing s)) (s ++ NUL :: cells)).

(** handler for parser DATA_START state *)
Definition data_start_state (p : parser) (pos : wstr) : step_result :=
  let l := skip_blanks pos in
  match l with
  | c :: r =>
      if c =? EQUALS then
        let s := skip_blanks r in
        let l := trim_trailing s in
        let p := set_behind p (behind_trimmed s (behind p)) in
        match l with
        | d :: _ =>
            if d =? MINUS then Next (set_state p DELETE_VALUE) l
            else Next (set_state p DATA_TYPE) l
        | [] => Next (set_state p DATA_TYPE) l
        end
      else Next (set_state p LINE_START) l
  | [] => Next (set_state p LINE_START) l
  end.

(** handler for parser DELETE_VALUE state *)
Definition delete_value_state (p : parser) (pos : wstr) : step_result :=
  let l := skip_blanks (tl pos) in
  if at_eol_or_comment l then
    Next (set_state
            (set_reg p (RegDeleteValueW (reg p) (hkey p) (value_name p))
                     (CallDeleteValue (hkey p) (value_name p)))
            LINE_START) l
  else Next (set_state p LINE_START) l.

(** handler for parser DATA_TYPE state *)
Definition data_type_state (p : parser) (pos : wstr) : step_result :=
  match parse_data_type p pos with
  | (false, p, line) => Next (set_state p LINE_START) line
  | (true, p, line) =>
      if parse_type p =? REG_SZ then Next (set_state p STRING_DATA) line
      else if parse_type p =? REG_DWORD then Next (set_state p DWORD_DATA) line
      else if parse_type p =? REG_BINARY then Next (set_state p HEX_DATA) line
      else Next (set_state p UNKNOWN_DATA) line
  end.

(** handler for parser STRING_DATA state *)
Definition string_data_state (p : parser) (pos : wstr) : step_result :=
  match REGPROC_unescape_string pos with
  | Overrun =>
      match behind p with
      | [] => if is_unicode p then Astray p else Fault
      | x :: m =>
          if x =? DQUOTE then Astray p
          else Next (set_state (free_parser_data p) LINE_START) (cstr m)
      end
  | Unclosed _ => Next (set_state (free_parser_data p) LINE_START) []
  | Closed value rest =>
      let line := skip_blanks rest in
      if at_eol_or_comment line then
        let d := wide_bytes (cstr value ++ [NUL]) in
        Next (set_state (set_data p d (length d)) SET_VALUE) line
      else Next (set_state (free_parser_data p) LINE_START) line
  end.

(** handler for parser DWORD_DATA state *)
Definition dword_data_state (p : parser) (pos : wstr) : step_result :=
  match convert_hex_to_dword pos with
  | Some dw => Next (set_state (set_data p (dword_bytes dw) 4) SET_VALUE) pos
  | None => Next (set_state (free_parser_data p) LINE_START) pos
  end.

(** handler for parser HEX_DATA state *)
Definition hex_data_state (p : parser) (pos : wstr) : step_result :=
  match convert_hex_csv_to_hex p pos with
  | (false, p, line) => Next (set_state (free_parser_data p) LINE_START) line
  | (true, p, line) =>
      if backslash p then Next (set_state p EOL_BACKSLASH) line
      else
        match prepare_hex_string_data p with
        | Some p => Next (set_state p SET_VALUE) line
        | None => Fault
        end
  end.

(** handler for parser EOL_BACKSLASH state *)
Definition eol_backslash_state (p : parser) (pos : wstr) : step_result :=
  let l := skip_blanks pos in
  if at_eol_or_comment l then Next (set_state p HEX_MULTILINE) pos
  else Next (set_state (free_parser_data p) LINE_START) l.

(** handler for parser HEX_MULTILINE state *)
Definition hex_multiline_state (p : parser) (pos : wstr) : step_result :=
  match get_line p with
  | (p, None) =>
      match prepare_hex_string_data p with
      | Some p => Next (set_state p SET_VALUE) pos
      | None => Fault
      end
  | (p, Some line) =>
      let line := skip_blanks line in
      if at_eol_or_comment line then Next p line
      else if match line with c :: _ => isxdigitW c | [] => false end
      then Next (set_state p HEX_DATA) line
      else Next (set_state (free_parser_data p) LINE_START) line
  end.

(** handler for parser UNKNOWN_DATA state *)
Definition unknown_data_state (p : parser) (pos : wstr) : step_result :=
  Next (set_state p LINE_START) pos.

(** handler for parser SET_VALUE state *)
Definition set_value_state (p : parser) (pos : wstr) : step_result :=
  let p := set_reg p
             (RegSetValueExW (reg p) (hkey p) (value_name p) (data_type p) (data p))
             (CallSetValue (hkey p) (value_name p) (data_type p) (data p)) in
  let p := free_parser_data p in
  match reg_version p with
  | Some REG_VERSION_31 => Next (set_state p PARSE_WIN31_LINE) pos
  | _ => Next (set_state p LINE_START) pos
  end.

(** The table [parser_funcs]. *)
Definition parser_funcs (s : parser_state) : parser -> wstr -> step_result :=
  match s with
  | HEADER => header_state
  | PARSE_WIN31_LINE => parse_win31_line_state
  | LINE_START => line_start_state
  | KEY_NAME => key_name_state
  | DELETE_KEY => delete_key_state
  | DEFAULT_VALUE_NAME => default_value_name_state
  | QUOTED_VALUE_NAME => quoted_value_name_state
  | DATA_START => data_start_state
  | DELETE_VALUE => delete_value_state
  | DATA_TYPE => data_type_state
  | STRING_DATA => string_data_state
  | DWORD_DATA => dword_data_state
  | HEX_DATA => hex_data_state
  | EOL_BACKSLASH => eol_backslash_state
  | HEX_MULTILINE => hex_multiline_state
  | UNKNOWN_DATA => unknown_data_state
  | SET_VALUE => set_value_state
  end.

(** How a run of the parser ends. *)
Inductive outcome :=
  | Finished (p : parser)       (* the main loop ended *)
  | Exited (p : parser)         (* [error_exit] was called *)
  | Undefined                   (* undefined behaviour *)
  | Strayed (p : parser).       (* the parser left its line *)

(** The parser main loop, [while (pos) pos = (parser_funcs[parser.state])(&parser, pos);],
    for at most [fuel] calls. *)
Fixpoint parser_loop (fuel : nat) (p : parser) (pos : wstr) : option outcome :=
  match fuel with
  | O => None
  | S fuel' =>
      match parser_funcs (state p) p pos with
      | Next p' pos' => parser_loop fuel' p' pos'
      | Stop p' => Some (Finished p')
      | Exit p' => Some (Exited p')
      | Fault => Some Undefined
      | Astray p' => Some (Strayed p')
      end
  end.

(** What [import_registry_file] leaves behind. *)
Inductive import_result :=
  | Imported (ret : bool) (r : registry) (calls : list reg_call)
  | ImportExit (r : registry) (calls : list reg_call)
  | ImportUndefined
  | ImportAstray (r : registry) (calls : list reg_call).

(** [import_registry_file(reg_file)], on the bytes of the file, with the
    registry and [errno] as they are at the call.  The reader has no
    buffer, as at the start of the process and after every import that
    has returned: the main loop ends when [get_line] has returned NULL or
    was called with NULL, which releases the buffer. *)
Definition import_registry_file (fuel : nat) (reg_file : list BYTE)
    (r0 : registry) (erange0 : bool) : option import_result :=
  match reg_file with
  | s0 :: s1 :: rest =>
      let unicode := (s0 =? 255) && (s1 =? 254) in
      let parser :=
        {| file := {| stream := if unicode then wide_chars rest else rest;
                      size := 0%nat; next := None |};
           two_wchars := (s0, s1);
           is_unicode := unicode;
           reg_version := None;
           hkey := None; key_name := None; value_name := None;
           parse_type := 0; data_type := 0;
           data := []; data_cap := 0;
           backslash := false;
           state := HEADER;
           reg := r0; calls := []; errno_erange := erange0; behind := [] |} in
      match parser_loop fuel parser [s0; s1] with
      | None => None
      | Some (Finished p) =>
          match reg_version p with
          | Some REG_VERSION_FUZZY => Some (Imported true (reg p) (calls p))
          | Some REG_VERSION_INVALID => Some (Imported false (reg p) (calls p))
          | _ =>
              let p := close_key p in
              Some (Imported true (reg p) (calls p))
          end
      | Some (Exited p) => Some (ImportExit (reg p) (calls p))
      | Some Undefined => Some ImportUndefined
      | Some (Strayed p) => Some (ImportAstray (reg p) (calls p))
      end
  | _ => Some (Imported false r0 [])
  end.

End StateMachine.

(** ** The exporter

    The file written is the list of its bytes.  Where the exporter reads
    memory it never initialised the result is [None]. *)

Section Exporter.
Context `{CodePage}.

(** [GetMultiByteString(strW)]: a C string converted to the code page. *)
Definition GetMultiByteString (strW : wstr) : list BYTE := map wc_to_mb (cstr strW).

(** [REGPROC_write_line(file, str, unicode)] *)
Definition REGPROC_write_line (fp : list BYTE) (str : wstr) (unicode : bool) : list BYTE :=
  if unicode then fp ++ wide_bytes (cstr str)
  else fp ++ GetMultiByteString str.

(** One hexadecimal digit, as the [x] conversions of [sprintfW] print it. *)
Definition hex_char (d : Z) : WCHAR := if d <? 10 then 48 + d else 87 + d.

(** [sprintfW(buf, "%02x", b)] for a byte *)
Definition hex2 (b : BYTE) : wstr := [hex_char ((b / 16) mod 16); hex_char (b mod 16)].

(** [sprintfW(buf, "%x", n)]: the digits of a [DWORD], at most eight,
    without leading zeros. *)
Fixpoint hex_digits (fuel : nat) (n : Z) : wstr :=
  match fuel with
  | O => []
  | S fuel' =>
      if n <? 16 then [hex_char (n mod 16)]
      else hex_digits fuel' (n / 16) ++ [hex_char (n mod 16)]
  end.

Definition hex_of_dword (n : Z) : wstr := hex_digits 8 (n mod 2 ^ 32).

(** [sprintfW(buf, "%08x", n)] *)
Definition hex8 (n : Z) : wstr :=
  map (fun k => hex_char ((n / 16 ^ k) mod 16)) [7; 6; 5; 4; 3; 2; 1; 0].

(** The loop of [REGPROC_export_string]: the escapes of LF, CR,
    backslash and quote. *)
Fixpoint REGPROC_export_string (str : wstr) : wstr :=
  match str with
  | [] => []
  | c :: r =>
      (if c =? LF then [BACKSLASH; 110]
       else if c =? CR then [BACKSLASH; 114]
       else if (c =? BACKSLASH) || (c =? DQUOTE) then [BACKSLASH; c]
       else [c]) ++ REGPROC_export_string r
  end.

(** The prefix of hexadecimal data: [hex:] for binary data, the type in
    parentheses otherwise. *)
Definition hex_prefix (type : Z) : wstr :=
  if type =? REG_BINARY then W "hex:"
  else W "hex(" ++ hex_of_dword type ++ W "):".

Definition REG_FILE_HEX_LINE_LEN : Z := 2 + 25 * 3.

Definition concat_text : wstr := [BACKSLASH; CR; LF; SPACE; SPACE].

(** The loop of [REGPROC_export_binary] over the bytes from index [i]
    on: the text written at [data_pos]. *)
Fixpoint export_binary_loop (column : Z) (value : list BYTE) : wstr :=
  match value with
  | [] => []
  | [b] => hex2 b
  | b :: rest =>
      let column := column + 3 in
      hex2 b ++ [COMMA] ++
        (if REG_FILE_HEX_LINE_LEN <=? column
         then concat_text ++ export_binary_loop 2 rest
         else export_binary_loop column rest)
  end.

(** [REGPROC_export_binary(line_buf, size, &line_len, type, value, value_size, unicode)]:
    the text left in the line buffer from [line_len] on. *)
Definition REGPROC_export_binary (line_len : Z) (type : Z) (value : list BYTE)
    (unicode : bool) : wstr :=
  let value :=
    if negb (type =? REG_BINARY)
       && ((type =? REG_SZ) || (type =? REG_EXPAND_SZ) || (type =? REG_MULTI_SZ))
       && negb unicode
    then GetMultiByteStringN value else value in
  let data_pos := line_len + Z.of_nat (length (hex_prefix type)) in
  hex_prefix type ++ export_binary_loop data_pos value ++ CRLF.

(** [export_hkey(file, value_type, &val_buf, &val_size, ...)]: the line
    for a [REG_SZ] value. *)
Definition export_hkey (fp : list BYTE) (value_type : Z) (val_buf : list BYTE)
    (unicode : bool) : list BYTE :=
  let val_size1 := Z.of_nat (length val_buf) in
  let wstr := wide_chars val_buf in
  let line :=
    if (val_size1 <? 2) || negb (val_size1 mod 2 =? 0) || negb (last wstr 0 =? 0)
    then REGPROC_export_binary 0 value_type val_buf unicode
    else [DQUOTE] ++ REGPROC_export_string (cstr wstr) ++ [DQUOTE; CR; LF] in
  REGPROC_write_line fp line unicode.

(** [REGPROC_escape_string(str, str_len, &line_len)] *)
Fixpoint REGPROC_escape_string (str : wstr) : wstr :=
  match str with
  | [] => []
  | c :: r =>
      (if c =? CR then [BACKSLASH; 114]
       else if c =? LF then [BACKSLASH; 110]
       else if c =? BACKSLASH then [BACKSLASH; BACKSLASH]
       else if c =? DQUOTE then [BACKSLASH; DQUOTE]
       else if c =? NUL then [BACKSLASH; 48]
       else [c]) ++ REGPROC_escape_string r
  end.

(** [export_value_name(fp, name, len, unicode)]: the file and the length
    of what was written. *)
Definition export_value_name (fp : list BYTE) (name : wstr) (unicode : bool)
  : list BYTE * Z :=
  match cstr name with
  | _ :: _ =>
      let buf := [DQUOTE] ++ REGPROC_escape_string name ++ [DQUOTE; EQUALS] in
      (REGPROC_write_line fp buf unicode, Z.of_nat (length buf))
  | [] => (REGPROC_write_line fp (W "@=") unicode, 2)
  end.

(** [export_dword_data(&buf, data)]; the four bytes must be there. *)
Definition export_dword_data (data : list BYTE) : option wstr :=
  match data with
  | b0 :: b1 :: b2 :: b3 :: _ =>
      Some (W "dword:" ++ hex8 (b0 + 256 * b1 + 65536 * b2 + 16777216 * b3))
  | _ => None
  end.

(** [export_hex_data_type(fp, type, unicode)] *)
Definition export_hex_data_type (fp : list BYTE) (type : Z) (unicode : bool)
  : list BYTE * Z :=
  (REGPROC_write_line fp (hex_prefix type) unicode, Z.of_nat (length (hex_prefix type))).

Definition MAX_HEX_CHARS : Z := 77.

(** The loop of [export_hex_data]: the file, and the text in [*buf]
    when the loop is left. *)
Fixpoint export_hex_loop (fp : list BYTE) (buf : wstr) (line_len : Z)
    (data : list BYTE) (unicode : bool) : list BYTE * wstr :=
  match data with
  | [] => (fp, buf)
  | [b] => (fp, buf ++ hex2 b)
  | b :: rest =>
      let buf := buf ++ hex2 b ++ [COMMA] in
      let line_len := line_len + 3 in
      if MAX_HEX_CHARS <=? line_len then
        let fp := REGPROC_write_line fp buf unicode in
        let fp := REGPROC_write_line fp concat_text unicode in
        export_hex_loop fp [] 2 rest unicode
      else export_hex_loop fp buf line_len rest unicode
  end.

(** [export_hex_data(fp, &buf, type, line_len, data, size, unicode)];
    without data the buffer handed back was never written. *)
Definition export_hex_data (fp : list BYTE) (type : Z) (line_len : Z)
    (data : list BYTE) (unicode : bool) : option (list BYTE * wstr) :=
  let '(fp, n) := export_hex_data_type fp type unicode in
  let line_len := line_len + n in
  let data :=
    if negb unicode && ((type =? REG_EXPAND_SZ) || (type =? REG_MULTI_SZ))
    then GetMultiByteStringN data else data in
  match data with
  | [] => None
  | _ :: _ => Some (export_hex_loop fp [] line_len data unicode)
  end.

(** [export_data(fp, type, line_len, data, size, unicode)] *)
Definition export_data (fp : list BYTE) (type : Z) (line_len : Z)
    (data : list BYTE) (unicode : bool) : option (list BYTE) :=
  let written :=
    if type =? REG_DWORD then
      match export_dword_data data with
      | Some buf => Some (fp, buf)
      | None => None
      end
    else export_hex_data fp type line_len data unicode in
  match written with
  | Some (fp, buf) =>
      Some (REGPROC_write_line (REGPROC_write_line fp buf unicode) CRLF unicode)
  | None => None
  end.

(** [build_subkey_path(path, path_len, subkey_name, subkey_len)] *)
Definition build_subkey_path (path subkey_name : wstr) : wstr :=
  cstr path ++ [BACKSLASH] ++ cstr subkey_name.

(** [export_key_name(fp, name, unicode)] *)
Definition export_key_name (fp : list BYTE) (name : wstr) (unicode : bool) : list BYTE :=
  REGPROC_write_line fp (CRLF ++ [LBRACKET] ++ cstr name ++ [RBRACKET] ++ CRLF) unicode.

Definition MAX_SUBKEY_LEN : Z := 257.

(** The first loop of [export_registry_data], over the values that
    [RegEnumValueW] hands out. *)
Fixpoint export_values (fp : list BYTE) (vs : list (wstr * reg_value)) (unicode : bool)
  : option (list BYTE) :=
  match vs with
  | [] => Some fp
  | (value_name, v) :: rest =>
      let '(fp, line_len) := export_value_name fp value_name unicode in
      let out :=
        if negb (val_type v =? REG_SZ)
        then export_data fp (val_type v) line_len (val_data v) unicode
        else Some (export_hkey fp (val_type v) (val_data v) unicode) in
      match out with
      | Some fp => export_values fp rest unicode
      | None => None
      end
  end.

(** The second loop of [export_registry_data], over the subkeys in the
    order of [RegEnumKeyExW]; it ends at the first name its buffer cannot
    hold.  [export] is the call of [export_registry_data] on a subkey. *)
Definition export_subkeys (export : list BYTE -> reg_key -> wstr -> option (list BYTE))
    (path : wstr) : list BYTE -> list (wstr * reg_key) -> option (list BYTE) :=
  fix subkeys_loop (fp : list BYTE) (ks : list (wstr * reg_key)) : option (list BYTE) :=
    match ks with
    | [] => Some fp
    | (subkey_name, subkey) :: rest =>
        if MAX_SUBKEY_LEN <=? Z.of_nat (length subkey_name) then Some fp
        else
          match export fp subkey (build_subkey_path path subkey_name) with
          | Some fp => subkeys_loop fp rest
          | None => None
          end
    end.

(** [export_registry_data(fp, key, path, unicode)] *)
Fixpoint export_registry_data (fp : list BYTE) (key : reg_key) (path : wstr)
    (unicode : bool) : option (list BYTE) :=
  let fp := export_key_name fp path unicode in
  match export_values fp (key_values key) unicode with
  | None => None
  | Some fp =>
      export_subkeys (fun fp subkey path => export_registry_data fp subkey path unicode)
        path fp (key_subkeys key)
  end.

(** [REGPROC_open_export_file(file_name, unicode)]: the header. *)
Definition REGPROC_open_export_file (unicode : bool) : list BYTE :=
  if unicode
  then [255; 254] ++ wide_bytes (W "Windows Registry Editor Version 5.00" ++ CRLF)
  else W "REGEDIT4" ++ CRLF.

(** [export_key(file_name, path, unicode)]: the file written, if the key
    can be opened. *)
Definition export_key (r : registry) (path : wstr) (unicode : bool)
  : option (option (list BYTE)) :=
  match parse_key_name path with
  | (None, _) => Some None
  | (Some key_class, subkey) =>
      let names := match subkey with Some s => split_path s | None => [] end in
      match lookup_key names (get_root r key_class) with
      | None => Some None
      | Some key =>
          match export_registry_data (REGPROC_open_export_file unicode) key path unicode with
          | Some fp => Some (Some fp)
          | None => None
          end
      end
  end.

End Exporter.

Section ExportAll.
Context `{CodePage}.

(** [export_all(file_name, path, unicode)]: the two root classes that
    are stored, one after the other. *)
Definition export_all (r : registry) (unicode : bool) : option (option (list BYTE)) :=
  let fp := REGPROC_open_export_file unicode in
  match export_registry_data fp (get_root r HKEY_LOCAL_MACHINE)
          (nth 0 reg_class_namesW []) unicode with
  | None => None
  | Some fp =>
      match export_registry_data fp (get_root r HKEY_USERS)
              (nth 1 reg_class_namesW []) unicode with
      | None => None
      | Some fp => Some (Some fp)
      end
  end.

(** [export_registry_key(file_name, path, format)], with [unicode] for
    [format == REG_FORMAT_5]: the file written; [Some None] when the key
    cannot be opened and there is no file. *)
Definition export_registry_key (r : registry) (path : option wstr) (unicode : bool)
  : option (option (list BYTE)) :=
  match path with
  | Some (c :: l) => if c =? NUL then export_all r unicode else export_key r (c :: l) unicode
  | _ => export_all r unicode
  end.

End ExportAll.

(** ** Notions used by the statements *)

(** A run of blanks. *)
Definition blanks (ws : wstr) : Prop := Forall (fun c => is_blank c = true) ws.

(** Text without NUL, as a C string can hold it. *)
Definition nul_free (s : list Z) : Prop := Forall (fun c => c <> NUL) s.

(** Text that stays on one line: no CR, no LF, no NUL. *)
Definition one_line (s : list Z) : Prop :=
  Forall (fun c => c <> CR /\ c <> LF /\ c <> NUL) s.

(** A string in double quotes. *)
Definition quoted (s : wstr) : wstr := [DQUOTE] ++ s ++ [DQUOTE].

(** The parser as [import_registry_file] sets it up, over the text
    [text] still to be read. *)
Definition initial_parser (unicode : bool) (s0 s1 : BYTE) (text : list Z)
    (r0 : registry) (erange0 : bool) : parser :=
  {| file := {| stream := text; size := 0%nat; next := None |};
     two_wchars := (s0, s1); is_unicode := unicode;
     reg_version := None; hkey := None; key_name := None; value_name := None;
     parse_type := 0; data_type := 0; data := []; data_cap := 0;
     backslash := false; state := HEADER;
     reg := r0; calls := []; errno_erange := erange0; behind := [] |}.

(** A parser between two lines of a version 4 or 5 file, with [h] the
    current key, nothing in the buffer of the reader and [text] still in
    the stream. *)
Definition parser_between_lines (unicode : bool) (text : list Z) (h : option HKEY)
    (r : registry) : parser :=
  {| file := {| stream := text; size := REG_VAL_BUF_SIZE; next := Some [] |};
     two_wchars := (0, 0); is_unicode := unicode;
     reg_version := Some (if unicode then REG_VERSION_50 else REG_VERSION_40);
     hkey := h; key_name := None; value_name := None;
     parse_type := 0; data_type := 0; data := []; data_cap := 0;
     backslash := false; state := LINE_START;
     reg := r; calls := []; errno_erange := false; behind := [] |}.

(** The string in the buffer of the reader that is still to be handed
    out; before the first call there is no buffer. *)
Definition buffered (f : reader) : option (list Z) :=
  if (size f =? 0)%nat then Some [] else next f.

(** The reader is about to hand out the text [t], which holds no NUL:
    the string in its buffer, which has room for it, and the stream
    behind it are this text. *)
Definition reads (f : reader) (t : list Z) : Prop :=
  nul_free t
  /\ exists n, buffered f = Some n /\ n ++ stream f = t
       /\ (size f = 0%nat \/ (length n < size f)%nat).

(** The same, or the line before ended with a CR at the end of the
    buffer string and the LF after it is still in the stream: the
    reader then hands out an empty line before the text. *)
Definition reads_late (f : reader) (t : list Z) : Prop :=
  reads f t \/ (buffered f = Some [] /\ reads f (LF :: t)).

Section Steps.
Context `{CodePage}.

(** [n] turns of the parser main loop. *)
Fixpoint steps (n : nat) (p : parser) (pos : wstr) : step_result :=
  match n with
  | O => Next p pos
  | S n' =>
      match parser_funcs (state p) p pos with
      | Next p' pos' => steps n' p' pos'
      | r => r
      end
  end.

(** How text reaches the file: [REGPROC_write_line] on a string without
    NUL. *)
Definition encode (unicode : bool) (t : wstr) : list BYTE :=
  if unicode then wide_bytes t else map wc_to_mb t.

End Steps.

(** [l] is the first line of [text]: it holds no CR, LF or NUL, and the
    text ends after it or goes on with a CR or an LF. *)
Definition first_line (l text : list Z) : Prop :=
  one_line l
  /\ exists rest, text = l ++ rest
       /\ match rest with
          | [] => True
          | c :: _ => c = CR \/ c = LF
          end.

(** The characters of an input file: the wide characters after a byte
    order mark, the bytes of the file without one. *)
Definition input_text (reg_file : list BYTE) : list Z :=
  match reg_file with
  | s0 :: s1 :: rest => if (s0 =? 255) && (s1 =? 254) then wide_chars rest else reg_file
  | _ => reg_file
  end.

(** The header forms of C2, on the first line [l] of the input: after
    blanks it begins with REGEDIT and is neither REGEDIT nor REGEDIT4;
    it neither begins with REGEDIT nor is the version 5 header. *)
Definition fuzzy_header (l : wstr) : Prop :=
  starts_with (W "REGEDIT") (skip_blanks l) = true
  /\ skip_blanks l <> W "REGEDIT" /\ skip_blanks l <> W "REGEDIT4".

Definition invalid_header (l : wstr) : Prop :=
  starts_with (W "REGEDIT") (skip_blanks l) = false
  /\ skip_blanks l <> W "Windows Registry Editor Version 5.00".

(** Two characters that no comparison with an ASCII character tells
    apart. *)
Definition same_ascii (a b : Z) : Prop :=
  a = b \/ (~ 0 <= a < 128 /\ ~ 0 <= b < 128).

Definition ascii_text (k : wstr) : Prop := Forall (fun c => 0 <= c < 128) k.

(** The text of a value's name at the start of its line. *)
Definition value_name_text (name : wstr) : wstr :=
  match cstr name with
  | _ :: _ => quoted (REGPROC_escape_string name) ++ [EQUALS]
  | [] => W "@="
  end.

(** The test of [export_hkey]: the data is a whole number of wide
    characters, at least one, and the last one is NUL. *)
Definition sz_terminated (data : list BYTE) : bool :=
  negb ((Z.of_nat (length data) <? 2)
        || negb (Z.of_nat (length data) mod 2 =? 0)
        || negb (last (wide_chars data) 0 =? 0)).

Section Texts.
Context `{CodePage}.

(** The bytes that the hexadecimal form shows: for a file in the code
    page, expandable and multiple strings are converted to it first. *)
Definition hex_payload (type : Z) (data : list BYTE) (unicode : bool) : list BYTE :=
  if negb unicode && ((type =? REG_EXPAND_SZ) || (type =? REG_MULTI_SZ))
  then GetMultiByteStringN data else data.

(** The line that the first loop of [export_registry_data] writes for
    one value, as text; [None] where the exporter reads what was never
    written. *)
Definition value_text (name : wstr) (v : reg_value) (unicode : bool) : option wstr :=
  let n := value_name_text name in
  if val_type v =? REG_SZ then
    if sz_terminated (val_data v)
    then Some (n ++ quoted (REGPROC_export_string (cstr (wide_chars (val_data v)))) ++ CRLF)
    else Some (n ++ REGPROC_export_binary 0 REG_SZ (val_data v) unicode)
  else if val_type v =? REG_DWORD then
    match val_data v with
    | b0 :: b1 :: b2 :: b3 :: _ =>
        Some (n ++ W "dword:" ++ hex8 (b0 + 256 * b1 + 65536 * b2 + 16777216 * b3) ++ CRLF)
    | _ => None
    end
  else
    match hex_payload (val_type v) (val_data v) unicode with
    | [] => None
    | d =>
        Some (n ++ hex_prefix (val_type v)
                ++ export_binary_loop
                     (Z.of_nat (length n) + Z.of_nat (length (hex_prefix (val_type v)))) d
                ++ CRLF)
    end.

End Texts.

(** Text without a line terminator in it. *)
Definition no_eol (s : wstr) : Prop := Forall (fun c => c <> CR /\ c <> LF) s.

(** *** The round trip: what is exported, and what can come back *)

(** The name of a root class, as in [reg_class_namesW]. *)
Definition class_name (c : root_class) : wstr :=
  match c with
  | HKEY_LOCAL_MACHINE => W "HKEY_LOCAL_MACHINE"
  | HKEY_USERS => W "HKEY_USERS"
  | HKEY_CLASSES_ROOT => W "HKEY_CLASSES_ROOT"
  | HKEY_CURRENT_CONFIG => W "HKEY_CURRENT_CONFIG"
  | HKEY_CURRENT_USER => W "HKEY_CURRENT_USER"
  | HKEY_DYN_DATA => W "HKEY_DYN_DATA"
  end.

(** The full name of the key reached from the root class [c] through
    the keys [names]. *)
Definition key_path (c : root_class) (names : list wstr) : wstr :=
  class_name c ++ flat_map (fun n => BACKSLASH :: n) names.

(** The key [t] below a chain of keys that hold nothing else. *)
Fixpoint graft (names : list wstr) (t : reg_key) : reg_key :=
  match names with
  | [] => t
  | n :: rest => Key [] [(n, graft rest t)]
  end.

(** The registry that holds the key [t] at [names] below [c], and
    nothing else. *)
Definition registry_with (c : root_class) (names : list wstr) (t : reg_key) : registry :=
  set_root empty_registry c (graft names t).

Definition byte_range (b : Z) : Prop := 0 <= b < 256.

Section Exportable.
Context `{CodePage}.

(** A character that the file can carry: a 16-bit code unit, and for a
    file in the code page one that the code page can express. *)
Definition storable (u : bool) (c : WCHAR) : Prop :=
  0 <= c < 65536 /\ (u = false -> mb_to_wc (wc_to_mb c) = c).

Definition clean (u : bool) (t : wstr) : Prop :=
  Forall (fun c => c <> NUL /\ storable u c) t.

(** Value names are C strings. *)
Definition value_name_ok (u : bool) (n : wstr) : Prop := clean u n.

(** Key names are C strings of at most 256 characters, not empty,
    without backslash and, as they are written on one line, without
    line terminator. *)
Definition key_name_ok (u : bool) (n : wstr) : Prop :=
  n <> [] /\ (length n <= 256)%nat /\ clean u n
  /\ Forall (fun c => c <> BACKSLASH /\ c <> CR /\ c <> LF) n.

(** The values that come back as they are.
    - [REG_SZ]: the wide characters of a string without NUL and its
      terminator; in a Unicode file also data without the form of a
      terminated string, which goes through [hex(1):].
    - [REG_DWORD]: four bytes.
    - [REG_EXPAND_SZ], [REG_MULTI_SZ]: data that ends in a zero byte;
      for a file in the code page, wide characters that it can express,
      the last one NUL.
    - any other type: at least one byte. *)
Definition exportable_value (u : bool) (v : reg_value) : Prop :=
  0 <= val_type v < 2 ^ 32
  /\ if val_type v =? REG_SZ then
       (exists s, nul_free s /\ Forall (storable u) s /\ val_data v = wide_bytes (s ++ [NUL]))
       \/ (u = true /\ sz_terminated (val_data v) = false /\ Forall byte_range (val_data v))
     else if val_type v =? REG_DWORD then
       length (val_data v) = 4%nat /\ Forall byte_range (val_data v)
     else if (val_type v =? REG_EXPAND_SZ) || (val_type v =? REG_MULTI_SZ) then
       if u then
         val_data v <> [] /\ Forall byte_range (val_data v) /\ last (val_data v) 0 = 0
       else
         exists s, s <> [] /\ Forall (storable false) s /\ last s 0 = NUL
                   /\ val_data v = wide_bytes s
     else val_data v <> [] /\ Forall byte_range (val_data v).

Definition exportable_values (u : bool) (vs : list (wstr * reg_value)) : Prop :=
  NoDup (map fst vs)
  /\ Forall (fun nv => value_name_ok u (fst nv) /\ exportable_value u (snd nv)) vs.

(** Subkeys with names that can be written, each of them as [ok] asks. *)
Definition subkeys_ok (u : bool) (ok : reg_key -> Prop) : list (wstr * reg_key) -> Prop :=
  fix subkeys (ks : list (wstr * reg_key)) : Prop :=
    match ks with
    | [] => True
    | (n, sub) :: rest => key_name_ok u n /\ ok sub /\ subkeys rest
    end.

(** The keys that come back as they are: names that are different from
    each other, values as above, subkeys of the same kind. *)
Fixpoint exportable_key (u : bool) (k : reg_key) : Prop :=
  match k with
  | Key vs ks =>
      exportable_values u vs
      /\ NoDup (map fst ks)
      /\ subkeys_ok u (exportable_key u) ks
  end.

(** What stands in the reader for the text [t]. *)
Definition reader_text (u : bool) (t : wstr) : list Z :=
  if u then t else map wc_to_mb t.

(** The text written for a list of values. *)
Fixpoint values_text (vs : list (wstr * reg_value)) (u : bool) : option wstr :=
  match vs with
  | [] => Some []
  | (name, v) :: rest =>
      match value_text name v u, values_text rest u with
      | Some t, Some ts => Some (t ++ ts)
      | _, _ => None
      end
  end.

(** The text written for the subkeys of the key at [path], with [text]
    the text of one of them. *)
Definition subkeys_text (text : reg_key -> wstr -> option wstr) (path : wstr)
  : list (wstr * reg_key) -> option wstr :=
  fix subkeys (ks : list (wstr * reg_key)) : option wstr :=
    match ks with
    | [] => Some []
    | (subkey_name, subkey) :: rest =>
        if MAX_SUBKEY_LEN <=? Z.of_nat (length subkey_name) then Some []
        else
          match text subkey (build_subkey_path path subkey_name), subkeys rest with
          | Some t, Some ts => Some (t ++ ts)
          | _, _ => None
          end
    end.

(** The text written for a key and all below it. *)
Fixpoint key_text (key : reg_key) (path : wstr) (u : bool) : option wstr :=
  match values_text (key_values key) u with
  | None => None
  | Some tv =>
      match subkeys_text (fun subkey path => key_text subkey path u) path (key_subkeys key) with
      | None => None
      | Some ts => Some (CRLF ++ [LBRACKET] ++ cstr path ++ [RBRACKET] ++ CRLF ++ tv ++ ts)
      end
  end.

(** The parser reaches [p'] at [pos'] from [p] at [pos] in some turns of
    the main loop. *)
Definition run (p : parser) (pos : wstr) (p' : parser) (pos' : wstr) : Prop :=
  exists n, steps n p pos = Next p' pos'.

(** The parser in the state [st] of a version 4 or 5 file, with what
    the rest of the import depends on: the current key [h], the
    registry [r], the text [text] not yet read, held by the reader in
    the sense of [holds], the pending name, types and data. *)
Definition midline_with (holds : reader -> list Z -> Prop) (st : parser_state) (u : bool)
    (h : option HKEY) (r : registry) (text : wstr) (vn : option wstr) (pt dt : Z)
    (d : list BYTE) (p : parser) : Prop :=
  state p = st /\ is_unicode p = u
  /\ (reg_version p = Some REG_VERSION_40 \/ reg_version p = Some REG_VERSION_50)
  /\ hkey p = h /\ reg p = r /\ holds (file p) (reader_text u text)
  /\ value_name p = vn /\ parse_type p = pt /\ data_type p = dt /\ data p = d
  /\ errno_erange p = false.

(** The parser on a line that the reader has handed out. *)
Definition midline := midline_with reads_late.

(** The parser between two lines, the reader about to hand out the
    text. *)
Definition ready (u : bool) (h : option HKEY) (r : registry) (text : wstr) (p : parser) : Prop :=
  exists vn pt dt, midline_with reads LINE_START u h r text vn pt dt [] p.

End Exportable.

(** The pending name of a value: NULL for the default value. *)
Definition pending_name (name : wstr) : option wstr :=
  match name with
  | [] => None
  | _ :: _ => Some name
  end.

(** Text that can stand after the equals sign: one line that starts
    with neither a blank nor a minus sign and does not end in a blank. *)
Definition data_text (d : wstr) : Prop :=
  no_eol d /\ trim_trailing d = d
  /\ match d with
     | c :: _ => is_blank c = false /\ c <> MINUS
     | [] => False
     end.

(** Text of printable ASCII characters. *)
Definition printable (t : wstr) : Prop := Forall (fun c => 32 <= c < 127) t.

(** The data that [prepare_hex_string_data] leaves for the type [dt]. *)
Definition final_data `{CodePage} (u : bool) (dt : Z) (d : list BYTE) : list BYTE :=
  if ((dt =? REG_EXPAND_SZ) || (dt =? REG_MULTI_SZ)) && negb u then GetWideStringN d else d.

(** The tree [R] with the key [K] in the place of the one at [names]. *)
Definition focus (names : list wstr) (K R : reg_key) : reg_key :=
  modify_key names (fun _ => K) R.

(** What [RegSetValueExW] does to the key it is called on. *)
Definition set_value_in (n : wstr) (v : reg_value) (k : reg_key) : reg_key :=
  Key (upsert n (fun _ => v) v (key_values k)) (key_subkeys k).

(** The text of the key [k], read at any place [names] below the root
    class [c] where there is no key yet or an empty one, puts [k] there. *)
Definition key_comes_back `{CodePage} (u : bool) (c : root_class) (r0 : registry)
    (k : reg_key) : Prop :=
  forall (names : list wstr) (T X : wstr) (p : parser) (pos : wstr) (h : option HKEY)
         (R : reg_key),
    Forall (key_name_ok u) names -> exportable_key u k ->
    key_text k (key_path c names) u = Some T ->
    lookup_key names (create_path names R) = Some empty_key ->
    ready u h (set_root r0 c R) (T ++ X) p ->
    exists p' pos' h',
      run p pos p' pos'
      /\ ready u h' (set_root r0 c (focus names k (create_path names R))) X p'.

(** Bytes in hexadecimal, separated by commas. *)
Fixpoint hex_csv (bs : list BYTE) : wstr :=
  match bs with
  | [] => []
  | [b] => hex2 b
  | b :: r => hex2 b ++ COMMA :: hex_csv r
  end.

(** Bytes in hexadecimal, each followed by a comma. *)
Definition hex_commas (bs : list BYTE) : wstr := flat_map (fun b => hex2 b ++ [COMMA]) bs.

(** A byte list over one or more lines: the lines but the last end in a
    comma and a backslash, the lines but the first start with two spaces. *)
Inductive wrapped : list BYTE -> wstr -> Prop :=
  | wrapped_last (bs : list BYTE) :
      bs <> [] -> wrapped bs (hex_csv bs)
  | wrapped_more (bs rest : list BYTE) (t : wstr) :
      bs <> [] -> wrapped rest t ->
      wrapped (bs ++ rest) (hex_commas bs ++ concat_text ++ t).

(** Where a number ends: at the end of the string or at a character
    that is no digit and no x. *)
Definition number_end (tail : wstr) : Prop :=
  match tail with
  | [] => True
  | c :: _ => hex_digit_value c = None /\ c <> 120 /\ c <> 88
  end.

Definition digit (d : Z) : Prop := 0 <= d < 16.

(** The value of a list of hexadecimal digits. *)
Definition digits_value (ds : list Z) : Z := fold_left (fun a d => 16 * a + d) ds 0.

(** The digits that [hex_digits] prints. *)
Fixpoint hex_vals (fuel : nat) (n : Z) : list Z :=
  match fuel with
  | O => []
  | S fuel' => if n <? 16 then [n mod 16] else hex_vals fuel' (n / 16) ++ [n mod 16]
  end.

(** Enough turns of the main loop give the result [r]. *)
Definition imports `{CodePage} (reg_file : list BYTE) (r0 : registry) (erange0 : bool)
    (r : import_result) : Prop :=
  exists n, forall fuel, (n <= fuel)%nat ->
    import_registry_file fuel reg_file r0 erange0 = Some r.

(** The physical lines of a text: the pieces between line terminators,
    CR LF, CR or LF. *)
Fixpoint lines_of (t : wstr) : list wstr :=
  match t with
  | [] => [[]]
  | c :: r =>
      if c =? CR then
        [] :: match r with
              | d :: r' => if d =? LF then lines_of r' else lines_of r
              | [] => lines_of r
              end
      else if c =? LF then [] :: lines_of r
      else match lines_of r with
           | l :: ls => (c :: l) :: ls
           | [] => [[c]]
           end
  end.

(** A continuation line without its indent of two spaces. *)
Definition strip_indent (l : wstr) : wstr :=
  match l with
  | a :: b :: r => if (a =? SPACE) && (b =? SPACE) then r else l
  | _ => l
  end.

(** The width of a line without its indent, which is what C8 bounds. *)
Definition width (l : wstr) : Z := Z.of_nat (length (strip_indent l)).

(** *** The main loop comes to an end

    What bounds the turns of the main loop: the text still in the reader
    and, on one line, the states still ahead. *)

(** The states from which [hex_multiline_state] is reached on the same
    line. *)
Definition hex_phase (s : parser_state) : bool :=
  match s with
  | DEFAULT_VALUE_NAME | QUOTED_VALUE_NAME | DATA_START | DATA_TYPE
  | HEX_DATA | EOL_BACKSLASH | HEX_MULTILINE => true
  | _ => false
  end.

(** The states in the order in which a line goes through them. *)
Definition state_rank (s : parser_state) : nat :=
  match s with
  | DEFAULT_VALUE_NAME | QUOTED_VALUE_NAME => 6
  | DATA_START | KEY_NAME => 5
  | DATA_TYPE | DELETE_KEY | DELETE_VALUE | STRING_DATA | DWORD_DATA | UNKNOWN_DATA => 4
  | HEX_DATA | SET_VALUE => 3
  | EOL_BACKSLASH | PARSE_WIN31_LINE => 2
  | HEX_MULTILINE | LINE_START => 1
  | HEADER => 0
  end.

(** The weight of the reader: the units not yet handed out, in the
    buffer and in the stream; at the end of the file
    [hex_multiline_state] starts the reader once more. *)
Definition file_weight (f : reader) (hex : bool) : nat :=
  match buffered f with
  | Some n => 3 * (length n + length (stream f)) + (if hex then 4 else 2)
  | None => 3 * length (stream f) + (if hex then 3 else 1)
  end.

Definition loop_measure (p : parser) : nat :=
  16 * file_weight (file p) (hex_phase (state p)) + state_rank (state p).

(** The reader, the encoding, the cells behind the line and the state
    are those of [p]. *)
Definition same_reader (p p' : parser) : Prop :=
  file p' = file p /\ state p' = state p
  /\ is_unicode p' = is_unicode p /\ behind p' = behind p.

(** What holds of the parser of a file in the code page: the line is in
    a string of its own, and behind its end are only the blanks that
    [data_start_state] has cut off. *)
Definition narrow_line (p : parser) : Prop :=
  is_unicode p = false /\ Forall (fun c => c <> DQUOTE) (behind p).

(** *** Data between two values *)

(** The states in which the data of a value is pending. *)
Definition holds_data (s : parser_state) : bool :=
  match s with
  | SET_VALUE | HEX_DATA | EOL_BACKSLASH | HEX_MULTILINE => true
  | _ => false
  end.

(** Outside these states the data of the parser was released. *)
Definition data_released (p : parser) : Prop :=
  holds_data (state p) = false -> data p = [].

(** *** Files without a minus sign *)

(** The calls that delete nothing. *)
Definition harmless (c : reg_call) : bool :=
  match c with
  | CallDeleteValue _ _ | CallDeleteTree _ _ => false
  | _ => true
  end.

Definition no_minus (s : list Z) : Prop := Forall (fun c => c <> MINUS) s.

(** [p'] has the reader, the encoding, the cells behind the line and
    the state of [p], and has deleted nothing if [p] has not. *)
Definition keeps (p p' : parser) : Prop :=
  file p' = file p /\ is_unicode p' = is_unicode p /\ state p' = state p
  /\ behind p' = behind p
  /\ (forallb harmless (calls p) = true -> forallb harmless (calls p') = true).

(** The characters that the reader can still hand out: those of its
    buffer string and of the stream. *)
Definition pending_text `{CodePage} (p : parser) : list Z :=
  let t := match buffered (file p) with Some n => n | None => [] end ++ stream (file p) in
  if is_unicode p then t else map mb_to_wc t.

(** No minus sign is in sight, and nothing was deleted so far. *)
Definition minus_free `{CodePage} (p : parser) (pos : wstr) : Prop :=
  no_minus pos /\ no_minus (pending_text p) /\ no_minus (behind p)
  /\ state p <> DELETE_KEY /\ state p <> DELETE_VALUE
  /\ forallb harmless (calls p) = true.

(** * Verification *)

(** ** Basic facts *)

Ltac norm_parser :=
  cbv [set_file set_reg_version set_key set_value_name set_types set_data set_backslash
       set_state set_reg set_errno set_behind free_parser_data get_line_reset
       file two_wchars is_unicode reg_version hkey key_name value_name parse_type
       data_type data data_cap backslash state reg calls errno_erange behind].

Ltac destruct_parser p :=
  destruct p as [pfile ptwo puni pver phkey pkname pvname pptype pdtype pdata pcap pbs pstate preg pcalls perr pbehind].

Lemma skip_blanks_app (ws rest : wstr) :
  blanks ws -> skip_blanks (ws ++ rest) = skip_blanks rest.
Proof.
  induction 1 as [|c ws Hc _ IH]; simpl; [reflexivity|].
  now rewrite Hc.
Qed.

Lemma blank_is_space (c : WCHAR) : is_blank c = true -> isspaceW c = true.
Proof.
  unfold is_blank, isspaceW.
  destruct (c =? 32) eqn:E1; destruct (c =? 9) eqn:E2; simpl; try discriminate;
    intros _; rewrite ?orb_true_r; try reflexivity.
  apply Z.eqb_eq in E2; subst c; reflexivity.
Qed.

Lemma skip_space_app (ws rest : wstr) :
  blanks ws -> skip_space (ws ++ rest) = skip_space rest.
Proof.
  induction 1 as [|c ws Hc _ IH]; simpl; [reflexivity|].
  now rewrite (blank_is_space c Hc).
Qed.

Lemma cstr_nul_free (s : wstr) : nul_free s -> cstr s = s.
Proof.
  induction 1 as [|c s Hc _ IH]; simpl; [reflexivity|].
  apply Z.eqb_neq in Hc; rewrite Hc, IH; reflexivity.
Qed.

(** ** The line reader *)

Lemma nul_free_app (a b : list Z) : nul_free a -> nul_free b -> nul_free (a ++ b).
Proof. intros Ha Hb. apply Forall_app. now split. Qed.

Lemma no_eol_app (a b : wstr) : no_eol a -> no_eol b -> no_eol (a ++ b).
Proof. intros Ha Hb. apply Forall_app. now split. Qed.

Lemma length_cstr (s : wstr) : (length (cstr s) <= length s)%nat.
Proof.
  induction s as [|c s IH]; [apply Nat.le_refl|].
  cbn [cstr]. destruct (c =? NUL); cbn [length]; lia.
Qed.

Lemma REG_VAL_BUF_SIZE_pos : (0 < REG_VAL_BUF_SIZE)%nat.
Proof. apply Nat.ltb_lt. reflexivity. Qed.

(** What [break_line] finds: the line holds no CR and no LF, and the
    string is the line, one terminator and the rest; the terminator is
    CR LF, a CR that no LF follows in the string, or LF. *)
Lemma break_line_cases (text : list Z) :
  match break_line text with
  | Some (l, rest) =>
      no_eol l
      /\ (text = l ++ CR :: LF :: rest
          \/ (text = l ++ CR :: rest /\ match rest with c :: _ => c <> LF | [] => True end)
          \/ text = l ++ LF :: rest)
  | None => no_eol text
  end.
Proof.
  induction text as [|c r IH]; [constructor|].
  cbn [break_line].
  destruct (c =? CR) eqn:Ecr.
  { apply Z.eqb_eq in Ecr. subst c. split; [constructor|].
    destruct r as [|d r']; [right; left; now split|].
    destruct (d =? LF) eqn:Elf.
    - apply Z.eqb_eq in Elf. subst d. now left.
    - apply Z.eqb_neq in Elf. right. left. now split. }
  destruct (c =? LF) eqn:Elf.
  { apply Z.eqb_eq in Elf. subst c. split; [constructor|]. now right; right. }
  apply Z.eqb_neq in Ecr, Elf.
  destruct (break_line r) as [[l rest]|].
  - destruct IH as [Hl Hcases]. split; [constructor; [split; assumption|exact Hl]|].
    destruct Hcases as [-> | [[-> Hrest] | ->]];
      [now left|right; left; now split|now right; right].
  - constructor; [split; assumption|exact IH].
Qed.

(** One turn of the loop of [get_line]. *)
Lemma read_line_eq (fuel sz : nat) (buf st : list Z) :
  read_line fuel sz buf st
  = match break_line buf with
    | Some (l, rest) =>
        Some ({| stream := st; size := sz; next := Some rest |}, l,
              skipn (S (length l)) buf ++ [NUL])
    | None =>
        let len := length buf in
        let sz' := if (sz - len <? 3)%nat then (2 * sz)%nat else sz in
        let count := Nat.min (sz' - len - 1) (length st) in
        match count with
        | O => Some ({| stream := st; size := sz'; next := None |}, buf, [])
        | S _ =>
            match fuel with
            | O => None
            | S fuel' =>
                read_line fuel' sz' (buf ++ cstr (firstn count st)) (skipn count st)
            end
        end
    end.
Proof. destruct fuel; reflexivity. Qed.

(** The room that a refill finds in the buffer. *)
Lemma refill_room (sz len : nat) :
  (len < sz)%nat ->
  let sz' := if (sz - len <? 3)%nat then (2 * sz)%nat else sz in
  (sz <= sz')%nat /\ (1 <= sz' - len - 1)%nat.
Proof.
  intros Hlen. cbv zeta.
  destruct (sz - len <? 3)%nat eqn:E.
  - split; lia.
  - apply Nat.ltb_ge in E. split; lia.
Qed.

(** The loop of [get_line] comes to an end: a refill takes at least one
    unit from the stream. *)
Lemma read_line_fuel (fuel : nat) :
  forall sz buf st,
    (length st <= fuel)%nat -> read_line fuel sz buf st <> None.
Proof.
  induction fuel as [|fuel IH]; intros sz buf st Hfuel; rewrite read_line_eq;
    destruct (break_line buf) as [[l rest]|]; try discriminate; cbv zeta;
    set (sz' := if (sz - length buf <? 3)%nat then (2 * sz)%nat else sz);
    destruct (Nat.min (sz' - length buf - 1) (length st)) as [|k] eqn:Ecount;
    try discriminate.
  - lia.
  - apply IH. rewrite length_skipn. lia.
Qed.

(** What the reader hands out of a text without NUL: the text up to its
    first line terminator, or all of it when it holds none; the text
    after the terminator is then what the reader goes on with.  After CR
    LF the LF may still be in the stream, when the CR was the last unit
    that [fread] gave. *)
Lemma read_line_text (fuel : nat) :
  forall sz buf st,
    nul_free (buf ++ st) -> (length st <= fuel)%nat -> (length buf < sz)%nat ->
    exists f' l cells,
      read_line fuel sz buf st = Some (f', l, cells)
      /\ no_eol l /\ (0 < size f')%nat
      /\ ((buf ++ st = l /\ next f' = None /\ stream f' = [])
          \/ exists n', next f' = Some n' /\ (length n' < size f')%nat
               /\ ((exists rest, buf ++ st = l ++ CR :: LF :: rest
                      /\ (n' ++ stream f' = rest \/ (n' = [] /\ stream f' = LF :: rest)))
                   \/ (exists rest, buf ++ st = l ++ CR :: rest
                         /\ match rest with c :: _ => c <> LF | [] => True end
                         /\ n' ++ stream f' = rest)
                   \/ (exists rest, buf ++ st = l ++ LF :: rest /\ n' ++ stream f' = rest))).
Proof.
  assert (Hfound : forall fuel sz buf st l r,
             break_line buf = Some (l, r) -> (length buf < sz)%nat ->
             exists f' l' cells,
               read_line fuel sz buf st = Some (f', l', cells)
               /\ no_eol l' /\ (0 < size f')%nat
               /\ ((buf ++ st = l' /\ next f' = None /\ stream f' = [])
                   \/ exists n', next f' = Some n' /\ (length n' < size f')%nat
                        /\ ((exists rest, buf ++ st = l' ++ CR :: LF :: rest
                               /\ (n' ++ stream f' = rest
                                   \/ (n' = [] /\ stream f' = LF :: rest)))
                            \/ (exists rest, buf ++ st = l' ++ CR :: rest
                                  /\ match rest with c :: _ => c <> LF | [] => True end
                                  /\ n' ++ stream f' = rest)
                            \/ (exists rest, buf ++ st = l' ++ LF :: rest
                                  /\ n' ++ stream f' = rest)))).
  { intros fuel0 sz buf st l r Hbreak Hsz. rewrite read_line_eq, Hbreak.
    pose proof (break_line_cases buf) as Hcases. rewrite Hbreak in Hcases.
    destruct Hcases as [Hl Hcases].
    eexists _, l, _. split; [reflexivity|]. split; [exact Hl|].
    cbn [size next stream]. split; [lia|]. right. exists r.
    destruct Hcases as [Hb | [[Hb Hr] | Hb]]; subst buf;
      rewrite length_app in Hsz; cbn [length] in Hsz.
    - split; [reflexivity|]. split; [lia|]. left. exists (r ++ st).
      rewrite <- app_assoc. split; [reflexivity|now left].
    - split; [reflexivity|]. split; [lia|].
      destruct r as [|c r'].
      + destruct st as [|d st'].
        * right; left. exists []. rewrite <- app_assoc. now repeat split.
        * destruct (Z.eq_dec d LF) as [->|Hd].
          -- left. exists st'. rewrite <- app_assoc. split; [reflexivity|]. right. now split.
          -- right; left. exists (d :: st'). rewrite <- app_assoc. now repeat split.
      + right; left. exists ((c :: r') ++ st). rewrite <- app_assoc. now repeat split.
    - split; [reflexivity|]. split; [lia|]. right; right. exists (r ++ st).
      rewrite <- app_assoc. now split. }
  induction fuel as [|fuel IH]; intros sz buf st Hnul Hfuel Hsz.
  - destruct (break_line buf) as [[l r]|] eqn:Hbreak; [now apply (Hfound _ _ _ _ l r)|].
    rewrite read_line_eq, Hbreak. cbv zeta.
    pose proof (break_line_cases buf) as Hcases. rewrite Hbreak in Hcases.
    assert (Hst : st = []) by (destruct st; [reflexivity|cbn in Hfuel; lia]).
    subst st. cbn [length]. rewrite Nat.min_0_r.
    eexists _, buf, _. split; [reflexivity|]. split; [exact Hcases|].
    cbn [size next stream]. destruct (refill_room sz (length buf) Hsz) as [Hle _].
    split; [lia|]. left. rewrite app_nil_r. now repeat split.
  - destruct (break_line buf) as [[l r]|] eqn:Hbreak; [now apply (Hfound _ _ _ _ l r)|].
    rewrite read_line_eq, Hbreak. cbv zeta.
    pose proof (break_line_cases buf) as Hcases. rewrite Hbreak in Hcases.
    destruct (refill_room sz (length buf) Hsz) as [Hle Hroom]. cbv zeta in Hle, Hroom.
    set (sz' := if (sz - length buf <? 3)%nat then (2 * sz)%nat else sz) in *.
    destruct (Nat.min (sz' - length buf - 1) (length st)) as [|k] eqn:Ecount.
    + assert (Hst : st = []) by (destruct st; [reflexivity|cbn [length] in Ecount; lia]).
      subst st. eexists _, buf, _. split; [reflexivity|]. split; [exact Hcases|].
      cbn [size next stream]. split; [lia|]. left. rewrite app_nil_r. now repeat split.
    + assert (Hchunk : nul_free (firstn (S k) st)).
      { apply Forall_app in Hnul as [_ Hst]. rewrite <- (firstn_skipn (S k) st) in Hst.
        now apply Forall_app in Hst. }
      rewrite (cstr_nul_free _ Hchunk).
      assert (Heq : (buf ++ firstn (S k) st) ++ skipn (S k) st = buf ++ st)
        by (rewrite <- app_assoc, firstn_skipn; reflexivity).
      destruct (IH sz' (buf ++ firstn (S k) st) (skipn (S k) st))
        as (f' & l & cells & Hread & Hl & Hsize & Hres).
      * rewrite Heq. exact Hnul.
      * rewrite length_skipn. lia.
      * rewrite length_app, length_firstn. lia.
      * rewrite Heq in Hres. exists f', l, cells. now repeat split.
Qed.

(** The first line terminator of a text is where it is. *)
Lemma eol_split_unique (l1 l2 x1 x2 : list Z) (c1 c2 : Z) :
  no_eol l1 -> no_eol l2 -> c1 = CR \/ c1 = LF -> c2 = CR \/ c2 = LF ->
  l1 ++ c1 :: x1 = l2 ++ c2 :: x2 -> l1 = l2 /\ c1 = c2 /\ x1 = x2.
Proof.
  intros H1. revert l2. induction H1 as [|a l1 (Ha1 & Ha2) _ IH]; intros l2 H2 Hc1 Hc2 Heq.
  - destruct l2 as [|b l2]; [now injection Heq as -> ->|].
    cbn [app] in Heq. injection Heq as -> _.
    inversion H2 as [|? ? (Hb1 & Hb2) _]; subst. destruct Hc1; contradiction.
  - destruct l2 as [|b l2].
    + cbn [app] in Heq. injection Heq as -> _. destruct Hc2; contradiction.
    + cbn [app] in Heq. injection Heq as -> Heq.
      inversion H2 as [|? ? _ H2']; subst.
      destruct (IH l2 H2' Hc1 Hc2 Heq) as (-> & -> & ->). now repeat split.
Qed.

Lemma no_eol_not_split (l x : list Z) (c : Z) :
  no_eol (l ++ c :: x) -> c = CR \/ c = LF -> False.
Proof.
  intros H Hc. apply Forall_app in H as [_ H].
  inversion H as [|? ? (H1 & H2) _]; subst. destruct Hc; contradiction.
Qed.

Section ReaderCalls.
Context `{CodePage}.

(** A call of [get_line] on a reader that holds the text [t]: the line
    is the text before the first line terminator, or all of it, and the
    reader holds the text after the terminator. *)
Lemma get_line_cases (p : parser) (t : list Z) :
  reads (file p) t ->
  exists f' l cells,
    get_line p
    = (set_behind (set_file p f') (if is_unicode p then cells else []),
       Some (if is_unicode p then l else map mb_to_wc l))
    /\ no_eol l
    /\ ((t = l /\ next f' = None /\ stream f' = [] /\ size f' <> 0%nat)
        \/ (exists rest, t = l ++ CR :: LF :: rest /\ reads_late f' rest)
        \/ (exists rest, t = l ++ CR :: rest
              /\ match rest with c :: _ => c <> LF | [] => True end
              /\ reads f' rest)
        \/ (exists rest, t = l ++ LF :: rest /\ reads f' rest)).
Proof.
  intros (Hnul & n & Hbuf & Htext & Hroom). unfold get_line.
  assert (Hpair : exists sz,
             (if (size (file p) =? 0)%nat then (REG_VAL_BUF_SIZE, Some [])
              else (size (file p), next (file p))) = (sz, Some n)
             /\ (length n < sz)%nat).
  { unfold buffered in Hbuf. destruct (size (file p) =? 0)%nat eqn:E.
    - injection Hbuf as <-. exists REG_VAL_BUF_SIZE. split; [reflexivity|].
      apply REG_VAL_BUF_SIZE_pos.
    - apply Nat.eqb_neq in E. exists (size (file p)). rewrite Hbuf.
      split; [reflexivity|]. destruct Hroom; [contradiction|assumption]. }
  destruct Hpair as (sz & -> & Hsz).
  subst t.
  destruct (read_line_text (length (stream (file p))) sz n (stream (file p))
              Hnul (Nat.le_refl _) Hsz)
    as (f' & l & cells & -> & Hl & Hsize & Hres).
  exists f', l, cells. split; [destruct (is_unicode p); reflexivity|].
  split; [exact Hl|].
  assert (Hb : forall n', next f' = Some n' -> buffered f' = Some n').
  { intros n' Hn'. unfold buffered.
    destruct (size f' =? 0)%nat eqn:E; [apply Nat.eqb_eq in E; lia|exact Hn']. }
  destruct Hres as [(Ht & Hnext & Hstream) | (n' & Hnext & Hlen & Hres)].
  - left. repeat split; try assumption. lia.
  - right.
    destruct Hres as [(rest & Ht & Hrest) | [(rest & Ht & Hhead & Hrest) | (rest & Ht & Hrest)]];
      rewrite Ht in Hnul; apply Forall_app in Hnul as [_ Hnul].
    + left. exists rest. split; [exact Ht|].
      inversion Hnul as [|? ? _ Hnul']; subst.
      destruct Hrest as [Hrest | [-> Hrest]].
      * left. split; [now inversion Hnul'|]. exists n'. now repeat split; auto.
      * right. split; [now apply Hb|]. split; [exact Hnul'|].
        exists []. repeat split; auto.
    + right; left. exists rest. split; [exact Ht|]. split; [exact Hhead|].
      split; [now inversion Hnul|]. exists n'. now repeat split; auto.
    + right; right. exists rest. split; [exact Ht|].
      split; [now inversion Hnul|]. exists n'. now repeat split; auto.
Qed.

End ReaderCalls.

(** ** C7: the type tag of hexadecimal data *)

(** C7.  On [hex(7):01,02] the function [parse_data_type] succeeds with
    data type 7 and parse type [REG_BINARY], and leaves the line at
    [01,02]; on [hex(zz):] it fails.  This holds whatever the parser
    holds before the call. *)
Theorem parse_data_type_hex_examples (p : parser) :
  (exists p',
      parse_data_type p (W "hex(7):01,02") = (true, p', W "01,02")
      /\ data_type p' = 7 /\ parse_type p' = REG_BINARY)
  /\ fst (fst (parse_data_type p (W "hex(zz):"))) = false.
Proof.
  split.
  - eexists; split; [reflexivity|].
    split; reflexivity.
  - reflexivity.
Qed.

(** ** Numbers without digits *)

Lemma strtoul16_no_digits (ws rest : wstr) (c : WCHAR) :
  blanks ws -> isspaceW c = false -> c <> MINUS -> c <> PLUS ->
  hex_digit_value c = None ->
  strtoul16 (ws ++ c :: rest)
  = {| ul_value := 0; ul_end := ws ++ c :: rest; ul_erange := false |}.
Proof.
  intros Hws Hsp Hm Hp Hd.
  unfold strtoul16.
  rewrite (skip_space_app ws (c :: rest) Hws).
  simpl skip_space. rewrite Hsp.
  apply Z.eqb_neq in Hm, Hp. rewrite Hm, Hp.
  assert (H48 : (c =? 48) = false).
  { apply Z.eqb_neq; intros ->; discriminate Hd. }
  destruct rest as [|x rest]; cbn -[hex_digit_value]; rewrite ?H48;
    cbn -[hex_digit_value]; rewrite Hd; reflexivity.
Qed.

Lemma length_tail_neq {A} (x : A) (l : list A) :
  Nat.eqb (length l) (length (x :: l)) = false.
Proof. apply Nat.eqb_neq. cbn [length]. apply Nat.neq_succ_diag_r. Qed.

Lemma hex_csv_loop_marker (fuel : nat) (p : parser) (ws rest : wstr) :
  blanks ws ->
  hex_csv_loop (S fuel) p (ws ++ BACKSLASH :: rest)
  = Some (true, set_backslash p true, Some rest).
Proof.
  intros Hws.
  assert (E : strtoul16 (ws ++ BACKSLASH :: rest)
              = {| ul_value := 0; ul_end := ws ++ BACKSLASH :: rest; ul_erange := false |}).
  { apply strtoul16_no_digits; [assumption|reflexivity|lia|lia|reflexivity]. }
  cbn [hex_csv_loop].
  destruct (ws ++ BACKSLASH :: rest) as [|c0 l0] eqn:El.
  { destruct ws; discriminate El. }
  rewrite E. cbn [ul_erange ul_value ul_end].
  rewrite Nat.eqb_refl. cbn [Z.ltb Z.compare Z.eqb andb].
  rewrite <- El, (skip_blanks_app ws _ Hws).
  reflexivity.
Qed.

(** A lone zero is a byte like any other: blanks and a backslash after
    it are trailing content that is neither the end of the line nor a
    comment. *)
Lemma hex_csv_loop_zero_then_backslash (fuel : nat) (p : parser) (ws rest : wstr) :
  blanks ws ->
  hex_csv_loop (S fuel) p (48 :: ws ++ BACKSLASH :: rest)
  = Some (false, set_data p (data p ++ [0]) (data_cap p), None).
Proof.
  intros Hws.
  assert (E : strtoul16 (48 :: ws ++ BACKSLASH :: rest)
              = {| ul_value := 0; ul_end := ws ++ BACKSLASH :: rest; ul_erange := false |}).
  { unfold strtoul16. cbn [skip_space isspaceW Z.leb Z.eqb Z.compare andb orb].
    destruct ws as [|w ws].
    - reflexivity.
    - inversion Hws as [|? ? Hw Hws']; subst.
      assert (Hx : ((w =? 120) || (w =? 88)) = false).
      { unfold is_blank in Hw.
        destruct (w =? 32) eqn:E1; [apply Z.eqb_eq in E1; subst; reflexivity|].
        destruct (w =? 9) eqn:E2; [apply Z.eqb_eq in E2; subst; reflexivity|discriminate]. }
      assert (Hd : hex_digit_value w = None).
      { unfold is_blank in Hw.
        destruct (w =? 32) eqn:E1; [apply Z.eqb_eq in E1; subst; reflexivity|].
        destruct (w =? 9) eqn:E2; [apply Z.eqb_eq in E2; subst; reflexivity|discriminate]. }
      cbn -[scan_hex]. rewrite Hx. cbn. rewrite Hd. reflexivity. }
  cbn [hex_csv_loop]. rewrite E. cbn [ul_erange ul_value ul_end].
  rewrite length_tail_neq.
  cbn [Z.ltb Z.compare andb].
  destruct (ws ++ BACKSLASH :: rest) as [|c0 l0] eqn:El.
  { destruct ws; discriminate El. }
  rewrite <- El.
  assert (Hc0 : (c0 =? COMMA) = false).
  { destruct ws as [|w ws]; simpl in El; injection El as <- _; [reflexivity|].
    inversion Hws as [|? ? Hw _]; subst. unfold is_blank in Hw.
    destruct (w =? 32) eqn:E1; [apply Z.eqb_eq in E1; subst; reflexivity|].
    destruct (w =? 9) eqn:E2; [apply Z.eqb_eq in E2; subst; reflexivity|discriminate]. }
  rewrite Hc0. cbn [negb].
  rewrite (skip_blanks_app ws _ Hws). reflexivity.
Qed.

(** ** Value lines *)

Lemma unescape_escape_string (name rest : wstr) :
  REGPROC_unescape_string (REGPROC_escape_string name ++ DQUOTE :: rest)
  = Closed name rest.
Proof.
  induction name as [|c name IH]; [reflexivity|].
  cbn [REGPROC_escape_string].
  destruct (c =? CR) eqn:Ecr.
  { apply Z.eqb_eq in Ecr; subst c. cbn -[REGPROC_unescape_string].
    cbn [REGPROC_unescape_string] in *. now rewrite IH. }
  destruct (c =? LF) eqn:Elf.
  { apply Z.eqb_eq in Elf; subst c. cbn [app REGPROC_unescape_string] in *.
    now rewrite IH. }
  destruct (c =? BACKSLASH) eqn:Ebs.
  { apply Z.eqb_eq in Ebs; subst c. cbn [app REGPROC_unescape_string] in *.
    now rewrite IH. }
  destruct (c =? DQUOTE) eqn:Edq.
  { apply Z.eqb_eq in Edq; subst c. cbn [app REGPROC_unescape_string] in *.
    now rewrite IH. }
  destruct (c =? NUL) eqn:Enul.
  { apply Z.eqb_eq in Enul; subst c. cbn [app REGPROC_unescape_string] in *.
    now rewrite IH. }
  cbn [app REGPROC_unescape_string]. rewrite Enul, Ebs, Edq, IH. reflexivity.
Qed.

Lemma trim_trailing_cons (c : WCHAR) (s : wstr) :
  is_blank c = false -> trim_trailing (c :: s) = c :: trim_trailing s.
Proof.
  intros Hc. cbn [trim_trailing]. rewrite Hc.
  destruct (trim_trailing s); reflexivity.
Qed.

Lemma trim_trailing_app (a s : wstr) (c : WCHAR) :
  is_blank c = false ->
  trim_trailing (a ++ c :: s) = a ++ c :: trim_trailing s.
Proof.
  intros Hc. induction a as [|x a IH].
  - apply trim_trailing_cons, Hc.
  - cbn [app trim_trailing]. rewrite IH.
    destruct a; reflexivity.
Qed.

Lemma trim_trailing_idem (s : wstr) : trim_trailing (trim_trailing s) = trim_trailing s.
Proof.
  induction s as [|c s IH]; [reflexivity|].
  cbn [trim_trailing].
  destruct (trim_trailing s) as [|d t] eqn:E.
  - destruct (is_blank c) eqn:Hc; [reflexivity|].
    cbn [trim_trailing]. now rewrite Hc.
  - cbn [trim_trailing] in *. rewrite IH. reflexivity.
Qed.

Section ValueLines.
Context `{CodePage}.

Lemma steps_add (a b : nat) (p : parser) (pos : wstr) :
  steps (a + b) p pos
  = match steps a p pos with
    | Next p' pos' => steps b p' pos'
    | r => r
    end.
Proof.
  revert p pos. induction a as [|a IH]; intros p pos; [reflexivity|].
  cbn [Nat.add steps]. destruct (parser_funcs (state p) p pos); try reflexivity.
  apply IH.
Qed.

Lemma get_line_file (p p1 : parser) (l : option wstr) :
  get_line p = (p1, l) -> p1 = set_behind (set_file p (file p1)) (behind p1).
Proof.
  unfold get_line. destruct_parser p. norm_parser.
  destruct (if (size pfile =? 0)%nat then (REG_VAL_BUF_SIZE, Some [])
            else (size pfile, next pfile)) as [sz [buf|]].
  - destruct (read_line (length (stream pfile)) sz buf (stream pfile)) as [[[f' l0] cells]|].
    + destruct puni; intros [= <- _]; reflexivity.
    + intros [= <- _]; reflexivity.
  - intros [= <- _]; reflexivity.
Qed.

(** The first three states on a line that names a value in quotes:
    the name is taken and the data, without blanks around it, is next. *)
Lemma quoted_value_name_steps (p p1 : parser) (name text pos : wstr) :
  state p = LINE_START ->
  nul_free name ->
  get_line p = (p1, Some (quoted (REGPROC_escape_string name) ++ EQUALS :: text)) ->
  match trim_trailing (skip_blanks text) with
  | c :: _ => c <> MINUS
  | [] => True
  end ->
  steps 3 p pos
  = Next (set_state
            (set_behind (set_value_name p1 (Some name))
               (behind_trimmed (skip_blanks text) (behind p1)))
            DATA_TYPE)
         (trim_trailing (skip_blanks text)).
Proof.
  intros Hst Hname Hline Hdata.
  pose proof (get_line_file _ _ _ Hline) as Hp1.
  destruct_parser p. cbn in Hst. subst pstate.
  cbn [steps state parser_funcs]. unfold line_start_state.
  rewrite Hline. unfold quoted.
  cbn [app line_start_scan Z.eqb Pos.eqb].
  rewrite Hp1.
  cbn [set_file set_behind set_state state parser_funcs]. unfold quoted_value_name_state.
  rewrite <- app_assoc. cbn [app].
  rewrite unescape_escape_string.
  rewrite (cstr_nul_free name Hname).
  cbn [set_state set_value_name state parser_funcs]. unfold data_start_state.
  cbn [skip_blanks is_blank Z.eqb Pos.eqb orb].
  destruct (trim_trailing (skip_blanks text)) as [|d t] eqn:E.
  - reflexivity.
  - apply Z.eqb_neq in Hdata. rewrite Hdata. reflexivity.
Qed.

(** The same for the default value, written [@]. *)
Lemma default_value_name_steps (p p1 : parser) (text pos : wstr) :
  state p = LINE_START ->
  get_line p = (p1, Some (ATSIGN :: EQUALS :: text)) ->
  match trim_trailing (skip_blanks text) with
  | c :: _ => c <> MINUS
  | [] => True
  end ->
  steps 3 p pos
  = Next (set_state
            (set_behind (set_value_name p1 None)
               (behind_trimmed (skip_blanks text) (behind p1)))
            DATA_TYPE)
         (trim_trailing (skip_blanks text)).
Proof.
  intros Hst Hline Hdata.
  pose proof (get_line_file _ _ _ Hline) as Hp1.
  destruct_parser p. cbn in Hst. subst pstate.
  cbn [steps state parser_funcs]. unfold line_start_state.
  rewrite Hline.
  cbn [line_start_scan Z.eqb Pos.eqb].
  rewrite Hp1.
  cbn [set_file set_behind set_state state parser_funcs]. unfold default_value_name_state.
  cbn [set_state set_value_name state parser_funcs tl]. unfold data_start_state.
  cbn [skip_blanks is_blank Z.eqb Pos.eqb orb].
  destruct (trim_trailing (skip_blanks text)) as [|d t] eqn:E.
  - reflexivity.
  - apply Z.eqb_neq in Hdata. rewrite Hdata. reflexivity.
Qed.

End ValueLines.

Lemma trim_trailing_blanks (ws : wstr) : blanks ws -> trim_trailing ws = [].
Proof.
  induction 1 as [|c ws Hc _ IH]; [reflexivity|].
  cbn [trim_trailing]. now rewrite IH, Hc.
Qed.

(** ** C9: a dword without digits *)

Lemma convert_hex_to_dword_comment (ws comment : wstr) :
  blanks ws -> convert_hex_to_dword (ws ++ SEMICOLON :: comment) = Some 0.
Proof.
  intros Hws. unfold convert_hex_to_dword.
  rewrite (skip_blanks_app ws _ Hws). reflexivity.
Qed.

Lemma convert_hex_to_dword_blanks (ws : wstr) :
  blanks ws -> convert_hex_to_dword ws = None.
Proof.
  intros Hws. unfold convert_hex_to_dword.
  rewrite <- (app_nil_r ws), (skip_blanks_app ws _ Hws). reflexivity.
Qed.

Section Dword.
Context `{CodePage}.

(** C9, as the code has it.  After [dword:] without any digit, blanks
    and then a comment are accepted: [convert_hex_to_dword] succeeds and
    the value is set on the current key as a [REG_DWORD] equal to 0.
    Without the comment, with blanks alone or nothing after the colon,
    the conversion fails, the line is dropped and nothing is set. *)
Theorem dword_without_digits (p p1 : parser) (name ws comment pos : wstr) :
  state p = LINE_START ->
  reg_version p <> Some REG_VERSION_31 ->
  nul_free name ->
  blanks ws ->
  (get_line p
   = (p1, Some (quoted (REGPROC_escape_string name) ++ EQUALS :: W "dword:"
                  ++ ws ++ SEMICOLON :: comment)) ->
   convert_hex_to_dword (ws ++ SEMICOLON :: trim_trailing comment) = Some 0
   /\ exists p' pos',
       steps 6 p pos = Next p' pos'
       /\ state p' = LINE_START /\ file p' = file p1
       /\ reg p' = RegSetValueExW (reg p) (hkey p) (Some name) REG_DWORD [0; 0; 0; 0]
       /\ calls p' = CallSetValue (hkey p) (Some name) REG_DWORD [0; 0; 0; 0] :: calls p)
  /\ (get_line p
      = (p1, Some (quoted (REGPROC_escape_string name) ++ EQUALS :: W "dword:" ++ ws)) ->
      convert_hex_to_dword [] = None
      /\ exists p' pos',
          steps 5 p pos = Next p' pos'
          /\ state p' = LINE_START /\ file p' = file p1
          /\ reg p' = reg p /\ calls p' = calls p).
Proof.
  intros Hst Hver Hname Hws. split; intros Hline.
  - split; [apply convert_hex_to_dword_comment, Hws|].
    pose proof (get_line_file _ _ _ Hline) as Hp1.
    assert (Htrim : trim_trailing (skip_blanks (W "dword:" ++ ws ++ SEMICOLON :: comment))
                    = W "dword:" ++ ws ++ SEMICOLON :: trim_trailing comment).
    { change (skip_blanks (W "dword:" ++ ws ++ SEMICOLON :: comment))
        with (W "dword:" ++ ws ++ SEMICOLON :: comment).
      rewrite app_assoc, trim_trailing_app by reflexivity.
      now rewrite <- app_assoc. }
    change (steps 6 p pos) with (steps (3 + 3) p pos).
    rewrite steps_add.
    rewrite (quoted_value_name_steps p p1 name _ pos Hst Hname Hline)
      by (rewrite Htrim; cbn; lia).
    rewrite Htrim, Hp1.
    destruct_parser p. cbn in Hst, Hver |- *. subst pstate.
    unfold data_type_state. cbn -[convert_hex_to_dword steps].
    cbn [steps state parser_funcs]. unfold dword_data_state.
    rewrite (convert_hex_to_dword_comment ws _ Hws).
    cbn [steps state set_state parser_funcs]. unfold set_value_state.
    cbn.
    destruct pver as [[| | | |]|]; try (exfalso; apply Hver; reflexivity);
      do 2 eexists; (split; [reflexivity|]); cbn; repeat split.
  - split; [reflexivity|].
    pose proof (get_line_file _ _ _ Hline) as Hp1.
    assert (Htrim : trim_trailing (skip_blanks (W "dword:" ++ ws)) = W "dword:").
    { change (skip_blanks (W "dword:" ++ ws)) with (W "dword:" ++ ws).
      change (W "dword:" ++ ws) with (W "dword" ++ COLON :: ws).
      rewrite trim_trailing_app by reflexivity.
      now rewrite (trim_trailing_blanks ws Hws). }
    change (steps 5 p pos) with (steps (3 + 2) p pos).
    rewrite steps_add.
    rewrite (quoted_value_name_steps p p1 name _ pos Hst Hname Hline)
      by (rewrite Htrim; cbn; lia).
    rewrite Htrim, Hp1.
    destruct_parser p. cbn in Hst, Hver |- *. subst pstate.
    do 2 eexists; (split; [reflexivity|]); cbn; repeat split.
Qed.

End Dword.

Lemma dword_without_digits_witness :
  exists p' pos',
    steps (H := latin1) 6
      (parser_between_lines true (quoted (W "v") ++ W "=dword:;x" ++ CRLF) None empty_registry) []
    = Next p' pos'
    /\ calls p' = [CallSetValue None (Some (W "v")) REG_DWORD [0; 0; 0; 0]].
Proof.
  destruct (dword_without_digits (H := latin1)
              (parser_between_lines true (quoted (W "v") ++ W "=dword:;x" ++ CRLF) None empty_registry)
              (set_behind (parser_between_lines true [] None empty_registry) [LF; NUL])
              (W "v") [] (W "x") []) as [Hset _].
  - reflexivity.
  - discriminate.
  - repeat constructor; discriminate.
  - constructor.
  - destruct (Hset ltac:(vm_compute; reflexivity)) as (_ & p' & pos' & Hsteps & _ & _ & _ & Hcalls).
    exists p', pos'. split; [exact Hsteps|exact Hcalls].
Defined.

(** The claim of C9 as it is written fails when blanks alone follow the
    colon: the conversion fails, and importing such a line sets no
    value (the key is created and closed, nothing else is called). *)
Lemma dword_blank_is_rejected :
  convert_hex_to_dword (W " ") = None
  /\ import_registry_file (H := latin1) 100
       (W "REGEDIT4" ++ CRLF ++ W "[HKEY_CURRENT_USER\K]" ++ CRLF
          ++ quoted (W "v") ++ W "=dword: " ++ CRLF)
       empty_registry false
     = Some (Imported true
               (set_root empty_registry HKEY_CURRENT_USER (Key [] [(W "K", empty_key)]))
               [CallCloseKey (HKEY_CURRENT_USER, [W "K"]);
                CallCreateKey HKEY_CURRENT_USER (Some (W "K"))]).
Proof. split; vm_compute; reflexivity. Qed.

(** ** C2: headers that import nothing *)

Lemma wstr_eqb_eq (a b : wstr) : wstr_eqb a b = true <-> a = b.
Proof.
  revert b. induction a as [|x a IH]; intros [|y b]; cbn; split; try easy.
  - intros Hxy. apply andb_prop in Hxy as [Hx Hab].
    apply Z.eqb_eq in Hx. apply IH in Hab. now subst.
  - intros [= -> ->]. rewrite Z.eqb_refl. now apply IH.
Qed.

Lemma wstr_eqb_neq (a b : wstr) : a <> b -> wstr_eqb a b = false.
Proof.
  intros Hne. destruct (wstr_eqb a b) eqn:E; [|reflexivity].
  apply wstr_eqb_eq in E. contradiction.
Qed.

Lemma same_ascii_eqb (a b k : Z) :
  same_ascii a b -> 0 <= k < 128 -> (a =? k) = (b =? k).
Proof.
  intros [-> | [Ha Hb]] Hk; [reflexivity|].
  transitivity false; [|symmetry]; apply Z.eqb_neq; intros ->; contradiction.
Qed.

Lemma same_ascii_skip_blanks (x y : wstr) :
  Forall2 same_ascii x y -> Forall2 same_ascii (skip_blanks x) (skip_blanks y).
Proof.
  induction 1 as [|a b x y Hab Hxy IH]; [constructor|].
  cbn [skip_blanks]. unfold is_blank.
  rewrite (same_ascii_eqb a b 32 Hab), (same_ascii_eqb a b 9 Hab) by lia.
  destruct ((b =? 32) || (b =? 9)); [exact IH|now constructor].
Qed.

Lemma same_ascii_starts_with (k x y : wstr) :
  ascii_text k -> Forall2 same_ascii x y -> starts_with k x = starts_with k y.
Proof.
  intros Hk. revert x y.
  induction Hk as [|c k Hc _ IH]; intros x y Hxy; [reflexivity|].
  destruct Hxy as [|a b x y Hab Hxy]; [reflexivity|].
  cbn [starts_with].
  rewrite (Z.eqb_sym c a), (Z.eqb_sym c b), (same_ascii_eqb a b c Hab Hc).
  now rewrite (IH x y Hxy).
Qed.

Lemma same_ascii_wstr_eqb (k x y : wstr) :
  ascii_text k -> Forall2 same_ascii x y -> wstr_eqb x k = wstr_eqb y k.
Proof.
  intros Hk. revert x y.
  induction Hk as [|c k Hc _ IH]; intros x y Hxy.
  - destruct Hxy; reflexivity.
  - destruct Hxy as [|a b x y Hab Hxy]; [reflexivity|].
    cbn [wstr_eqb].
    rewrite (same_ascii_eqb a b c Hab Hc).
    now rewrite (IH x y Hxy).
Qed.

Ltac ascii_text_tac := repeat (constructor; [cbn; lia|]); constructor.

Lemma parse_file_header_same_ascii (x y : wstr) :
  Forall2 same_ascii x y -> parse_file_header x = parse_file_header y.
Proof.
  intros Hxy. apply same_ascii_skip_blanks in Hxy.
  unfold parse_file_header.
  rewrite (same_ascii_wstr_eqb (W "REGEDIT") _ _ ltac:(ascii_text_tac) Hxy).
  rewrite (same_ascii_wstr_eqb (W "REGEDIT4") _ _ ltac:(ascii_text_tac) Hxy).
  rewrite (same_ascii_wstr_eqb (W "Windows Registry Editor Version 5.00") _ _
             ltac:(ascii_text_tac) Hxy).
  rewrite (same_ascii_starts_with (W "REGEDIT") _ _ ltac:(ascii_text_tac) Hxy).
  reflexivity.
Qed.

Lemma parse_file_header_fuzzy (l : wstr) :
  fuzzy_header l -> parse_file_header l = REG_VERSION_FUZZY.
Proof.
  intros (Hs & H31 & H40). unfold parse_file_header.
  rewrite (wstr_eqb_neq _ _ H31), (wstr_eqb_neq _ _ H40), Hs.
  destruct (skip_blanks l) as [|c r]; [discriminate Hs|].
  cbn [starts_with W wc] in Hs. apply andb_prop in Hs as [Hc _].
  apply Z.eqb_eq in Hc. subst c. reflexivity.
Qed.

Lemma parse_file_header_invalid (l : wstr) :
  invalid_header l -> parse_file_header l = REG_VERSION_INVALID.
Proof.
  intros (Hs & H50). unfold parse_file_header.
  rewrite (wstr_eqb_neq _ _ H50), Hs.
  destruct (wstr_eqb (skip_blanks l) (W "REGEDIT")) eqn:E1.
  { apply wstr_eqb_eq in E1. rewrite E1 in Hs. discriminate Hs. }
  destruct (wstr_eqb (skip_blanks l) (W "REGEDIT4")) eqn:E2.
  { apply wstr_eqb_eq in E2. rewrite E2 in Hs. discriminate Hs. }
  reflexivity.
Qed.

Lemma one_line_nul_free (l : list Z) : one_line l -> nul_free l.
Proof. apply Forall_impl. intros c (_ & _ & Hc). exact Hc. Qed.

Lemma break_line_none (s : list Z) : no_eol s -> break_line s = None.
Proof.
  induction 1 as [|c s (Hcr & Hlf) _ IH]; [reflexivity|].
  cbn [break_line]. apply Z.eqb_neq in Hcr, Hlf. now rewrite Hcr, Hlf, IH.
Qed.

Lemma break_line_first (l x : list Z) (c : Z) :
  no_eol l -> c = CR \/ c = LF -> exists r, break_line (l ++ c :: x) = Some (l, r).
Proof.
  intros Hl Hc. induction Hl as [|a l (Hcr & Hlf) _ [r IH]].
  - destruct Hc as [-> | ->]; eexists; reflexivity.
  - exists r. cbn [app break_line]. apply Z.eqb_neq in Hcr, Hlf.
    now rewrite Hcr, Hlf, IH.
Qed.

Lemma cstr_app (a b : list Z) : nul_free a -> cstr (a ++ b) = a ++ cstr b.
Proof.
  induction 1 as [|c a Hc _ IH]; [reflexivity|].
  cbn [app cstr]. apply Z.eqb_neq in Hc. now rewrite Hc, IH.
Qed.

Lemma one_line_no_eol (l : list Z) : one_line l -> no_eol l.
Proof. apply Forall_impl. intros c (Hcr & Hlf & _). now split. Qed.

(** The first line of a stream, whatever follows its terminator: the
    reader hands it out, from as many refills as it takes. *)
Lemma read_line_first (fuel : nat) :
  forall sz buf m st rest l,
    one_line l -> l = buf ++ m -> st = m ++ rest ->
    match rest with [] => True | c :: _ => c = CR \/ c = LF end ->
    (length st <= fuel)%nat -> (length buf < sz)%nat ->
    exists f' cells, read_line fuel sz buf st = Some (f', l, cells).
Proof.
  induction fuel as [|fuel IH]; intros sz buf m st rest l Hl -> -> Hrest Hfuel Hsz.
  - assert (Hm : m = [] /\ rest = []).
    { destruct m; [|cbn in Hfuel; lia]. destruct rest; [now split|cbn in Hfuel; lia]. }
    destruct Hm as [-> ->]. cbn [app]. rewrite !app_nil_r in *.
    rewrite read_line_eq, (break_line_none _ (one_line_no_eol _ Hl)). cbv zeta.
    cbn [length]. rewrite Nat.min_0_r. eexists _, _. reflexivity.
  - pose proof (one_line_no_eol _ Hl) as Heol.
    pose proof (one_line_nul_free _ Hl) as Hnul.
    apply Forall_app in Heol as [Hbuf Hm]. apply Forall_app in Hnul as [_ Hmnul].
    rewrite read_line_eq, (break_line_none _ Hbuf). cbv zeta.
    destruct (refill_room sz (length buf) Hsz) as [Hle Hroom]. cbv zeta in Hle, Hroom.
    set (sz' := if (sz - length buf <? 3)%nat then (2 * sz)%nat else sz) in *.
    destruct (Nat.min (sz' - length buf - 1) (length (m ++ rest))) as [|k] eqn:Ecount.
    + assert (Hempty : m ++ rest = [])
        by (destruct (m ++ rest); [reflexivity|cbn [length] in Ecount; lia]).
      apply app_eq_nil in Hempty as [-> ->]. cbn [app]. rewrite !app_nil_r.
      eexists _, _. reflexivity.
    + destruct (Nat.le_gt_cases (S k) (length m)) as [Hin|Hout].
      * (* the units read are all of the line *)
        rewrite firstn_app, skipn_app.
        replace (S k - length m)%nat with 0%nat by lia.
        change (firstn 0 rest) with (@nil Z). change (skipn 0 rest) with rest.
        rewrite app_nil_r.
        assert (Hchunk : nul_free (firstn (S k) m)).
        { rewrite <- (firstn_skipn (S k) m) in Hmnul. now apply Forall_app in Hmnul. }
        rewrite (cstr_nul_free _ Hchunk).
        apply (IH sz' (buf ++ firstn (S k) m) (skipn (S k) m) _ rest).
        -- exact Hl.
        -- now rewrite <- app_assoc, firstn_skipn.
        -- reflexivity.
        -- exact Hrest.
        -- rewrite length_app, length_skipn. rewrite length_app in Hfuel, Ecount. lia.
        -- rewrite length_app, length_firstn. lia.
      * (* the terminator is among them *)
        rewrite firstn_app, (firstn_all2 m) by lia.
        rewrite length_app in Ecount.
        destruct rest as [|c rest'].
        { cbn [length] in Ecount. lia. }
        destruct (S k - length m)%nat as [|j] eqn:Ej; [lia|].
        cbn [firstn]. rewrite (cstr_app m _ Hmnul).
        assert (Hc : (c =? NUL) = false) by (destruct Hrest as [-> | ->]; reflexivity).
        cbn [cstr]. rewrite Hc, app_assoc.
        destruct (break_line_first (buf ++ m) (cstr (firstn j rest')) c
                    (one_line_no_eol _ Hl) Hrest) as [r Hr].
        destruct fuel as [|fuel']; cbn [read_line]; rewrite Hr; eexists _, _; reflexivity.
Qed.

Section Header.
Context `{CodePage}.

Lemma mb_to_wc_same_ascii (b : BYTE) : same_ascii (mb_to_wc b) b.
Proof.
  destruct (Z_lt_dec b 0) as [Hneg|Hnn].
  - right. split; [apply mb_to_wc_high|]; lia.
  - destruct (Z_lt_dec b 128) as [Hlt|Hge].
    + left. apply mb_to_wc_ascii. lia.
    + right. split; [apply mb_to_wc_high|]; lia.
Qed.

Lemma mb_to_wc_nul_free (l : list BYTE) : nul_free l -> nul_free (map mb_to_wc l).
Proof.
  induction 1 as [|c l Hc _ IH]; constructor; [|exact IH].
  destruct (mb_to_wc_same_ascii c) as [-> | [Hhigh _]]; [exact Hc|lia].
Qed.

Lemma same_ascii_map (l : list BYTE) : Forall2 same_ascii (map mb_to_wc l) l.
Proof.
  induction l as [|c l IH]; constructor; [apply mb_to_wc_same_ascii|exact IH].
Qed.

(** The first call of the reader, on a stream with the first line [l]. *)
Lemma get_line_first (p : parser) (l rest : list Z) :
  size (file p) = 0%nat ->
  one_line l -> stream (file p) = l ++ rest ->
  match rest with [] => True | c :: _ => c = CR \/ c = LF end ->
  exists f' cells,
    get_line p
    = (set_behind (set_file p f') cells,
       Some (if is_unicode p then l else map mb_to_wc l)).
Proof.
  intros Hsize Hl Hstream Hrest. unfold get_line. rewrite Hsize. cbn [Nat.eqb].
  destruct (read_line_first (length (stream (file p))) REG_VAL_BUF_SIZE [] l
              (stream (file p)) rest l Hl eq_refl Hstream Hrest (Nat.le_refl _)
              REG_VAL_BUF_SIZE_pos) as (f' & cells & ->).
  destruct (is_unicode p); eexists _, _; reflexivity.
Qed.

(** The first call of the reader hands out some line, whatever the
    stream holds. *)
Lemma get_line_fresh (p : parser) :
  size (file p) = 0%nat ->
  exists f' cells line, get_line p = (set_behind (set_file p f') cells, Some line).
Proof.
  intros Hsize. unfold get_line. rewrite Hsize. cbn [Nat.eqb].
  pose proof (read_line_fuel (length (stream (file p))) REG_VAL_BUF_SIZE []
                (stream (file p)) (Nat.le_refl _)) as Hfuel.
  destruct (read_line _ _ _ _) as [[[f' l] cells]|]; [|contradiction].
  destruct (is_unicode p); eexists _, _, _; reflexivity.
Qed.

(** The header that [header_state] puts together for a file without
    byte order mark is classified like the first line of the file. *)
Lemma narrow_header_class (s0 s1 : BYTE) (rest l line : list Z) :
  first_line l (s0 :: s1 :: rest) ->
  (forall l2, l = s0 :: s1 :: l2 -> line = l2) ->
  (fuzzy_header l ->
   parse_file_header (cstr (s0 :: s1 :: map mb_to_wc line)) = REG_VERSION_FUZZY)
  /\ (invalid_header l ->
      parse_file_header (cstr (s0 :: s1 :: map mb_to_wc line)) = REG_VERSION_INVALID).
Proof.
  intros [Hl (tail & Heq & Htail)] Hline.
  destruct l as [|a [|b l2]].
  - (* the file starts with a terminator *)
    cbn [app] in Heq. subst tail. split.
    + intros (Hs & _). discriminate Hs.
    + intros _. destruct Htail as [-> | ->]; reflexivity.
  - (* one character before the terminator *)
    cbn [app] in Heq. injection Heq as <- Heq. subst tail.
    inversion Hl as [|? ? (Hcr & Hlf & Hnul) _]; subst. split.
    + intros (Hs & _). cbn [skip_blanks] in Hs.
      destruct (is_blank s0); cbn in Hs; rewrite ?andb_false_r in Hs; discriminate Hs.
    + intros _. apply Z.eqb_neq in Hnul.
      unfold parse_file_header.
      destruct Htail as [-> | ->]; cbn [cstr Z.eqb]; rewrite Hnul;
        cbn [skip_blanks]; destruct (is_blank s0); cbn;
        rewrite ?andb_false_r; reflexivity.
  - cbn [app] in Heq. injection Heq as <- <- Heq.
    inversion Hl as [|? ? (_ & _ & Ha) Hl']; subst.
    inversion Hl' as [|? ? (_ & _ & Hb) Hl2]; subst.
    rewrite (Hline l2 eq_refl).
    assert (Hhdr : cstr (s0 :: s1 :: map mb_to_wc l2) = s0 :: s1 :: map mb_to_wc l2).
    { apply cstr_nul_free. constructor; [exact Ha|]. constructor; [exact Hb|].
      apply mb_to_wc_nul_free, one_line_nul_free, Hl2. }
    rewrite Hhdr.
    rewrite (parse_file_header_same_ascii (s0 :: s1 :: map mb_to_wc l2) (s0 :: s1 :: l2)).
    2:{ constructor; [now left|]. constructor; [now left|]. apply same_ascii_map. }
    split; [apply parse_file_header_fuzzy|apply parse_file_header_invalid].
Qed.

(** C2, as the code has it.  The first line of the input is the text
    before the first CR or LF, or the whole input.  When it holds no NUL
    and, after blanks, begins with REGEDIT without being REGEDIT or
    REGEDIT4 (the version 5 header does not begin so),
    [import_registry_file] returns TRUE and calls the registry not once;
    when it neither begins with REGEDIT nor is the version 5 header, it
    returns FALSE and calls the registry not once. *)
Theorem header_that_imports_nothing (reg_file : list BYTE) (l : list Z)
    (r0 : registry) (erange0 : bool) :
  first_line l (input_text reg_file) ->
  (fuzzy_header l -> imports reg_file r0 erange0 (Imported true r0 []))
  /\ (invalid_header l -> imports reg_file r0 erange0 (Imported false r0 [])).
Proof.
  intros Hl.
  destruct reg_file as [|s0 [|s1 rest]].
  - (* an empty file *)
    split.
    + intros (Hs & _). destruct Hl as [_ (tail & Heq & _)].
      destruct l; [discriminate Hs|discriminate Heq].
    + intros _. exists 0%nat. intros fuel _. reflexivity.
  - (* a file of one byte *)
    split.
    + intros (Hs & _). destruct Hl as [_ (tail & Heq & _)].
      cbn [input_text] in Heq.
      destruct l as [|a [|b l]]; [discriminate Hs| |discriminate Heq].
      cbn [skip_blanks] in Hs.
      destruct (is_blank a); cbn in Hs; rewrite ?andb_false_r in Hs; discriminate Hs.
    + intros _. exists 0%nat. intros fuel _. reflexivity.
  - cbn [input_text] in Hl.
    destruct ((s0 =? 255) && (s1 =? 254)) eqn:Ebom.
    + (* Unicode *)
      destruct Hl as [Hone (tail & Htext & Htail)].
      split; intros Hhdr; exists 1%nat; intros [|fuel] Hfuel; try lia;
        unfold import_registry_file; rewrite Ebom;
        cbn [parser_loop state parser_funcs]; unfold header_state;
        match goal with
        | |- context [get_line ?p] =>
            destruct (get_line_first p l tail eq_refl Hone Htext Htail)
              as (f' & cells & ->)
        end; norm_parser; cbn [negb].
      * rewrite (parse_file_header_fuzzy _ Hhdr). reflexivity.
      * rewrite (parse_file_header_invalid _ Hhdr). reflexivity.
    + (* the code page *)
      assert (Hline : exists f' cells line,
                 get_line (initial_parser false s0 s1 rest r0 erange0)
                 = (set_behind (set_file (initial_parser false s0 s1 rest r0 erange0) f')
                      cells,
                    Some (map mb_to_wc line))
                 /\ forall l2, l = s0 :: s1 :: l2 -> line = l2).
      { destruct l as [|a [|b l2]].
        - destruct (get_line_fresh (initial_parser false s0 s1 rest r0 erange0) eq_refl)
            as (f' & cells & line & Hget).
          assert (Hmap : exists bytes, line = map mb_to_wc bytes).
          { revert Hget. unfold get_line. cbn [initial_parser file is_unicode size Nat.eqb].
            destruct (read_line _ _ _ _) as [[[f0 l0] c0]|]; [|discriminate].
            intros [= _ _ <-]. now exists l0. }
          destruct Hmap as [bytes ->]. exists f', cells, bytes.
          split; [exact Hget|discriminate].
        - destruct (get_line_fresh (initial_parser false s0 s1 rest r0 erange0) eq_refl)
            as (f' & cells & line & Hget).
          assert (Hmap : exists bytes, line = map mb_to_wc bytes).
          { revert Hget. unfold get_line. cbn [initial_parser file is_unicode size Nat.eqb].
            destruct (read_line _ _ _ _) as [[[f0 l0] c0]|]; [|discriminate].
            intros [= _ _ <-]. now exists l0. }
          destruct Hmap as [bytes ->]. exists f', cells, bytes.
          split; [exact Hget|discriminate].
        - destruct Hl as [Hone (tail & Htext & Htail)].
          cbn [app] in Htext. injection Htext as <- <- Htext.
          inversion Hone as [|? ? _ Hone']; subst. inversion Hone' as [|? ? _ Hone2]; subst.
          destruct (get_line_first (initial_parser false s0 s1 (l2 ++ tail) r0 erange0)
                      l2 tail eq_refl Hone2 eq_refl Htail) as (f' & cells & Hget).
          exists f', cells, l2. split; [exact Hget|]. now intros ? [= <-]. }
      destruct Hline as (f' & cells & line & Hget & Hline).
      destruct (narrow_header_class s0 s1 rest l line Hl Hline) as [Hfuzzy Hinvalid].
      split; intros Hhdr; exists 1%nat; intros [|fuel] Hfuel; try lia;
        unfold import_registry_file; rewrite Ebom;
        cbn [parser_loop state parser_funcs]; unfold header_state;
        fold (initial_parser false s0 s1 rest r0 erange0); rewrite Hget;
        unfold initial_parser; norm_parser; cbn [negb fst snd].
      * rewrite (Hfuzzy Hhdr). reflexivity.
      * rewrite (Hinvalid Hhdr). reflexivity.
Qed.

End Header.

Lemma header_that_imports_nothing_witness :
  imports (H := latin1) (W "REGEDIT9") empty_registry false
    (Imported true empty_registry [])
  /\ imports (H := latin1) (W "NOTAREGFILE") empty_registry false
       (Imported false empty_registry []).
Proof.
  assert (Hfuzzy : first_line (W "REGEDIT9") (input_text (W "REGEDIT9"))).
  { split.
    - unfold one_line. repeat (constructor; [repeat split; discriminate|]). constructor.
    - exists []. split; [reflexivity|exact I]. }
  assert (Hinvalid : first_line (W "NOTAREGFILE") (input_text (W "NOTAREGFILE"))).
  { split.
    - unfold one_line. repeat (constructor; [repeat split; discriminate|]). constructor.
    - exists []. split; [reflexivity|exact I]. }
  split.
  - apply (proj1 (header_that_imports_nothing (H := latin1)
                    (W "REGEDIT9") (W "REGEDIT9") empty_registry false Hfuzzy)).
    repeat split; discriminate.
  - apply (proj2 (header_that_imports_nothing (H := latin1)
                    (W "NOTAREGFILE") (W "NOTAREGFILE") empty_registry false Hinvalid)).
    repeat split; discriminate.
Defined.

(** The claim of C2 as it is written, for every input, fails on a first
    line that holds a NUL.  The reader takes the file in pieces of 4095
    bytes and a string ends at its first NUL: when the first piece holds
    a NUL and no line terminator, the next piece is put where the NUL
    is.  The first line of the file below is REGEDI, a NUL, 4090
    semicolons and T4, which does not begin with REGEDIT; what
    [header_state] sees is REGEDIT4, and the key of the next line is
    created. *)
Lemma header_is_joined_at_a_nul :
  let first := W "REGEDI" ++ [NUL] ++ repeat SEMICOLON 4090 ++ W "T4" in
  invalid_header first
  /\ import_registry_file (H := latin1) 100
       (first ++ CRLF ++ W "[HKEY_CURRENT_USER\K]" ++ CRLF) empty_registry false
     = Some (Imported true
               (set_root empty_registry HKEY_CURRENT_USER (Key [] [(W "K", empty_key)]))
               [CallCloseKey (HKEY_CURRENT_USER, [W "K"]);
                CallCreateKey HKEY_CURRENT_USER (Some (W "K"))]).
Proof.
  split.
  - split; [reflexivity|discriminate].
  - vm_compute. reflexivity.
Qed.

(** ** C3: a key deletion that ends the import *)

(** C3 fails on the code.  A line that deletes a key whose name starts
    with H but names no root class, or a root class followed by an empty
    path, goes through [delete_registry_key] to [error_exit], which ends
    the process: the lines after it are never read (the key K below is
    not created) and [import_registry_file] does not return.  A root
    class name alone makes [delete_registry_key] dereference a NULL
    pointer. *)
Theorem delete_key_line_ends_import :
  import_registry_file (H := latin1) 100
    (W "REGEDIT4" ++ CRLF ++ W "[-HKEY_FOO\a]" ++ CRLF
       ++ W "[HKEY_CURRENT_USER\K]" ++ CRLF)
    empty_registry false
  = Some (ImportExit empty_registry [])
  /\ import_registry_file (H := latin1) 100
       (W "REGEDIT4" ++ CRLF ++ W "[-HKEY_CURRENT_USER\]" ++ CRLF
          ++ W "[HKEY_CURRENT_USER\K]" ++ CRLF)
       empty_registry false
     = Some (ImportExit empty_registry [])
  /\ import_registry_file (H := latin1) 100
       (W "REGEDIT4" ++ CRLF ++ W "[-HKEY_CURRENT_USER]" ++ CRLF
          ++ W "[HKEY_CURRENT_USER\K]" ++ CRLF)
       empty_registry false
     = Some ImportUndefined.
Proof. repeat split; vm_compute; reflexivity. Qed.

(** ** C5: string data in hexadecimal form *)

Section HexStrings.
Context `{CodePage}.

(** C5, as the code has it.  When a byte list of type [REG_EXPAND_SZ] or
    [REG_MULTI_SZ] is complete, holds a byte and ends in a nonzero one,
    a zero byte is added (where the buffer has room for it); then, for
    a file that is not Unicode, the buffer is converted from the code
    page to wide characters, and this is the data the value is set to. *)
Theorem hex_string_data_is_widened (p p1 : parser) (pos line : wstr) :
  state p = HEX_DATA ->
  convert_hex_csv_to_hex p pos = (true, p1, line) ->
  backslash p1 = false ->
  data_type p1 = REG_EXPAND_SZ \/ data_type p1 = REG_MULTI_SZ ->
  data p1 <> [] ->
  (last (data p1) 0 <> 0 -> (length (data p1) < data_cap p1)%nat) ->
  let terminated := if last (data p1) 0 =? 0 then data p1 else data p1 ++ [0] in
  let stored := if is_unicode p1 then terminated else GetWideStringN terminated in
  exists p2 pos2,
    steps 2 p pos = Next p2 pos2
    /\ calls p2 = CallSetValue (hkey p1) (value_name p1) (data_type p1) stored :: calls p1
    /\ reg p2 = RegSetValueExW (reg p1) (hkey p1) (value_name p1) (data_type p1) stored.
Proof.
  intros Hst Hconv Hbs Htype Hdata Hroom terminated stored.
  cbn [steps]. rewrite Hst. cbn [parser_funcs]. unfold hex_data_state.
  rewrite Hconv, Hbs.
  assert (Hprep : prepare_hex_string_data p1
                  = Some (if is_unicode p1
                          then set_data p1 terminated (data_cap p1)
                          else set_data p1 stored (length stored))).
  { unfold prepare_hex_string_data.
    replace ((data_type p1 =? 2) || (data_type p1 =? 7)) with true
      by (destruct Htype as [-> | ->]; reflexivity).
    destruct (data p1) as [|b d] eqn:Ed; [contradiction|].
    subst stored terminated. rewrite <- Ed in *.
    destruct (last (data p1) 0 =? 0) eqn:Elast.
    - destruct_parser p1. norm_parser. cbn in Ed. destruct puni; subst; reflexivity.
    - apply Z.eqb_neq in Elast. apply Hroom, Nat.ltb_lt in Elast. rewrite Elast.
      destruct_parser p1. norm_parser. destruct puni; reflexivity. }
  rewrite Hprep.
  destruct_parser p1. cbn [state set_state parser_funcs].
  unfold set_value_state. subst stored. norm_parser.
  destruct puni; destruct pver as [[| | | |]|];
    do 2 eexists; (split; [reflexivity|]); split; reflexivity.
Qed.

End HexStrings.

Lemma hex_string_data_is_widened_witness :
  exists p2 pos2,
    steps (H := latin1) 2
      {| file := {| stream := []; size := REG_VAL_BUF_SIZE; next := Some [] |};
         two_wchars := (82, 69); is_unicode := false;
         reg_version := Some REG_VERSION_40;
         hkey := None; key_name := None; value_name := Some (W "e");
         parse_type := REG_BINARY; data_type := REG_EXPAND_SZ; data := []; data_cap := 0;
         backslash := false; state := HEX_DATA;
         reg := empty_registry; calls := []; errno_erange := false; behind := [] |}
      (W "41,42")
    = Next p2 pos2
    /\ calls p2 = [CallSetValue None (Some (W "e")) REG_EXPAND_SZ [65; 0; 66; 0; 0; 0]].
Proof.
  destruct (hex_string_data_is_widened (H := latin1)
              {| file := {| stream := []; size := REG_VAL_BUF_SIZE; next := Some [] |};
         two_wchars := (82, 69); is_unicode := false;
                 reg_version := Some REG_VERSION_40;
                 hkey := None; key_name := None; value_name := Some (W "e");
                 parse_type := REG_BINARY; data_type := REG_EXPAND_SZ; data := []; data_cap := 0;
                 backslash := false; state := HEX_DATA;
                 reg := empty_registry; calls := []; errno_erange := false; behind := [] |}
              {| file := {| stream := []; size := REG_VAL_BUF_SIZE; next := Some [] |};
         two_wchars := (82, 69); is_unicode := false;
                 reg_version := Some REG_VERSION_40;
                 hkey := None; key_name := None; value_name := Some (W "e");
                 parse_type := REG_BINARY; data_type := REG_EXPAND_SZ; data := [65; 66];
                 data_cap := 3;
                 backslash := false; state := HEX_DATA;
                 reg := empty_registry; calls := []; errno_erange := false; behind := [] |}
              (W "41,42") (W "41,42"))
    as (p2 & pos2 & Hsteps & Hcalls & _).
  - reflexivity.
  - vm_compute; reflexivity.
  - reflexivity.
  - left; reflexivity.
  - discriminate.
  - intros _. cbn. lia.
  - exists p2, pos2. split; [exact Hsteps|]. rewrite Hcalls. vm_compute; reflexivity.
Defined.

(** The claim of C5 as it is written, a conversion from wide to narrow
    characters, fails: for a file in the code page the two bytes 41 00
    become the four bytes of two wide characters, where a conversion to
    narrow characters would leave one byte. *)
Lemma narrow_hex_string_is_not_narrowed :
  import_registry_file (H := latin1) 100
    (W "REGEDIT4" ++ CRLF ++ W "[HKEY_CURRENT_USER\K]" ++ CRLF
       ++ quoted (W "e") ++ W "=hex(2):41,00" ++ CRLF)
    empty_registry false
  = Some (Imported true
            (set_root empty_registry HKEY_CURRENT_USER
               (Key [] [(W "K", Key [(W "e", {| val_type := REG_EXPAND_SZ;
                                                val_data := [65; 0; 0; 0] |})] [])]))
            [CallCloseKey (HKEY_CURRENT_USER, [W "K"]);
             CallSetValue (Some (HKEY_CURRENT_USER, [W "K"])) (Some (W "e")) REG_EXPAND_SZ
               [65; 0; 0; 0];
             CallCreateKey HKEY_CURRENT_USER (Some (W "K"))])
  /\ GetMultiByteStringN (H := latin1) [65; 0] = [65]
  /\ GetWideStringN (H := latin1) [65; 0] = [65; 0; 0; 0].
Proof. repeat split; vm_compute; reflexivity. Qed.

(** ** What the exporter writes, as text *)

Lemma hex_char_digit (d : Z) :
  0 <= d < 16 ->
  hex_digit_value (hex_char d) = Some d
  /\ isspaceW (hex_char d) = false
  /\ hex_char d <> NUL /\ hex_char d <> CR /\ hex_char d <> LF
  /\ hex_char d <> MINUS /\ hex_char d <> PLUS
  /\ (hex_char d =? 120) = false /\ (hex_char d =? 88) = false
  /\ isxdigitW (hex_char d) = true
  /\ is_blank (hex_char d) = false.
Proof.
  intros Hd.
  assert (Hcases : d = 0 \/ d = 1 \/ d = 2 \/ d = 3 \/ d = 4 \/ d = 5 \/ d = 6 \/ d = 7
                   \/ d = 8 \/ d = 9 \/ d = 10 \/ d = 11 \/ d = 12 \/ d = 13 \/ d = 14
                   \/ d = 15) by lia.
  repeat (destruct Hcases as [-> | Hcases]; [repeat split; discriminate|]).
  subst d. repeat split; discriminate.
Qed.

Lemma hex2_nul_free (b : BYTE) : nul_free (hex2 b).
Proof.
  unfold hex2. repeat constructor.
  - apply (hex_char_digit ((b / 16) mod 16)). apply Z.mod_pos_bound. lia.
  - apply (hex_char_digit (b mod 16)). apply Z.mod_pos_bound. lia.
Qed.

Lemma escape_string_nul_free (s : wstr) : nul_free (REGPROC_escape_string s).
Proof.
  induction s as [|c s IH]; [constructor|].
  cbn [REGPROC_escape_string]. apply nul_free_app; [|exact IH].
  destruct (c =? CR); [repeat constructor; discriminate|].
  destruct (c =? LF); [repeat constructor; discriminate|].
  destruct (c =? BACKSLASH); [repeat constructor; discriminate|].
  destruct (c =? DQUOTE); [repeat constructor; discriminate|].
  destruct (c =? NUL) eqn:E; [repeat constructor; discriminate|].
  apply Z.eqb_neq in E. repeat constructor. exact E.
Qed.

Lemma export_string_nul_free (s : wstr) : nul_free s -> nul_free (REGPROC_export_string s).
Proof.
  induction 1 as [|c s Hc _ IH]; [constructor|].
  cbn [REGPROC_export_string]. apply nul_free_app; [|exact IH].
  destruct (c =? LF); [repeat constructor; discriminate|].
  destruct (c =? CR); [repeat constructor; discriminate|].
  destruct ((c =? BACKSLASH) || (c =? DQUOTE)); repeat constructor; try discriminate; exact Hc.
Qed.

Lemma cstr_is_nul_free (s : wstr) : nul_free (cstr s).
Proof.
  induction s as [|c s IH]; [constructor|].
  cbn [cstr]. destruct (c =? NUL) eqn:E; [constructor|].
  apply Z.eqb_neq in E. now constructor.
Qed.

Lemma hex_digits_nul_free (fuel : nat) (n : Z) : nul_free (hex_digits fuel n).
Proof.
  revert n. induction fuel as [|fuel IH]; intros n; [constructor|].
  cbn [hex_digits].
  assert (Hc : hex_char (n mod 16) <> NUL).
  { apply (hex_char_digit (n mod 16)). apply Z.mod_pos_bound. lia. }
  destruct (n <? 16); [repeat constructor; exact Hc|].
  apply nul_free_app; [apply IH|repeat constructor; exact Hc].
Qed.

Lemma hex_prefix_nul_free (type : Z) : nul_free (hex_prefix type).
Proof.
  unfold hex_prefix. destruct (type =? 3).
  - repeat constructor; discriminate.
  - apply nul_free_app; [repeat constructor; discriminate|].
    apply nul_free_app; [apply hex_digits_nul_free|repeat constructor; discriminate].
Qed.

Lemma hex8_nul_free (n : Z) : nul_free (hex8 n).
Proof.
  unfold hex8. cbn [map].
  repeat (constructor; [apply (hex_char_digit (_ mod 16)); apply Z.mod_pos_bound; lia|]).
  constructor.
Qed.

Lemma export_binary_loop_nul_free (data : list BYTE) (col : Z) :
  nul_free (export_binary_loop col data).
Proof.
  revert col. induction data as [|b rest IH]; intros col; [constructor|].
  cbn [export_binary_loop]. destruct rest as [|b' rest']; [apply hex2_nul_free|].
  apply nul_free_app; [apply hex2_nul_free|].
  apply nul_free_app; [repeat constructor; discriminate|].
  destruct (REG_FILE_HEX_LINE_LEN <=? col + 3); [|apply IH].
  apply nul_free_app; [repeat constructor; discriminate|apply IH].
Qed.

Section ExportText.
Context `{CodePage}.

Lemma encode_app (u : bool) (a b : wstr) : encode u (a ++ b) = encode u a ++ encode u b.
Proof.
  unfold encode, wide_bytes. destruct u; [apply flat_map_app|apply map_app].
Qed.

Lemma write_line_encode (fp : list BYTE) (s : wstr) (u : bool) :
  nul_free s -> REGPROC_write_line fp s u = fp ++ encode u s.
Proof.
  intros Hs. unfold REGPROC_write_line, GetMultiByteString, encode.
  rewrite (cstr_nul_free s Hs). destruct u; reflexivity.
Qed.

Lemma value_name_text_nul_free (name : wstr) : nul_free (value_name_text name).
Proof.
  unfold value_name_text, quoted. destruct (cstr name).
  - repeat constructor; discriminate.
  - apply nul_free_app; [|repeat constructor; discriminate].
    apply nul_free_app; [repeat constructor; discriminate|].
    apply nul_free_app; [apply escape_string_nul_free|repeat constructor; discriminate].
Qed.

Lemma export_value_name_text (fp : list BYTE) (name : wstr) (u : bool) :
  export_value_name fp name u
  = (fp ++ encode u (value_name_text name), Z.of_nat (length (value_name_text name))).
Proof.
  pose proof (value_name_text_nul_free name) as Hn.
  unfold export_value_name, value_name_text, quoted in *.
  destruct (cstr name).
  - now rewrite write_line_encode by exact Hn.
  - rewrite write_line_encode.
    + now rewrite <- !app_assoc.
    + now rewrite <- !app_assoc in Hn.
Qed.

Lemma export_hex_loop_text (u : bool) (data : list BYTE) :
  forall fp buf line_len,
    nul_free buf ->
    nul_free (snd (export_hex_loop fp buf line_len data u))
    /\ fst (export_hex_loop fp buf line_len data u)
         ++ encode u (snd (export_hex_loop fp buf line_len data u))
       = fp ++ encode u (buf ++ export_binary_loop line_len data).
Proof.
  induction data as [|b rest IH]; intros fp buf line_len Hbuf.
  - cbn. now rewrite app_nil_r.
  - cbn [export_hex_loop export_binary_loop].
    destruct rest as [|b' rest'].
    + cbn [fst snd]. split; [|reflexivity].
      apply nul_free_app; [exact Hbuf|apply hex2_nul_free].
    + change MAX_HEX_CHARS with REG_FILE_HEX_LINE_LEN.
      assert (Hbuf' : nul_free (buf ++ hex2 b ++ [COMMA])).
      { apply nul_free_app; [exact Hbuf|].
        apply nul_free_app; [apply hex2_nul_free|repeat constructor; discriminate]. }
      destruct (REG_FILE_HEX_LINE_LEN <=? line_len + 3).
      * rewrite (write_line_encode fp _ u Hbuf').
        rewrite (write_line_encode _ concat_text u)
          by (repeat constructor; discriminate).
        destruct (IH (((fp ++ encode u (buf ++ hex2 b ++ [COMMA])) ++ encode u concat_text))
                     [] 2 ltac:(constructor)) as [IH1 IH2].
        split; [exact IH1|].
        rewrite IH2. cbn [app].
        rewrite <- !app_assoc, <- !encode_app. rewrite <- !app_assoc. reflexivity.
      * destruct (IH fp (buf ++ hex2 b ++ [COMMA]) (line_len + 3) Hbuf') as [IH1 IH2].
        split; [exact IH1|].
        rewrite IH2. rewrite <- !app_assoc. reflexivity.
Qed.

(** The first loop of [export_registry_data] writes the text of each
    value. *)
Lemma export_values_text (u : bool) (vs : list (wstr * reg_value)) :
  forall fp,
    export_values fp vs u
    = match vs with
      | [] => Some fp
      | (name, v) :: rest =>
          match value_text name v u with
          | Some t => export_values (fp ++ encode u t) rest u
          | None => None
          end
      end.
Proof.
  destruct vs as [|[name v] rest]; intros fp; [reflexivity|].
  cbn [export_values]. rewrite export_value_name_text.
  pose proof (value_name_text_nul_free name) as Hn.
  unfold value_text.
  destruct (val_type v =? 1) eqn:Esz; cbn [negb].
  - (* REG_SZ *)
    apply Z.eqb_eq in Esz. rewrite Esz.
    unfold export_hkey.
    assert (Hterm : (Z.of_nat (length (val_data v)) <? 2)
                    || negb (Z.of_nat (length (val_data v)) mod 2 =? 0)
                    || negb (last (wide_chars (val_data v)) 0 =? 0)
                    = negb (sz_terminated (val_data v))).
    { unfold sz_terminated. now rewrite negb_involutive. }
    rewrite Hterm.
    destruct (sz_terminated (val_data v)); cbn [negb].
    + change [DQUOTE; CR; LF] with ([DQUOTE] ++ CRLF).
      rewrite write_line_encode.
      * unfold quoted. rewrite !encode_app, <- !app_assoc. reflexivity.
      * apply nul_free_app; [repeat constructor; discriminate|].
        apply nul_free_app; [|repeat constructor; discriminate].
        apply export_string_nul_free, cstr_is_nul_free.
    + rewrite write_line_encode.
      * rewrite !encode_app, <- !app_assoc. reflexivity.
      * unfold REGPROC_export_binary.
        apply nul_free_app; [apply hex_prefix_nul_free|].
        apply nul_free_app;
          [apply export_binary_loop_nul_free|repeat constructor; discriminate].
  - unfold export_data.
    destruct (val_type v =? 4) eqn:Edw.
    + (* REG_DWORD *)
      unfold export_dword_data.
      destruct (val_data v) as [|b0 [|b1 [|b2 [|b3 d]]]]; try reflexivity.
      rewrite (write_line_encode _ CRLF) by (repeat constructor; discriminate).
      rewrite write_line_encode.
      * rewrite !encode_app, <- !app_assoc. reflexivity.
      * apply nul_free_app; [repeat constructor; discriminate|apply hex8_nul_free].
    + unfold export_hex_data, export_hex_data_type.
      rewrite write_line_encode by apply hex_prefix_nul_free.
      fold (hex_payload (val_type v) (val_data v) u).
      destruct (hex_payload (val_type v) (val_data v) u) as [|b d] eqn:Ed; [reflexivity|].
      destruct (export_hex_loop_text u (b :: d)
                  ((fp ++ encode u (value_name_text name)) ++ encode u (hex_prefix (val_type v)))
                  [] (Z.of_nat (length (value_name_text name))
                      + Z.of_nat (length (hex_prefix (val_type v))))
                  ltac:(constructor)) as [Hnf Htext].
      destruct (export_hex_loop _ _ _ _ _) as [fp' buf'] eqn:Eloop.
      cbn [fst snd] in Hnf, Htext.
      rewrite (write_line_encode _ CRLF) by (repeat constructor; discriminate).
      rewrite write_line_encode by exact Hnf.
      rewrite Htext. cbn [app].
      rewrite !encode_app, <- !app_assoc. reflexivity.
Qed.

End ExportText.

(** ** C6: which values are written as strings *)

Section StringValues.
Context `{CodePage}.

(** C6, as the code has it.  A [REG_SZ] value whose data is a whole
    number of wide characters ending in a NUL is written as a string in
    double quotes, with escapes; a [REG_SZ] value whose data is not of
    that form is written as a byte list after [hex(1):]; a value of any
    other type is written after [dword:], [hex:] or [hex(]. *)
Theorem string_values_are_quoted_when_terminated
    (fp : list BYTE) (name : wstr) (v : reg_value) (u : bool) :
  export_values fp [(name, v)] u
  = match value_text name v u with
    | Some t => Some (fp ++ encode u t)
    | None => None
    end
  /\ (val_type v = REG_SZ -> sz_terminated (val_data v) = true ->
      value_text name v u
      = Some (value_name_text name
                ++ quoted (REGPROC_export_string (cstr (wide_chars (val_data v))))
                ++ CRLF))
  /\ (val_type v = REG_SZ -> sz_terminated (val_data v) = false ->
      exists body,
        value_text name v u = Some (value_name_text name ++ W "hex(1):" ++ body))
  /\ (val_type v <> REG_SZ ->
      forall t, value_text name v u = Some t ->
      exists body,
        t = value_name_text name ++ body
        /\ (starts_with (W "dword:") body = true
            \/ starts_with (W "hex:") body = true
            \/ starts_with (W "hex(") body = true)).
Proof.
  split; [|split; [|split]].
  - rewrite export_values_text.
    destruct (value_text name v u); [|reflexivity].
    now rewrite export_values_text.
  - intros Htype Hterm. unfold value_text. now rewrite Htype, Hterm.
  - intros Htype Hterm. unfold value_text. rewrite Htype, Hterm. cbn [Z.eqb Pos.eqb].
    unfold REGPROC_export_binary.
    change (hex_prefix 1) with (W "hex(1):").
    eexists. reflexivity.
  - intros Htype t. unfold value_text.
    apply Z.eqb_neq in Htype. rewrite Htype.
    destruct (val_type v =? 4).
    + destruct (val_data v) as [|b0 [|b1 [|b2 [|b3 d]]]]; try discriminate.
      intros [= <-]. eexists. split; [reflexivity|]. left. reflexivity.
    + destruct (hex_payload (val_type v) (val_data v) u); [discriminate|].
      intros [= <-]. eexists. split; [reflexivity|].
      right. unfold hex_prefix. destruct (val_type v =? 3); [left|right]; reflexivity.
Qed.

End StringValues.

Lemma string_values_are_quoted_when_terminated_witness :
  export_values (H := latin1) [] [(W "s", {| val_type := REG_SZ; val_data := [104; 0; 0; 0] |})] true
  = Some (encode (H := latin1) true (quoted (W "s") ++ W "=" ++ quoted (W "h") ++ CRLF)).
Proof.
  destruct (string_values_are_quoted_when_terminated (H := latin1) []
              (W "s") {| val_type := REG_SZ; val_data := [104; 0; 0; 0] |} true)
    as (Hexport & Hquoted & _).
  rewrite Hexport, (Hquoted eq_refl eq_refl). reflexivity.
Defined.

(** The claim of C6 as it is written fails for a [REG_SZ] value whose
    data does not end in a NUL character: it is written as a byte
    list. *)
Lemma unterminated_string_is_written_in_hex :
  export_values (H := latin1) []
    [(W "bad", {| val_type := REG_SZ; val_data := [65; 0] |})] true
  = Some (wide_bytes (quoted (W "bad") ++ W "=hex(1):41,00" ++ CRLF)).
Proof. vm_compute; reflexivity. Qed.

(** ** C8: the width of the lines of a byte list *)

Lemma lines_of_cons (t : wstr) : exists l ls, lines_of t = l :: ls.
Proof.
  induction t as [|c t (l & ls & IH)]; [now exists [], []|].
  cbn [lines_of].
  destruct (c =? CR); [eexists; eexists; reflexivity|].
  destruct (c =? LF); [eexists; eexists; reflexivity|].
  rewrite IH. eexists; eexists; reflexivity.
Qed.

Lemma lines_of_app (cur rest : wstr) :
  no_eol cur ->
  lines_of (cur ++ rest)
  = match lines_of rest with
    | l :: ls => (cur ++ l) :: ls
    | [] => [cur]
    end.
Proof.
  induction 1 as [|c cur (Hcr & Hlf) _ IH].
  - cbn [app]. destruct (lines_of_cons rest) as (l & ls & ->). reflexivity.
  - cbn [app lines_of]. apply Z.eqb_neq in Hcr, Hlf. rewrite Hcr, Hlf, IH.
    destruct (lines_of_cons rest) as (l & ls & ->). reflexivity.
Qed.

Lemma hex2_no_eol (b : BYTE) : no_eol (hex2 b).
Proof.
  unfold hex2.
  pose proof (hex_char_digit ((b / 16) mod 16) ltac:(apply Z.mod_pos_bound; lia)) as H1.
  pose proof (hex_char_digit (b mod 16) ltac:(apply Z.mod_pos_bound; lia)) as H2.
  repeat constructor; tauto.
Qed.

Lemma escape_string_no_eol (s : wstr) : no_eol (REGPROC_escape_string s).
Proof.
  induction s as [|c s IH]; [constructor|].
  cbn [REGPROC_escape_string]. apply no_eol_app; [|exact IH].
  destruct (c =? CR) eqn:Ecr; [repeat constructor; discriminate|].
  destruct (c =? LF) eqn:Elf; [repeat constructor; discriminate|].
  destruct (c =? BACKSLASH); [repeat constructor; discriminate|].
  destruct (c =? DQUOTE); [repeat constructor; discriminate|].
  destruct (c =? NUL); [repeat constructor; discriminate|].
  apply Z.eqb_neq in Ecr, Elf. repeat constructor; assumption.
Qed.

Lemma value_name_text_no_eol (name : wstr) : no_eol (value_name_text name).
Proof.
  unfold value_name_text, quoted. destruct (cstr name).
  - repeat constructor; discriminate.
  - apply no_eol_app; [|repeat constructor; discriminate].
    apply no_eol_app; [repeat constructor; discriminate|].
    apply no_eol_app; [apply escape_string_no_eol|repeat constructor; discriminate].
Qed.

Lemma hex_digits_no_eol (fuel : nat) (n : Z) : no_eol (hex_digits fuel n).
Proof.
  revert n. induction fuel as [|fuel IH]; intros n; [constructor|].
  cbn [hex_digits].
  pose proof (hex_char_digit (n mod 16) ltac:(apply Z.mod_pos_bound; lia)) as Hd.
  destruct (n <? 16); [repeat constructor; tauto|].
  apply no_eol_app; [apply IH|repeat constructor; tauto].
Qed.

Lemma hex_prefix_no_eol (type : Z) : no_eol (hex_prefix type).
Proof.
  unfold hex_prefix. destruct (type =? 3).
  - repeat constructor; discriminate.
  - apply no_eol_app; [repeat constructor; discriminate|].
    apply no_eol_app; [apply hex_digits_no_eol|repeat constructor; discriminate].
Qed.

(** A continuation line is wrapped when it holds 25 bytes: 75 columns
    and the backslash after the indent. *)
Lemma continuation_lines_fit (data : list BYTE) :
  forall col seg,
    no_eol seg ->
    Z.of_nat (length seg) = col - 2 ->
    2 <= col <= 74 -> col mod 3 = 2 ->
    Forall (fun l => width l <= 76)
      (lines_of (SPACE :: SPACE :: seg ++ export_binary_loop col data ++ CRLF)).
Proof.
  induction data as [|b rest IH]; intros col seg Hseg Hlen Hcol Hmod.
  - cbn [export_binary_loop app].
    change (SPACE :: SPACE :: seg ++ CRLF) with ((SPACE :: SPACE :: seg) ++ CRLF).
    rewrite lines_of_app by (repeat (constructor; [split; discriminate|]); exact Hseg).
    cbn. repeat constructor; unfold width; cbn; rewrite ?app_nil_r; lia.
  - cbn [export_binary_loop]. destruct rest as [|b' rest'].
    + rewrite app_assoc.
      change (SPACE :: SPACE :: (seg ++ hex2 b) ++ CRLF)
        with ((SPACE :: SPACE :: seg ++ hex2 b) ++ CRLF).
      rewrite lines_of_app
        by (repeat (constructor; [split; discriminate|]);
            apply no_eol_app; [exact Hseg|apply hex2_no_eol]).
      cbn. repeat constructor; unfold width; cbn; rewrite ?app_nil_r, ?length_app; cbn; lia.
    + unfold REG_FILE_HEX_LINE_LEN.
      destruct (2 + 25 * 3 <=? col + 3) eqn:Ewrap.
      * apply Z.leb_le in Ewrap.
        replace (SPACE :: SPACE :: seg
                   ++ (hex2 b ++ [COMMA] ++ concat_text ++ export_binary_loop 2 (b' :: rest'))
                   ++ CRLF)
          with ((SPACE :: SPACE :: seg ++ hex2 b ++ [COMMA; BACKSLASH])
                  ++ CR :: LF :: SPACE :: SPACE :: []
                  ++ export_binary_loop 2 (b' :: rest') ++ CRLF).
        2:{ unfold concat_text. cbn [app]. rewrite <- !app_assoc. reflexivity. }
        rewrite lines_of_app.
        2:{ repeat (constructor; [split; discriminate|]).
            apply no_eol_app; [exact Hseg|].
            apply no_eol_app; [apply hex2_no_eol|repeat constructor; discriminate]. }
        cbn [lines_of Z.eqb Pos.eqb].
        constructor.
        -- unfold width. cbn. rewrite app_nil_r, !length_app. cbn. lia.
        -- apply (IH 2 []); [constructor|reflexivity|lia|reflexivity].
      * apply Z.leb_gt in Ewrap.
        replace (SPACE :: SPACE :: seg
                   ++ (hex2 b ++ [COMMA] ++ export_binary_loop (col + 3) (b' :: rest'))
                   ++ CRLF)
          with (SPACE :: SPACE :: (seg ++ hex2 b ++ [COMMA])
                  ++ export_binary_loop (col + 3) (b' :: rest') ++ CRLF).
        2:{ rewrite <- !app_assoc. reflexivity. }
        apply IH.
        -- apply no_eol_app; [exact Hseg|].
           apply no_eol_app; [apply hex2_no_eol|repeat constructor; discriminate].
        -- rewrite !length_app. cbn. lia.
        -- pose proof (Z.div_mod col 3 ltac:(lia)) as Hdiv. lia.
        -- replace (col + 3) with (col + 1 * 3) by lia.
           rewrite Z.mod_add by lia. exact Hmod.
Qed.

(** The first line goes on from what is already on it, and is wrapped
    at the first comma at or after column 77. *)
Lemma first_line_fits (data : list BYTE) :
  forall col cur,
    no_eol cur ->
    exists first others,
      lines_of (cur ++ export_binary_loop col data ++ CRLF) = first :: others
      /\ Forall (fun l => width l <= 76) others
      /\ Z.of_nat (length first) <= Z.of_nat (length cur) + Z.max 4 (80 - col).
Proof.
  induction data as [|b rest IH]; intros col cur Hcur.
  - cbn [export_binary_loop app]. rewrite lines_of_app by exact Hcur.
    cbn. exists (cur ++ []), [[]]. split; [reflexivity|]. split.
    + repeat constructor. unfold width. cbn. lia.
    + rewrite app_nil_r. lia.
  - cbn [export_binary_loop]. destruct rest as [|b' rest'].
    + rewrite app_assoc. rewrite lines_of_app
        by (apply no_eol_app; [exact Hcur|apply hex2_no_eol]).
      cbn. exists ((cur ++ hex2 b) ++ []), [[]]. split; [reflexivity|]. split.
      * repeat constructor. unfold width. cbn. lia.
      * rewrite app_nil_r, length_app. cbn. lia.
    + unfold REG_FILE_HEX_LINE_LEN.
      destruct (2 + 25 * 3 <=? col + 3) eqn:Ewrap.
      * apply Z.leb_le in Ewrap.
        replace (cur ++ (hex2 b ++ [COMMA] ++ concat_text
                           ++ export_binary_loop 2 (b' :: rest')) ++ CRLF)
          with ((cur ++ hex2 b ++ [COMMA; BACKSLASH])
                  ++ CR :: LF :: SPACE :: SPACE :: []
                  ++ export_binary_loop 2 (b' :: rest') ++ CRLF).
        2:{ unfold concat_text. cbn [app]. rewrite <- !app_assoc. reflexivity. }
        rewrite lines_of_app.
        2:{ apply no_eol_app; [exact Hcur|].
            apply no_eol_app; [apply hex2_no_eol|repeat constructor; discriminate]. }
        cbn [lines_of Z.eqb Pos.eqb].
        eexists; eexists. split; [reflexivity|]. split.
        -- apply (continuation_lines_fit (b' :: rest') 2 []);
             [constructor|reflexivity|lia|reflexivity].
        -- rewrite app_nil_r, !length_app. cbn. lia.
      * apply Z.leb_gt in Ewrap.
        replace (cur ++ (hex2 b ++ [COMMA] ++ export_binary_loop (col + 3) (b' :: rest'))
                   ++ CRLF)
          with ((cur ++ hex2 b ++ [COMMA])
                  ++ export_binary_loop (col + 3) (b' :: rest') ++ CRLF).
        2:{ rewrite <- !app_assoc. reflexivity. }
        destruct (IH (col + 3) (cur ++ hex2 b ++ [COMMA])) as (first & others & Hl & Ho & Hf).
        { apply no_eol_app; [exact Hcur|].
          apply no_eol_app; [apply hex2_no_eol|repeat constructor; discriminate]. }
        exists first, others. split; [exact Hl|]. split; [exact Ho|].
        rewrite !length_app in Hf.
        change (length (hex2 b)) with 2%nat in Hf.
        change (length [COMMA]) with 1%nat in Hf. lia.
Qed.

Section HexLines.
Context `{CodePage}.

(** C8, as the code has it.  For a value written as a byte list every
    line after the first, without its indent of two spaces, has at most
    76 columns: 75 of data and the backslash.  The first line also holds
    the name of the value and the prefix, and is wrapped at the first
    comma at or after column 77: with [n] columns of name and [p] of
    prefix it has at most [max 80 (n + p + 4)] columns, and for a
    [REG_SZ] value, where the name is not counted, at most [n + 80]. *)
Theorem byte_list_lines_are_wrapped
    (fp : list BYTE) (name : wstr) (v : reg_value) (u : bool) (t : wstr) :
  value_text name v u = Some t ->
  val_type v <> REG_DWORD ->
  (val_type v = REG_SZ -> sz_terminated (val_data v) = false) ->
  export_values fp [(name, v)] u = Some (fp ++ encode u t)
  /\ exists first others,
      lines_of t = first :: others
      /\ Forall (fun l => width l <= 76) others
      /\ (val_type v <> REG_SZ ->
          Z.of_nat (length first)
          <= Z.max 80 (Z.of_nat (length (value_name_text name))
                       + Z.of_nat (length (hex_prefix (val_type v))) + 4))
      /\ (val_type v = REG_SZ ->
          Z.of_nat (length first) <= Z.of_nat (length (value_name_text name)) + 80).
Proof.
  intros Ht Hdw Hsz. split.
  - rewrite export_values_text, Ht. now rewrite export_values_text.
  - unfold value_text in Ht.
    destruct (val_type v =? 1) eqn:Esz.
    + apply Z.eqb_eq in Esz. rewrite (Hsz Esz) in Ht. injection Ht as <-.
      unfold REGPROC_export_binary. rewrite app_assoc.
      destruct (first_line_fits
                  (if negb (1 =? 3) && ((1 =? 1) || (1 =? 2) || (1 =? 7)) && negb u
                   then GetMultiByteStringN (val_data v) else val_data v)
                  (0 + Z.of_nat (length (hex_prefix 1)))
                  (value_name_text name ++ hex_prefix 1))
        as (first & others & Hl & Ho & Hf).
      { apply no_eol_app; [apply value_name_text_no_eol|apply hex_prefix_no_eol]. }
      exists first, others. split; [exact Hl|]. split; [exact Ho|]. split.
      * intros Hne. contradiction.
      * intros _. rewrite length_app in Hf. cbn in Hf. lia.
    + apply Z.eqb_neq in Esz, Hdw. rewrite Hdw in Ht.
      destruct (hex_payload (val_type v) (val_data v) u) as [|b d] eqn:Ed; [discriminate|].
      injection Ht as <-. rewrite app_assoc.
      destruct (first_line_fits (b :: d)
                  (Z.of_nat (length (value_name_text name))
                   + Z.of_nat (length (hex_prefix (val_type v))))
                  (value_name_text name ++ hex_prefix (val_type v)))
        as (first & others & Hl & Ho & Hf).
      { apply no_eol_app; [apply value_name_text_no_eol|apply hex_prefix_no_eol]. }
      exists first, others. split; [exact Hl|]. split; [exact Ho|]. split.
      * intros _. rewrite length_app in Hf. lia.
      * intros Heq. contradiction.
Qed.

End HexLines.

Lemma byte_list_lines_are_wrapped_witness :
  exists first others,
    lines_of (quoted (W "ab") ++ W "=hex:" ++ export_binary_loop 9 (repeat 7 30) ++ CRLF)
    = first :: others
    /\ Forall (fun l => width l <= 76) others.
Proof.
  destruct (byte_list_lines_are_wrapped (H := latin1) [] (W "ab")
              {| val_type := REG_BINARY; val_data := repeat 7 30 |} true
              (quoted (W "ab") ++ W "=hex:" ++ export_binary_loop 9 (repeat 7 30) ++ CRLF)
              eq_refl ltac:(discriminate) ltac:(discriminate))
    as (_ & first & others & Hl & Ho & _).
  exists first, others. split; [exact Hl|exact Ho].
Defined.

(** The claim of C8 as it is written fails on the first line: for the
    value [ab] with 24 bytes it holds 78 columns and the backslash. *)
Lemma first_line_exceeds_77_columns :
  exists t first others,
    export_values (H := latin1) []
      [(W "ab", {| val_type := REG_BINARY; val_data := repeat 7 24 |})] true
    = Some (wide_bytes t)
    /\ lines_of t = first :: others
    /\ width first = 79.
Proof.
  eexists; eexists; eexists. split; [|split].
  - rewrite export_values_text.
    change (value_text (H := latin1) (W "ab")
              {| val_type := REG_BINARY; val_data := repeat 7 24 |} true)
      with (Some (quoted (W "ab") ++ W "=hex:" ++ export_binary_loop 9 (repeat 7 24) ++ CRLF)).
    reflexivity.
  - vm_compute. reflexivity.
  - vm_compute. reflexivity.
Qed.

(** ** Reading back numbers *)

Lemma scan_hex_digits (vals : list Z) (tail : wstr) :
  Forall digit vals -> number_end tail ->
  forall acc n,
    scan_hex (map hex_char vals ++ tail) acc n
    = (fold_left (fun a d => 16 * a + d) vals acc, (n + length vals)%nat, tail).
Proof.
  intros Hvals Htail. induction Hvals as [|d vals Hd _ IH]; intros acc n.
  - cbn [map app fold_left length]. rewrite Nat.add_0_r.
    destruct tail as [|c tail]; [reflexivity|].
    cbn [scan_hex]. destruct Htail as (-> & _). reflexivity.
  - cbn [map app fold_left length scan_hex].
    destruct (hex_char_digit d Hd) as (-> & _).
    rewrite IH. now rewrite Nat.add_succ_r.
Qed.

Lemma strtoul16_digits (vals : list Z) (tail : wstr) :
  vals <> [] -> Forall digit vals -> number_end tail ->
  digits_value vals <= ULONG_MAX ->
  strtoul16 (map hex_char vals ++ tail)
  = {| ul_value := digits_value vals; ul_end := tail; ul_erange := false |}.
Proof.
  intros Hne Hvals Htail Hmax.
  destruct vals as [|d vals]; [contradiction|].
  inversion Hvals as [|? ? Hd Hvals']; subst.
  destruct (hex_char_digit d Hd) as (Hdv & Hsp & _ & _ & _ & Hm & Hp & _).
  unfold strtoul16. cbn [map app skip_space]. rewrite Hsp.
  apply Z.eqb_neq in Hm, Hp. rewrite Hm, Hp.
  assert (Hprefix :
            match map hex_char vals ++ tail with
            | x :: _ => ((x =? 120) || (x =? 88)) = false
            | [] => True
            end).
  { destruct vals as [|d2 vals].
    - cbn [map app]. destruct tail as [|c tail]; [exact I|].
      destruct Htail as (_ & Hx1 & Hx2). apply Z.eqb_neq in Hx1, Hx2.
      now rewrite Hx1, Hx2.
    - cbn [map app]. inversion Hvals' as [|? ? Hd2 _]; subst.
      destruct (hex_char_digit d2 Hd2) as (_ & _ & _ & _ & _ & _ & _ & -> & -> & _).
      reflexivity. }
  pose proof (scan_hex_digits (d :: vals) tail Hvals Htail 0 0%nat) as Hscan.
  cbn [map app] in Hscan.
  destruct (map hex_char vals ++ tail) as [|x l] eqn:El.
  - rewrite Hscan. cbn [length Nat.add].
    unfold digits_value in Hmax. apply Z.ltb_ge in Hmax. rewrite Hmax. reflexivity.
  - rewrite Hprefix, andb_false_r. rewrite Hscan. cbn [length Nat.add].
    unfold digits_value in Hmax. apply Z.ltb_ge in Hmax. rewrite Hmax. reflexivity.
Qed.

Lemma hex2_digits (b : BYTE) : hex2 b = map hex_char [(b / 16) mod 16; b mod 16].
Proof. reflexivity. Qed.

Lemma number_end_comma (tail : wstr) : number_end (COMMA :: tail).
Proof. repeat split; discriminate. Qed.

Lemma strtoul16_hex2 (b : BYTE) (tail : wstr) :
  byte_range b -> number_end tail ->
  strtoul16 (hex2 b ++ tail) = {| ul_value := b; ul_end := tail; ul_erange := false |}.
Proof.
  intros Hb Htail. rewrite hex2_digits.
  assert (Hval : digits_value [(b / 16) mod 16; b mod 16] = b).
  { unfold digits_value, byte_range in *. cbn [fold_left].
    pose proof (Z.div_mod b 16 ltac:(lia)) as Hdm.
    rewrite (Z.mod_small (b / 16) 16) by (split; [apply Z.div_pos|apply Z.div_lt_upper_bound]; lia).
    lia. }
  rewrite strtoul16_digits.
  - now rewrite Hval.
  - discriminate.
  - constructor; [apply Z.mod_pos_bound; lia|].
    constructor; [apply Z.mod_pos_bound; lia|constructor].
  - exact Htail.
  - rewrite Hval. unfold byte_range, ULONG_MAX in *. lia.
Qed.

Lemma hex_digits_vals (fuel : nat) (n : Z) : hex_digits fuel n = map hex_char (hex_vals fuel n).
Proof.
  revert n. induction fuel as [|fuel IH]; intros n; [reflexivity|].
  cbn [hex_digits hex_vals]. destruct (n <? 16); [reflexivity|].
  now rewrite map_app, IH.
Qed.

Lemma hex_vals_digits (fuel : nat) (n : Z) : Forall digit (hex_vals fuel n).
Proof.
  revert n. induction fuel as [|fuel IH]; intros n; [constructor|].
  cbn [hex_vals].
  assert (Hd : digit (n mod 16)) by (apply Z.mod_pos_bound; lia).
  destruct (n <? 16); [constructor; [exact Hd|constructor]|].
  apply Forall_app. split; [apply IH|constructor; [exact Hd|constructor]].
Qed.

Lemma fold_digits_app (a b : list Z) (acc : Z) :
  fold_left (fun x d => 16 * x + d) (a ++ b) acc
  = fold_left (fun x d => 16 * x + d) b (fold_left (fun x d => 16 * x + d) a acc).
Proof. apply fold_left_app. Qed.

Lemma hex_vals_value (fuel : nat) (n : Z) :
  0 <= n < 16 ^ Z.of_nat fuel -> digits_value (hex_vals fuel n) = n.
Proof.
  revert n. induction fuel as [|fuel IH]; intros n Hn.
  - cbn in Hn. unfold digits_value. cbn. lia.
  - cbn [hex_vals]. destruct (n <? 16) eqn:E.
    + apply Z.ltb_lt in E. unfold digits_value. cbn [fold_left].
      rewrite Z.mod_small by lia. lia.
    + apply Z.ltb_ge in E. unfold digits_value in *.
      rewrite fold_digits_app, IH.
      * cbn [fold_left]. pose proof (Z.div_mod n 16 ltac:(lia)). lia.
      * rewrite Nat2Z.inj_succ, Z.pow_succ_r in Hn by lia.
        split; [apply Z.div_pos; lia|apply Z.div_lt_upper_bound; lia].
Qed.

Lemma hex_vals_nonempty (fuel : nat) (n : Z) : hex_vals (S fuel) n <> [].
Proof.
  cbn [hex_vals]. destruct (n <? 16); [discriminate|].
  destruct (hex_vals fuel (n / 16)); discriminate.
Qed.

Lemma strtoul16_hex_of_dword (type : Z) (tail : wstr) :
  0 <= type < 2 ^ 32 -> number_end tail ->
  strtoul16 (hex_of_dword type ++ tail)
  = {| ul_value := type; ul_end := tail; ul_erange := false |}.
Proof.
  intros Ht Htail. unfold hex_of_dword.
  rewrite Z.mod_small by exact Ht.
  rewrite hex_digits_vals.
  assert (Hval : digits_value (hex_vals 8 type) = type).
  { apply hex_vals_value. change (16 ^ Z.of_nat 8) with (2 ^ 32). exact Ht. }
  rewrite strtoul16_digits.
  - now rewrite Hval.
  - apply hex_vals_nonempty.
  - apply hex_vals_digits.
  - exact Htail.
  - rewrite Hval. unfold ULONG_MAX. lia.
Qed.

(** ** Reading back byte lists *)

Lemma hex_csv_loop_byte (fuel : nat) (p : parser) (b : BYTE) (tail : wstr) :
  byte_range b ->
  hex_csv_loop (S fuel) p (hex2 b ++ COMMA :: tail)
  = hex_csv_loop fuel (set_data p (data p ++ [b]) (data_cap p)) tail.
Proof.
  intros Hb.
  pose proof (strtoul16_hex2 b (COMMA :: tail) Hb (number_end_comma tail)) as E.
  cbn [hex_csv_loop hex2 app] in *. rewrite E.
  cbn [ul_erange ul_value ul_end].
  assert (H255 : (255 <? b) = false) by (apply Z.ltb_ge; unfold byte_range in Hb; lia).
  rewrite H255.
  replace (Nat.eqb (length (COMMA :: tail))
             (length (hex_char ((b / 16) mod 16) :: hex_char (b mod 16) :: COMMA :: tail)))
    with false.
  2:{ symmetry. apply Nat.eqb_neq. cbn [length]. lia. }
  reflexivity.
Qed.

Lemma hex_csv_loop_last (fuel : nat) (p : parser) (b : BYTE) :
  byte_range b ->
  hex_csv_loop (S (S fuel)) p (hex2 b)
  = Some (true, set_data p (data p ++ [b]) (data_cap p), None).
Proof.
  intros Hb.
  pose proof (strtoul16_hex2 b [] Hb I) as E. rewrite app_nil_r in E.
  cbn [hex_csv_loop hex2] in *. rewrite E.
  cbn [ul_erange ul_value ul_end].
  assert (H255 : (255 <? b) = false) by (apply Z.ltb_ge; unfold byte_range in Hb; lia).
  rewrite H255. reflexivity.
Qed.

Lemma set_data_twice (p : parser) (a b : list BYTE) :
  set_data (set_data p (data p ++ a) (data_cap p))
    (data (set_data p (data p ++ a) (data_cap p)) ++ b)
    (data_cap (set_data p (data p ++ a) (data_cap p)))
  = set_data p (data p ++ a ++ b) (data_cap p).
Proof. destruct_parser p. norm_parser. now rewrite app_assoc. Qed.

Lemma set_data_same (p : parser) : set_data p (data p ++ []) (data_cap p) = p.
Proof. destruct_parser p. norm_parser. now rewrite app_nil_r. Qed.

Lemma hex_csv_loop_commas (bs : list BYTE) :
  Forall byte_range bs ->
  forall fuel p tail,
    hex_csv_loop (length bs + fuel) p (hex_commas bs ++ tail)
    = hex_csv_loop fuel (set_data p (data p ++ bs) (data_cap p)) tail.
Proof.
  induction 1 as [|b bs Hb _ IH]; intros fuel p tail.
  - cbn [length Nat.add hex_commas flat_map app]. now rewrite set_data_same.
  - cbn [length Nat.add hex_commas flat_map]. fold (hex_commas bs).
    rewrite <- !app_assoc. cbn [app].
    rewrite (hex_csv_loop_byte _ p b _ Hb), IH.
    now rewrite (set_data_twice p [b] bs).
Qed.

Lemma length_hex_commas (bs : list BYTE) : length (hex_commas bs) = (3 * length bs)%nat.
Proof.
  induction bs as [|b bs IH]; [reflexivity|].
  cbn [hex_commas flat_map]. fold (hex_commas bs).
  rewrite length_app, IH. cbn [length hex2 app]. lia.
Qed.

Lemma hex_csv_snoc (bs : list BYTE) (b : BYTE) : hex_csv (bs ++ [b]) = hex_commas bs ++ hex2 b.
Proof.
  induction bs as [|a bs IH]; [reflexivity|].
  cbn [app hex_csv hex_commas flat_map]. fold (hex_commas bs).
  rewrite IH. destruct (bs ++ [b]) eqn:E.
  - destruct bs; discriminate E.
  - now rewrite <- app_assoc.
Qed.

(** A line of bytes that goes on: the bytes are added to the data and
    the continuation flag is set. *)
Lemma convert_continued_line (p : parser) (bs : list BYTE) :
  Forall byte_range bs ->
  exists cap,
    convert_hex_csv_to_hex p (hex_commas bs ++ [BACKSLASH])
    = (true, set_backslash (set_data p (data p ++ bs) cap) true, []).
Proof.
  intros Hbs. unfold convert_hex_csv_to_hex.
  replace (S (length (hex_commas bs ++ [BACKSLASH])))
    with (length bs + S (2 * length bs + 1))%nat
    by (rewrite length_app, length_hex_commas; cbn [length]; lia).
  rewrite (hex_csv_loop_commas bs Hbs).
  rewrite (hex_csv_loop_marker _ _ [] []) by constructor.
  destruct_parser p. eexists. norm_parser. reflexivity.
Qed.

(** The last line of bytes: the bytes are added to the data. *)
Lemma convert_last_line (p : parser) (bs : list BYTE) :
  Forall byte_range bs ->
  exists cap,
    convert_hex_csv_to_hex p (hex_csv bs)
    = (true, set_backslash (set_data p (data p ++ bs) cap) false, hex_csv bs).
Proof.
  intros Hbs. unfold convert_hex_csv_to_hex.
  destruct bs as [|b0 bs0] using rev_ind.
  - destruct_parser p. eexists. cbn. rewrite app_nil_r. reflexivity.
  - clear IHbs0. apply Forall_app in Hbs as [Hbs Hb].
    inversion Hb as [|? ? Hb0 _]; subst.
    rewrite hex_csv_snoc.
    replace (S (length (hex_commas bs0 ++ hex2 b0)))
      with (length bs0 + S (S (2 * length bs0 + 1)))%nat
      by (rewrite length_app, length_hex_commas; cbn [length hex2]; lia).
    rewrite (hex_csv_loop_commas bs0 Hbs).
    rewrite hex_csv_loop_last by exact Hb0.
    destruct_parser p. eexists. norm_parser. rewrite <- app_assoc. reflexivity.
Qed.

(** ** C4: the continuation marker *)

(** C4, as the code has it.  The continuation marker is a token without
    any digit: blanks, if any, and a backslash, where the next byte would
    start, at the beginning of the list or after the comma of a byte.
    Then parsing succeeds with the continuation flag set, the bytes
    before the marker and no other are added to the pending data, and
    the line is left after the backslash.  A digit 0 before the blanks
    and the backslash is a byte of its own: it is added to the data and
    the line is rejected. *)
Theorem continuation_marker_has_no_digit (p : parser) (bs : list BYTE) (ws rest : wstr) :
  Forall byte_range bs ->
  blanks ws ->
  (exists p',
      convert_hex_csv_to_hex p (hex_commas bs ++ ws ++ BACKSLASH :: rest) = (true, p', rest)
      /\ backslash p' = true /\ data p' = data p ++ bs)
  /\ (exists p',
      convert_hex_csv_to_hex p (hex_commas bs ++ 48 :: ws ++ BACKSLASH :: rest)
      = (false, p', hex_commas bs ++ 48 :: ws ++ BACKSLASH :: rest)
      /\ backslash p' = false /\ data p' = data p ++ bs ++ [0]).
Proof.
  intros Hbs Hws. split.
  - unfold convert_hex_csv_to_hex.
    replace (S (length (hex_commas bs ++ ws ++ BACKSLASH :: rest)))
      with (length bs + S (2 * length bs + length (ws ++ BACKSLASH :: rest)))%nat
      by (rewrite !length_app, length_hex_commas; cbn [length]; rewrite ?length_app;
          cbn [length]; lia).
    rewrite (hex_csv_loop_commas bs Hbs).
    rewrite hex_csv_loop_marker by assumption.
    eexists; split; [reflexivity|]. destruct_parser p. split; reflexivity.
  - unfold convert_hex_csv_to_hex.
    replace (S (length (hex_commas bs ++ 48 :: ws ++ BACKSLASH :: rest)))
      with (length bs + S (2 * length bs + S (length (ws ++ BACKSLASH :: rest))))%nat
      by (rewrite !length_app, length_hex_commas; cbn [length]; rewrite ?length_app;
          cbn [length]; lia).
    rewrite (hex_csv_loop_commas bs Hbs).
    rewrite hex_csv_loop_zero_then_backslash by assumption.
    eexists; split; [reflexivity|]. destruct_parser p. norm_parser.
    split; [reflexivity|]. now rewrite <- app_assoc.
Qed.

Lemma continuation_marker_has_no_digit_witness :
  Forall byte_range [1; 2] /\ blanks [SPACE]
  /\ (exists p',
      convert_hex_csv_to_hex (initial_parser true 255 254 [] empty_registry false)
        (W "01,02, \") = (true, p', [])
      /\ backslash p' = true
      /\ data p' = [1; 2]).
Proof.
  split; [repeat constructor; lia|]. split; [repeat constructor|].
  apply (proj1 (continuation_marker_has_no_digit
                  (initial_parser true 255 254 [] empty_registry false)
                  [1; 2] [SPACE] []
                  ltac:(repeat constructor; lia) ltac:(repeat constructor))).
Defined.

(** The claim of C4 as it is written fails on the input [0 \]: the
    function returns FALSE, the continuation flag stays clear and the
    zero is in the data. *)
Lemma zero_blank_backslash_is_rejected :
  let '(ret, p', _) :=
    convert_hex_csv_to_hex (initial_parser true 255 254 [] empty_registry false) (W "0 \") in
  ret = false /\ backslash p' = false /\ data p' = [0].
Proof. repeat split. Qed.

(** ** Lines that come back from the file *)

Lemma break_line_app (l rest : list Z) :
  no_eol l -> break_line (l ++ CR :: LF :: rest) = Some (l, rest).
Proof.
  induction 1 as [|c l (Hcr & Hlf) _ IH]; [reflexivity|].
  cbn [app break_line]. apply Z.eqb_neq in Hcr, Hlf.
  now rewrite Hcr, Hlf, IH.
Qed.

Section Reader.
Context `{CodePage}.

Lemma storable_ascii (u : bool) (c : Z) : 0 <= c < 128 -> storable u c.
Proof.
  intros Hc. split; [lia|]. intros _.
  rewrite (wc_to_mb_ascii c Hc). apply mb_to_wc_ascii, Hc.
Qed.

Lemma wc_to_mb_not (u : bool) (c k : Z) :
  storable u c -> 0 <= k < 128 -> c <> k -> u = false -> wc_to_mb c <> k.
Proof.
  intros [_ Hc] Hk Hne Hu Heq. apply Hne.
  rewrite <- (Hc Hu), Heq. apply mb_to_wc_ascii, Hk.
Qed.

Lemma clean_app (u : bool) (a b : wstr) : clean u a -> clean u b -> clean u (a ++ b).
Proof. intros Ha Hb. apply Forall_app. now split. Qed.

Lemma clean_nul_free (u : bool) (t : wstr) : clean u t -> nul_free t.
Proof. apply Forall_impl. now intros c [Hc _]. Qed.

Lemma decode_encode (l : wstr) : clean false l -> map mb_to_wc (map wc_to_mb l) = l.
Proof.
  induction 1 as [|c l [_ [_ Hc]] _ IH]; [reflexivity|].
  cbn [map]. now rewrite IH, (Hc eq_refl).
Qed.

Lemma no_eol_encode (l : wstr) : clean false l -> no_eol l -> no_eol (map wc_to_mb l).
Proof.
  induction 1 as [|c l [_ Hc] _ IH]; intros Heol; [constructor|].
  inversion Heol as [|? ? (Hcr & Hlf) Hl]; subst.
  cbn [map]. constructor; [|apply IH, Hl].
  split; apply (wc_to_mb_not false); try assumption; try lia; reflexivity.
Qed.

Lemma reader_text_line (u : bool) (l rest : wstr) :
  reader_text u (l ++ CR :: LF :: rest) = reader_text u l ++ CR :: LF :: reader_text u rest.
Proof.
  unfold reader_text. destruct u; [reflexivity|].
  rewrite map_app. cbn [map].
  now rewrite (wc_to_mb_ascii CR), (wc_to_mb_ascii LF) by lia.
Qed.

Lemma reader_text_no_eol (u : bool) (l : wstr) :
  clean u l -> no_eol l -> no_eol (reader_text u l).
Proof.
  intros Hclean Heol. unfold reader_text. destruct u; [exact Heol|].
  now apply no_eol_encode.
Qed.

(** The next line, as [get_line] hands it out. *)
Lemma get_line_text (u : bool) (l rest : wstr) (p : parser) :
  no_eol l -> clean u l ->
  is_unicode p = u ->
  reads (file p) (reader_text u (l ++ CR :: LF :: rest)) ->
  exists f' cells,
    get_line p = (set_behind (set_file p f') cells, Some l)
    /\ reads_late f' (reader_text u rest).
Proof.
  intros Heol Hclean Hu Hreads.
  destruct (get_line_cases p _ Hreads) as (f' & l' & cells & Hget & Hl' & Hcases).
  rewrite reader_text_line in Hcases.
  pose proof (reader_text_no_eol u l Hclean Heol) as Heol'.
  assert (Hline : l' = reader_text u l /\ reads_late f' (reader_text u rest)).
  { destruct Hcases as [(Ht & _) | [(x & Ht & Hx) | [(x & Ht & Hx & _) | (x & Ht & _)]]].
    - exfalso. rewrite <- Ht in Hl'. eapply no_eol_not_split; [exact Hl'|now left].
    - destruct (eol_split_unique _ _ _ _ CR CR Heol' Hl' (or_introl eq_refl)
                  (or_introl eq_refl) Ht) as (-> & _ & [= <-]). now split.
    - destruct (eol_split_unique _ _ _ _ CR CR Heol' Hl' (or_introl eq_refl)
                  (or_introl eq_refl) Ht) as (_ & _ & <-). now elim Hx.
    - destruct (eol_split_unique _ _ _ _ CR LF Heol' Hl' (or_introl eq_refl)
                  (or_intror eq_refl) Ht) as (_ & [=] & _). }
  destruct Hline as [-> Hrest].
  rewrite Hu in Hget. exists f', (if u then cells else []). split; [|exact Hrest].
  rewrite Hget. unfold reader_text. destruct u; [reflexivity|].
  now rewrite decode_encode.
Qed.

(** The empty line that the reader hands out when the LF of a CR LF
    comes with the next units of the stream. *)
Lemma get_line_lf (t : list Z) (p : parser) :
  reads (file p) (LF :: t) ->
  exists f' cells,
    get_line p = (set_behind (set_file p f') cells, Some [])
    /\ reads f' t.
Proof.
  intros Hreads.
  destruct (get_line_cases p _ Hreads) as (f' & l' & cells & Hget & Hl' & Hcases).
  assert (Hline : l' = [] /\ reads f' t).
  { change (LF :: t) with ([] ++ LF :: t) in Hcases.
    destruct Hcases as [(Ht & _) | [(x & Ht & _) | [(x & Ht & _) | (x & Ht & Hx)]]].
    - exfalso. rewrite <- Ht in Hl'. eapply no_eol_not_split; [exact Hl'|now right].
    - destruct (eol_split_unique _ _ _ _ LF CR (Forall_nil _) Hl' (or_intror eq_refl)
                  (or_introl eq_refl) Ht) as (_ & [=] & _).
    - destruct (eol_split_unique _ _ _ _ LF CR (Forall_nil _) Hl' (or_intror eq_refl)
                  (or_introl eq_refl) Ht) as (_ & [=] & _).
    - destruct (eol_split_unique _ _ _ _ LF LF (Forall_nil _) Hl' (or_intror eq_refl)
                  (or_intror eq_refl) Ht) as (<- & _ & <-). now split. }
  destruct Hline as [-> Hrest].
  exists f', (if is_unicode p then cells else []). split; [|exact Hrest].
  rewrite Hget. now destruct (is_unicode p).
Qed.

Lemma run_refl (p : parser) (pos : wstr) : run p pos p pos.
Proof. now exists 0%nat. Qed.

Lemma run_trans (p1 p2 p3 : parser) (pos1 pos2 pos3 : wstr) :
  run p1 pos1 p2 pos2 -> run p2 pos2 p3 pos3 -> run p1 pos1 p3 pos3.
Proof.
  intros [n Hn] [m Hm]. exists (n + m)%nat.
  now rewrite steps_add, Hn.
Qed.

Lemma run_step (p p1 p2 : parser) (pos pos1 pos2 : wstr) :
  parser_funcs (state p) p pos = Next p1 pos1 ->
  run p1 pos1 p2 pos2 -> run p pos p2 pos2.
Proof.
  intros Hstep [n Hn]. exists (S n). cbn [steps]. now rewrite Hstep.
Qed.

Lemma run_steps (n : nat) (p p' : parser) (pos pos' : wstr) :
  steps n p pos = Next p' pos' -> run p pos p' pos'.
Proof. intros Hn. now exists n. Qed.

(** The line that a parser between two lines is given next. *)
Lemma ready_line (u : bool) (h : option HKEY) (r : registry) (l rest : wstr) (p : parser) :
  no_eol l -> clean u l ->
  ready u h r (l ++ CR :: LF :: rest) p ->
  exists f' cells,
    get_line p = (set_behind (set_file p f') cells, Some l)
    /\ reads_late f' (reader_text u rest).
Proof.
  intros Heol Hclean (vn & pt & dt & Hp).
  apply get_line_text; try assumption; apply Hp.
Qed.

(** After a line, the parser is between two lines; when the LF of the
    line is still to come, one more turn reads it as an empty line. *)
Lemma settle_line_start (u : bool) (h : option HKEY) (r : registry) (text : wstr)
    (vn : option wstr) (pt dt : Z) (p : parser) (pos : wstr) :
  midline LINE_START u h r text vn pt dt [] p ->
  exists p' pos', run p pos p' pos' /\ ready u h r text p'.
Proof.
  intros (Hst & Hu & Hver & Hh & Hr & Hf & Hvn & Hpt & Hdt & Hd & He).
  destruct Hf as [Hf | [_ Hf]].
  - exists p, pos. split; [apply run_refl|]. exists vn, pt, dt.
    unfold midline_with. tauto.
  - destruct (get_line_lf _ p Hf) as (f' & cells & Hget & Hreads).
    exists (set_behind (set_file p f') cells), []. split.
    + eapply run_step; [|apply run_refl].
      rewrite Hst. cbn [parser_funcs]. unfold line_start_state. now rewrite Hget.
    + exists vn, pt, dt. destruct_parser p. unfold midline_with.
      cbn in *. tauto.
Qed.

Lemma run_to_ready (u : bool) (h : option HKEY) (r : registry) (text : wstr)
    (p : parser) (pos : wstr) :
  (exists p1 pos1,
      run p pos p1 pos1 /\ exists vn pt dt, midline LINE_START u h r text vn pt dt [] p1) ->
  exists p' pos', run p pos p' pos' /\ ready u h r text p'.
Proof.
  intros (p1 & pos1 & Hrun & vn & pt & dt & Hp1).
  destruct (settle_line_start u h r text vn pt dt p1 pos1 Hp1) as (p' & pos' & Hrun' & Hp').
  exists p', pos'. split; [eapply run_trans; eassumption|exact Hp'].
Qed.

(** The same between the lines of a byte list. *)
Lemma settle_hex_multiline (u : bool) (h : option HKEY) (r : registry) (text : wstr)
    (vn : option wstr) (pt dt : Z) (d : list BYTE) (p : parser) (pos : wstr) :
  midline HEX_MULTILINE u h r text vn pt dt d p ->
  exists p' pos',
    run p pos p' pos' /\ midline_with reads HEX_MULTILINE u h r text vn pt dt d p'.
Proof.
  intros (Hst & Hu & Hver & Hh & Hr & Hf & Hvn & Hpt & Hdt & Hd & He).
  destruct Hf as [Hf | [_ Hf]].
  - exists p, pos. split; [apply run_refl|]. unfold midline_with. tauto.
  - destruct (get_line_lf _ p Hf) as (f' & cells & Hget & Hreads).
    exists (set_behind (set_file p f') cells), []. split.
    + eapply run_step; [|apply run_refl].
      rewrite Hst. cbn [parser_funcs]. unfold hex_multiline_state. now rewrite Hget.
    + destruct_parser p. unfold midline_with. cbn in *. tauto.
Qed.

Lemma reads_between_lines (u : bool) (h : option HKEY) (r : registry) (text : list Z) :
  nul_free text -> reads (file (parser_between_lines u text h r)) text.
Proof.
  intros Hnf. split; [exact Hnf|]. exists []. repeat split.
  right. apply REG_VAL_BUF_SIZE_pos.
Qed.

Lemma ready_between_lines (u : bool) (h : option HKEY) (r : registry) (text : wstr) :
  nul_free (reader_text u text) ->
  ready u h r text (parser_between_lines u (reader_text u text) h r).
Proof.
  intros Hnf. exists None, 0, 0.
  pose proof (reads_between_lines u h r _ Hnf) as Hreads.
  unfold midline_with, parser_between_lines in *.
  cbn [state is_unicode reg_version hkey reg file value_name parse_type data_type data
       errno_erange] in *.
  repeat match goal with |- _ /\ _ => split end; try reflexivity; try assumption.
  destruct u; [now right|now left].
Qed.

Lemma nul_free_check (t : list Z) : forallb (fun c => negb (c =? NUL)) t = true -> nul_free t.
Proof.
  intros Ht. apply Forall_forall. intros c Hc.
  rewrite forallb_forall in Ht. specialize (Ht c Hc).
  apply negb_true_iff, Z.eqb_neq in Ht. exact Ht.
Qed.

End Reader.

(** ** The lines of an exported file, one kind after the other *)

Ltac flat_midline H p :=
  destruct_parser p; unfold midline, midline_with in H;
  cbn [state is_unicode reg_version hkey reg file value_name parse_type data_type data
       errno_erange] in H;
  destruct H as (Hst & Hu & Hver & Hh & Hr & Hf & Hvn & Hpt & Hdt & Hd & He);
  revert Hver;
  repeat match goal with Hx : ?x = _ |- _ => is_var x; subst x end;
  intros Hver.

Ltac midline_tac :=
  unfold midline, midline_with;
  cbn [state is_unicode reg_version hkey reg file value_name parse_type data_type data
       errno_erange];
  repeat match goal with |- _ /\ _ => split end; try reflexivity; try assumption.

Lemma cut_at_last_snoc (s : wstr) (c : WCHAR) : cut_at_last (s ++ [c]) c = Some s.
Proof.
  induction s as [|x s IH].
  - cbn. now rewrite Z.eqb_refl.
  - cbn [app cut_at_last]. now rewrite IH.
Qed.

Lemma split_path_aux_name (n rest cur : wstr) :
  Forall (fun c => c <> BACKSLASH) n ->
  split_path_aux (n ++ rest) cur = split_path_aux rest (rev n ++ cur).
Proof.
  intros Hn. revert cur. induction Hn as [|c n Hc _ IH]; intros cur; [reflexivity|].
  cbn [app split_path_aux rev]. apply Z.eqb_neq in Hc. rewrite Hc, IH.
  now rewrite <- app_assoc.
Qed.

Lemma split_path_names (names : list wstr) :
  Forall (fun n => n <> [] /\ Forall (fun c => c <> BACKSLASH) n) names ->
  split_path (tl (flat_map (fun n => BACKSLASH :: n) names)) = names.
Proof.
  unfold split_path. intros Hnames.
  destruct Hnames as [|n names [Hne Hn] Hrest]; [reflexivity|].
  cbn [flat_map app tl].
  revert n Hne Hn. induction Hrest as [|m names [Hme Hm] _ IH]; intros n Hne Hn.
  - cbn [flat_map]. rewrite app_nil_r.
    pose proof (split_path_aux_name n [] [] Hn) as E0. rewrite !app_nil_r in E0.
    rewrite E0. cbn [split_path_aux].
    destruct (rev n) eqn:E.
    + apply (f_equal (@rev Z)) in E. rewrite rev_involutive in E. contradiction.
    + rewrite <- E, rev_involutive. reflexivity.
  - cbn [flat_map app]. rewrite split_path_aux_name by exact Hn.
    rewrite app_nil_r. cbn [split_path_aux Z.eqb Pos.eqb].
    destruct (rev n) eqn:E.
    + apply (f_equal (@rev Z)) in E. rewrite rev_involutive in E. contradiction.
    + rewrite <- E, rev_involutive. f_equal. apply IH; assumption.
Qed.

Lemma class_name_no_backslash (c : root_class) :
  Forall (fun x => x <> BACKSLASH) (class_name c).
Proof. destruct c; repeat (constructor; [discriminate|]); constructor. Qed.

Lemma strchrW_app (a b : wstr) (c : WCHAR) :
  Forall (fun x => x <> c) a -> strchrW (a ++ b) c = strchrW b c.
Proof.
  induction 1 as [|x a Hx _ IH]; [reflexivity|].
  cbn [app strchrW]. apply Z.eqb_neq in Hx. now rewrite Hx.
Qed.

Lemma parse_key_name_path (c : root_class) (names : list wstr) :
  parse_key_name (key_path c names)
  = (Some c,
     match names with
     | [] => None
     | _ :: _ => Some (tl (flat_map (fun n => BACKSLASH :: n) names))
     end).
Proof.
  unfold parse_key_name, key_path. f_equal.
  - destruct names as [|n names]; cbn [flat_map app].
    + rewrite app_nil_r. destruct c; reflexivity.
    + destruct c; reflexivity.
  - rewrite strchrW_app by apply class_name_no_backslash.
    destruct names as [|n names]; reflexivity.
Qed.

Section Lines.
Context `{CodePage}.

Lemma clean_ascii (u : bool) (t : wstr) : Forall (fun c => 0 < c < 128) t -> clean u t.
Proof.
  apply Forall_impl. intros c Hc. split; [lia|]. apply storable_ascii. lia.
Qed.

Ltac ascii_tac := apply clean_ascii; repeat (constructor; [lia|]); constructor.

Lemma class_name_clean (u : bool) (c : root_class) :
  clean u (class_name c) /\ no_eol (class_name c).
Proof.
  split.
  - apply clean_ascii. destruct c; repeat (constructor; [cbn; lia|]); constructor.
  - destruct c; repeat (constructor; [split; discriminate|]); constructor.
Qed.

Lemma key_path_clean (u : bool) (c : root_class) (names : list wstr) :
  Forall (key_name_ok u) names ->
  clean u (key_path c names) /\ no_eol (key_path c names).
Proof.
  intros Hnames. unfold key_path.
  destruct (class_name_clean u c) as [Hc1 Hc2].
  assert (Htail : clean u (flat_map (fun n => BACKSLASH :: n) names)
                  /\ no_eol (flat_map (fun n => BACKSLASH :: n) names)).
  { induction Hnames as [|n names (_ & _ & Hcl & Hn) _ [IH1 IH2]].
    - split; constructor.
    - cbn [flat_map]. split.
      + constructor; [split; [discriminate|apply storable_ascii; lia]|].
        apply clean_app; assumption.
      + constructor; [split; discriminate|].
        apply no_eol_app; [|exact IH2].
        revert Hn. apply Forall_impl. tauto. }
  destruct Htail as [Ht1 Ht2].
  split; [apply clean_app|apply no_eol_app]; assumption.
Qed.

Lemma key_path_head (c : root_class) (names : list wstr) :
  exists t, key_path c names = 72 :: t.
Proof. unfold key_path. destruct c; eexists; reflexivity. Qed.

Lemma key_names_split (u : bool) (names : list wstr) :
  Forall (key_name_ok u) names ->
  match names with
  | [] => @nil (list Z)
  | _ :: _ => split_path (tl (flat_map (fun n => BACKSLASH :: n) names))
  end = names.
Proof.
  intros Hnames. destruct names as [|n names]; [reflexivity|].
  apply split_path_names. revert Hnames. apply Forall_impl.
  intros m (Hne & _ & _ & Hm). split; [exact Hne|].
  revert Hm. apply Forall_impl. tauto.
Qed.

(** An empty line. *)
Lemma import_empty_line (u : bool) (h : option HKEY) (r : registry) (rest : wstr)
    (p : parser) (pos : wstr) :
  ready u h r (CR :: LF :: rest) p ->
  exists p' pos', run p pos p' pos' /\ ready u h r rest p'.
Proof.
  intros Hready.
  destruct (ready_line u h r [] rest p (Forall_nil _) (Forall_nil _) Hready)
    as (f1 & b1 & Hline & Hf1).
  destruct Hready as (vn & pt & dt & Hp). flat_midline Hp p.
  apply run_to_ready. eexists; eexists. split.
  - eapply run_step; [|apply run_refl].
    cbn [state parser_funcs]. unfold line_start_state.
    rewrite Hline. norm_parser. reflexivity.
  - exists vn, pt, dt. midline_tac.
Qed.

(** The line of a key: the key is opened, and created where it is not
    there. *)
Lemma import_key_line (u : bool) (h : option HKEY) (r : registry)
    (c : root_class) (names : list wstr) (rest : wstr) (p : parser) (pos : wstr) :
  Forall (key_name_ok u) names ->
  ready u h r ([LBRACKET] ++ key_path c names ++ [RBRACKET] ++ CRLF ++ rest) p ->
  exists p' pos',
    run p pos p' pos'
    /\ ready u (Some (c, names)) (set_root r c (create_path names (get_root r c))) rest p'.
Proof.
  intros Hnames Hready.
  destruct (key_path_clean u c names Hnames) as [Hclean Heol].
  destruct (key_path_head c names) as [t Ht].
  replace ([LBRACKET] ++ key_path c names ++ [RBRACKET] ++ CRLF ++ rest)
    with ((LBRACKET :: key_path c names ++ [RBRACKET]) ++ CR :: LF :: rest) in Hready
    by (cbn [app]; rewrite <- app_assoc; reflexivity).
  destruct (ready_line u h r (LBRACKET :: key_path c names ++ [RBRACKET]) rest p)
    as (f1 & b1 & Hline & Hf1); [| |exact Hready|].
  { constructor; [split; discriminate|].
    apply no_eol_app; [exact Heol|repeat constructor; discriminate]. }
  { constructor; [split; [discriminate|apply storable_ascii; lia]|].
    apply clean_app; [exact Hclean|].
    constructor; [split; [discriminate|apply storable_ascii; lia]|constructor]. }
  destruct Hready as (vn & pt & dt & Hp). flat_midline Hp p.
  assert (Hopen : exists cs,
             open_key
               {| file := f1; two_wchars := ptwo;
                  is_unicode := u; reg_version := pver; hkey := h;
                  key_name := pkname; value_name := vn; parse_type := pt;
                  data_type := dt; data := []; data_cap := pcap; backslash := pbs;
                  state := KEY_NAME; reg := r; calls := pcalls; errno_erange := false;
                  behind := b1 |}
               (key_path c names)
             = (true,
                {| file := f1; two_wchars := ptwo;
                   is_unicode := u; reg_version := pver; hkey := Some (c, names);
                   key_name := Some (key_path c names); value_name := vn;
                   parse_type := pt;
                   data_type := dt; data := []; data_cap := pcap; backslash := pbs;
                   state := KEY_NAME;
                   reg := set_root r c (create_path names (get_root r c));
                   calls := cs; errno_erange := false; behind := b1 |})).
  { unfold open_key, close_key. rewrite parse_key_name_path.
    unfold RegCreateKeyExW.
    pose proof (key_names_split u names Hnames) as Hsplit.
    destruct h as [hk|]; norm_parser;
      (destruct names as [|n names]; [|rewrite Hsplit]); eexists; reflexivity. }
  destruct Hopen as [cs Hopen].
  apply run_to_ready. eexists; eexists. split.
  - eapply run_step.
    { cbn [state parser_funcs]. unfold line_start_state.
      rewrite Hline.
      norm_parser. cbn [line_start_scan Z.eqb Pos.eqb]. norm_parser. reflexivity. }
    eapply run_step; [|apply run_refl].
    cbn [state parser_funcs]. unfold key_name_state.
    rewrite cut_at_last_snoc. rewrite Ht. cbn [app is_blank Z.eqb Pos.eqb orb].
    rewrite <- Ht. rewrite Hopen. cbn [snd]. norm_parser. reflexivity.
  - exists vn, pt, dt. midline_tac.
Qed.

End Lines.

Lemma unescape_export_string (s rest : wstr) :
  nul_free s ->
  REGPROC_unescape_string (REGPROC_export_string s ++ DQUOTE :: rest) = Closed s rest.
Proof.
  induction 1 as [|c s Hc _ IH]; [reflexivity|].
  apply Z.eqb_neq in Hc.
  cbn [REGPROC_export_string].
  destruct (c =? LF) eqn:Elf.
  { apply Z.eqb_eq in Elf; subst c. cbn [app REGPROC_unescape_string] in *. now rewrite IH. }
  destruct (c =? CR) eqn:Ecr.
  { apply Z.eqb_eq in Ecr; subst c. cbn [app REGPROC_unescape_string] in *. now rewrite IH. }
  destruct (c =? BACKSLASH) eqn:Ebs.
  { apply Z.eqb_eq in Ebs; subst c. cbn [orb app REGPROC_unescape_string] in *. now rewrite IH. }
  destruct (c =? DQUOTE) eqn:Edq.
  { apply Z.eqb_eq in Edq; subst c. cbn [orb app REGPROC_unescape_string] in *. now rewrite IH. }
  cbn [orb app REGPROC_unescape_string]. rewrite Hc, Ebs, Edq, IH. reflexivity.
Qed.

Lemma digits_value_hex8 (d : Z) :
  0 <= d < 2 ^ 32 ->
  digits_value (map (fun k => (d / 16 ^ k) mod 16) [7; 6; 5; 4; 3; 2; 1; 0]) = d.
Proof.
  intros Hd. unfold digits_value. cbn [map fold_left].
  change (16 ^ 7) with 268435456. change (16 ^ 6) with 16777216.
  change (16 ^ 5) with 1048576. change (16 ^ 4) with 65536. change (16 ^ 3) with 4096.
  change (16 ^ 2) with 256. change (16 ^ 1) with 16. change (16 ^ 0) with 1.
  change (2 ^ 32) with 4294967296 in Hd.
  Z.div_mod_to_equations. lia.
Qed.

Lemma hex8_digits (d : Z) :
  hex8 d = map hex_char (map (fun k => (d / 16 ^ k) mod 16) [7; 6; 5; 4; 3; 2; 1; 0]).
Proof. reflexivity. Qed.

Lemma count_xdigits_digits (vals : list Z) :
  Forall digit vals -> count_xdigits (map hex_char vals) = length vals.
Proof.
  induction 1 as [|d vals Hd _ IH]; [reflexivity|].
  cbn [map count_xdigits length].
  destruct (hex_char_digit d Hd) as (_ & _ & _ & _ & _ & _ & _ & _ & _ & -> & _).
  now rewrite IH.
Qed.

Lemma convert_hex_to_dword_digits (vals : list Z) :
  vals <> [] -> Forall digit vals -> (length vals <= 8)%nat ->
  convert_hex_to_dword (map hex_char vals) = Some (digits_value vals).
Proof.
  intros Hne Hvals Hlen.
  assert (Hskip : skip_blanks (map hex_char vals) = map hex_char vals).
  { destruct vals as [|d vals]; [reflexivity|]. inversion Hvals as [|? ? Hd _]; subst.
    cbn [map skip_blanks].
    destruct (hex_char_digit d Hd) as (_ & _ & _ & _ & _ & _ & _ & _ & _ & _ & ->).
    reflexivity. }
  assert (Hmax : digits_value vals <= ULONG_MAX).
  { assert (Hb : forall l acc, Forall digit l -> 0 <= acc ->
                  0 <= fold_left (fun a d => 16 * a + d) l acc
                  < 16 ^ Z.of_nat (length l) * (acc + 1)).
    { induction l as [|x l IH]; intros acc Hl Hacc.
      - cbn [fold_left length]. change (16 ^ Z.of_nat 0) with 1. lia.
      - inversion Hl as [|? ? Hx Hl']; subst. cbn [fold_left length].
        unfold digit in Hx.
        specialize (IH (16 * acc + x) Hl' ltac:(lia)).
        rewrite Nat2Z.inj_succ, Z.pow_succ_r by lia.
        assert (0 < 16 ^ Z.of_nat (length l)) by (apply Z.pow_pos_nonneg; lia).
        split; [lia|].
        apply Z.lt_le_trans with (16 ^ Z.of_nat (length l) * (16 * acc + x + 1)); [lia|].
        replace (16 * 16 ^ Z.of_nat (length l) * (acc + 1))
          with (16 ^ Z.of_nat (length l) * (16 * (acc + 1))) by ring.
        apply Z.mul_le_mono_nonneg_l; lia. }
    specialize (Hb vals 0 Hvals ltac:(lia)).
    unfold digits_value, ULONG_MAX.
    assert (16 ^ Z.of_nat (length vals) <= 16 ^ 8) by (apply Z.pow_le_mono_r; lia).
    change (16 ^ 8) with 4294967296 in *. lia. }
  unfold convert_hex_to_dword. rewrite Hskip.
  rewrite count_xdigits_digits by exact Hvals.
  replace (8 <? Z.of_nat (length vals)) with false by (symmetry; apply Z.ltb_ge; lia).
  rewrite <- (length_map hex_char vals).
  rewrite skipn_all, firstn_all.
  cbn [skip_blanks at_eol_or_comment negb].
  replace (strtoul16 (map hex_char vals)) with (strtoul16 (map hex_char vals ++ []))
    by now rewrite app_nil_r.
  rewrite strtoul16_digits; [|exact Hne|exact Hvals|exact I|exact Hmax].
  destruct vals; [contradiction|reflexivity].
Qed.

Lemma convert_hex_to_dword_hex8 (d : Z) :
  0 <= d < 2 ^ 32 -> convert_hex_to_dword (hex8 d) = Some d.
Proof.
  intros Hd. rewrite hex8_digits, convert_hex_to_dword_digits.
  - now rewrite digits_value_hex8.
  - discriminate.
  - cbn [map]. repeat (constructor; [apply Z.mod_pos_bound; lia|]). constructor.
  - cbn. lia.
Qed.

Lemma dword_bytes_of_bytes (b0 b1 b2 b3 : BYTE) :
  byte_range b0 -> byte_range b1 -> byte_range b2 -> byte_range b3 ->
  dword_bytes (b0 + 256 * b1 + 65536 * b2 + 16777216 * b3) = [b0; b1; b2; b3].
Proof.
  unfold byte_range, dword_bytes. intros.
  repeat f_equal; Z.div_mod_to_equations; lia.
Qed.

(** ** The line of a value, read back *)

Lemma printable_app (a b : wstr) : printable a -> printable b -> printable (a ++ b).
Proof. intros Ha Hb. apply Forall_app. now split. Qed.

Lemma printable_no_eol (t : wstr) : printable t -> no_eol t.
Proof. apply Forall_impl. intros c Hc. split; lia. Qed.

Lemma hex_char_printable (d : Z) : digit d -> 32 <= hex_char d < 127.
Proof. unfold digit, hex_char. intros Hd. destruct (d <? 10) eqn:E; lia. Qed.

Lemma hex2_printable (b : BYTE) : printable (hex2 b).
Proof.
  unfold hex2. repeat (constructor; [apply hex_char_printable, Z.mod_pos_bound; lia|]).
  constructor.
Qed.

Lemma hex_commas_printable (bs : list BYTE) : printable (hex_commas bs).
Proof.
  induction bs as [|b bs IH]; [constructor|].
  cbn [hex_commas flat_map]. fold (hex_commas bs).
  repeat apply printable_app; [apply hex2_printable| |exact IH].
  constructor; [lia|constructor].
Qed.

Lemma hex_csv_printable (bs : list BYTE) : printable (hex_csv bs).
Proof.
  induction bs as [|b bs IH]; [constructor|].
  cbn [hex_csv]. destruct bs as [|b' bs]; [apply hex2_printable|].
  apply printable_app; [apply hex2_printable|].
  constructor; [lia|exact IH].
Qed.

Lemma hex_prefix_printable (type : Z) : printable (hex_prefix type).
Proof.
  unfold hex_prefix. destruct (type =? REG_BINARY).
  - repeat (constructor; [cbn; lia|]). constructor.
  - repeat apply printable_app.
    + repeat (constructor; [cbn; lia|]). constructor.
    + unfold hex_of_dword. rewrite hex_digits_vals.
      generalize (hex_vals_digits 8 (type mod 2 ^ 32)).
      induction 1 as [|d l Hd _ IH]; [constructor|].
      cbn [map]. constructor; [apply hex_char_printable, Hd|exact IH].
    + repeat (constructor; [cbn; lia|]). constructor.
Qed.

Lemma hex8_printable (d : Z) : printable (hex8 d).
Proof.
  unfold hex8. cbn [map].
  repeat (constructor; [apply hex_char_printable, Z.mod_pos_bound; lia|]).
  constructor.
Qed.

Lemma skip_blanks_data (d : wstr) : data_text d -> skip_blanks d = d.
Proof.
  intros (_ & _ & Hd). destruct d as [|c d]; [contradiction|].
  cbn [skip_blanks]. now rewrite (proj1 Hd).
Qed.

Section ValueImport.
Context `{CodePage}.

Lemma printable_clean (u : bool) (t : wstr) : printable t -> clean u t.
Proof.
  apply Forall_impl. intros c Hc. split; [lia|]. apply storable_ascii. lia.
Qed.

Lemma escape_string_clean (u : bool) (name : wstr) :
  clean u name -> clean u (REGPROC_escape_string name).
Proof.
  induction 1 as [|c name Hc _ IH]; [constructor|].
  cbn [REGPROC_escape_string].
  apply clean_app; [|exact IH].
  repeat match goal with
         | |- context [if ?b then _ else _] => destruct b
         end;
    try solve [apply printable_clean; repeat (constructor; [lia|]); constructor].
  constructor; [exact Hc|constructor].
Qed.

(** The name of a value and the equals sign: the name is pending and
    the data is next. *)
Lemma import_value_name (u : bool) (h : option HKEY) (r : registry)
    (name D X : wstr) (p : parser) (pos : wstr) :
  clean u name -> clean u D -> data_text D ->
  ready u h r ((value_name_text name ++ D) ++ CR :: LF :: X) p ->
  exists p' pt dt,
    run p pos p' D /\ midline DATA_TYPE u h r X (pending_name name) pt dt [] p'.
Proof.
  intros Hname HD Hdata Hready.
  pose proof (skip_blanks_data D Hdata) as Hskip.
  destruct Hdata as (Heol & Htrim & Hfirst).
  assert (Hminus : match trim_trailing (skip_blanks D) with
                   | c :: _ => c <> MINUS
                   | [] => True
                   end).
  { rewrite Hskip, Htrim. destruct D; [exact I|apply Hfirst]. }
  destruct name as [|c name].
  - destruct (ready_line u h r (ATSIGN :: EQUALS :: D) X p)
      as (f1 & b1 & Hline & Hf1); [| |exact Hready|].
    { constructor; [split; discriminate|]. constructor; [split; discriminate|exact Heol]. }
    { apply (clean_app u [ATSIGN; EQUALS] D); [|exact HD].
      apply printable_clean. repeat (constructor; [lia|]). constructor. }
    destruct Hready as (vn & pt & dt & Hp).
    pose proof (default_value_name_steps p _ D pos (proj1 Hp) Hline Hminus) as Hsteps.
    rewrite Hskip, Htrim in Hsteps.
    eexists; exists pt, dt. split; [apply (run_steps 3), Hsteps|].
    flat_midline Hp p. norm_parser. midline_tac.
  - assert (Hcstr : value_name_text (c :: name)
                    = quoted (REGPROC_escape_string (c :: name)) ++ [EQUALS]).
    { unfold value_name_text. rewrite (cstr_nul_free (c :: name)).
      - reflexivity.
      - apply (clean_nul_free u), Hname. }
    rewrite Hcstr in Hready.
    destruct (ready_line u h r
                ((quoted (REGPROC_escape_string (c :: name)) ++ [EQUALS]) ++ D) X p)
      as (f1 & b1 & Hline & Hf1); [| |exact Hready|].
    { apply no_eol_app; [|exact Heol].
      unfold quoted. apply no_eol_app; [|repeat constructor; discriminate].
      constructor; [split; discriminate|].
      apply no_eol_app; [apply escape_string_no_eol|repeat constructor; discriminate]. }
    { apply clean_app; [|exact HD]. unfold quoted.
      pose proof (escape_string_clean u _ Hname) as He.
      apply clean_app; [apply clean_app; [|apply clean_app; [exact He|]]|];
        apply printable_clean; repeat (constructor; [lia|]); constructor. }
    replace ((quoted (REGPROC_escape_string (c :: name)) ++ [EQUALS]) ++ D)
      with (quoted (REGPROC_escape_string (c :: name)) ++ EQUALS :: D) in Hline
      by (rewrite <- app_assoc; reflexivity).
    destruct Hready as (vn & pt & dt & Hp).
    pose proof (quoted_value_name_steps p _ (c :: name) D pos (proj1 Hp)
                  (clean_nul_free u _ Hname) Hline Hminus) as Hsteps.
    rewrite Hskip, Htrim in Hsteps.
    eexists; exists pt, dt. split; [apply (run_steps 3), Hsteps|].
    flat_midline Hp p. norm_parser. midline_tac.
Qed.

End ValueImport.

Lemma tolowerW_hex_char (d : Z) : digit d -> (tolowerW (hex_char d) =? 120) = false.
Proof.
  unfold digit, tolowerW, hex_char, is_upper. intros Hd.
  destruct (d <? 10) eqn:E.
  - apply Z.ltb_lt in E.
    replace (65 <=? 48 + d) with false by (symmetry; apply Z.leb_gt; lia).
    cbn [andb]. apply Z.eqb_neq. lia.
  - apply Z.ltb_ge in E.
    replace (87 + d <=? 90) with false by (symmetry; apply Z.leb_gt; lia).
    rewrite andb_false_r. apply Z.eqb_neq. lia.
Qed.

Lemma parse_data_type_hex_prefix (p : parser) (type : Z) (rest : wstr) :
  0 <= type < 2 ^ 32 -> errno_erange p = false ->
  parse_data_type p (hex_prefix type ++ rest) = (true, set_types p REG_BINARY type, rest).
Proof.
  intros Ht He. unfold hex_prefix.
  destruct (type =? REG_BINARY) eqn:E3.
  - apply Z.eqb_eq in E3. subst type. reflexivity.
  - unfold parse_data_type.
    change (W "hex(") with [104; 101; 120; 40].
    change (W "hex:") with [104; 101; 120; 58].
    change (W "):") with [RPAREN; COLON].
    cbn [app starts_with Z.eqb Pos.eqb andb skipn].
    rewrite <- app_assoc.
    pose proof (strtoul16_hex_of_dword type (RPAREN :: COLON :: rest) Ht) as Hnum.
    assert (Hend : number_end (RPAREN :: COLON :: rest)).
    { cbn. repeat split; discriminate. }
    specialize (Hnum Hend).
    unfold hex_of_dword in *. rewrite hex_digits_vals in *.
    pose proof (hex_vals_nonempty 7 (type mod 2 ^ 32)) as Hne.
    pose proof (hex_vals_digits 8 (type mod 2 ^ 32)) as Hds.
    destruct (hex_vals 8 (type mod 2 ^ 32)) as [|d0 vals]; [contradiction|].
    inversion Hds as [|? ? Hd0 Hvals]; subst.
    cbn [map app] in *.
    assert (Hx : match map hex_char vals ++ RPAREN :: COLON :: rest with
                 | x :: _ => tolowerW x =? 120
                 | [] => false
                 end = false).
    { destruct vals as [|d1 vals]; [reflexivity|].
      inversion Hvals; subst. cbn [map app]. now apply tolowerW_hex_char. }
    rewrite Hx, Hnum. cbn [ul_erange ul_value ul_end app Z.eqb Pos.eqb negb orb].
    destruct_parser p. cbn in He. subst perr. norm_parser.
    rewrite andb_false_r. reflexivity.
Qed.

Section DataImport.
Context `{CodePage}.

(** The value is set and the parser is between two lines again. *)
Lemma import_set_value (u : bool) (h : option HKEY) (r : registry) (X : wstr)
    (vn : option wstr) (pt dt : Z) (d : list BYTE) (p : parser) (pos : wstr) :
  midline SET_VALUE u h r X vn pt dt d p ->
  exists p' pos', run p pos p' pos' /\ ready u h (RegSetValueExW r h vn dt d) X p'.
Proof.
  intros Hp. flat_midline Hp p.
  apply run_to_ready. eexists; eexists. split.
  - eapply run_step; [|apply run_refl].
    cbn [state parser_funcs]. unfold set_value_state. norm_parser.
    destruct Hver as [-> | ->]; reflexivity.
  - exists vn, pt, dt. midline_tac.
Qed.

Lemma import_data_type_string (u : bool) (h : option HKEY) (r : registry) (X : wstr)
    (vn : option wstr) (pt dt : Z) (p : parser) (rest : wstr) :
  midline DATA_TYPE u h r X vn pt dt [] p ->
  exists p', run p (DQUOTE :: rest) p' rest
             /\ midline STRING_DATA u h r X vn REG_SZ REG_SZ [] p'.
Proof.
  intros Hp. flat_midline Hp p.
  eexists. split.
  - eapply run_step; [|apply run_refl].
    cbn [state parser_funcs]. unfold data_type_state, parse_data_type.
    cbn [starts_with Z.eqb Pos.eqb andb skipn]. norm_parser. reflexivity.
  - midline_tac.
Qed.

Lemma import_data_type_dword (u : bool) (h : option HKEY) (r : registry) (X : wstr)
    (vn : option wstr) (pt dt : Z) (p : parser) (rest : wstr) :
  midline DATA_TYPE u h r X vn pt dt [] p ->
  exists p', run p (W "dword:" ++ rest) p' rest
             /\ midline DWORD_DATA u h r X vn REG_DWORD REG_DWORD [] p'.
Proof.
  intros Hp. flat_midline Hp p.
  eexists. split.
  - eapply run_step; [|apply run_refl].
    cbn [state parser_funcs]. unfold data_type_state, parse_data_type.
    change (W "dword:") with [100; 119; 111; 114; 100; 58].
    change (W "hex:") with [104; 101; 120; 58].
    cbn [app starts_with Z.eqb Pos.eqb andb skipn]. norm_parser. reflexivity.
  - midline_tac.
Qed.

Lemma import_data_type_hex (u : bool) (h : option HKEY) (r : registry) (X : wstr)
    (vn : option wstr) (pt dt : Z) (p : parser) (type : Z) (rest : wstr) :
  0 <= type < 2 ^ 32 ->
  midline DATA_TYPE u h r X vn pt dt [] p ->
  exists p', run p (hex_prefix type ++ rest) p' rest
             /\ midline HEX_DATA u h r X vn REG_BINARY type [] p'.
Proof.
  intros Ht Hp. flat_midline Hp p.
  eexists. split.
  - eapply run_step; [|apply run_refl].
    cbn [state parser_funcs]. unfold data_type_state.
    rewrite parse_data_type_hex_prefix by (exact Ht || reflexivity).
    norm_parser. reflexivity.
  - midline_tac.
Qed.

Lemma import_string_data (u : bool) (h : option HKEY) (r : registry) (X : wstr)
    (vn : option wstr) (pt dt : Z) (p : parser) (s : wstr) :
  nul_free s ->
  midline STRING_DATA u h r X vn pt dt [] p ->
  exists p' pos',
    run p (REGPROC_export_string s ++ [DQUOTE]) p' pos'
    /\ midline SET_VALUE u h r X vn pt dt (wide_bytes (s ++ [NUL])) p'.
Proof.
  intros Hs Hp. flat_midline Hp p.
  eexists; eexists. split.
  - eapply run_step; [|apply run_refl].
    cbn [state parser_funcs]. unfold string_data_state.
    rewrite unescape_export_string by exact Hs. cbn [skip_blanks at_eol_or_comment].
    rewrite (cstr_nul_free s Hs). norm_parser. reflexivity.
  - midline_tac.
Qed.

Lemma import_dword_data (u : bool) (h : option HKEY) (r : registry) (X : wstr)
    (vn : option wstr) (pt dt : Z) (p : parser) (d : Z) :
  0 <= d < 2 ^ 32 ->
  midline DWORD_DATA u h r X vn pt dt [] p ->
  exists p' pos',
    run p (hex8 d) p' pos'
    /\ midline SET_VALUE u h r X vn pt dt (dword_bytes d) p'.
Proof.
  intros Hrange Hp. flat_midline Hp p.
  eexists; eexists. split.
  - eapply run_step; [|apply run_refl].
    cbn [state parser_funcs]. unfold dword_data_state.
    rewrite convert_hex_to_dword_hex8 by exact Hrange. norm_parser. reflexivity.
  - midline_tac.
Qed.

End DataImport.

(** ** Byte lists over several lines, read back *)

Lemma trim_trailing_last (t : wstr) : is_blank (last t 0) = false -> trim_trailing t = t.
Proof.
  induction t as [|c r IH]; [reflexivity|].
  destruct r as [|c' r'].
  - cbn [last trim_trailing]. now intros ->.
  - intros Hl. change (last (c :: c' :: r') 0) with (last (c' :: r') 0) in Hl.
    specialize (IH Hl). cbn [trim_trailing] in *. now rewrite IH.
Qed.

Lemma data_text_last (D : wstr) :
  no_eol D ->
  match D with
  | c :: _ => is_blank c = false /\ c <> MINUS
  | [] => False
  end ->
  is_blank (last D 0) = false ->
  data_text D.
Proof.
  intros Heol Hfirst Hlast. repeat split; try assumption.
  now apply trim_trailing_last.
Qed.

Section HexImport.
Context `{CodePage}.

(** The last line of a byte list: the data is complete, and a string in
    a file of the code page is converted. *)
Lemma import_hex_last (u : bool) (h : option HKEY) (r : registry) (X : wstr)
    (vn : option wstr) (pt dt : Z) (d0 bs : list BYTE) (p : parser) :
  Forall byte_range bs ->
  ((dt =? REG_EXPAND_SZ) || (dt =? REG_MULTI_SZ) = true ->
   d0 ++ bs <> [] /\ last (d0 ++ bs) 0 = 0) ->
  midline HEX_DATA u h r X vn pt dt d0 p ->
  exists p' pos',
    run p (hex_csv bs) p' pos'
    /\ midline SET_VALUE u h r X vn pt dt (final_data u dt (d0 ++ bs)) p'.
Proof.
  intros Hbs Hprep Hp.
  destruct (convert_last_line p bs Hbs) as [cap Hc].
  flat_midline Hp p. revert Hc. norm_parser. intros Hc.
  assert (Hstep : exists p',
             hex_data_state
               {| file := pfile; two_wchars := ptwo; is_unicode := u;
                  reg_version := pver; hkey := h; key_name := pkname; value_name := vn;
                  parse_type := pt; data_type := dt; data := d0; data_cap := pcap;
                  backslash := pbs; state := HEX_DATA; reg := r; calls := pcalls;
                  errno_erange := false; behind := pbehind |} (hex_csv bs)
             = Next p' (hex_csv bs)
             /\ midline SET_VALUE u h r X vn pt dt (final_data u dt (d0 ++ bs)) p').
  { unfold hex_data_state. rewrite Hc. norm_parser. cbv iota.
    unfold prepare_hex_string_data, final_data. norm_parser.
    destruct ((dt =? REG_EXPAND_SZ) || (dt =? REG_MULTI_SZ)) eqn:E.
    - destruct (Hprep eq_refl) as [Hne Hlast].
      rewrite Hlast. cbn [Z.eqb].
      destruct (d0 ++ bs) as [|x l] eqn:Ed; [contradiction|].
      norm_parser. destruct u; cbn [andb negb]; eexists; (split; [reflexivity|midline_tac]).
    - cbn [andb]. eexists. split; [reflexivity|midline_tac]. }
  destruct Hstep as (p' & Hstep & Hp').
  exists p', (hex_csv bs). split; [|exact Hp'].
  eapply run_step; [|apply run_refl]. exact Hstep.
Qed.

(** A line that ends in a backslash: the data grows and the next line
    is awaited. *)
Lemma import_hex_more (u : bool) (h : option HKEY) (r : registry) (X : wstr)
    (vn : option wstr) (pt dt : Z) (d0 bs : list BYTE) (p : parser) :
  Forall byte_range bs ->
  midline HEX_DATA u h r X vn pt dt d0 p ->
  exists p' pos',
    run p (hex_commas bs ++ [BACKSLASH]) p' pos'
    /\ midline HEX_MULTILINE u h r X vn pt dt (d0 ++ bs) p'.
Proof.
  intros Hbs Hp.
  destruct (convert_continued_line p bs Hbs) as [cap Hc].
  flat_midline Hp p. revert Hc. norm_parser. intros Hc.
  eexists; eexists. split.
  - eapply run_step.
    { cbn [state parser_funcs]. unfold hex_data_state. rewrite Hc. norm_parser. cbv iota.
      reflexivity. }
    eapply run_step; [|apply run_refl].
    cbn [state parser_funcs]. unfold eol_backslash_state.
    cbn [skip_blanks at_eol_or_comment]. norm_parser. reflexivity.
  - midline_tac.
Qed.

(** A continuation line: its indent is skipped. *)
Lemma import_hex_line (u : bool) (h : option HKEY) (r : registry) (X : wstr)
    (vn : option wstr) (pt dt : Z) (d : list BYTE) (p : parser) (pos : wstr)
    (b : BYTE) (l : wstr) :
  printable l ->
  midline HEX_MULTILINE u h r ((SPACE :: SPACE :: hex2 b ++ l) ++ CR :: LF :: X) vn pt dt d p ->
  exists p', run p pos p' (hex2 b ++ l) /\ midline HEX_DATA u h r X vn pt dt d p'.
Proof.
  intros Hl Hp0.
  destruct (settle_hex_multiline u h r _ vn pt dt d p pos Hp0) as (q & posq & Hrunq & Hp).
  enough (exists p', run q posq p' (hex2 b ++ l) /\ midline HEX_DATA u h r X vn pt dt d p')
    as (p' & Hrun' & Hp')
    by (exists p'; split; [eapply run_trans; eassumption|exact Hp']).
  clear Hp0 Hrunq p. rename q into p.
  assert (Hprint : printable (SPACE :: SPACE :: hex2 b ++ l)).
  { constructor; [lia|]. constructor; [lia|].
    apply printable_app; [apply hex2_printable|exact Hl]. }
  destruct (get_line_text u (SPACE :: SPACE :: hex2 b ++ l) X p)
    as (f1 & b1 & Hline & Hf1).
  { apply printable_no_eol, Hprint. }
  { apply printable_clean, Hprint. }
  { apply Hp. }
  { apply Hp. }
  assert (Hdig : digit ((b / 16) mod 16)) by (apply Z.mod_pos_bound; lia).
  destruct (hex_char_digit _ Hdig) as (_ & _ & _ & _ & _ & _ & _ & _ & _ & Hx & Hb).
  assert (Hsemi : (hex_char ((b / 16) mod 16) =? SEMICOLON) = false).
  { apply Z.eqb_neq. intros E. rewrite E in Hx. discriminate. }
  flat_midline Hp p. revert Hline. norm_parser. intros Hline.
  eexists. split.
  - eapply run_step; [|apply run_refl].
    cbn [state parser_funcs]. unfold hex_multiline_state. rewrite Hline.
    cbn [skip_blanks is_blank Z.eqb Pos.eqb orb hex2 app].
    rewrite Hb. cbn [at_eol_or_comment]. rewrite Hsemi, Hx. norm_parser. reflexivity.
  - midline_tac.
Qed.

End HexImport.

Ltac text_eq :=
  unfold CRLF, concat_text, quoted;
  repeat first [rewrite <- app_assoc | progress cbn [app]];
  reflexivity.

Lemma wrapped_cons (b : BYTE) (rest : list BYTE) (t : wstr) :
  wrapped rest t -> wrapped (b :: rest) (hex2 b ++ COMMA :: t).
Proof.
  intros Hw. inversion Hw as [bs Hne|bs rest' t' Hne Hw']; subst.
  - replace (hex2 b ++ COMMA :: hex_csv rest) with (hex_csv (b :: rest)).
    + apply wrapped_last. discriminate.
    + cbn [hex_csv]. destruct rest; [contradiction|reflexivity].
  - replace (hex2 b ++ COMMA :: hex_commas bs ++ concat_text ++ t')
      with (hex_commas (b :: bs) ++ concat_text ++ t')
      by (cbn [hex_commas flat_map]; text_eq).
    apply (wrapped_more (b :: bs) rest' t'); [discriminate|exact Hw'].
Qed.

Lemma export_binary_loop_wrapped (d : list BYTE) :
  d <> [] -> forall column, wrapped d (export_binary_loop column d).
Proof.
  induction d as [|b rest IH]; intros Hne column; [contradiction|].
  destruct rest as [|b' rest'].
  - apply (wrapped_last [b]). discriminate.
  - assert (Hrest : b' :: rest' <> []) by discriminate.
    specialize (IH Hrest).
    change (export_binary_loop column (b :: b' :: rest'))
      with (hex2 b ++ [COMMA] ++
              (if REG_FILE_HEX_LINE_LEN <=? column + 3
               then concat_text ++ export_binary_loop 2 (b' :: rest')
               else export_binary_loop (column + 3) (b' :: rest'))).
    destruct (REG_FILE_HEX_LINE_LEN <=? column + 3).
    + replace (hex2 b ++ [COMMA] ++ concat_text ++ export_binary_loop 2 (b' :: rest'))
        with (hex_commas [b] ++ concat_text ++ export_binary_loop 2 (b' :: rest'))
        by (cbn [hex_commas flat_map]; rewrite app_nil_r, <- app_assoc; reflexivity).
      apply (wrapped_more [b] (b' :: rest')); [discriminate|apply IH].
    + apply (wrapped_cons b (b' :: rest')), IH.
Qed.

Lemma hex_csv_head (b : BYTE) (bs : list BYTE) :
  exists l, hex_csv (b :: bs) = hex2 b ++ l /\ printable l.
Proof.
  destruct bs as [|b' bs].
  - exists []. split; [now rewrite app_nil_r|constructor].
  - exists (COMMA :: hex_csv (b' :: bs)). split; [reflexivity|].
    constructor; [lia|apply hex_csv_printable].
Qed.

Lemma hex_commas_head (b : BYTE) (bs : list BYTE) :
  exists l, hex_commas (b :: bs) ++ [BACKSLASH] = hex2 b ++ l /\ printable l.
Proof.
  exists (COMMA :: hex_commas bs ++ [BACKSLASH]). split.
  - cbn [hex_commas flat_map]. text_eq.
  - constructor; [lia|]. apply printable_app; [apply hex_commas_printable|].
    constructor; [lia|constructor].
Qed.

Section HexLines.
Context `{CodePage}.

(** The lines after the first of a byte list. *)
Lemma import_hex_lines (u : bool) (h : option HKEY) (r : registry)
    (vn : option wstr) (pt dt : Z) (bs : list BYTE) (t : wstr) :
  wrapped bs t ->
  forall (d0 : list BYTE) (p : parser) (pos X : wstr),
    Forall byte_range bs ->
    ((dt =? REG_EXPAND_SZ) || (dt =? REG_MULTI_SZ) = true ->
     d0 ++ bs <> [] /\ last (d0 ++ bs) 0 = 0) ->
    midline HEX_MULTILINE u h r ((SPACE :: SPACE :: t) ++ CR :: LF :: X) vn pt dt d0 p ->
    exists p' pos',
      run p pos p' pos'
      /\ midline SET_VALUE u h r X vn pt dt (final_data u dt (d0 ++ bs)) p'.
Proof.
  induction 1 as [bs Hne|bs rest t Hne Hw IH]; intros d0 p pos X Hbs Hprep Hp.
  - destruct bs as [|b bs]; [contradiction|].
    destruct (hex_csv_head b bs) as (l & El & Hl). rewrite El in Hp.
    destruct (import_hex_line u h r X vn pt dt d0 p pos b l Hl Hp) as (p1 & Hrun1 & Hp1).
    rewrite <- El in Hrun1.
    destruct (import_hex_last u h r X vn pt dt d0 (b :: bs) p1 Hbs Hprep Hp1)
      as (p2 & pos2 & Hrun2 & Hp2).
    exists p2, pos2. split; [eapply run_trans; eassumption|exact Hp2].
  - destruct bs as [|b bs]; [contradiction|].
    apply Forall_app in Hbs as [Hbs Hrest].
    destruct (hex_commas_head b bs) as (l & El & Hl).
    assert (Etext : (SPACE :: SPACE :: hex_commas (b :: bs) ++ concat_text ++ t)
                      ++ CR :: LF :: X
                    = (SPACE :: SPACE :: hex2 b ++ l)
                        ++ CR :: LF :: (SPACE :: SPACE :: t) ++ CR :: LF :: X).
    { rewrite <- El. text_eq. }
    rewrite Etext in Hp.
    destruct (import_hex_line u h r _ vn pt dt d0 p pos b l Hl Hp) as (p1 & Hrun1 & Hp1).
    rewrite <- El in Hrun1.
    destruct (import_hex_more u h r _ vn pt dt d0 (b :: bs) p1 Hbs Hp1)
      as (p2 & pos2 & Hrun2 & Hp2).
    rewrite app_assoc in Hprep.
    destruct (IH (d0 ++ b :: bs) p2 pos2 X Hrest Hprep Hp2) as (p3 & pos3 & Hrun3 & Hp3).
    exists p3, pos3. split.
    + eapply run_trans; [exact Hrun1|]. eapply run_trans; eassumption.
    + rewrite app_assoc. exact Hp3.
Qed.

End HexLines.

Lemma last_app_cons (a : wstr) (c : Z) (l : wstr) : last (a ++ c :: l) 0 = last (c :: l) 0.
Proof.
  induction a as [|x a IH]; [reflexivity|].
  cbn [app]. destruct (a ++ c :: l) eqn:E; [destruct a; discriminate|].
  rewrite <- IH. reflexivity.
Qed.

Lemma hex_csv_last (bs : list BYTE) :
  bs <> [] -> hex_csv bs <> [] /\ is_blank (last (hex_csv bs) 0) = false.
Proof.
  intros Hne. destruct (exists_last Hne) as (bs' & b & ->).
  rewrite hex_csv_snoc. unfold hex2. split.
  - destruct (hex_commas bs'); discriminate.
  - rewrite last_app_cons. cbn [last].
    apply hex_char_digit, Z.mod_pos_bound. lia.
Qed.

Lemma hex_prefix_ends (type : Z) :
  (exists t, hex_prefix type = 104 :: t) /\ last (hex_prefix type) 0 = COLON.
Proof.
  unfold hex_prefix. destruct (type =? REG_BINARY).
  - split; [eexists|]; reflexivity.
  - split; [eexists; reflexivity|].
    change (W "):") with [RPAREN; COLON].
    rewrite app_assoc, last_app_cons. reflexivity.
Qed.

Lemma hex_data_text (type : Z) (l : wstr) :
  printable l ->
  l = [] \/ is_blank (last l 0) = false ->
  data_text (hex_prefix type ++ l).
Proof.
  intros Hl Hlast.
  destruct (hex_prefix_ends type) as [[t Et] Ec].
  apply data_text_last.
  - apply printable_no_eol, printable_app; [apply hex_prefix_printable|exact Hl].
  - rewrite Et. cbn [app]. split; [reflexivity|discriminate].
  - destruct l as [|c l].
    + rewrite app_nil_r, Ec. reflexivity.
    + destruct Hlast as [Hlast|Hlast]; [discriminate|].
      rewrite last_app_cons. exact Hlast.
Qed.

Section HexValue.
Context `{CodePage}.

(** The name, the prefix and the first line of a byte list. *)
Lemma import_hex_first (u : bool) (h : option HKEY) (r : registry)
    (name : wstr) (type : Z) (l X : wstr) (p : parser) (pos : wstr) :
  clean u name -> 0 <= type < 2 ^ 32 ->
  printable l -> l = [] \/ is_blank (last l 0) = false ->
  ready u h r ((value_name_text name ++ hex_prefix type ++ l) ++ CR :: LF :: X) p ->
  exists p',
    run p pos p' l
    /\ midline HEX_DATA u h r X (pending_name name) REG_BINARY type [] p'.
Proof.
  intros Hname Htype Hl Hlast Hp.
  assert (HD : clean u (hex_prefix type ++ l)).
  { apply printable_clean, printable_app; [apply hex_prefix_printable|exact Hl]. }
  destruct (import_value_name u h r name _ X p pos Hname HD (hex_data_text type l Hl Hlast) Hp)
    as (p1 & pt & dt & Hrun1 & Hp1).
  destruct (import_data_type_hex u h r X _ pt dt p1 type l Htype Hp1) as (p2 & Hrun2 & Hp2).
  exists p2. split; [eapply run_trans; eassumption|exact Hp2].
Qed.

(** A value in hexadecimal form comes back with the bytes written. *)
Lemma import_hex_value (u : bool) (h : option HKEY) (r : registry)
    (name : wstr) (type : Z) (d : list BYTE) (t X : wstr) (p : parser) (pos : wstr) :
  clean u name -> 0 <= type < 2 ^ 32 -> Forall byte_range d ->
  ((type =? REG_EXPAND_SZ) || (type =? REG_MULTI_SZ) = true -> d <> [] /\ last d 0 = 0) ->
  (d = [] /\ t = []) \/ wrapped d t ->
  ready u h r ((value_name_text name ++ hex_prefix type ++ t ++ CRLF) ++ X) p ->
  exists p' pos',
    run p pos p' pos'
    /\ ready u h (RegSetValueExW r h (pending_name name) type (final_data u type d)) X p'.
Proof.
  intros Hname Htype Hd Hprep Hshape Hp.
  assert (Hfinish : forall p1 pos1 p2 pos2,
             run p pos p1 pos1 -> run p1 pos1 p2 pos2 ->
             midline SET_VALUE u h r X (pending_name name) REG_BINARY type
               (final_data u type d) p2 ->
             exists p' pos',
               run p pos p' pos'
               /\ ready u h (RegSetValueExW r h (pending_name name) type (final_data u type d))
                    X p').
  { intros p1 pos1 p2 pos2 Hrun1 Hrun2 Hp2.
    destruct (import_set_value u h r X _ _ _ _ p2 pos2 Hp2) as (p3 & pos3 & Hrun3 & Hp3).
    exists p3, pos3. split; [|exact Hp3].
    eapply run_trans; [exact Hrun1|]. eapply run_trans; eassumption. }
  destruct Hshape as [[-> ->]|Hw].
  - assert (Etext : (value_name_text name ++ hex_prefix type ++ [] ++ CRLF) ++ X
                    = (value_name_text name ++ hex_prefix type ++ []) ++ CR :: LF :: X)
      by text_eq.
    rewrite Etext in Hp.
    destruct (import_hex_first u h r name type [] X p pos Hname Htype
                ltac:(constructor) ltac:(now left) Hp) as (p1 & Hrun1 & Hp1).
    destruct (import_hex_last u h r X _ _ _ [] [] p1 Hd Hprep Hp1)
      as (p2 & pos2 & Hrun2 & Hp2).
    eapply Hfinish; eassumption.
  - inversion Hw as [bs Hne|bs rest t' Hne Hw']; subst.
    + assert (Etext : (value_name_text name ++ hex_prefix type ++ hex_csv d ++ CRLF) ++ X
                      = (value_name_text name ++ hex_prefix type ++ hex_csv d)
                          ++ CR :: LF :: X)
        by text_eq.
      rewrite Etext in Hp.
      destruct (import_hex_first u h r name type (hex_csv d) X p pos Hname Htype
                  (hex_csv_printable d) (or_intror (proj2 (hex_csv_last d Hne))) Hp)
        as (p1 & Hrun1 & Hp1).
      destruct (import_hex_last u h r X _ _ _ [] d p1 Hd Hprep Hp1)
        as (p2 & pos2 & Hrun2 & Hp2).
      eapply Hfinish; eassumption.
    + assert (Etext : (value_name_text name ++ hex_prefix type
                         ++ (hex_commas bs ++ concat_text ++ t') ++ CRLF) ++ X
                      = (value_name_text name ++ hex_prefix type
                           ++ hex_commas bs ++ [BACKSLASH])
                          ++ CR :: LF :: (SPACE :: SPACE :: t') ++ CR :: LF :: X)
        by text_eq.
      rewrite Etext in Hp.
      assert (Hl : printable (hex_commas bs ++ [BACKSLASH])).
      { apply printable_app; [apply hex_commas_printable|]. constructor; [lia|constructor]. }
      assert (Hlast : is_blank (last (hex_commas bs ++ [BACKSLASH]) 0) = false).
      { rewrite last_app_cons. reflexivity. }
      apply Forall_app in Hd as Hsplit. destruct Hsplit as [Hbs Hrest].
      destruct (import_hex_first u h r name type _ _ p pos Hname Htype Hl (or_intror Hlast) Hp)
        as (p1 & Hrun1 & Hp1).
      destruct (import_hex_more u h r _ _ _ _ [] bs p1 Hbs Hp1)
        as (p2 & pos2 & Hrun2 & Hp2).
      destruct (import_hex_lines u h r _ _ _ rest t' Hw' ([] ++ bs) p2 pos2 X Hrest Hprep Hp2)
        as (p3 & pos3 & Hrun3 & Hp3).
      eapply (Hfinish p2 pos2 p3 pos3);
        [eapply run_trans; eassumption|exact Hrun3|exact Hp3].
Qed.

End HexValue.

(** ** The line of any value, read back *)

Lemma wide_chars_wide_bytes (s : wstr) :
  Forall (fun c => 0 <= c < 65536) s -> wide_chars (wide_bytes s) = s.
Proof.
  induction 1 as [|c s Hc _ IH]; [reflexivity|].
  cbn [wide_bytes flat_map wchar_bytes app wide_chars]. fold (wide_bytes s).
  rewrite IH. f_equal.
  rewrite (Z.mod_small (c / 256)) by (split; [apply Z.div_pos; lia|apply Z.div_lt_upper_bound; lia]).
  pose proof (Z.div_mod c 256 ltac:(lia)). lia.
Qed.

Lemma length_wide_bytes (s : wstr) : length (wide_bytes s) = (2 * length s)%nat.
Proof.
  induction s as [|c s IH]; [reflexivity|].
  cbn [wide_bytes flat_map wchar_bytes app length]. fold (wide_bytes s). rewrite IH. lia.
Qed.

Lemma wide_bytes_range (s : wstr) : Forall byte_range (wide_bytes s).
Proof.
  induction s as [|c s IH]; [constructor|].
  cbn [wide_bytes flat_map wchar_bytes app]. fold (wide_bytes s).
  constructor; [apply Z.mod_pos_bound; lia|].
  constructor; [apply Z.mod_pos_bound; lia|exact IH].
Qed.

Lemma cstr_app_nul (s rest : wstr) : nul_free s -> cstr (s ++ NUL :: rest) = s.
Proof.
  induction 1 as [|c s Hc _ IH]; [reflexivity|].
  cbn [app cstr]. apply Z.eqb_neq in Hc. now rewrite Hc, IH.
Qed.

Lemma sz_terminated_string (s : wstr) :
  Forall (fun c => 0 <= c < 65536) s -> sz_terminated (wide_bytes (s ++ [NUL])) = true.
Proof.
  intros Hs. unfold sz_terminated.
  rewrite wide_chars_wide_bytes by (apply Forall_app; split; [exact Hs|constructor; [lia|constructor]]).
  rewrite last_last, length_wide_bytes, length_app. cbn [length].
  replace (Z.of_nat (2 * (length s + 1))) with (2 * (Z.of_nat (length s) + 1)) by lia.
  replace (2 * (Z.of_nat (length s) + 1) <? 2) with false by (symmetry; apply Z.ltb_ge; lia).
  rewrite Z.mul_comm, Z.mod_mul by lia. reflexivity.
Qed.

Lemma export_string_no_eol (s : wstr) : no_eol (REGPROC_export_string s).
Proof.
  induction s as [|c s IH]; [constructor|].
  cbn [REGPROC_export_string]. apply no_eol_app; [|exact IH].
  destruct (c =? LF) eqn:Elf; [repeat constructor; discriminate|].
  destruct (c =? CR) eqn:Ecr; [repeat constructor; discriminate|].
  apply Z.eqb_neq in Elf, Ecr.
  destruct ((c =? BACKSLASH) || (c =? DQUOTE)); repeat constructor; (discriminate || assumption).
Qed.

Lemma last_map_nonempty (f : Z -> Z) (s : list Z) :
  s <> [] -> last (map f s) 0 = f (last s 0).
Proof.
  induction s as [|c s IH]; [contradiction|]. intros _.
  destruct s as [|c' s']; [reflexivity|].
  change (last (map f (c :: c' :: s')) 0) with (last (map f (c' :: s')) 0).
  change (last (c :: c' :: s') 0) with (last (c' :: s') 0).
  apply IH. discriminate.
Qed.

Section ValueLine.
Context `{CodePage}.

Lemma export_string_clean (u : bool) (s : wstr) :
  clean u s -> clean u (REGPROC_export_string s).
Proof.
  induction 1 as [|c s Hc _ IH]; [constructor|].
  cbn [REGPROC_export_string].
  apply clean_app; [|exact IH].
  destruct (c =? LF); [apply printable_clean; repeat (constructor; [lia|]); constructor|].
  destruct (c =? CR); [apply printable_clean; repeat (constructor; [lia|]); constructor|].
  destruct ((c =? BACKSLASH) || (c =? DQUOTE)).
  - constructor; [split; [discriminate|apply storable_ascii; lia]|].
    constructor; [exact Hc|constructor].
  - constructor; [exact Hc|constructor].
Qed.

(** A string in quotes comes back with its terminator. *)
Lemma import_string_value (u : bool) (h : option HKEY) (r : registry)
    (name s X : wstr) (p : parser) (pos : wstr) :
  clean u name -> clean u s ->
  ready u h r ((value_name_text name ++ quoted (REGPROC_export_string s) ++ CRLF) ++ X) p ->
  exists p' pos',
    run p pos p' pos'
    /\ ready u h (RegSetValueExW r h (pending_name name) REG_SZ (wide_bytes (s ++ [NUL]))) X p'.
Proof.
  intros Hname Hs Hp.
  assert (Etext : (value_name_text name ++ quoted (REGPROC_export_string s) ++ CRLF) ++ X
                  = (value_name_text name ++ DQUOTE :: REGPROC_export_string s ++ [DQUOTE])
                      ++ CR :: LF :: X)
    by text_eq.
  rewrite Etext in Hp.
  assert (HD : clean u (DQUOTE :: REGPROC_export_string s ++ [DQUOTE])).
  { constructor; [split; [discriminate|apply storable_ascii; lia]|].
    apply clean_app; [apply export_string_clean, Hs|].
    constructor; [split; [discriminate|apply storable_ascii; lia]|constructor]. }
  assert (Hdata : data_text (DQUOTE :: REGPROC_export_string s ++ [DQUOTE])).
  { apply data_text_last.
    - constructor; [split; discriminate|].
      apply no_eol_app; [apply export_string_no_eol|repeat constructor; discriminate].
    - split; [reflexivity|discriminate].
    - change (DQUOTE :: REGPROC_export_string s ++ [DQUOTE])
        with ((DQUOTE :: REGPROC_export_string s) ++ [DQUOTE]).
      rewrite last_last. reflexivity. }
  destruct (import_value_name u h r name _ X p pos Hname HD Hdata Hp)
    as (p1 & pt & dt & Hrun1 & Hp1).
  destruct (import_data_type_string u h r X _ pt dt p1 (REGPROC_export_string s ++ [DQUOTE]) Hp1)
    as (p2 & Hrun2 & Hp2).
  destruct (import_string_data u h r X _ _ _ p2 s (clean_nul_free u s Hs) Hp2)
    as (p3 & pos3 & Hrun3 & Hp3).
  destruct (import_set_value u h r X _ _ _ _ p3 pos3 Hp3) as (p4 & pos4 & Hrun4 & Hp4).
  exists p4, pos4. split; [|exact Hp4].
  eapply run_trans; [exact Hrun1|]. eapply run_trans; [exact Hrun2|].
  eapply run_trans; eassumption.
Qed.

(** A dword comes back as its four bytes. *)
Lemma import_dword_value (u : bool) (h : option HKEY) (r : registry)
    (name X : wstr) (b0 b1 b2 b3 : BYTE) (p : parser) (pos : wstr) :
  clean u name ->
  byte_range b0 -> byte_range b1 -> byte_range b2 -> byte_range b3 ->
  ready u h r
    ((value_name_text name ++ W "dword:"
        ++ hex8 (b0 + 256 * b1 + 65536 * b2 + 16777216 * b3) ++ CRLF) ++ X) p ->
  exists p' pos',
    run p pos p' pos'
    /\ ready u h (RegSetValueExW r h (pending_name name) REG_DWORD [b0; b1; b2; b3]) X p'.
Proof.
  intros Hname H0 H1 H2 H3 Hp.
  set (d := b0 + 256 * b1 + 65536 * b2 + 16777216 * b3) in *.
  assert (Hrange : 0 <= d < 2 ^ 32).
  { unfold byte_range in *. change (2 ^ 32) with 4294967296. subst d. lia. }
  assert (Etext : (value_name_text name ++ W "dword:" ++ hex8 d ++ CRLF) ++ X
                  = (value_name_text name ++ W "dword:" ++ hex8 d) ++ CR :: LF :: X)
    by text_eq.
  rewrite Etext in Hp.
  assert (Hprint : printable (W "dword:" ++ hex8 d)).
  { apply printable_app; [|apply hex8_printable].
    repeat (constructor; [cbn; lia|]). constructor. }
  assert (Hdata : data_text (W "dword:" ++ hex8 d)).
  { apply data_text_last.
    - apply printable_no_eol, Hprint.
    - split; [reflexivity|discriminate].
    - unfold hex8. cbn [map].
      change (W "dword:") with [100; 119; 111; 114; 100; 58]. cbn [app last].
      apply hex_char_digit, Z.mod_pos_bound. lia. }
  destruct (import_value_name u h r name _ X p pos Hname (printable_clean u _ Hprint) Hdata Hp)
    as (p1 & pt & dt & Hrun1 & Hp1).
  destruct (import_data_type_dword u h r X _ pt dt p1 (hex8 d) Hp1) as (p2 & Hrun2 & Hp2).
  destruct (import_dword_data u h r X _ _ _ p2 d Hrange Hp2) as (p3 & pos3 & Hrun3 & Hp3).
  destruct (import_set_value u h r X _ _ _ _ p3 pos3 Hp3) as (p4 & pos4 & Hrun4 & Hp4).
  exists p4, pos4. split.
  - eapply run_trans; [exact Hrun1|]. eapply run_trans; [exact Hrun2|].
    eapply run_trans; eassumption.
  - subst d. rewrite dword_bytes_of_bytes in Hp4 by assumption. exact Hp4.
Qed.

End ValueLine.

Section AnyValue.
Context `{CodePage}.

Lemma decode_encode_storable (s : wstr) :
  Forall (storable false) s -> map mb_to_wc (map wc_to_mb s) = s.
Proof.
  induction 1 as [|c s [_ Hc] _ IH]; [reflexivity|].
  cbn [map]. now rewrite IH, (Hc eq_refl).
Qed.

Lemma encode_range (s : wstr) : Forall byte_range (map wc_to_mb s).
Proof.
  induction s as [|c s IH]; [constructor|].
  cbn [map]. constructor; [apply wc_to_mb_byte|exact IH].
Qed.

Lemma storable_range (u : bool) (s : wstr) :
  Forall (storable u) s -> Forall (fun c => 0 <= c < 65536) s.
Proof. apply Forall_impl. now intros c [Hc _]. Qed.

(** The line written for a value sets the value again. *)
Lemma import_value_line (u : bool) (h : option HKEY) (r : registry)
    (name : wstr) (v : reg_value) (T X : wstr) (p : parser) (pos : wstr) :
  value_name_ok u name -> exportable_value u v ->
  value_text name v u = Some T ->
  ready u h r (T ++ X) p ->
  exists p' pos',
    run p pos p' pos'
    /\ ready u h (RegSetValueExW r h (pending_name name) (val_type v) (val_data v)) X p'.
Proof.
  destruct v as [ty data]. unfold value_name_ok, exportable_value, value_text.
  cbn [val_type val_data]. intros Hname [Hty Hv] HT Hp.
  destruct (ty =? REG_SZ) eqn:Esz.
  { apply Z.eqb_eq in Esz. subst ty.
    destruct Hv as [(s & Hnf & Hst & Hdata)|(Hu & Hterm & Hrange)].
    - subst data.
      pose proof (storable_range u s Hst) as Hrange.
      rewrite sz_terminated_string in HT by exact Hrange.
      rewrite wide_chars_wide_bytes in HT
        by (apply Forall_app; split; [exact Hrange|constructor; [lia|constructor]]).
      rewrite cstr_app_nul in HT by exact Hnf.
      injection HT as <-.
      apply import_string_value; [exact Hname| |exact Hp].
      clear - Hnf Hst. induction Hnf as [|c s Hc _ IH]; [constructor|].
      inversion Hst; subst. constructor; [split; assumption|apply IH; assumption].
    - subst u. rewrite Hterm in HT. injection HT as <-.
      unfold REGPROC_export_binary in Hp.
      cbn [Z.eqb Pos.eqb negb andb orb] in Hp.
      set (t := export_binary_loop _ data) in Hp.
      apply (import_hex_value true h r name REG_SZ data t X p pos Hname Hty Hrange).
      + discriminate.
      + subst t. destruct data as [|b data]; [left; split; reflexivity|right].
        apply export_binary_loop_wrapped. discriminate.
      + exact Hp. }
  destruct (ty =? REG_DWORD) eqn:Edw.
  { apply Z.eqb_eq in Edw. subst ty. destruct Hv as [Hlen Hrange].
    destruct data as [|b0 [|b1 [|b2 [|b3 [|b4 data]]]]]; try discriminate Hlen.
    injection HT as <-.
    inversion Hrange as [|? ? H0 Hr1]; subst. inversion Hr1 as [|? ? H1 Hr2]; subst.
    inversion Hr2 as [|? ? H2 Hr3]; subst. inversion Hr3 as [|? ? H3 _]; subst.
    now apply import_dword_value. }
  assert (Hpay : Forall byte_range (hex_payload ty data u)
                 /\ hex_payload ty data u <> []
                 /\ ((ty =? REG_EXPAND_SZ) || (ty =? REG_MULTI_SZ) = true ->
                     last (hex_payload ty data u) 0 = 0)
                 /\ final_data u ty (hex_payload ty data u) = data).
  { unfold hex_payload, final_data.
    destruct ((ty =? REG_EXPAND_SZ) || (ty =? REG_MULTI_SZ)) eqn:Estr.
    - destruct u; cbn [negb andb].
      + destruct Hv as (Hne & Hrange & Hlast). repeat split; auto.
      + destruct Hv as (s & Hne & Hst & Hlast & ->).
        unfold GetMultiByteStringN, GetWideStringN.
        rewrite wide_chars_wide_bytes by (apply (storable_range false), Hst).
        repeat split.
        * apply encode_range.
        * destruct s; [contradiction|discriminate].
        * intros _. rewrite last_map_nonempty by exact Hne.
          rewrite Hlast. apply wc_to_mb_ascii. lia.
        * now rewrite decode_encode_storable.
    - rewrite andb_false_r. cbn [andb]. destruct Hv as [Hne Hrange].
      repeat split; auto. discriminate. }
  destruct Hpay as (Hrange & Hne & Hlast & Hfinal).
  set (payload := hex_payload ty data u) in *.
  set (t := export_binary_loop
              (Z.of_nat (length (value_name_text name)) + Z.of_nat (length (hex_prefix ty)))
              payload).
  assert (ET : T = value_name_text name ++ hex_prefix ty ++ t ++ CRLF).
  { subst t. destruct payload; [contradiction|congruence]. }
  subst T. rewrite <- Hfinal.
  apply (import_hex_value u h r name ty payload t X p pos Hname Hty Hrange).
  - intros Hstr. split; [exact Hne|apply Hlast, Hstr].
  - right. apply export_binary_loop_wrapped, Hne.
  - exact Hp.
Qed.

End AnyValue.

(** ** The registry: keys reached by a path *)

Lemma wstr_eqb_refl (a : wstr) : wstr_eqb a a = true.
Proof. now apply wstr_eqb_eq. Qed.

Section Assoc.
Context {A : Type}.
Implicit Types (l : list (wstr * A)) (f g : A -> A) (d a : A) (n : wstr).

Lemma assoc_upsert n f d l :
  assoc n (upsert n f d l)
  = Some (f (match assoc n l with Some a => a | None => d end)).
Proof.
  induction l as [|[m a] l IH]; cbn [upsert assoc].
  - now rewrite wstr_eqb_refl.
  - destruct (wstr_eqb m n) eqn:E; cbn [assoc]; rewrite E; [reflexivity|exact IH].
Qed.

Lemma upsert_upsert n f g d l :
  assoc n l <> None ->
  upsert n g d (upsert n f d l) = upsert n (fun a => g (f a)) d l.
Proof.
  induction l as [|[m a] l IH]; cbn [upsert assoc]; intros Hn.
  - contradiction.
  - destruct (wstr_eqb m n) eqn:E; cbn [upsert]; rewrite E; [reflexivity|].
    now rewrite IH.
Qed.

Lemma upsert_ext_at n f g d l :
  (forall a, assoc n l = Some a -> f a = g a) -> (assoc n l = None -> f d = g d) ->
  upsert n f d l = upsert n g d l.
Proof.
  induction l as [|[m a] l IH]; cbn [upsert assoc]; intros Hs Hd.
  - now rewrite Hd.
  - destruct (wstr_eqb m n) eqn:E.
    + now rewrite Hs.
    + now rewrite IH.
Qed.

Lemma upsert_same n f d l a :
  assoc n l = Some a -> f a = a -> upsert n f d l = l.
Proof.
  induction l as [|[m b] l IH]; cbn [upsert assoc]; intros Hn Hf; [discriminate|].
  destruct (wstr_eqb m n) eqn:E.
  - injection Hn as ->. now rewrite Hf.
  - now rewrite IH.
Qed.

Lemma upsert_new n f d l :
  assoc n l = None -> upsert n f d l = l ++ [(n, f d)].
Proof.
  induction l as [|[m b] l IH]; cbn [upsert assoc app]; intros Hn; [reflexivity|].
  destruct (wstr_eqb m n) eqn:E; [discriminate|]. now rewrite IH.
Qed.

Lemma upsert_last n f d l a :
  assoc n l = None -> upsert n f d (l ++ [(n, a)]) = l ++ [(n, f a)].
Proof.
  induction l as [|[m b] l IH]; cbn [upsert assoc app]; intros Hn.
  - now rewrite wstr_eqb_refl.
  - destruct (wstr_eqb m n) eqn:E; [discriminate|]. now rewrite IH.
Qed.

Lemma assoc_last n l a :
  assoc n l = None -> assoc n (l ++ [(n, a)]) = Some a.
Proof.
  induction l as [|[m b] l IH]; cbn [assoc app]; intros Hn.
  - now rewrite wstr_eqb_refl.
  - destruct (wstr_eqb m n) eqn:E; [discriminate|]. now apply IH.
Qed.

Lemma assoc_not_in n l : ~ In n (map fst l) -> assoc n l = None.
Proof.
  induction l as [|[m b] l IH]; cbn [assoc map fst In]; intros Hn; [reflexivity|].
  destruct (wstr_eqb m n) eqn:E.
  - apply wstr_eqb_eq in E. tauto.
  - apply IH. tauto.
Qed.

End Assoc.

Lemma key_eta (k : reg_key) : Key (key_values k) (key_subkeys k) = k.
Proof. now destruct k. Qed.

Lemma modify_key_app (names rest : list wstr) (f : reg_key -> reg_key) :
  forall R, modify_key (names ++ rest) f R = modify_key names (modify_key rest f) R.
Proof.
  induction names as [|n names IH]; intros R; [reflexivity|].
  cbn [app modify_key]. destruct (assoc n (key_subkeys R)); [|reflexivity].
  f_equal. apply upsert_ext_at; intros; apply IH.
Qed.

Lemma modify_key_twice (names : list wstr) (f g : reg_key -> reg_key) :
  forall R, modify_key names g (modify_key names f R)
            = modify_key names (fun k => g (f k)) R.
Proof.
  induction names as [|n names IH]; intros R; [reflexivity|].
  cbn [modify_key]. destruct (assoc n (key_subkeys R)) as [sub|] eqn:E.
  - cbn [key_subkeys key_values]. rewrite assoc_upsert. cbv beta iota.
    rewrite upsert_upsert by (rewrite E; discriminate).
    f_equal. apply upsert_ext_at; intros; apply IH.
  - cbn [modify_key]. now rewrite E.
Qed.

Lemma lookup_modify_key (names : list wstr) (f : reg_key -> reg_key) :
  forall R K, lookup_key names R = Some K ->
              lookup_key names (modify_key names f R) = Some (f K).
Proof.
  induction names as [|n names IH]; intros R K; cbn [lookup_key modify_key].
  - now intros [= ->].
  - destruct (assoc n (key_subkeys R)) as [sub|] eqn:E; [|discriminate].
    intros Hsub. cbn [key_subkeys]. rewrite assoc_upsert, E. now apply IH.
Qed.

Lemma modify_key_same (names : list wstr) (f : reg_key -> reg_key) :
  forall R K, lookup_key names R = Some K -> f K = K -> modify_key names f R = R.
Proof.
  induction names as [|n names IH]; intros R K; cbn [lookup_key modify_key].
  - now intros [= ->].
  - destruct (assoc n (key_subkeys R)) as [sub|] eqn:E; [|discriminate].
    intros Hsub Hf. rewrite (upsert_same n _ _ _ sub E) by (eapply IH; eassumption).
    apply key_eta.
Qed.

Lemma create_path_app (names rest : list wstr) :
  forall R K, lookup_key names R = Some K ->
              create_path (names ++ rest) R = modify_key names (create_path rest) R.
Proof.
  induction names as [|n names IH]; intros R K; cbn [app lookup_key modify_key create_path].
  - reflexivity.
  - destruct (assoc n (key_subkeys R)) as [sub|] eqn:E; [|discriminate].
    intros Hsub. f_equal. apply upsert_ext_at.
    + intros a Ha. rewrite E in Ha. injection Ha as <-. eapply IH, Hsub.
    + rewrite E. discriminate.
Qed.

Lemma lookup_create_path (names : list wstr) :
  forall R, lookup_key names (create_path names R)
            = Some (match lookup_key names R with Some K => K | None => empty_key end).
Proof.
  induction names as [|n names IH]; intros R; cbn [lookup_key create_path]; [reflexivity|].
  cbn [key_subkeys]. rewrite assoc_upsert.
  destruct (assoc n (key_subkeys R)) as [sub|]; [apply IH|].
  rewrite IH. destruct names; reflexivity.
Qed.

Lemma focus_graft (names : list wstr) (t : reg_key) :
  focus names t (create_path names empty_key) = graft names t.
Proof.
  unfold focus. induction names as [|n names IH]; [reflexivity|].
  cbn [create_path modify_key graft empty_key key_values key_subkeys upsert assoc].
  rewrite wstr_eqb_refl. cbn [upsert key_values].
  now rewrite IH.
Qed.

Lemma get_set_root (r : registry) (c : root_class) (k : reg_key) :
  get_root (set_root r c k) c = k.
Proof. now destruct c. Qed.

Lemma set_set_root (r : registry) (c : root_class) (k k' : reg_key) :
  set_root (set_root r c k) c k' = set_root r c k'.
Proof. now destruct c. Qed.

(** Induction on a key with the subkeys as hypothesis. *)
Lemma reg_key_subkeys_ind (P : reg_key -> Prop) :
  (forall vs ks, Forall (fun nk => P (snd nk)) ks -> P (Key vs ks)) ->
  forall k, P k.
Proof.
  intros Hkey.
  refine (fix IH (k : reg_key) : P k :=
            match k with
            | Key vs ks =>
                Hkey vs ks
                  ((fix subkeys (l : list (wstr * reg_key)) : Forall (fun nk => P (snd nk)) l :=
                      match l with
                      | [] => Forall_nil _
                      | nk :: rest => Forall_cons nk (IH (snd nk)) (subkeys rest)
                      end) ks)
            end).
Qed.

Lemma lookup_key_app (names rest : list wstr) :
  forall R, lookup_key (names ++ rest) R
            = match lookup_key names R with
              | Some K => lookup_key rest K
              | None => None
              end.
Proof.
  induction names as [|n names IH]; intros R; cbn [app lookup_key]; [reflexivity|].
  destruct (assoc n (key_subkeys R)); [apply IH|reflexivity].
Qed.

Lemma set_value_focus (r0 : registry) (c : root_class) (names : list wstr)
    (K R' : reg_key) (name : wstr) (v : reg_value) :
  RegSetValueExW (set_root r0 c (focus names K R')) (Some (c, names))
    (pending_name name) (val_type v) (val_data v)
  = set_root r0 c (focus names (set_value_in name v K) R').
Proof.
  unfold RegSetValueExW. rewrite get_set_root, set_set_root.
  unfold focus. rewrite modify_key_twice.
  destruct v as [ty data]. destruct name; reflexivity.
Qed.

(** A new subkey below the key in focus, and what is put there. *)
Lemma focus_subkey (names : list wstr) (n : wstr) (sub : reg_key)
    (vs : list (wstr * reg_value)) (ks1 : list (wstr * reg_key)) (R' K0 : reg_key) :
  lookup_key names R' = Some K0 -> assoc n ks1 = None ->
  lookup_key (names ++ [n]) (create_path (names ++ [n]) (focus names (Key vs ks1) R'))
  = Some empty_key
  /\ focus (names ++ [n]) sub (create_path (names ++ [n]) (focus names (Key vs ks1) R'))
     = focus names (Key vs (ks1 ++ [(n, sub)])) R'.
Proof.
  intros HK0 Hn.
  assert (Hcur : lookup_key names (focus names (Key vs ks1) R') = Some (Key vs ks1)).
  { unfold focus. now rewrite (lookup_modify_key names _ R' K0 HK0). }
  split.
  - rewrite lookup_create_path, lookup_key_app, Hcur.
    cbn [lookup_key key_subkeys]. now rewrite Hn.
  - rewrite (create_path_app names [n] _ _ Hcur).
    unfold focus at 2 3. rewrite modify_key_twice.
    unfold focus. rewrite modify_key_app, modify_key_twice.
    cbn [create_path modify_key key_values key_subkeys].
    rewrite (upsert_new n _ _ ks1 Hn).
    rewrite (assoc_last n ks1 _ Hn).
    rewrite (upsert_last n _ _ ks1 _ Hn).
    reflexivity.
Qed.

Lemma build_subkey_path_key_path (u : bool) `{CodePage} (c : root_class)
    (names : list wstr) (n : wstr) :
  Forall (key_name_ok u) names -> key_name_ok u n ->
  build_subkey_path (key_path c names) n = key_path c (names ++ [n]).
Proof.
  intros Hnames Hn. unfold build_subkey_path.
  destruct (key_path_clean u c names Hnames) as [Hclean _].
  rewrite (cstr_nul_free _ (clean_nul_free u _ Hclean)).
  destruct Hn as (_ & _ & Hcn & _).
  rewrite (cstr_nul_free _ (clean_nul_free u _ Hcn)).
  unfold key_path. rewrite flat_map_app. cbn [flat_map].
  rewrite app_nil_r, <- app_assoc. reflexivity.
Qed.

Section ValuesLoop.
Context `{CodePage}.

(** The lines of the values of a key set them one after the other. *)
Lemma import_values (u : bool) (c : root_class) (names : list wstr) (r0 : registry)
    (R' : reg_key) (ks : list (wstr * reg_key)) (X : wstr) (vs : list (wstr * reg_value)) :
  forall (Tv : wstr) (vs1 : list (wstr * reg_value)) (p : parser) (pos : wstr),
    Forall (fun nv => value_name_ok u (fst nv) /\ exportable_value u (snd nv)) vs ->
    NoDup (map fst (vs1 ++ vs)) ->
    values_text vs u = Some Tv ->
    ready u (Some (c, names)) (set_root r0 c (focus names (Key vs1 ks) R')) (Tv ++ X) p ->
    exists p' pos',
      run p pos p' pos'
      /\ ready u (Some (c, names)) (set_root r0 c (focus names (Key (vs1 ++ vs) ks) R')) X p'.
Proof.
  induction vs as [|[name v] vs IH]; intros Tv vs1 p pos Hok Hnd HT Hp.
  - injection HT as <-. rewrite app_nil_r. exists p, pos. split; [apply run_refl|exact Hp].
  - cbn [values_text] in HT.
    destruct (value_text name v u) as [T|] eqn:ET; [|discriminate].
    destruct (values_text vs u) as [Ts|] eqn:ETs; [|discriminate].
    injection HT as <-.
    inversion Hok as [|? ? [Hname Hv] Hok']; subst. cbn [fst snd] in *.
    rewrite <- app_assoc in Hp.
    destruct (import_value_line u _ _ name v T (Ts ++ X) p pos Hname Hv ET Hp)
      as (p1 & pos1 & Hrun1 & Hp1).
    rewrite set_value_focus in Hp1.
    assert (Hnew : assoc name vs1 = None).
    { apply assoc_not_in. rewrite map_app in Hnd. cbn [map fst] in Hnd.
      apply NoDup_remove_2 in Hnd. intros Hin. apply Hnd, in_or_app. now left. }
    unfold set_value_in in Hp1. cbn [key_values key_subkeys] in Hp1.
    rewrite (upsert_new name _ _ vs1 Hnew) in Hp1.
    assert (Hnd' : NoDup (map fst ((vs1 ++ [(name, v)]) ++ vs))).
    { now rewrite <- app_assoc. }
    destruct (IH Ts (vs1 ++ [(name, v)]) p1 pos1 Hok' Hnd' eq_refl Hp1)
      as (p2 & pos2 & Hrun2 & Hp2).
    exists p2, pos2. split; [eapply run_trans; eassumption|].
    rewrite <- app_assoc in Hp2. exact Hp2.
Qed.

End ValuesLoop.

(** ** The text of a key, read back *)

Lemma subkeys_text_cons (text : reg_key -> wstr -> option wstr) (path n : wstr)
    (sub : reg_key) (rest : list (wstr * reg_key)) :
  subkeys_text text path ((n, sub) :: rest)
  = if MAX_SUBKEY_LEN <=? Z.of_nat (length n) then Some []
    else match text sub (build_subkey_path path n), subkeys_text text path rest with
         | Some t, Some ts => Some (t ++ ts)
         | _, _ => None
         end.
Proof. reflexivity. Qed.

Lemma key_text_eq (vs : list (wstr * reg_value)) (ks : list (wstr * reg_key))
    `{CodePage} (path : wstr) (u : bool) :
  key_text (Key vs ks) path u
  = match values_text vs u with
    | None => None
    | Some tv =>
        match subkeys_text (fun subkey path => key_text subkey path u) path ks with
        | None => None
        | Some ts => Some (CRLF ++ [LBRACKET] ++ cstr path ++ [RBRACKET] ++ CRLF ++ tv ++ ts)
        end
    end.
Proof. reflexivity. Qed.

Lemma subkey_name_fits (u : bool) `{CodePage} (n : wstr) :
  key_name_ok u n -> (MAX_SUBKEY_LEN <=? Z.of_nat (length n)) = false.
Proof. intros (_ & Hlen & _). apply Z.leb_gt. unfold MAX_SUBKEY_LEN. lia. Qed.

Section KeyImport.
Context `{CodePage}.

(** The texts of the subkeys of a key put them below it, one after the
    other. *)
Lemma import_subkeys (u : bool) (c : root_class) (r0 : registry) (names : list wstr)
    (vs : list (wstr * reg_value)) (R' K0 : reg_key) (X : wstr) :
  Forall (key_name_ok u) names -> lookup_key names R' = Some K0 ->
  forall ks, Forall (fun nk => key_comes_back u c r0 (snd nk)) ks ->
  forall (ts : wstr) (ks1 : list (wstr * reg_key)) (p : parser) (pos : wstr) (h : option HKEY),
    subkeys_ok u (exportable_key u) ks ->
    NoDup (map fst (ks1 ++ ks)) ->
    subkeys_text (fun sub path => key_text sub path u) (key_path c names) ks = Some ts ->
    ready u h (set_root r0 c (focus names (Key vs ks1) R')) (ts ++ X) p ->
    exists p' pos' h',
      run p pos p' pos'
      /\ ready u h' (set_root r0 c (focus names (Key vs (ks1 ++ ks)) R')) X p'.
Proof.
  intros Hnames HK0. induction 1 as [|[n sub] ks Hsub _ IH];
    intros ts ks1 p pos h Hok Hnd HT Hp.
  - injection HT as <-. rewrite app_nil_r. exists p, pos, h. split; [apply run_refl|exact Hp].
  - destruct Hok as (Hn & Hexp & Hok'). cbn [snd] in Hsub.
    rewrite subkeys_text_cons, (subkey_name_fits u n Hn) in HT.
    rewrite (build_subkey_path_key_path u c names n Hnames Hn) in HT.
    destruct (key_text sub (key_path c (names ++ [n])) u) as [t|] eqn:Et; [|discriminate].
    destruct (subkeys_text _ (key_path c names) ks) as [ts'|] eqn:Ets; [|discriminate].
    injection HT as <-.
    assert (Hnew : assoc n ks1 = None).
    { apply assoc_not_in. rewrite map_app in Hnd. cbn [map fst] in Hnd.
      apply NoDup_remove_2 in Hnd. intros Hin. apply Hnd, in_or_app. now left. }
    destruct (focus_subkey names n sub vs ks1 R' K0 HK0 Hnew) as [Hlk Hfocus].
    rewrite <- app_assoc in Hp.
    assert (Hnames' : Forall (key_name_ok u) (names ++ [n])).
    { apply Forall_app. split; [exact Hnames|constructor; [exact Hn|constructor]]. }
    destruct (Hsub (names ++ [n]) t (ts' ++ X) p pos h _ Hnames' Hexp Et Hlk Hp)
      as (p1 & pos1 & h1 & Hrun1 & Hp1).
    rewrite Hfocus in Hp1.
    assert (Hnd' : NoDup (map fst ((ks1 ++ [(n, sub)]) ++ ks))) by now rewrite <- app_assoc.
    destruct (IH ts' (ks1 ++ [(n, sub)]) p1 pos1 h1 Hok' Hnd' eq_refl Hp1)
      as (p2 & pos2 & h2 & Hrun2 & Hp2).
    exists p2, pos2, h2. split; [eapply run_trans; eassumption|].
    rewrite <- app_assoc in Hp2. exact Hp2.
Qed.

(** The text written for a key puts the key back. *)
Lemma import_key_text (u : bool) (c : root_class) (r0 : registry) (k : reg_key) :
  key_comes_back u c r0 k.
Proof.
  induction k as [vs ks IHks] using reg_key_subkeys_ind.
  intros names T X p pos h R Hnames Hexp HT Hlk Hp.
  destruct Hexp as ((Hndv & Hvs) & Hndk & Hsub).
  rewrite key_text_eq in HT.
  destruct (values_text vs u) as [tv|] eqn:Etv; [|discriminate].
  destruct (subkeys_text _ (key_path c names) ks) as [ts|] eqn:Ets; [|discriminate].
  injection HT as <-.
  destruct (key_path_clean u c names Hnames) as [Hclean _].
  rewrite (cstr_nul_free _ (clean_nul_free u _ Hclean)) in Hp.
  unfold CRLF in Hp.
  repeat first [rewrite <- app_assoc in Hp | progress cbn [app] in Hp].
  destruct (import_empty_line u h _ _ p pos Hp) as (p1 & pos1 & Hrun1 & Hp1).
  destruct (import_key_line u h _ c names (tv ++ ts ++ X) p1 pos1 Hnames Hp1)
    as (p2 & pos2 & Hrun2 & Hp2).
  rewrite get_set_root, set_set_root in Hp2.
  set (R' := create_path names R) in *.
  assert (E : set_root r0 c R' = set_root r0 c (focus names (Key [] []) R')).
  { f_equal. symmetry. apply (modify_key_same names _ R' empty_key Hlk). reflexivity. }
  rewrite E in Hp2.
  destruct (import_values u c names r0 R' [] (ts ++ X) vs tv [] p2 pos2 Hvs Hndv Etv Hp2)
    as (p3 & pos3 & Hrun3 & Hp3).
  cbn [app] in Hp3.
  destruct (import_subkeys u c r0 names vs R' empty_key X Hnames Hlk ks IHks ts [] p3 pos3 _
              Hsub Hndk Ets Hp3) as (p4 & pos4 & h4 & Hrun4 & Hp4).
  exists p4, pos4, h4. split; [|exact Hp4].
  eapply run_trans; [exact Hrun1|]. eapply run_trans; [exact Hrun2|].
  eapply run_trans; eassumption.
Qed.

End KeyImport.

(** ** The file written for a key *)

Lemma export_subkeys_cons (export : list BYTE -> reg_key -> wstr -> option (list BYTE))
    (path : wstr) (fp : list BYTE) (n : wstr) (sub : reg_key) (rest : list (wstr * reg_key)) :
  export_subkeys export path fp ((n, sub) :: rest)
  = if MAX_SUBKEY_LEN <=? Z.of_nat (length n) then Some fp
    else match export fp sub (build_subkey_path path n) with
         | Some fp => export_subkeys export path fp rest
         | None => None
         end.
Proof. reflexivity. Qed.

Section ExportKey.
Context `{CodePage}.

Lemma export_registry_data_eq (fp : list BYTE) (vs : list (wstr * reg_value))
    (ks : list (wstr * reg_key)) (path : wstr) (u : bool) :
  export_registry_data fp (Key vs ks) path u
  = match export_values (export_key_name fp path u) vs u with
    | None => None
    | Some fp =>
        export_subkeys (fun fp subkey path => export_registry_data fp subkey path u) path fp ks
    end.
Proof. reflexivity. Qed.

Lemma encode_nil (u : bool) : encode u [] = [].
Proof. now destruct u. Qed.

Lemma export_values_all (u : bool) (vs : list (wstr * reg_value)) :
  forall fp,
    export_values fp vs u
    = match values_text vs u with
      | Some t => Some (fp ++ encode u t)
      | None => None
      end.
Proof.
  induction vs as [|[name v] vs IH]; intros fp.
  - cbn [export_values values_text]. now rewrite encode_nil, app_nil_r.
  - rewrite export_values_text. cbn [values_text].
    destruct (value_text name v u) as [t|]; [|reflexivity].
    rewrite IH. destruct (values_text vs u) as [ts|]; [|reflexivity].
    now rewrite encode_app, app_assoc.
Qed.

Lemma export_key_name_text (fp : list BYTE) (path : wstr) (u : bool) :
  export_key_name fp path u
  = fp ++ encode u (CRLF ++ [LBRACKET] ++ cstr path ++ [RBRACKET] ++ CRLF).
Proof.
  unfold export_key_name. apply write_line_encode.
  repeat apply nul_free_app; try (repeat constructor; discriminate).
  apply cstr_is_nul_free.
Qed.

(** The exporter writes the text of the key after what the file holds. *)
Lemma export_key_text (u : bool) (k : reg_key) :
  forall fp path,
    export_registry_data fp k path u
    = match key_text k path u with
      | Some t => Some (fp ++ encode u t)
      | None => None
      end.
Proof.
  induction k as [vs ks IHks] using reg_key_subkeys_ind. intros fp path.
  rewrite export_registry_data_eq, key_text_eq, export_values_all, export_key_name_text.
  destruct (values_text vs u) as [tv|]; [|reflexivity].
  assert (Hloop : forall fp0,
             export_subkeys (fun fp subkey path => export_registry_data fp subkey path u)
               path fp0 ks
             = match subkeys_text (fun subkey path => key_text subkey path u) path ks with
               | Some ts => Some (fp0 ++ encode u ts)
               | None => None
               end).
  { induction IHks as [|[n sub] ks Hsub _ IH]; intros fp0.
    - cbn [export_subkeys subkeys_text]. now rewrite encode_nil, app_nil_r.
    - rewrite export_subkeys_cons, subkeys_text_cons.
      destruct (MAX_SUBKEY_LEN <=? Z.of_nat (length n)).
      + now rewrite encode_nil, app_nil_r.
      + cbn [snd] in Hsub. rewrite Hsub.
        destruct (key_text sub (build_subkey_path path n) u) as [t|]; [|reflexivity].
        rewrite IH. destruct (subkeys_text _ path ks) as [ts|]; [|reflexivity].
        now rewrite encode_app, app_assoc. }
  rewrite Hloop.
  destruct (subkeys_text _ path ks) as [ts|]; [|reflexivity].
  f_equal. rewrite <- !app_assoc, <- !encode_app. f_equal. f_equal.
  unfold CRLF. cbn [app]. rewrite <- !app_assoc. reflexivity.
Qed.

End ExportKey.

(** ** What is written can be read: no NUL, no character lost *)

Section CleanText.
Context `{CodePage}.

Lemma value_name_text_clean (u : bool) (name : wstr) :
  clean u name -> clean u (value_name_text name).
Proof.
  intros Hname. unfold value_name_text, quoted.
  pose proof (escape_string_clean u name Hname) as He.
  destruct (cstr name).
  - apply printable_clean. repeat (constructor; [cbn; lia|]). constructor.
  - apply clean_app; [apply clean_app; [|apply clean_app; [exact He|]]|];
      apply printable_clean; repeat (constructor; [lia|]); constructor.
Qed.

Lemma crlf_clean (u : bool) : clean u CRLF.
Proof. apply clean_ascii. repeat (constructor; [lia|]). constructor. Qed.

Lemma wrapped_clean (u : bool) (d : list BYTE) (t : wstr) : wrapped d t -> clean u t.
Proof.
  induction 1 as [bs _|bs rest t _ _ IH].
  - apply printable_clean, hex_csv_printable.
  - apply clean_app; [apply printable_clean, hex_commas_printable|].
    apply clean_app; [|exact IH].
    apply clean_ascii. repeat (constructor; [lia|]). constructor.
Qed.

Lemma export_binary_loop_clean (u : bool) (column : Z) (d : list BYTE) :
  clean u (export_binary_loop column d).
Proof.
  destruct d as [|b d]; [constructor|].
  apply (wrapped_clean u (b :: d)), export_binary_loop_wrapped. discriminate.
Qed.

(** The line of a value that can come back is there, and can be read. *)
Lemma value_text_clean (u : bool) (name : wstr) (v : reg_value) :
  value_name_ok u name -> exportable_value u v ->
  exists T, value_text name v u = Some T /\ clean u T.
Proof.
  destruct v as [ty data]. unfold value_name_ok, exportable_value, value_text.
  cbn [val_type val_data]. intros Hname [Hty Hv].
  pose proof (value_name_text_clean u name Hname) as Hn.
  destruct (ty =? REG_SZ) eqn:Esz.
  { destruct (sz_terminated data) eqn:Eterm.
    - eexists. split; [reflexivity|].
      destruct Hv as [(s & Hnf & Hst & ->)|(_ & Hterm & _)]; [|congruence].
      pose proof (storable_range u s Hst) as Hrange.
      rewrite wide_chars_wide_bytes
        by (apply Forall_app; split; [exact Hrange|constructor; [lia|constructor]]).
      rewrite cstr_app_nul by exact Hnf.
      assert (Hs : clean u s).
      { clear - Hnf Hst. induction Hnf as [|c s Hc _ IH]; [constructor|].
        inversion Hst; subst. constructor; [split; assumption|apply IH; assumption]. }
      pose proof (export_string_clean u s Hs) as He.
      unfold quoted.
      apply clean_app; [exact Hn|]. apply clean_app; [|apply crlf_clean].
      apply clean_app; [|apply clean_app; [exact He|]];
        apply printable_clean; repeat (constructor; [lia|]); constructor.
    - eexists. split; [reflexivity|].
      unfold REGPROC_export_binary.
      apply clean_app; [exact Hn|].
      apply clean_app; [apply printable_clean, hex_prefix_printable|].
      apply clean_app; [apply export_binary_loop_clean|apply crlf_clean]. }
  destruct (ty =? REG_DWORD) eqn:Edw.
  { destruct Hv as [Hlen _].
    destruct data as [|b0 [|b1 [|b2 [|b3 [|b4 data]]]]]; try discriminate Hlen.
    eexists. split; [reflexivity|].
    apply clean_app; [exact Hn|].
    apply clean_app; [apply printable_clean; repeat (constructor; [cbn; lia|]); constructor|].
    apply clean_app; [apply printable_clean, hex8_printable|apply crlf_clean]. }
  assert (Hne : hex_payload ty data u <> []).
  { unfold hex_payload.
    destruct ((ty =? REG_EXPAND_SZ) || (ty =? REG_MULTI_SZ)) eqn:Estr.
    - destruct u; cbn [negb andb].
      + apply Hv.
      + destruct Hv as (s & Hs & Hst & _ & ->).
        unfold GetMultiByteStringN.
        rewrite wide_chars_wide_bytes by (apply (storable_range false), Hst).
        destruct s; [contradiction|discriminate].
    - rewrite andb_false_r. apply Hv. }
  destruct (hex_payload ty data u) as [|b payload] eqn:Epay; [contradiction|].
  eexists. split; [reflexivity|].
  apply clean_app; [exact Hn|].
  apply clean_app; [apply printable_clean, hex_prefix_printable|].
  apply clean_app; [apply export_binary_loop_clean|apply crlf_clean].
Qed.

Lemma values_text_clean (u : bool) (vs : list (wstr * reg_value)) :
  Forall (fun nv => value_name_ok u (fst nv) /\ exportable_value u (snd nv)) vs ->
  exists Tv, values_text vs u = Some Tv /\ clean u Tv.
Proof.
  induction 1 as [|[name v] vs [Hname Hv] _ (Ts & ETs & Hclean)].
  - exists []. split; [reflexivity|constructor].
  - destruct (value_text_clean u name v Hname Hv) as (T & ET & HT).
    exists (T ++ Ts). cbn [values_text]. rewrite ET, ETs.
    split; [reflexivity|now apply clean_app].
Qed.

(** The text of a key that can come back is there, and can be read. *)
Lemma key_text_clean (u : bool) (c : root_class) (k : reg_key) :
  forall names,
    Forall (key_name_ok u) names -> exportable_key u k ->
    exists T, key_text k (key_path c names) u = Some T /\ clean u T.
Proof.
  induction k as [vs ks IHks] using reg_key_subkeys_ind.
  intros names Hnames ((_ & Hvs) & _ & Hsub).
  destruct (values_text_clean u vs Hvs) as (Tv & ETv & HTv).
  assert (Hloop : exists Ts,
             subkeys_text (fun subkey path => key_text subkey path u) (key_path c names) ks
             = Some Ts /\ clean u Ts).
  { induction IHks as [|[n sub] ks Hkey _ IH].
    - exists []. split; [reflexivity|constructor].
    - destruct Hsub as (Hn & Hexp & Hsub').
      destruct (IH Hsub') as (Ts & ETs & HTs).
      assert (Hnames' : Forall (key_name_ok u) (names ++ [n])).
      { apply Forall_app. split; [exact Hnames|constructor; [exact Hn|constructor]]. }
      cbn [snd] in Hkey.
      destruct (Hkey (names ++ [n]) Hnames' Hexp) as (T & ET & HT).
      exists (T ++ Ts).
      rewrite subkeys_text_cons, (subkey_name_fits u n Hn).
      rewrite (build_subkey_path_key_path u c names n Hnames Hn), ET, ETs.
      split; [reflexivity|now apply clean_app]. }
  destruct Hloop as (Ts & ETs & HTs).
  rewrite key_text_eq, ETv, ETs. eexists. split; [reflexivity|].
  destruct (key_path_clean u c names Hnames) as [Hclean _].
  rewrite (cstr_nul_free _ (clean_nul_free u _ Hclean)).
  apply clean_app; [apply crlf_clean|].
  apply clean_app; [apply printable_clean; repeat (constructor; [lia|]); constructor|].
  apply clean_app; [exact Hclean|].
  apply clean_app; [apply printable_clean; repeat (constructor; [lia|]); constructor|].
  apply clean_app; [apply crlf_clean|].
  now apply clean_app.
Qed.

End CleanText.

(** ** From the file to the registry *)

Lemma lookup_graft (names : list wstr) (t : reg_key) : lookup_key names (graft names t) = Some t.
Proof.
  induction names as [|n names IH]; [reflexivity|].
  cbn [graft lookup_key key_subkeys assoc]. now rewrite wstr_eqb_refl.
Qed.

Lemma reg_close_key (p : parser) :
  reg (close_key p) = reg p /\ reg_version (close_key p) = reg_version p.
Proof. unfold close_key. destruct_parser p. norm_parser. now destruct phkey. Qed.

Section File.
Context `{CodePage}.

Lemma import_registry_file_eq (fuel : nat) (s0 s1 : BYTE) (rest : list BYTE)
    (r0 : registry) (erange0 : bool) :
  import_registry_file fuel (s0 :: s1 :: rest) r0 erange0
  = match
      parser_loop fuel
        (initial_parser ((s0 =? 255) && (s1 =? 254)) s0 s1
           (if (s0 =? 255) && (s1 =? 254) then wide_chars rest else rest)
           r0 erange0)
        [s0; s1]
    with
    | None => None
    | Some (Finished p) =>
        match reg_version p with
        | Some REG_VERSION_FUZZY => Some (Imported true (reg p) (calls p))
        | Some REG_VERSION_INVALID => Some (Imported false (reg p) (calls p))
        | _ => Some (Imported true (reg (close_key p)) (calls (close_key p)))
        end
    | Some (Exited p) => Some (ImportExit (reg p) (calls p))
    | Some Undefined => Some ImportUndefined
    | Some (Strayed p) => Some (ImportAstray (reg p) (calls p))
    end.
Proof. reflexivity. Qed.

Lemma parser_loop_steps (n : nat) :
  forall p pos p' pos' fuel,
    steps n p pos = Next p' pos' ->
    parser_loop (n + fuel) p pos = parser_loop fuel p' pos'.
Proof.
  induction n as [|n IH]; intros p pos p' pos' fuel Hn; cbn [steps Nat.add parser_loop] in *.
  - now injection Hn as -> ->.
  - destruct (parser_funcs (state p) p pos) as [p1 pos1| | | |]; try discriminate.
    now apply IH.
Qed.

(** At the end of the text the reader hands out one empty line and then
    NULL, and the main loop ends. *)
Lemma end_of_text (u : bool) (h : option HKEY) (r : registry) (p : parser) (pos : wstr) :
  ready u h r [] p ->
  exists p',
    (forall fuel, parser_loop (S (S fuel)) p pos = Some (Finished p'))
    /\ reg p' = r
    /\ (reg_version p' = Some REG_VERSION_40 \/ reg_version p' = Some REG_VERSION_50).
Proof.
  intros (vn & pt & dt & Hp).
  assert (Hreads : reads (file p) []).
  { destruct Hp as (_ & _ & _ & _ & _ & Hf & _). now destruct u. }
  destruct (get_line_cases p [] Hreads) as (f' & l & cells & Hget & Hl & Hcases).
  assert (Hend : l = [] /\ next f' = None /\ size f' <> 0%nat).
  { destruct Hcases as [(Ht & Hn & _ & Hs) | [(x & Ht & _) | [(x & Ht & _) | (x & Ht & _)]]];
      try (destruct l; discriminate).
    subst l. now split. }
  destruct Hend as (-> & Hnext & Hsize).
  assert (Hget' : get_line p
                  = (set_behind (set_file p f') (if is_unicode p then cells else []),
                     Some [])).
  { rewrite Hget. now destruct (is_unicode p). }
  clear Hget. destruct f' as [st sz nx]. cbn [next size] in Hnext, Hsize. subst nx.
  destruct sz as [|sz]; [contradiction|].
  flat_midline Hp p. revert Hget'. norm_parser. intros Hget'.
  eexists. split; [|split].
  - intros fuel. cbn [parser_loop state parser_funcs].
    unfold line_start_state. rewrite Hget'. norm_parser.
    cbn [line_start_scan state parser_funcs].
    unfold line_start_state, get_line. norm_parser. cbn [size next stream Nat.eqb].
    reflexivity.
  - reflexivity.
  - exact Hver.
Qed.

Lemma reads_initial (unicode : bool) (s0 s1 : BYTE) (text : list Z) (r0 : registry)
    (e0 : bool) :
  nul_free text -> reads (file (initial_parser unicode s0 s1 text r0 e0)) text.
Proof.
  intros Hnf. split; [exact Hnf|]. exists []. repeat split. now left.
Qed.

(** The first line of a Unicode file. *)
Lemma header_unicode (T : wstr) (r0 : registry) :
  clean true T ->
  exists p1 pos1,
    run
      (initial_parser true 255 254
         (wide_chars
            (wide_bytes (W "Windows Registry Editor Version 5.00" ++ CRLF)
               ++ encode true T))
         r0 false)
      [255; 254] p1 pos1
    /\ ready true None r0 T p1.
Proof.
  intros HT.
  set (hdr := W "Windows Registry Editor Version 5.00").
  assert (Hhdr : printable hdr).
  { subst hdr. repeat (constructor; [cbn; lia|]). constructor. }
  assert (Hall : clean true ((hdr ++ CRLF) ++ T)).
  { apply clean_app; [apply clean_app; [apply printable_clean, Hhdr|apply crlf_clean]|exact HT]. }
  assert (Etext : wide_chars (wide_bytes (hdr ++ CRLF) ++ encode true T)
                  = reader_text true (hdr ++ CR :: LF :: T)).
  { unfold encode, reader_text, wide_bytes. rewrite <- flat_map_app.
    fold (wide_bytes ((hdr ++ CRLF) ++ T)).
    rewrite wide_chars_wide_bytes.
    - now rewrite <- app_assoc.
    - revert Hall. apply Forall_impl. now intros c [_ [Hc _]]. }
  rewrite Etext.
  assert (Hnf : nul_free (reader_text true (hdr ++ CR :: LF :: T))).
  { unfold reader_text. apply (clean_nul_free true).
    replace (hdr ++ CR :: LF :: T) with ((hdr ++ CRLF) ++ T)
      by (now rewrite <- app_assoc).
    exact Hall. }
  destruct (get_line_text true hdr T
              (initial_parser true 255 254 (reader_text true (hdr ++ CR :: LF :: T)) r0 false))
    as (f1 & b1 & Hline & Hf1);
    [apply printable_no_eol, Hhdr|apply printable_clean, Hhdr|reflexivity
    |apply reads_initial, Hnf|].
  apply run_to_ready. eexists; eexists. split.
  - eapply run_step; [|apply run_refl].
    change (state (initial_parser true 255 254 (reader_text true (hdr ++ CR :: LF :: T))
                     r0 false)) with HEADER.
    cbn [parser_funcs]. unfold header_state. rewrite Hline.
    unfold initial_parser. norm_parser. cbn [negb].
    assert (Ever : parse_file_header hdr = REG_VERSION_50) by reflexivity.
    rewrite Ever. reflexivity.
  - exists None, 0, 0. midline_tac. now right.
Qed.

(** The first line of a file in the code page. *)
Lemma header_narrow (T : wstr) (r0 : registry) :
  clean false T ->
  exists p1 pos1,
    run
      (initial_parser false 82 69 (W "GEDIT4" ++ CRLF ++ encode false T) r0 false)
      [82; 69] p1 pos1
    /\ ready false None r0 T p1.
Proof.
  intros HT.
  set (hdr := W "GEDIT4").
  assert (Hhdr : printable hdr).
  { subst hdr. repeat (constructor; [cbn; lia|]). constructor. }
  assert (Hall : clean false (hdr ++ CR :: LF :: T)).
  { apply clean_app; [apply printable_clean, Hhdr|].
    apply (clean_app false [CR; LF] T); [apply crlf_clean|exact HT]. }
  assert (Etext : hdr ++ CRLF ++ encode false T
                  = reader_text false (hdr ++ CR :: LF :: T)).
  { unfold encode, reader_text.
    rewrite map_app. subst hdr.
    change (W "GEDIT4") with [71; 69; 68; 73; 84; 52]. cbn [map app CRLF].
    now rewrite !wc_to_mb_ascii by lia. }
  rewrite Etext.
  assert (Hnf : nul_free (reader_text false (hdr ++ CR :: LF :: T))).
  { unfold reader_text.
    revert Hall. clear. induction 1 as [|c l [Hc Hst] _ IH]; [constructor|].
    cbn [map]. constructor; [|exact IH].
    apply (wc_to_mb_not false); [exact Hst|lia|exact Hc|reflexivity]. }
  destruct (get_line_text false hdr T
              (initial_parser false 82 69 (reader_text false (hdr ++ CR :: LF :: T)) r0 false))
    as (f1 & b1 & Hline & Hf1);
    [apply printable_no_eol, Hhdr|apply printable_clean, Hhdr|reflexivity
    |apply reads_initial, Hnf|].
  apply run_to_ready. eexists; eexists. split.
  - eapply run_step; [|apply run_refl].
    change (state (initial_parser false 82 69 (reader_text false (hdr ++ CR :: LF :: T))
                     r0 false)) with HEADER.
    cbn [parser_funcs]. unfold header_state. rewrite Hline.
    unfold initial_parser. norm_parser. cbn [negb fst snd].
    assert (Ever : parse_file_header (cstr (82 :: 69 :: hdr)) = REG_VERSION_40) by reflexivity.
    rewrite Ever. reflexivity.
  - exists None, 0, 0. midline_tac. now left.
Qed.

End File.

Section RoundTrip.
Context `{CodePage}.

(** A file that the exporter writes is read to its end. *)
Lemma import_exported_text (u : bool) (T : wstr) (r0 r : registry) :
  clean u T ->
  (forall p pos, ready u None r0 T p ->
                 exists p' pos' h', run p pos p' pos' /\ ready u h' r [] p') ->
  exists calls,
    imports (REGPROC_open_export_file u ++ encode u T) r0 false (Imported true r calls).
Proof.
  intros HT Hbody.
  assert (Hloop : forall p0 pos0 p1 pos1,
             run p0 pos0 p1 pos1 ->
             ready u None r0 T p1 ->
             exists p' n,
               (forall fuel, (n <= fuel)%nat -> parser_loop fuel p0 pos0 = Some (Finished p'))
               /\ reg p' = r
               /\ (reg_version p' = Some REG_VERSION_40
                   \/ reg_version p' = Some REG_VERSION_50)).
  { intros p0 pos0 p1 pos1 [m Hm] Hp1.
    destruct (Hbody p1 pos1 Hp1) as (p2 & pos2 & h2 & [n Hn] & Hp2).
    destruct (end_of_text u h2 r p2 pos2 Hp2) as (p3 & Hend & Hreg & Hver).
    exists p3, (m + (n + 2))%nat. split; [|split; assumption].
    intros fuel Hfuel.
    replace fuel with (m + (n + S (S (fuel - m - n - 2))))%nat by lia.
    rewrite (parser_loop_steps m _ _ _ _ _ Hm).
    rewrite (parser_loop_steps n _ _ _ _ _ Hn). apply Hend. }
  assert (Hfinish : forall s0 s1 rest p' n,
             (forall fuel, (n <= fuel)%nat ->
                parser_loop fuel
                  (initial_parser ((s0 =? 255) && (s1 =? 254)) s0 s1
                     (if (s0 =? 255) && (s1 =? 254) then wide_chars rest else rest)
                     r0 false)
                  [s0; s1]
                = Some (Finished p')) ->
             reg p' = r ->
             reg_version p' = Some REG_VERSION_40 \/ reg_version p' = Some REG_VERSION_50 ->
             exists calls, imports (s0 :: s1 :: rest) r0 false (Imported true r calls)).
  { intros s0 s1 rest p' n Hrun Hreg Hver.
    exists (calls (close_key p')), n. intros fuel Hfuel.
    rewrite import_registry_file_eq, (Hrun fuel Hfuel).
    destruct (reg_close_key p') as [-> _]. rewrite Hreg.
    destruct Hver as [-> | ->]; reflexivity. }
  destruct u.
  - destruct (header_unicode T r0 HT) as (p1 & pos1 & Hstep & Hp1).
    match type of Hstep with
    | run ?p0 ?pos0 _ _ =>
        destruct (Hloop p0 pos0 p1 pos1 Hstep Hp1) as (p' & n & Hrun & Hreg & Hver)
    end.
    apply (Hfinish 255 254 _ p' n Hrun Hreg Hver).
  - destruct (header_narrow T r0 HT) as (p1 & pos1 & Hstep & Hp1).
    match type of Hstep with
    | run ?p0 ?pos0 _ _ =>
        destruct (Hloop p0 pos0 p1 pos1 Hstep Hp1) as (p' & n & Hrun & Hreg & Hver)
    end.
    apply (Hfinish 82 69 _ p' n Hrun Hreg Hver).
Qed.

(** The key at [names] below [c] is written with its full name. *)
Lemma export_key_at_path (u : bool) (c : root_class) (names : list wstr) (t : reg_key)
    (T : wstr) :
  Forall (key_name_ok u) names ->
  key_text t (key_path c names) u = Some T ->
  export_registry_key (registry_with c names t) (Some (key_path c names)) u
  = Some (Some (REGPROC_open_export_file u ++ encode u T)).
Proof.
  intros Hnames HT.
  destruct (key_path_head c names) as [rest Erest].
  unfold export_registry_key. rewrite Erest. cbn [Z.eqb]. rewrite <- Erest.
  unfold export_key. rewrite parse_key_name_path.
  assert (Esplit : match match names with
                         | [] => None
                         | _ :: _ => Some (tl (flat_map (fun n => BACKSLASH :: n) names))
                         end with
                   | Some s => split_path s
                   | None => []
                   end = names).
  { pose proof (key_names_split u names Hnames) as E. destruct names; [reflexivity|exact E]. }
  rewrite Esplit. unfold registry_with. rewrite get_set_root, lookup_graft.
  now rewrite export_key_text, HT.
Qed.

End RoundTrip.

(** ** C1: the round trip *)

(** C1 (amended): a key whose names and values can be written and read
    back comes back as it was.  For every tree of keys with names that
    are different from each other, not empty, of at most 256 characters
    and without NUL, backslash or line terminator, and with values that
    are terminated strings, dwords of four bytes, expandable or multiple
    strings that end in zero, or other data that is not empty, the file
    that [export_registry_key] writes for the key, in Unicode or in the
    code page, is imported by [import_registry_file] into an empty
    registry with the result TRUE, and the registry then holds this key,
    with the same values in the same order and the same bytes, and
    nothing else. *)
Theorem export_import_round_trip `{CodePage} (u : bool) (c : root_class)
    (names : list wstr) (t : reg_key) :
  Forall (key_name_ok u) names -> exportable_key u t ->
  exists file calls,
    export_registry_key (registry_with c names t) (Some (key_path c names)) u
    = Some (Some file)
    /\ imports file empty_registry false (Imported true (registry_with c names t) calls).
Proof.
  intros Hnames Hexp.
  destruct (key_text_clean u c t names Hnames Hexp) as (T & ET & HT).
  assert (Hlk : lookup_key names (create_path names empty_key) = Some empty_key).
  { rewrite lookup_create_path. destruct names; reflexivity. }
  assert (E0 : empty_registry = set_root empty_registry c empty_key) by now destruct c.
  destruct (import_exported_text u T empty_registry (registry_with c names t) HT)
    as [calls Himp].
  { intros p pos Hp. rewrite E0 in Hp. rewrite <- (app_nil_r T) in Hp.
    destruct (import_key_text u c empty_registry t names T [] p pos None empty_key
                Hnames Hexp ET Hlk Hp) as (p' & pos' & h' & Hrun & Hp').
    rewrite focus_graft in Hp'. exists p', pos', h'. split; assumption. }
  exists (REGPROC_open_export_file u ++ encode u T), calls.
  split; [now apply export_key_at_path|exact Himp].
Qed.

Lemma export_import_round_trip_witness :
  exists file calls,
    export_registry_key (H := latin1)
      (registry_with HKEY_CURRENT_USER [W "K"]
         (Key [(W "s", {| val_type := REG_SZ; val_data := [97; 0; 0; 0] |});
               ([], {| val_type := REG_DWORD; val_data := [1; 2; 3; 4] |});
               (W "b", {| val_type := REG_BINARY; val_data := [1; 255] |})]
              [(W "S", Key [] [])]))
      (Some (key_path HKEY_CURRENT_USER [W "K"])) true
    = Some (Some file)
    /\ imports (H := latin1) file empty_registry false
         (Imported true
            (registry_with HKEY_CURRENT_USER [W "K"]
               (Key [(W "s", {| val_type := REG_SZ; val_data := [97; 0; 0; 0] |});
                     ([], {| val_type := REG_DWORD; val_data := [1; 2; 3; 4] |});
                     (W "b", {| val_type := REG_BINARY; val_data := [1; 255] |})]
                    [(W "S", Key [] [])]))
            calls).
Proof.
  assert (Hst : forall c, 0 < c < 128 -> c <> NUL /\ storable (H := latin1) true c).
  { intros c Hc. split; [lia|]. split; [lia|discriminate]. }
  assert (Hname : forall n0, Forall (fun c => 0 < c < 128) n0 -> clean (H := latin1) true n0).
  { intros n0. apply Forall_impl. exact Hst. }
  apply (export_import_round_trip (H := latin1) true HKEY_CURRENT_USER [W "K"]).
  - constructor; [|constructor].
    repeat split; try discriminate; try (cbn; lia).
    + apply Hname. repeat (constructor; [cbn; lia|]). constructor.
    + repeat (constructor; [repeat split; discriminate|]). constructor.
  - cbn [exportable_key subkeys_ok]. repeat split.
    + cbn [map fst]. repeat (constructor; [cbn; intuition discriminate|]). constructor.
    + constructor; [split; [apply Hname; repeat (constructor; [cbn; lia|]); constructor|]|].
      { split; [cbn; lia|]. left. exists [97]. repeat split.
        - repeat constructor. discriminate.
        - repeat constructor; (lia || discriminate). }
      constructor; [split; [constructor|]|].
      { split; [cbn; lia|]. split; [reflexivity|].
        repeat (constructor; [unfold byte_range; lia|]). constructor. }
      constructor; [split; [apply Hname; repeat (constructor; [cbn; lia|]); constructor|]|].
      { split; [cbn; lia|]. split; [discriminate|].
        repeat (constructor; [unfold byte_range; lia|]). constructor. }
      constructor.
    + cbn [map fst]. repeat (constructor; [cbn; intuition discriminate|]). constructor.
    + discriminate.
    + cbn; lia.
    + apply Hname. repeat (constructor; [cbn; lia|]). constructor.
    + repeat (constructor; [repeat split; discriminate|]). constructor.
    + constructor.
    + constructor.
    + constructor.
Defined.

(** The round trip of C1 fails on an expandable string without a
    terminator: two bytes are exported and three come back. *)
Lemma round_trip_appends_terminator :
  export_registry_key (H := latin1)
    (registry_with HKEY_CURRENT_USER [W "K"]
       (Key [(W "e", {| val_type := REG_EXPAND_SZ; val_data := [65; 66] |})] []))
    (Some (key_path HKEY_CURRENT_USER [W "K"])) true
  = Some (Some ([255; 254]
                  ++ wide_bytes (W "Windows Registry Editor Version 5.00" ++ CRLF
                                   ++ CRLF ++ W "[HKEY_CURRENT_USER\K]" ++ CRLF
                                   ++ quoted (W "e") ++ W "=hex(2):41,42" ++ CRLF)))
  /\ exists calls,
       import_registry_file (H := latin1) 100
         ([255; 254]
            ++ wide_bytes (W "Windows Registry Editor Version 5.00" ++ CRLF
                             ++ CRLF ++ W "[HKEY_CURRENT_USER\K]" ++ CRLF
                             ++ quoted (W "e") ++ W "=hex(2):41,42" ++ CRLF))
         empty_registry false
       = Some (Imported true
                 (registry_with HKEY_CURRENT_USER [W "K"]
                    (Key [(W "e", {| val_type := REG_EXPAND_SZ; val_data := [65; 66; 0] |})]
                         []))
                 calls).
Proof. split; [vm_compute; reflexivity|eexists; vm_compute; reflexivity]. Qed.

(** ** The fuel of the byte list loop *)

Lemma length_skip_space (s : wstr) : (length (skip_space s) <= length s)%nat.
Proof.
  induction s as [|c s IH]; [apply Nat.le_refl|].
  cbn [skip_space]. destruct (isspaceW c); cbn [length]; lia.
Qed.

Lemma length_scan_hex (s : wstr) :
  forall acc n, (length (snd (scan_hex s acc n)) <= length s)%nat.
Proof.
  induction s as [|c s IH]; intros acc n; [apply Nat.le_refl|].
  cbn [scan_hex]. destruct (hex_digit_value c) as [d|].
  - specialize (IH (16 * acc + d) (S n)). cbn [length]. lia.
  - apply Nat.le_refl.
Qed.

Lemma length_strtoul16_end (s : wstr) : (length (ul_end (strtoul16 s)) <= length s)%nat.
Proof.
  unfold strtoul16.
  pose proof (length_skip_space s) as H1.
  set (s1 := skip_space s) in *.
  destruct (match s1 with
            | c :: r => if c =? MINUS then (true, r)
                        else if c =? PLUS then (false, r) else (false, s1)
            | [] => (false, s1)
            end) as [neg s2] eqn:E2.
  assert (H2 : (length s2 <= length s1)%nat).
  { destruct s1 as [|c r]; [injection E2 as _ <-; apply Nat.le_refl|].
    destruct (c =? MINUS); [injection E2 as _ <-; cbn [length]; lia|].
    destruct (c =? PLUS); injection E2 as _ <-; cbn [length]; lia. }
  destruct (match s2 with
            | c0 :: x :: r =>
                if (c0 =? 48) && ((x =? 120) || (x =? 88)) then (true, r) else (false, s2)
            | _ => (false, s2)
            end) as [prefixed s3] eqn:E3.
  assert (H3 : (length s3 <= length s2)%nat).
  { destruct s2 as [|c0 [|x r]]; try (injection E3 as _ <-; apply Nat.le_refl).
    destruct ((c0 =? 48) && ((x =? 120) || (x =? 88))); injection E3 as _ <-;
      cbn [length]; lia. }
  pose proof (length_scan_hex s3 0 0) as H4.
  destruct (scan_hex s3 0 0) as [[v n] rest]. cbn [snd] in H4.
  destruct n as [|n].
  - destruct prefixed; cbn [ul_end]; [|apply Nat.le_refl].
    destruct s2; cbn [tl length] in *; lia.
  - destruct (ULONG_MAX <? v); cbn [ul_end]; lia.
Qed.

(** The loop of [convert_hex_csv_to_hex] ends within the fuel that the
    function gives it. *)
Lemma hex_csv_loop_fuel (fuel : nat) :
  forall p s, (length s < fuel)%nat -> hex_csv_loop fuel p s <> None.
Proof.
  induction fuel as [|fuel IH]; intros p s Hlen; [lia|].
  cbn [hex_csv_loop]. destruct s as [|c0 s0]; [discriminate|].
  pose proof (length_strtoul16_end (c0 :: s0)) as Hend.
  set (res := strtoul16 (c0 :: s0)) in *.
  destruct (255 <? ul_value res); [discriminate|].
  destruct (Nat.eqb (length (ul_end res)) (length (c0 :: s0)) && (ul_value res =? 0)).
  - destruct (skip_blanks (ul_end res)) as [|c e']; [discriminate|].
    destruct (c =? BACKSLASH); [discriminate|].
    destruct (c =? SEMICOLON); discriminate.
  - destruct (ul_end res) as [|c e'] eqn:Ee.
    + apply IH. cbn [length] in *. lia.
    + destruct (negb (c =? COMMA)); [discriminate|].
      apply IH. cbn [length] in *. lia.
Qed.

(** * More of the importer and the exporter *)

(** ** The main loop ends *)

Lemma same_reader_refl (p : parser) : same_reader p p.
Proof. now repeat split. Qed.

Lemma same_reader_trans (p1 p2 p3 : parser) :
  same_reader p1 p2 -> same_reader p2 p3 -> same_reader p1 p3.
Proof.
  intros (A1 & A2 & A3 & A4) (B1 & B2 & B3 & B4). repeat split; congruence.
Qed.

Lemma hex_csv_loop_same_reader (fuel : nat) :
  forall p s ret p' s', hex_csv_loop fuel p s = Some (ret, p', s') -> same_reader p p'.
Proof.
  induction fuel as [|fuel IH]; intros p s ret p' s'; [discriminate|].
  cbn [hex_csv_loop]. destruct s as [|c0 s0]; [intros [= _ <- _]; apply same_reader_refl|].
  set (res := strtoul16 (c0 :: s0)).
  set (p1 := if ul_erange res then set_errno p true else p).
  assert (H1 : same_reader p p1).
  { subst p1. destruct (ul_erange res); [|apply same_reader_refl].
    destruct_parser p. now repeat split. }
  destruct (255 <? ul_value res); [now intros [= _ <- _]|].
  destruct (Nat.eqb (length (ul_end res)) (length (c0 :: s0)) && (ul_value res =? 0)).
  - destruct (skip_blanks (ul_end res)) as [|c e']; [now intros [= _ <- _]|].
    destruct (c =? BACKSLASH).
    { intros [= _ <- _]. apply (same_reader_trans p p1); [exact H1|].
      destruct_parser p1. now repeat split. }
    destruct (c =? SEMICOLON); now intros [= _ <- _].
  - set (p2 := set_data p1 (data p1 ++ [ul_value res]) (data_cap p1)).
    assert (H2 : same_reader p p2).
    { apply (same_reader_trans p p1); [exact H1|]. subst p2. destruct_parser p1. now repeat split. }
    destruct (ul_end res) as [|c e'].
    + intros Hloop. apply (same_reader_trans p p2); [exact H2|]. eapply IH, Hloop.
    + destruct (negb (c =? COMMA)); [now intros [= _ <- _]|].
      intros Hloop. apply (same_reader_trans p p2); [exact H2|]. eapply IH, Hloop.
Qed.

Lemma convert_hex_csv_to_hex_same_reader (p : parser) (str : wstr) :
  same_reader p (snd (fst (convert_hex_csv_to_hex p str))).
Proof.
  unfold convert_hex_csv_to_hex.
  set (p0 := set_data (set_backslash p false) _ _).
  assert (H0 : same_reader p p0) by (subst p0; destruct_parser p; now repeat split).
  destruct (hex_csv_loop (S (length str)) p0 str) as [[[ret p'] [s'|]]|] eqn:E; cbn [fst snd];
    try (apply (same_reader_trans p p0); [exact H0|]; eapply hex_csv_loop_same_reader, E).
  exact H0.
Qed.

Lemma parse_data_type_same_reader (p : parser) (line : wstr) :
  same_reader p (snd (fst (parse_data_type p line))).
Proof.
  unfold parse_data_type.
  repeat match goal with
         | |- context [if ?b then _ else _] => destruct b
         | |- context [match ?l with [] => _ | _ :: _ => _ end] => destruct l
         end;
    cbn [fst snd]; destruct_parser p; now repeat split.
Qed.

Lemma prepare_hex_string_data_same_reader `{CodePage} (p p' : parser) :
  prepare_hex_string_data p = Some p' -> same_reader p p'.
Proof.
  unfold prepare_hex_string_data. destruct_parser p. norm_parser.
  repeat match goal with
         | |- context [if ?b then _ else _] => destruct b
         | |- context [match ?l with [] => _ | _ :: _ => _ end] => destruct l
         end;
    norm_parser; try discriminate; intros [= <-]; now repeat split.
Qed.

Lemma close_key_same_reader (p : parser) : same_reader p (close_key p).
Proof. unfold close_key. destruct_parser p. norm_parser. destruct phkey; now repeat split. Qed.

Lemma open_key_same_reader (p : parser) (path : wstr) :
  same_reader p (snd (open_key p path)).
Proof.
  unfold open_key.
  apply (same_reader_trans p (close_key p)); [apply close_key_same_reader|].
  generalize (close_key p). intros q.
  destruct (parse_key_name path) as [[c|] kp]; cbn [snd]; [|apply same_reader_refl].
  unfold RegCreateKeyExW. cbn [snd]. destruct_parser q. now repeat split.
Qed.

Lemma delete_registry_key_same_reader (p p' : parser) (name pos' : wstr) :
  delete_registry_key p name = Next p' pos' -> same_reader p p'.
Proof.
  unfold delete_registry_key. destruct name as [|c n]; [now intros [= <- _]|].
  destruct (parse_key_name (c :: n)) as [[k|] [[|c1 kp]|]]; try discriminate.
  intros [= <- _]. destruct_parser p. now repeat split.
Qed.

Lemma break_line_shorter (text l rest : list Z) :
  break_line text = Some (l, rest) -> (length rest < length text)%nat.
Proof.
  revert l rest. induction text as [|c r IH]; intros l rest; cbn [break_line]; [discriminate|].
  destruct (c =? CR).
  { intros [= _ <-]. destruct r as [|d r']; cbn [length]; [lia|].
    destruct (d =? LF); cbn [length]; lia. }
  destruct (c =? LF); [intros [= _ <-]; cbn [length]; lia|].
  destruct (break_line r) as [[l0 rest0]|]; [|discriminate].
  intros [= _ <-]. specialize (IH l0 rest0 eq_refl). cbn [length]. lia.
Qed.

Lemma line_start_scan_result (p : parser) (l : wstr) :
  forall p' pos',
    line_start_scan p l = Next p' pos' ->
    file p' = file p
    /\ (state p' = state p
        \/ (l <> []
            /\ (state p' = KEY_NAME \/ state p' = DEFAULT_VALUE_NAME
                \/ state p' = QUOTED_VALUE_NAME))).
Proof.
  induction l as [|c r IH]; intros p' pos'; cbn [line_start_scan].
  - intros [= <- _]. split; [reflexivity|now left].
  - destruct (c =? LBRACKET).
    { intros [= <- _]. destruct_parser p. split; [reflexivity|right]. split; [discriminate|tauto]. }
    destruct (c =? ATSIGN).
    { intros [= <- _]. destruct_parser p. split; [reflexivity|right]. split; [discriminate|tauto]. }
    destruct (c =? DQUOTE).
    { intros [= <- _]. destruct_parser p. split; [reflexivity|right]. split; [discriminate|tauto]. }
    destruct (is_blank c).
    + intros Hscan. destruct (IH _ _ Hscan) as [Hf [Hs|[_ Hs]]].
      * split; [exact Hf|now left].
      * split; [exact Hf|right]. split; [discriminate|exact Hs].
    + intros [= <- _]. split; [reflexivity|now left].
Qed.

Ltac reader_facts :=
  repeat match goal with
         | H : same_reader _ _ |- _ => destruct H as [? ?]
         | H : _ /\ _ |- _ => destruct H as [? ?]
         end.

Ltac measure_tac p :=
  unfold loop_measure, file_weight;
  cbn [file state set_file set_reg_version set_key set_value_name set_types set_data
       set_backslash set_state set_reg set_errno set_behind free_parser_data];
  reader_facts;
  repeat match goal with
         | H : file _ = _ |- _ => rewrite H
         | H : state _ = _ |- _ => rewrite H
         | H : buffered _ = _ |- _ => rewrite H
         end;
  cbn [hex_phase state_rank length];
  repeat match goal with
         | |- context [match buffered ?f with _ => _ end] => destruct (buffered f)
         end;
  try lia.

(** What a call of the reader's loop leaves to be read: less than
    before when a line terminator was found, and no more than before at
    the end of the file. *)
Lemma read_line_weight (fuel : nat) :
  forall sz buf st f' l cells,
    sz <> 0%nat ->
    read_line fuel sz buf st = Some (f', l, cells) ->
    size f' <> 0%nat
    /\ ((next f' = None
         /\ (length (stream f') <= length st)%nat
         /\ (l <> [] -> (length (stream f') < length buf + length st)%nat))
        \/ exists rest,
             next f' = Some rest
             /\ (length rest + length (stream f') < length buf + length st)%nat).
Proof.
  induction fuel as [|fuel IH]; intros sz buf st f' l cells Hsz; rewrite read_line_eq;
    (destruct (break_line buf) as [[l0 rest]|] eqn:Hbreak;
     [intros [= <- <- <-]; cbn [size next stream]; split; [exact Hsz|]; right; exists rest;
      split; [reflexivity|]; pose proof (break_line_shorter _ _ _ Hbreak); lia|]);
    cbv zeta;
    set (sz' := if (sz - length buf <? 3)%nat then (2 * sz)%nat else sz);
    (assert (Hsz' : sz' <> 0%nat) by (subst sz'; destruct (sz - length buf <? 3)%nat; lia));
    destruct (Nat.min (sz' - length buf - 1) (length st)) as [|k] eqn:Ecount;
    try discriminate;
    try (intros [= <- <- <-]; cbn [size next stream]; split; [exact Hsz'|]; left;
         split; [reflexivity|]; split; [lia|]; intros Hne; destruct buf; [contradiction|];
         cbn [length]; lia).
  intros Hread.
  destruct (IH _ _ _ _ _ _ Hsz' Hread) as [Hsize Hres]. split; [exact Hsize|].
  pose proof (length_cstr (firstn (S k) st)) as Hc.
  assert (Hf : (length (firstn (S k) st) + length (skipn (S k) st) = length st)%nat).
  { rewrite <- (firstn_skipn (S k) st) at 3. now rewrite length_app. }
  rewrite length_app in Hres.
  destruct Hres as [(Hn & Hle & Hlt) | (rest & Hn & Hlt)].
  - left. split; [exact Hn|]. split; [lia|]. intros Hne. specialize (Hlt Hne). lia.
  - right. exists rest. split; [exact Hn|lia].
Qed.

Section Termination.
Context `{CodePage}.

(** The reader after a call of [get_line]. *)
Lemma get_line_reads (p p1 : parser) (l : option wstr) :
  get_line p = (p1, l) ->
  state p1 = state p
  /\ match l with
     | None =>
         buffered (file p) = None /\ buffered (file p1) = Some []
         /\ stream (file p1) = stream (file p)
     | Some line =>
         exists n,
           buffered (file p) = Some n
           /\ ((buffered (file p1) = None
                /\ (length (stream (file p1)) <= length (stream (file p)))%nat
                /\ (line <> [] ->
                    (length (stream (file p1)) < length n + length (stream (file p)))%nat))
               \/ exists rest,
                    buffered (file p1) = Some rest
                    /\ (length rest + length (stream (file p1))
                        < length n + length (stream (file p)))%nat)
     end.
Proof.
  unfold get_line, buffered.
  assert (Hline : forall sz n f' l0 cells,
             sz <> 0%nat ->
             read_line (length (stream (file p))) sz n (stream (file p)) = Some (f', l0, cells) ->
             forall (q : parser) (line : wstr),
               file q = f' -> (line <> [] -> l0 <> []) ->
               ((if (size (file q) =? 0)%nat then Some (@nil Z) else next (file q)) = None
                /\ (length (stream (file q)) <= length (stream (file p)))%nat
                /\ (line <> [] ->
                    (length (stream (file q)) < length n + length (stream (file p)))%nat))
               \/ exists rest,
                    (if (size (file q) =? 0)%nat then Some [] else next (file q)) = Some rest
                    /\ (length rest + length (stream (file q))
                        < length n + length (stream (file p)))%nat).
  { intros sz n f' l0 cells Hsz Hread q line -> Hne.
    destruct (read_line_weight _ _ _ _ _ _ _ Hsz Hread) as [Hsize Hres].
    apply Nat.eqb_neq in Hsize. rewrite Hsize.
    destruct Hres as [(Hn & Hle & Hlt) | (rest & Hn & Hlt)].
    - left. split; [exact Hn|]. split; [exact Hle|]. intros Hl. apply Hlt, Hne, Hl.
    - right. exists rest. now split. }
  assert (Hmap : forall l0 : list Z, map mb_to_wc l0 <> [] -> l0 <> []).
  { intros l0 Hl0 ->. now apply Hl0. }
  destruct (size (file p) =? 0)%nat eqn:Esize.
  - pose proof (read_line_fuel (length (stream (file p))) REG_VAL_BUF_SIZE []
                  (stream (file p)) (Nat.le_refl _)) as Hfuel.
    destruct (read_line (length (stream (file p))) REG_VAL_BUF_SIZE [] (stream (file p)))
      as [[[f' l0] cells]|] eqn:Hread; [|contradiction].
    assert (Hsz : REG_VAL_BUF_SIZE <> 0%nat) by (pose proof REG_VAL_BUF_SIZE_pos; lia).
    destruct (is_unicode p); intros [= <- <-]; (split; [now destruct p|]); exists [];
      (split; [reflexivity|]);
      apply (Hline _ _ _ _ _ Hsz Hread); try (now destruct p); auto.
  - apply Nat.eqb_neq in Esize.
    destruct (next (file p)) as [n|] eqn:Enext.
    + pose proof (read_line_fuel (length (stream (file p))) (size (file p)) n
                    (stream (file p)) (Nat.le_refl _)) as Hfuel.
      destruct (read_line (length (stream (file p))) (size (file p)) n (stream (file p)))
        as [[[f' l0] cells]|] eqn:Hread; [|contradiction].
      destruct (is_unicode p); intros [= <- <-]; (split; [now destruct p|]); exists n;
        (split; [reflexivity|]);
        apply (Hline _ _ _ _ _ Esize Hread); try (now destruct p); auto.
    + intros [= <- <-]. destruct p. cbn. now repeat split.
Qed.

(** Each turn of the main loop brings the end nearer. *)
Lemma turn_decreases (p p' : parser) (pos pos' : wstr) :
  parser_funcs (state p) p pos = Next p' pos' ->
  (loop_measure p' < loop_measure p)%nat.
Proof.
  destruct (state p) eqn:Est; cbn [parser_funcs].
  - (* HEADER *)
    unfold header_state. destruct (get_line p) as [p1 [line|]] eqn:E; [|discriminate].
    destruct (get_line_reads _ _ _ E) as (Hs & text & Hf & Hcases).
    match goal with
    | |- context [set_reg_version p1 (Some ?v)] => destruct v
    end; try discriminate; intros [= <- _];
      (destruct Hcases as [(Hf1 & Hle & Hlt)|(rest & Hf1 & Hlen)]; measure_tac p).
  - (* PARSE_WIN31_LINE *)
    unfold parse_win31_line_state. destruct (get_line p) as [p1 [line|]] eqn:E; [|discriminate].
    destruct (get_line_reads _ _ _ E) as (Hs & text & Hf & Hcases).
    destruct (negb (starts_with (W "HKEY_CLASSES_ROOT") line)).
    { intros [= <- _]. destruct Hcases as [(Hf1 & Hle & Hlt)|(rest & Hf1 & Hlen)]; measure_tac p. }
    match goal with
    | |- context [open_key p1 ?n] =>
        pose proof (open_key_same_reader p1 n) as Hopen; destruct (open_key p1 n) as [[|] p2]
    end; cbn [snd] in Hopen; intros [= <- _];
      (destruct Hcases as [(Hf1 & Hle & Hlt)|(rest & Hf1 & Hlen)]; measure_tac p).
  - (* LINE_START *)
    unfold line_start_state. destruct (get_line p) as [p1 [line|]] eqn:E; [|discriminate].
    destruct (get_line_reads _ _ _ E) as (Hs & text & Hf & Hcases).
    intros Hscan. destruct (line_start_scan_result _ _ _ _ Hscan) as [Hf' Hst'].
    destruct Hcases as [(Hf1 & Hle & Hlt)|(rest & Hf1 & Hlen)].
    + destruct Hst' as [Hst'|(Hne & [Hst'|[Hst'|Hst']])];
        try specialize (Hlt Hne); measure_tac p.
    + destruct Hst' as [Hst'|(Hne & [Hst'|[Hst'|Hst']])]; measure_tac p.
  - (* KEY_NAME *)
    unfold key_name_state.
    destruct (match pos with c :: _ => is_blank c | [] => false end).
    { intros [= <- _]. measure_tac p. }
    destruct (cut_at_last pos RBRACKET) as [name|]; [|intros [= <- _]; measure_tac p].
    pose proof (open_key_same_reader p name) as Hopen.
    set (q := snd (open_key p name)) in *. clearbody q.
    destruct name as [|c r].
    + intros [= <- _]. measure_tac p.
    + destruct (c =? MINUS); intros [= <- _]; measure_tac p.
  - (* DELETE_KEY *)
    unfold delete_key_state.
    destruct (match pos with c :: _ => (c =? 72) || (c =? 104) | [] => false end).
    + destruct (delete_registry_key p pos) as [p1 pos1| | | |] eqn:E; try discriminate.
      pose proof (delete_registry_key_same_reader _ _ _ _ E).
      intros [= <- _]. measure_tac p.
    + intros [= <- _]. measure_tac p.
  - (* DEFAULT_VALUE_NAME *)
    unfold default_value_name_state. intros [= <- _]. measure_tac p.
  - (* QUOTED_VALUE_NAME *)
    unfold quoted_value_name_state.
    destruct (REGPROC_unescape_string pos); try (intros [= <- _]; measure_tac p).
    destruct (behind (set_value_name p None)) as [|x m];
      [destruct (is_unicode (set_value_name p None)); discriminate|].
    destruct (x =? DQUOTE); [discriminate|]. intros [= <- _]. measure_tac p.
  - (* DATA_START *)
    unfold data_start_state.
    destruct (skip_blanks pos) as [|c r]; [intros [= <- _]; measure_tac p|].
    destruct (c =? EQUALS); [|intros [= <- _]; measure_tac p].
    destruct (trim_trailing (skip_blanks r)) as [|d t]; [intros [= <- _]; measure_tac p|].
    destruct (d =? MINUS); intros [= <- _]; measure_tac p.
  - (* DELETE_VALUE *)
    unfold delete_value_state.
    destruct (at_eol_or_comment (skip_blanks (tl pos))); intros [= <- _]; measure_tac p.
  - (* DATA_TYPE *)
    unfold data_type_state.
    pose proof (parse_data_type_same_reader p pos) as Hparse.
    destruct (parse_data_type p pos) as [[[|] p1] line]; cbn [fst snd] in Hparse.
    + destruct (parse_type p1 =? REG_SZ); [intros [= <- _]; measure_tac p|].
      destruct (parse_type p1 =? REG_DWORD); [intros [= <- _]; measure_tac p|].
      destruct (parse_type p1 =? REG_BINARY); intros [= <- _]; measure_tac p.
    + intros [= <- _]. measure_tac p.
  - (* STRING_DATA *)
    unfold string_data_state.
    destruct (REGPROC_unescape_string pos) as [value rest|value|].
    + destruct (at_eol_or_comment (skip_blanks rest)); intros [= <- _]; measure_tac p.
    + intros [= <- _]. measure_tac p.
    + destruct (behind p) as [|x m]; [destruct (is_unicode p); discriminate|].
      destruct (x =? DQUOTE); [discriminate|]. intros [= <- _]. measure_tac p.
  - (* DWORD_DATA *)
    unfold dword_data_state.
    destruct (convert_hex_to_dword pos); intros [= <- _]; measure_tac p.
  - (* HEX_DATA *)
    unfold hex_data_state.
    pose proof (convert_hex_csv_to_hex_same_reader p pos) as Hconv.
    destruct (convert_hex_csv_to_hex p pos) as [[[|] p1] line]; cbn [fst snd] in Hconv.
    + destruct (backslash p1); [intros [= <- _]; measure_tac p|].
      destruct (prepare_hex_string_data p1) as [p2|] eqn:E; [|discriminate].
      pose proof (prepare_hex_string_data_same_reader _ _ E).
      intros [= <- _]. measure_tac p.
    + intros [= <- _]. measure_tac p.
  - (* EOL_BACKSLASH *)
    unfold eol_backslash_state.
    destruct (at_eol_or_comment (skip_blanks pos)); intros [= <- _]; measure_tac p.
  - (* HEX_MULTILINE *)
    unfold hex_multiline_state. destruct (get_line p) as [p1 [line|]] eqn:E.
    + destruct (get_line_reads _ _ _ E) as (Hs & text & Hf & Hcases).
      destruct (at_eol_or_comment (skip_blanks line)).
      { intros [= <- _]. destruct Hcases as [(Hf1 & Hle & Hlt)|(rest & Hf1 & Hlen)]; measure_tac p. }
      destruct (match skip_blanks line with c :: _ => isxdigitW c | [] => false end);
        intros [= <- _]; (destruct Hcases as [(Hf1 & Hle & Hlt)|(rest & Hf1 & Hlen)]; measure_tac p).
    + destruct (get_line_reads _ _ _ E) as (Hs & Hf & Hf1 & Hst1).
      destruct (prepare_hex_string_data p1) as [p2|] eqn:E2; [|discriminate].
      pose proof (prepare_hex_string_data_same_reader _ _ E2).
      intros [= <- _]. measure_tac p. rewrite Hst1. lia.
  - (* UNKNOWN_DATA *)
    unfold unknown_data_state. intros [= <- _]. measure_tac p.
  - (* SET_VALUE *)
    unfold set_value_state.
    match goal with
    | |- context [match reg_version ?q with _ => _ end] => destruct (reg_version q) as [[| | | |]|]
    end; intros [= <- _]; measure_tac p.
Qed.

(** The blanks that [trim_trailing] cuts off. *)
Lemma trim_trailing_split (s : wstr) : exists ws, blanks ws /\ s = trim_trailing s ++ ws.
Proof.
  induction s as [|c s (ws & Hws & IH)]; [exists []; split; [constructor|reflexivity]|].
  cbn [trim_trailing]. destruct (trim_trailing s) as [|d t] eqn:E.
  - destruct (is_blank c) eqn:Hc.
    + exists (c :: s). split; [|reflexivity]. cbn [app] in IH. subst s. now constructor.
    + exists ws. split; [exact Hws|]. cbn [app] in *. now f_equal.
  - exists ws. split; [exact Hws|]. cbn [app] in *. now f_equal.
Qed.

Lemma behind_trimmed_no_quote (s : wstr) (cells : list Z) :
  Forall (fun c => c <> DQUOTE) cells ->
  Forall (fun c => c <> DQUOTE) (behind_trimmed s cells).
Proof.
  intros Hcells. unfold behind_trimmed.
  destruct (trim_trailing_split s) as (ws & Hws & Hs).
  rewrite Hs at 2. rewrite <- app_assoc, skipn_app, skipn_all, Nat.sub_diag.
  cbn [skipn app].
  assert (Hall : Forall (fun c => c <> DQUOTE) (ws ++ NUL :: cells)).
  { apply Forall_app. split.
    - revert Hws. apply Forall_impl. intros c Hc ->. discriminate.
    - constructor; [discriminate|exact Hcells]. }
  destruct (ws ++ NUL :: cells); [constructor|now inversion Hall].
Qed.

(** In a file of the code page the reader hands out a string of its
    own. *)
Lemma get_line_narrow (p p1 : parser) (l : option wstr) :
  get_line p = (p1, l) -> narrow_line p -> narrow_line p1.
Proof.
  unfold get_line, narrow_line. intros Hg [Hu Hb]. revert Hg. rewrite Hu.
  destruct (size (file p) =? 0)%nat.
  - destruct (read_line (length (stream (file p))) REG_VAL_BUF_SIZE [] (stream (file p)))
      as [[[f' l0] cells]|]; intros [= <- <-]; destruct_parser p; cbn in *; now split.
  - destruct (next (file p)) as [buf|].
    + destruct (read_line (length (stream (file p))) (size (file p)) buf (stream (file p)))
        as [[[f' l0] cells]|]; intros [= <- <-]; destruct_parser p; cbn in *; now split.
    + intros [= <- <-]. destruct_parser p. cbn in *. now split.
Qed.

Ltac narrow_tac :=
  unfold narrow_line in *;
  cbn [is_unicode behind set_file set_reg_version set_key set_value_name set_types set_data
       set_backslash set_state set_reg set_errno set_behind free_parser_data];
  reader_facts;
  repeat match goal with
         | H : is_unicode _ = is_unicode _ |- _ => rewrite H
         | H : behind _ = behind _ |- _ => rewrite H
         end;
  split; assumption.

Lemma line_start_scan_narrow (p : parser) (l : wstr) :
  narrow_line p ->
  match line_start_scan p l with
  | Next p' _ => narrow_line p'
  | Astray _ => False
  | _ => True
  end.
Proof.
  intros Hp. induction l as [|c r IH]; cbn [line_start_scan]; [exact Hp|].
  destruct (c =? LBRACKET); [narrow_tac|].
  destruct (c =? ATSIGN); [narrow_tac|].
  destruct (c =? DQUOTE); [narrow_tac|].
  destruct (is_blank c); [exact IH|exact Hp].
Qed.

(** In a file of the code page the parser stays on its line. *)
Lemma turn_narrow (p : parser) (pos : wstr) :
  narrow_line p ->
  match parser_funcs (state p) p pos with
  | Next p' _ => narrow_line p'
  | Astray _ => False
  | _ => True
  end.
Proof.
  intros Hp. destruct (state p) eqn:Est; cbn [parser_funcs].
  - (* HEADER *)
    unfold header_state. destruct (get_line p) as [p1 [line|]] eqn:E; [|exact I].
    pose proof (get_line_narrow _ _ _ E Hp) as Hp1.
    match goal with
    | |- context [set_reg_version p1 (Some ?v)] => destruct v
    end; try exact I; narrow_tac.
  - (* PARSE_WIN31_LINE *)
    unfold parse_win31_line_state. destruct (get_line p) as [p1 [line|]] eqn:E; [|exact I].
    pose proof (get_line_narrow _ _ _ E Hp) as Hp1.
    destruct (negb (starts_with (W "HKEY_CLASSES_ROOT") line)); [exact Hp1|].
    match goal with
    | |- context [open_key p1 ?n] =>
        pose proof (open_key_same_reader p1 n) as Hopen; destruct (open_key p1 n) as [[|] p2]
    end; cbn [snd] in Hopen; narrow_tac.
  - (* LINE_START *)
    unfold line_start_state. destruct (get_line p) as [p1 [line|]] eqn:E; [|exact I].
    apply line_start_scan_narrow, (get_line_narrow _ _ _ E Hp).
  - (* KEY_NAME *)
    unfold key_name_state.
    destruct (match pos with c :: _ => is_blank c | [] => false end); [narrow_tac|].
    destruct (cut_at_last pos RBRACKET) as [name|]; [|narrow_tac].
    pose proof (open_key_same_reader p name) as Hopen.
    set (q := snd (open_key p name)) in *. clearbody q.
    destruct name as [|c r]; [narrow_tac|].
    destruct (c =? MINUS); narrow_tac.
  - (* DELETE_KEY *)
    unfold delete_key_state.
    destruct (match pos with c :: _ => (c =? 72) || (c =? 104) | [] => false end);
      [|narrow_tac].
    destruct (delete_registry_key p pos) as [p1 pos1|p1|p1| |p1] eqn:E; try exact I.
    + pose proof (delete_registry_key_same_reader _ _ _ _ E). narrow_tac.
    + revert E. unfold delete_registry_key. destruct pos as [|c n]; [discriminate|].
      destruct (parse_key_name (c :: n)) as [[k|] [[|c1 kp]|]]; discriminate.
  - (* DEFAULT_VALUE_NAME *)
    unfold default_value_name_state. narrow_tac.
  - (* QUOTED_VALUE_NAME *)
    unfold quoted_value_name_state. cbv zeta.
    destruct (REGPROC_unescape_string pos); try solve [narrow_tac].
    destruct Hp as [Hu Hb].
    cbn [behind is_unicode set_value_name]. rewrite Hu.
    destruct (behind p) as [|x m] eqn:Eb; [exact I|].
    inversion Hb as [|? ? Hx Hm]; subst. apply Z.eqb_neq in Hx. rewrite Hx.
    unfold narrow_line. cbn [is_unicode behind set_state set_value_name].
    rewrite Eb. split; [exact Hu|exact Hb].
  - (* DATA_START *)
    unfold data_start_state. cbv zeta.
    destruct (skip_blanks pos) as [|c r]; [narrow_tac|].
    destruct (c =? EQUALS); [|narrow_tac].
    destruct Hp as [Hu Hb].
    pose proof (behind_trimmed_no_quote (skip_blanks r) (behind p) Hb) as Hb'.
    destruct (trim_trailing (skip_blanks r)) as [|d t];
      [|destruct (d =? MINUS)];
      unfold narrow_line; cbn [is_unicode behind set_state set_behind]; now split.
  - (* DELETE_VALUE *)
    unfold delete_value_state. cbv zeta.
    destruct (at_eol_or_comment (skip_blanks (tl pos))); narrow_tac.
  - (* DATA_TYPE *)
    unfold data_type_state.
    pose proof (parse_data_type_same_reader p pos) as Hparse.
    destruct (parse_data_type p pos) as [[[|] p1] line]; cbn [fst snd] in Hparse.
    + destruct (parse_type p1 =? REG_SZ); [narrow_tac|].
      destruct (parse_type p1 =? REG_DWORD); [narrow_tac|].
      destruct (parse_type p1 =? REG_BINARY); narrow_tac.
    + narrow_tac.
  - (* STRING_DATA *)
    unfold string_data_state.
    destruct (REGPROC_unescape_string pos) as [value rest|value|].
    + cbv zeta. destruct (at_eol_or_comment (skip_blanks rest)); narrow_tac.
    + narrow_tac.
    + destruct Hp as [Hu Hb]. rewrite Hu.
      destruct (behind p) as [|x m] eqn:Eb; [exact I|].
      inversion Hb as [|? ? Hx Hm]; subst. apply Z.eqb_neq in Hx. rewrite Hx.
      unfold narrow_line. cbn [is_unicode behind set_state free_parser_data set_data].
      rewrite Eb. split; [exact Hu|exact Hb].
  - (* DWORD_DATA *)
    unfold dword_data_state.
    destruct (convert_hex_to_dword pos); narrow_tac.
  - (* HEX_DATA *)
    unfold hex_data_state.
    pose proof (convert_hex_csv_to_hex_same_reader p pos) as Hconv.
    destruct (convert_hex_csv_to_hex p pos) as [[[|] p1] line]; cbn [fst snd] in Hconv.
    + destruct (backslash p1); [narrow_tac|].
      destruct (prepare_hex_string_data p1) as [p2|] eqn:E; [|exact I].
      pose proof (prepare_hex_string_data_same_reader _ _ E).
      narrow_tac.
    + narrow_tac.
  - (* EOL_BACKSLASH *)
    unfold eol_backslash_state. cbv zeta.
    destruct (at_eol_or_comment (skip_blanks pos)); narrow_tac.
  - (* HEX_MULTILINE *)
    unfold hex_multiline_state. destruct (get_line p) as [p1 [line|]] eqn:E;
      pose proof (get_line_narrow _ _ _ E Hp) as Hp1.
    + cbv zeta. destruct (at_eol_or_comment (skip_blanks line)); [exact Hp1|].
      destruct (match skip_blanks line with c :: _ => isxdigitW c | [] => false end);
        narrow_tac.
    + destruct (prepare_hex_string_data p1) as [p2|] eqn:E2; [|exact I].
      pose proof (prepare_hex_string_data_same_reader _ _ E2).
      narrow_tac.
  - (* UNKNOWN_DATA *)
    unfold unknown_data_state. narrow_tac.
  - (* SET_VALUE *)
    unfold set_value_state. cbv zeta.
    match goal with
    | |- context [match reg_version ?q with _ => _ end] => destruct (reg_version q) as [[| | | |]|]
    end; narrow_tac.
Qed.

End Termination.

(** ** C10: an empty byte list *)

Lemma close_key_data (p : parser) : data (close_key p) = data p.
Proof. unfold close_key. destruct_parser p. norm_parser. now destruct phkey. Qed.

Lemma open_key_data (p : parser) (path : wstr) : data (snd (open_key p path)) = data p.
Proof.
  unfold open_key. rewrite <- (close_key_data p). generalize (close_key p). intros q.
  destruct (parse_key_name path) as [[c|] kp]; cbn [snd]; [|reflexivity].
  unfold RegCreateKeyExW. cbn [snd]. now destruct_parser q.
Qed.

Lemma parse_data_type_data (p : parser) (line : wstr) :
  data (snd (fst (parse_data_type p line))) = data p.
Proof.
  unfold parse_data_type.
  repeat match goal with
         | |- context [if ?b then _ else _] => destruct b
         | |- context [match ?l with [] => _ | _ :: _ => _ end] => destruct l
         end;
    cbn [fst snd]; now destruct_parser p.
Qed.

Lemma delete_registry_key_data (p p' : parser) (name pos' : wstr) :
  delete_registry_key p name = Next p' pos' -> data p' = data p.
Proof.
  unfold delete_registry_key. destruct name as [|c n]; [now intros [= <- _]|].
  destruct (parse_key_name (c :: n)) as [[k|] [[|c1 kp]|]]; try discriminate.
  intros [= <- _]. now destruct_parser p.
Qed.

Lemma line_start_scan_data (p : parser) (l : wstr) :
  forall p' pos',
    line_start_scan p l = Next p' pos' ->
    data p' = data p /\ (state p' = state p \/ holds_data (state p') = false).
Proof.
  induction l as [|c r IH]; intros p' pos'; cbn [line_start_scan].
  - intros [= <- _]. split; [reflexivity|now left].
  - destruct (c =? LBRACKET); [intros [= <- _]; destruct_parser p; now split; [|right]|].
    destruct (c =? ATSIGN); [intros [= <- _]; destruct_parser p; now split; [|right]|].
    destruct (c =? DQUOTE); [intros [= <- _]; destruct_parser p; now split; [|right]|].
    destruct (is_blank c); [apply IH|].
    intros [= <- _]. split; [reflexivity|now left].
Qed.

Ltac data_tac :=
  unfold data_released in *;
  repeat match goal with
         | H : state _ = _ |- _ => rewrite H in *
         end;
  cbn [state data set_file set_reg_version set_key set_value_name set_types set_data
       set_backslash set_state set_reg set_errno set_behind free_parser_data holds_data] in *;
  repeat match goal with
         | H : state _ = _ |- _ => rewrite H in *
         end;
  cbn [holds_data] in *;
  try (intros; discriminate);
  intros _;
  repeat match goal with
         | H : data _ = data _ |- _ => rewrite H
         end;
  try reflexivity; auto.

Section EmptyHex.
Context `{CodePage}.

Lemma get_line_data (p p1 : parser) (l : option wstr) :
  get_line p = (p1, l) -> data p1 = data p /\ state p1 = state p.
Proof.
  intros Hline. rewrite (get_line_file _ _ _ Hline). now destruct_parser p.
Qed.

(** A turn of the main loop leaves data only to the states that set the
    value or read more of it: everywhere else it was released. *)
Lemma turn_releases_data (p p' : parser) (pos pos' : wstr) :
  parser_funcs (state p) p pos = Next p' pos' ->
  data_released p -> data_released p'.
Proof.
  destruct (state p) eqn:Est; cbn [parser_funcs]; intros Hstep Hrel; revert Hstep.
  - (* HEADER *)
    unfold header_state. destruct (get_line p) as [p1 [line|]] eqn:E; [|discriminate].
    destruct (get_line_data _ _ _ E) as [Hd Hs].
    match goal with
    | |- context [set_reg_version p1 (Some ?v)] => destruct v
    end; try discriminate; intros [= <- _]; data_tac.
  - (* PARSE_WIN31_LINE *)
    unfold parse_win31_line_state. destruct (get_line p) as [p1 [line|]] eqn:E; [|discriminate].
    destruct (get_line_data _ _ _ E) as [Hd Hs].
    destruct (negb (starts_with (W "HKEY_CLASSES_ROOT") line)); [intros [= <- _]; data_tac|].
    match goal with
    | |- context [open_key p1 ?n] =>
        pose proof (open_key_data p1 n) as Hopen;
        pose proof (open_key_same_reader p1 n) as (_ & Hso & _);
        destruct (open_key p1 n) as [[|] p2]
    end; cbn [snd] in Hopen, Hso; intros [= <- _]; data_tac.
  - (* LINE_START *)
    unfold line_start_state. destruct (get_line p) as [p1 [line|]] eqn:E; [|discriminate].
    destruct (get_line_data _ _ _ E) as [Hd Hs].
    intros Hscan. destruct (line_start_scan_data _ _ _ _ Hscan) as [Hd' [Hs'|Hs']].
    + data_tac.
    + unfold data_released in *. intros _. rewrite Hd', Hd. apply Hrel.
      now rewrite Est.
  - (* KEY_NAME *)
    unfold key_name_state.
    destruct (match pos with c :: _ => is_blank c | [] => false end);
      [intros [= <- _]; data_tac|].
    destruct (cut_at_last pos RBRACKET) as [name|]; [|intros [= <- _]; data_tac].
    pose proof (open_key_data p name) as Hopen.
    set (q := snd (open_key p name)) in *. clearbody q.
    destruct name as [|c r]; [intros [= <- _]; data_tac|].
    destruct (c =? MINUS); intros [= <- _]; data_tac.
  - (* DELETE_KEY *)
    unfold delete_key_state.
    destruct (match pos with c :: _ => (c =? 72) || (c =? 104) | [] => false end).
    + destruct (delete_registry_key p pos) as [p1 pos1| | | |] eqn:E; try discriminate.
      pose proof (delete_registry_key_data _ _ _ _ E).
      intros [= <- _]. data_tac.
    + intros [= <- _]. data_tac.
  - (* DEFAULT_VALUE_NAME *)
    unfold default_value_name_state. intros [= <- _]. data_tac.
  - (* QUOTED_VALUE_NAME *)
    unfold quoted_value_name_state. cbv zeta.
    destruct (REGPROC_unescape_string pos); try (intros [= <- _]; data_tac).
    cbn [behind is_unicode set_value_name].
    destruct (behind p) as [|x m]; [destruct (is_unicode p); discriminate|].
    destruct (x =? DQUOTE); [discriminate|]. intros [= <- _]. data_tac.
  - (* DATA_START *)
    unfold data_start_state. cbv zeta.
    destruct (skip_blanks pos) as [|c r]; [intros [= <- _]; data_tac|].
    destruct (c =? EQUALS); [|intros [= <- _]; data_tac].
    destruct (trim_trailing (skip_blanks r)) as [|d t]; [intros [= <- _]; data_tac|].
    destruct (d =? MINUS); intros [= <- _]; data_tac.
  - (* DELETE_VALUE *)
    unfold delete_value_state. cbv zeta.
    destruct (at_eol_or_comment (skip_blanks (tl pos))); intros [= <- _]; data_tac.
  - (* DATA_TYPE *)
    unfold data_type_state.
    pose proof (parse_data_type_data p pos) as Hparse.
    destruct (parse_data_type p pos) as [[[|] p1] line]; cbn [fst snd] in Hparse.
    + destruct (parse_type p1 =? REG_SZ); [intros [= <- _]; data_tac|].
      destruct (parse_type p1 =? REG_DWORD); [intros [= <- _]; data_tac|].
      destruct (parse_type p1 =? REG_BINARY); intros [= <- _]; data_tac.
    + intros [= <- _]. data_tac.
  - (* STRING_DATA *)
    unfold string_data_state.
    destruct (REGPROC_unescape_string pos) as [value rest|value|].
    + cbv zeta. destruct (at_eol_or_comment (skip_blanks rest)); intros [= <- _]; data_tac.
    + intros [= <- _]. data_tac.
    + destruct (behind p) as [|x m]; [destruct (is_unicode p); discriminate|].
      destruct (x =? DQUOTE); [discriminate|]. intros [= <- _]. data_tac.
  - (* DWORD_DATA *)
    unfold dword_data_state.
    destruct (convert_hex_to_dword pos); intros [= <- _]; data_tac.
  - (* HEX_DATA *)
    unfold hex_data_state.
    destruct (convert_hex_csv_to_hex p pos) as [[[|] p1] line].
    + destruct (backslash p1); [intros [= <- _]; data_tac|].
      destruct (prepare_hex_string_data p1) as [p2|]; [|discriminate].
      intros [= <- _]. data_tac.
    + intros [= <- _]. data_tac.
  - (* EOL_BACKSLASH *)
    unfold eol_backslash_state. cbv zeta.
    destruct (at_eol_or_comment (skip_blanks pos)); intros [= <- _]; data_tac.
  - (* HEX_MULTILINE *)
    unfold hex_multiline_state. destruct (get_line p) as [p1 [line|]] eqn:E;
      destruct (get_line_data _ _ _ E) as [Hd Hs].
    + cbv zeta. destruct (at_eol_or_comment (skip_blanks line)); [intros [= <- _]; data_tac|].
      destruct (match skip_blanks line with c :: _ => isxdigitW c | [] => false end);
        intros [= <- _]; data_tac.
    + destruct (prepare_hex_string_data p1) as [p2|]; [|discriminate].
      intros [= <- _]. data_tac.
  - (* UNKNOWN_DATA *)
    unfold unknown_data_state. intros [= <- _]. data_tac.
  - (* SET_VALUE *)
    unfold set_value_state. cbv zeta.
    match goal with
    | |- context [match reg_version ?q with _ => _ end] => destruct (reg_version q) as [[| | | |]|]
    end; intros [= <- _]; data_tac.
Qed.

Lemma steps_release_data (n : nat) :
  forall p pos p' pos',
    steps n p pos = Next p' pos' -> data_released p -> data_released p'.
Proof.
  induction n as [|n IH]; intros p pos p' pos'; cbn [steps].
  - now intros [= <- _].
  - destruct (parser_funcs (state p) p pos) as [p1 pos1| | | |] eqn:E; try discriminate.
    intros Hn Hrel. apply (IH _ _ _ _ Hn). eapply turn_releases_data; eassumption.
Qed.

(** C10.  A value line whose data is [hex:] and nothing else is
    accepted.  At every line start that an import reaches, whatever the
    file held before, no data is pending: the states that read a value
    have released it.  On the line, [convert_hex_csv_to_hex] is called
    on the empty text behind the prefix and succeeds with no data, and
    [set_value_state] sets a [REG_BINARY] value of length zero on the
    current key. *)
Theorem empty_hex_list_sets_empty_value (unicode : bool) (s0 s1 : BYTE) (text : list Z)
    (r0 : registry) (erange0 : bool) (n : nat) (p p1 : parser) (name pos : wstr) :
  steps n (initial_parser unicode s0 s1 text r0 erange0) [s0; s1] = Next p pos ->
  state p = LINE_START ->
  nul_free name ->
  get_line p = (p1, Some (quoted (REGPROC_escape_string name) ++ EQUALS :: W "hex:")) ->
  data p = []
  /\ exists p4 q p' pos',
       steps 4 p pos = Next p4 [] /\ state p4 = HEX_DATA
       /\ convert_hex_csv_to_hex p4 [] = (true, q, []) /\ data q = []
       /\ steps 6 p pos = Next p' pos'
       /\ file p' = file p1
       /\ reg p' = RegSetValueExW (reg p) (hkey p) (Some name) REG_BINARY []
       /\ calls p' = CallSetValue (hkey p) (Some name) REG_BINARY [] :: calls p.
Proof.
  intros Hreach Hst Hname Hline.
  assert (Hdata : data p = []).
  { apply (steps_release_data _ _ _ _ _ Hreach); [now intros _|].
    now rewrite Hst. }
  split; [exact Hdata|].
  pose proof (get_line_file _ _ _ Hline) as Hp1.
  pose proof (quoted_value_name_steps p p1 name (W "hex:") pos Hst Hname Hline
                ltac:(cbn; lia)) as H3.
  change (trim_trailing (skip_blanks (W "hex:"))) with (W "hex:") in H3.
  change (behind_trimmed (skip_blanks (W "hex:")) (behind p1)) with (behind p1) in H3.
  assert (H4 : exists p4,
             steps 4 p pos = Next p4 [] /\ state p4 = HEX_DATA
             /\ data p4 = [] /\ file p4 = file p1 /\ reg p4 = reg p /\ hkey p4 = hkey p
             /\ calls p4 = calls p /\ value_name p4 = Some name
             /\ data_type p4 = REG_BINARY /\ is_unicode p4 = is_unicode p).
  { change (steps 4 p pos) with (steps (3 + 1) p pos). rewrite steps_add, H3.
    rewrite Hp1. clear Hp1 H3 Hline Hreach.
    destruct_parser p. cbn in Hst, Hdata. subst pstate pdata.
    generalize (file p1) (behind p1). intros f1 b1.
    norm_parser. cbn [steps parser_funcs]. unfold data_type_state.
    cbn. norm_parser. eexists. split; [reflexivity|]. now repeat split. }
  destruct H4 as (p4 & Hs4 & Hst4 & Hd4 & Hf4 & Hr4 & Hh4 & Hc4 & Hv4 & Ht4 & Hu4).
  assert (Hconv : exists q, convert_hex_csv_to_hex p4 [] = (true, q, [])
                            /\ data q = [] /\ backslash q = false
                            /\ q = set_data (set_backslash p4 false) [] (data_cap q)).
  { clear Hs4. destruct_parser p4. cbn in Hd4. subst.
    eexists. split; [reflexivity|]. now repeat split. }
  destruct Hconv as (q & Hconv & Hdq & Hbq & Hq).
  exists p4, q.
  enough (Hrest : exists p' pos',
             steps 6 p pos = Next p' pos'
             /\ file p' = file p1
             /\ reg p' = RegSetValueExW (reg p) (hkey p) (Some name) REG_BINARY []
             /\ calls p' = CallSetValue (hkey p) (Some name) REG_BINARY [] :: calls p).
  { destruct Hrest as (p' & pos' & H6' & Hf' & Hr' & Hc'). exists p', pos'.
    now repeat split. }
  assert (H6 : steps 6 p pos = steps 2 p4 []).
  { change (steps 6 p pos) with (steps (4 + 2) p pos). now rewrite steps_add, Hs4. }
  rewrite H6. cbn [steps]. rewrite Hst4. cbn [parser_funcs]. unfold hex_data_state.
  rewrite Hconv, Hbq, Hq. clear Hconv Hq H6 Hs4.
  destruct_parser p4. cbn in Hst4, Hd4, Hf4, Hr4, Hh4, Hc4, Hv4, Ht4, Hu4. subst.
  unfold prepare_hex_string_data. norm_parser. cbn [Z.eqb Pos.eqb orb andb].
  cbn [state parser_funcs]. unfold set_value_state. norm_parser.
  destruct pver as [[| | | |]|];
    do 2 eexists; repeat split; reflexivity.
Qed.

End EmptyHex.

Lemma empty_hex_list_sets_empty_value_witness :
  exists p pos p' pos',
    steps (H := latin1) 3
      (initial_parser false 82 69
         (W "GEDIT4" ++ CRLF ++ W "[HKEY_CURRENT_USER\K]" ++ CRLF
            ++ quoted (W "v") ++ W "=hex:" ++ CRLF)
         empty_registry false)
      [82; 69]
    = Next p pos
    /\ data p = []
    /\ steps (H := latin1) 6 p pos = Next p' pos'
    /\ reg p' = set_root empty_registry HKEY_CURRENT_USER
                  (Key [] [(W "K", Key [(W "v", {| val_type := REG_BINARY; val_data := [] |})] [])]).
Proof.
  pose (res := steps (H := latin1) 3
                 (initial_parser false 82 69
                    (W "GEDIT4" ++ CRLF ++ W "[HKEY_CURRENT_USER\K]" ++ CRLF
                       ++ quoted (W "v") ++ W "=hex:" ++ CRLF)
                    empty_registry false)
                 [82; 69]).
  assert (E : steps (H := latin1) 3
                (initial_parser false 82 69
                   (W "GEDIT4" ++ CRLF ++ W "[HKEY_CURRENT_USER\K]" ++ CRLF
                      ++ quoted (W "v") ++ W "=hex:" ++ CRLF)
                   empty_registry false)
                [82; 69]
              = res) by reflexivity.
  vm_compute in res. subst res.
  match type of E with
  | _ = Next ?P ?pos0 =>
      destruct (empty_hex_list_sets_empty_value (H := latin1) false 82 69 _ empty_registry
                  false 3 P (fst (get_line (H := latin1) P)) (W "v") pos0 E)
        as (Hdata & p4 & q & p' & pos' & _ & _ & _ & _ & Hsteps & _ & Hreg & _);
        [reflexivity|repeat constructor; discriminate|vm_compute; reflexivity|];
        exists P, pos0, p', pos'
  end.
  split; [exact E|]. split; [exact Hdata|]. split; [exact Hsteps|].
  rewrite Hreg. vm_compute. reflexivity.
Defined.


Lemma length_wide_chars (b : list BYTE) : (length (wide_chars b) <= length b)%nat.
Proof.
  assert (Hboth : forall b : list BYTE,
             (length (wide_chars b) <= length b)%nat
             /\ forall x, (length (wide_chars (x :: b)) <= length (x :: b))%nat).
  { clear b. induction b as [|y b [IH1 IH2]].
    - split; [apply Nat.le_refl|intros x; cbn; lia].
    - split; [apply IH2|]. intros x. cbn [wide_chars length] in *. lia. }
  apply Hboth.
Qed.

Section LoopEnds.
Context `{CodePage}.

Lemma parser_loop_ends (fuel : nat) :
  forall p pos, (loop_measure p < fuel)%nat -> exists o, parser_loop fuel p pos = Some o.
Proof.
  induction fuel as [|fuel IH]; intros p pos Hm; [lia|].
  cbn [parser_loop].
  destruct (parser_funcs (state p) p pos) as [p' pos'|p'|p'| |p'] eqn:E;
    try (eexists; reflexivity).
  apply IH. pose proof (turn_decreases p p' pos pos' E). lia.
Qed.

Lemma parser_loop_narrow (fuel : nat) :
  forall p pos q, narrow_line p -> parser_loop fuel p pos <> Some (Strayed q).
Proof.
  induction fuel as [|fuel IH]; intros p pos q Hp; [discriminate|].
  cbn [parser_loop]. pose proof (turn_narrow p pos Hp) as Hturn.
  destruct (parser_funcs (state p) p pos) as [p' pos'|p'|p'| |p'];
    try discriminate; [now apply IH|contradiction].
Qed.

(** X1: [import_registry_file] comes to an end on every file, whatever
    the registry holds: the main loop of the parser makes at most
    48 n + 40 turns on a file of n bytes, so it returns, calls
    [error_exit] or runs into undefined behaviour, and never goes on for
    ever.  In a Unicode file a line that ends in a backslash can lead the
    parser behind the end of the line, into the buffer of the reader,
    where the model does not follow it; in a file of the code page, one
    that does not begin with the bytes 0xff 0xfe, this does not happen. *)
Theorem import_always_ends (reg_file : list BYTE) (r0 : registry) (erange0 : bool)
    (fuel : nat) :
  (48 * length reg_file + 40 <= fuel)%nat ->
  exists res,
    import_registry_file fuel reg_file r0 erange0 = Some res
    /\ ((forall rest, reg_file <> 255 :: 254 :: rest) ->
        forall r calls, res <> ImportAstray r calls).
Proof.
  intros Hfuel.
  destruct reg_file as [|s0 [|s1 rest]];
    try (eexists; split; [reflexivity|discriminate]).
  rewrite import_registry_file_eq.
  set (u := (s0 =? 255) && (s1 =? 254)).
  set (text := if u then wide_chars rest else rest).
  assert (Htext : (length text <= length rest)%nat).
  { subst text. destruct u; [apply length_wide_chars|lia]. }
  destruct (parser_loop_ends fuel (initial_parser u s0 s1 text r0 erange0) [s0; s1])
    as [o Ho].
  { unfold loop_measure, initial_parser, file_weight, buffered.
    cbn [file state hex_phase state_rank size stream Nat.eqb length].
    cbn [length] in Hfuel. lia. }
  rewrite Ho.
  assert (Hnarrow : (forall rest', s0 :: s1 :: rest <> 255 :: 254 :: rest') ->
                    forall q, o <> Strayed q).
  { intros Hbom q Eo. subst o.
    apply (parser_loop_narrow fuel _ _ q) in Ho; [exact Ho|].
    split; [|constructor]. cbn [is_unicode initial_parser]. subst u.
    destruct (s0 =? 255) eqn:E0; [|reflexivity].
    destruct (s1 =? 254) eqn:E1; [|reflexivity].
    apply Z.eqb_eq in E0, E1. subst s0 s1. now elim (Hbom rest). }
  destruct o as [p|p| |p].
  - destruct (reg_version p) as [[| | | |]|]; eexists; (split; [reflexivity|discriminate]).
  - eexists. split; [reflexivity|discriminate].
  - eexists. split; [reflexivity|discriminate].
  - eexists. split; [reflexivity|]. intros Hbom. now elim (Hnarrow Hbom p).
Qed.

End LoopEnds.

Lemma import_always_ends_witness :
  exists res,
    import_registry_file (H := latin1) 1000 (W "REGEDIT4" ++ CRLF ++ W "[HKEY_FOO") empty_registry
      false
    = Some res
    /\ ((forall rest, W "REGEDIT4" ++ CRLF ++ W "[HKEY_FOO" <> 255 :: 254 :: rest) ->
        forall r calls, res <> ImportAstray r calls).
Proof. apply (import_always_ends (H := latin1)). vm_compute. lia. Defined.

(** ** Escapes: what is written is what is read *)

(** X2: the name of a value that [REGPROC_escape_string] has escaped is a
    text without NUL, CR or LF, whatever characters the name holds, and
    [REGPROC_unescape_string] reads the name back from it, up to the
    closing quote, and hands out what follows the quote. *)
Theorem escaped_name_reads_back (name rest : wstr) :
  one_line (REGPROC_escape_string name)
  /\ REGPROC_unescape_string (REGPROC_escape_string name ++ DQUOTE :: rest)
     = Closed name rest.
Proof.
  split; [|apply unescape_escape_string].
  pose proof (escape_string_nul_free name) as Hnul.
  pose proof (escape_string_no_eol name) as Heol.
  unfold one_line, nul_free, no_eol in *. rewrite Forall_forall in *.
  intros c Hc. specialize (Hnul c Hc). specialize (Heol c Hc). tauto.
Qed.

Lemma unescape_export_nul (s more rest : wstr) :
  nul_free s ->
  REGPROC_unescape_string (REGPROC_export_string (s ++ NUL :: more) ++ rest) = Unclosed s.
Proof.
  induction 1 as [|c s Hc _ IH]; [reflexivity|].
  apply Z.eqb_neq in Hc.
  cbn [app REGPROC_export_string].
  destruct (c =? LF) eqn:Elf.
  { apply Z.eqb_eq in Elf; subst c. cbn [app REGPROC_unescape_string] in *. now rewrite IH. }
  destruct (c =? CR) eqn:Ecr.
  { apply Z.eqb_eq in Ecr; subst c. cbn [app REGPROC_unescape_string] in *. now rewrite IH. }
  destruct (c =? BACKSLASH) eqn:Ebs.
  { apply Z.eqb_eq in Ebs; subst c. cbn [orb app REGPROC_unescape_string] in *. now rewrite IH. }
  destruct (c =? DQUOTE) eqn:Edq.
  { apply Z.eqb_eq in Edq; subst c. cbn [orb app REGPROC_unescape_string] in *. now rewrite IH. }
  cbn [orb app REGPROC_unescape_string]. rewrite Hc, Ebs, Edq, IH. reflexivity.
Qed.

(** X3: the text that [REGPROC_export_string] writes for a string holds
    no CR and no LF, and [REGPROC_unescape_string] reads the string back
    from it when the string holds no NUL.  A NUL is written as it is,
    and ends what [REGPROC_unescape_string] reads: the string comes back
    up to its first NUL, and no closing quote is found. *)
Theorem exported_string_reads_back (s rest : wstr) :
  nul_free s ->
  no_eol (REGPROC_export_string s)
  /\ REGPROC_unescape_string (REGPROC_export_string s ++ DQUOTE :: rest) = Closed s rest
  /\ forall more,
       REGPROC_unescape_string (REGPROC_export_string (s ++ NUL :: more) ++ DQUOTE :: rest)
       = Unclosed s.
Proof.
  intros Hs. split; [apply export_string_no_eol|].
  split; [now apply unescape_export_string|].
  intros more. now apply unescape_export_nul.
Qed.

Lemma exported_string_reads_back_witness :
  no_eol (REGPROC_export_string [97; DQUOTE; 98; LF])
  /\ REGPROC_unescape_string (REGPROC_export_string [97; DQUOTE; 98; LF] ++ DQUOTE :: [59])
     = Closed [97; DQUOTE; 98; LF] [59]
  /\ forall more,
       REGPROC_unescape_string
         (REGPROC_export_string ([97; DQUOTE; 98; LF] ++ NUL :: more) ++ DQUOTE :: [59])
       = Unclosed [97; DQUOTE; 98; LF].
Proof.
  apply (exported_string_reads_back [97; DQUOTE; 98; LF] [59]).
  repeat (constructor; [discriminate|]). constructor.
Defined.

(** X4: [REGPROC_unescape_string] works in place without harm: the
    value it writes is never longer than the text it has read, which is
    the text before the first NUL.  With a closing quote the text is
    what was read, which holds no NUL, the quote and the unparsed rest;
    the character after the terminator is read only when the text before
    the first NUL ends in a backslash. *)
Theorem unescape_in_place (str : wstr) :
  match REGPROC_unescape_string str with
  | Closed value rest =>
      exists read,
        str = read ++ DQUOTE :: rest /\ nul_free read /\ (length value <= length read)%nat
  | Unclosed value => (length value <= length (cstr str))%nat
  | Overrun => exists read, cstr str = read ++ [BACKSLASH]
  end.
Proof.
  assert (Hall : forall n (s : wstr), (length s <= n)%nat ->
             match REGPROC_unescape_string s with
             | Closed value rest =>
                 exists read,
                   s = read ++ DQUOTE :: rest /\ nul_free read
                   /\ (length value <= length read)%nat
             | Unclosed value => (length value <= length (cstr s))%nat
             | Overrun => exists read, cstr s = read ++ [BACKSLASH]
             end).
  { induction n as [|n IH]; intros s Hn.
    - destruct s; [cbn; lia|cbn in Hn; lia].
    - destruct s as [|c r]; [cbn; lia|]. cbn [REGPROC_unescape_string cstr].
      destruct (c =? NUL) eqn:Enul; [cbn; lia|].
      apply Z.eqb_neq in Enul.
      destruct (c =? BACKSLASH) eqn:Ebs.
      + apply Z.eqb_eq in Ebs. subst c. destruct r as [|e r']; [now exists []|].
        cbn [cstr].
        destruct (e =? NUL) eqn:Ee; [now exists []|].
        apply Z.eqb_neq in Ee.
        assert (Hr : (length r' <= n)%nat) by (cbn [length] in Hn; lia).
        specialize (IH r' Hr).
        destruct (REGPROC_unescape_string r') as [v u|v|].
        * destruct IH as (read & -> & Hnf & Hlen).
          exists (BACKSLASH :: e :: read). split; [reflexivity|].
          split; [constructor; [discriminate|constructor; assumption]|cbn [length]; lia].
        * cbn [length]. lia.
        * destruct IH as (read & ->). now exists (BACKSLASH :: e :: read).
      + destruct (c =? DQUOTE) eqn:Edq.
        * apply Z.eqb_eq in Edq. subst c. exists [].
          split; [reflexivity|]. split; [constructor|cbn; lia].
        * assert (Hr : (length r <= n)%nat) by (cbn [length] in Hn; lia).
          specialize (IH r Hr).
          destruct (REGPROC_unescape_string r) as [v u|v|].
          -- destruct IH as (read & -> & Hnf & Hlen).
             exists (c :: read). split; [reflexivity|].
             split; [constructor; assumption|cbn [length]; lia].
          -- cbn [length]. lia.
          -- destruct IH as (read & ->). now exists (c :: read). }
  apply (Hall (length str)), Nat.le_refl.
Qed.

(** ** Numbers *)

Lemma hex_digit_value_range (c : WCHAR) (d : Z) : hex_digit_value c = Some d -> 0 <= d < 16.
Proof.
  unfold hex_digit_value, digit_value, is_decimal, is_lower, is_upper.
  destruct ((48 <=? c) && (c <=? 57)) eqn:E1.
  { apply andb_prop in E1 as [Ha Hb]. apply Z.leb_le in Ha, Hb.
    destruct (c - 48 <? 16) eqn:E; [|discriminate]. intros [= <-]. lia. }
  destruct ((97 <=? c) && (c <=? 122)) eqn:E2.
  { apply andb_prop in E2 as [Ha Hb]. apply Z.leb_le in Ha, Hb.
    destruct (c - 97 + 10 <? 16) eqn:E; [|discriminate]. apply Z.ltb_lt in E.
    intros [= <-]. lia. }
  destruct ((65 <=? c) && (c <=? 90)) eqn:E3; [|discriminate].
  apply andb_prop in E3 as [Ha Hb]. apply Z.leb_le in Ha, Hb.
  destruct (c - 65 + 10 <? 16) eqn:E; [|discriminate]. apply Z.ltb_lt in E.
  intros [= <-]. lia.
Qed.

Lemma scan_hex_facts (s : wstr) :
  forall acc n v m rest,
    scan_hex s acc n = (v, m, rest) ->
    0 <= acc ->
    0 <= v /\ (n <= m)%nat
    /\ ((m = n /\ rest = s) \/ (n < m /\ length rest < length s)%nat).
Proof.
  induction s as [|c r IH]; intros acc n v m rest; cbn [scan_hex].
  - intros [= <- <- <-] Hacc. repeat split; try lia. now left.
  - destruct (hex_digit_value c) as [d|] eqn:Ed.
    + intros Hscan Hacc. pose proof (hex_digit_value_range c d Ed).
      destruct (IH _ _ _ _ _ Hscan ltac:(lia)) as (Hv & Hm & Hcases).
      repeat split; try lia. right. cbn [length]. destruct Hcases as [[-> ->]|[? ?]]; lia.
    + intros [= <- <- <-] Hacc. repeat split; try lia. now left.
Qed.

(** [strtoul]: the value is an unsigned long, and either nothing was
    converted or the end is further on. *)
Lemma strtoul16_facts (s : wstr) :
  0 <= ul_value (strtoul16 s) < 2 ^ 32
  /\ ((ul_value (strtoul16 s) = 0 /\ ul_end (strtoul16 s) = s)
      \/ (length (ul_end (strtoul16 s)) < length s)%nat).
Proof.
  change (2 ^ 32) with 4294967296.
  unfold strtoul16.
  pose proof (length_skip_space s) as H1.
  set (s1 := skip_space s) in *.
  destruct (match s1 with
            | c :: r => if c =? MINUS then (true, r)
                        else if c =? PLUS then (false, r) else (false, s1)
            | [] => (false, s1)
            end) as [neg s2] eqn:E2.
  assert (H2 : (length s2 <= length s1)%nat).
  { destruct s1 as [|c r]; [injection E2 as _ <-; apply Nat.le_refl|].
    destruct (c =? MINUS); [injection E2 as _ <-; cbn [length]; lia|].
    destruct (c =? PLUS); injection E2 as _ <-; cbn [length]; lia. }
  destruct (match s2 with
            | c0 :: x :: r =>
                if (c0 =? 48) && ((x =? 120) || (x =? 88)) then (true, r) else (false, s2)
            | _ => (false, s2)
            end) as [prefixed s3] eqn:E3.
  assert (H3 : (length s3 <= length s2)%nat
               /\ (prefixed = true -> (length (tl s2) < length s2)%nat)).
  { destruct s2 as [|c0 [|x r]];
      try (injection E3 as <- <-; split; [apply Nat.le_refl|discriminate]).
    destruct ((c0 =? 48) && ((x =? 120) || (x =? 88))); injection E3 as <- <-;
      cbn [tl length]; split; (lia || discriminate || (intros _; lia)). }
  destruct H3 as [H3 Hpre].
  destruct (scan_hex s3 0 0) as [[v n] rest] eqn:E4.
  destruct (scan_hex_facts s3 0 0 v n rest E4 ltac:(lia)) as (Hv & _ & Hcases).
  destruct n as [|n].
  - destruct prefixed; cbn [ul_value ul_end].
    + split; [lia|right]. specialize (Hpre eq_refl). lia.
    + split; [lia|now left].
  - assert (Hrest : (length rest < length s)%nat) by (destruct Hcases as [[? _]|[_ ?]]; lia).
    unfold ULONG_MAX. destruct (4294967295 <? v) eqn:Emax; cbn [ul_value ul_end].
    + split; [lia|now right].
    + apply Z.ltb_ge in Emax. split; [|now right].
      destruct neg; [|lia]. apply Z.mod_pos_bound. lia.
Qed.

Lemma skip_blanks_split (s : wstr) :
  exists before, blanks before /\ s = before ++ skip_blanks s
                 /\ match skip_blanks s with c :: _ => is_blank c = false | [] => True end.
Proof.
  induction s as [|c s (before & Hb & Hs & Hhead)].
  - exists []. now repeat split; try constructor.
  - cbn [skip_blanks]. destruct (is_blank c) eqn:Ec.
    + exists (c :: before). split; [now constructor|]. split; [|exact Hhead].
      cbn [app]. now f_equal.
    + exists []. split; [constructor|]. now split.
Qed.

Lemma isxdigitW_value (c : WCHAR) :
  isxdigitW c = true ->
  (exists v, hex_digit_value c = Some v /\ digit v)
  /\ isspaceW c = false /\ (c =? MINUS) = false /\ (c =? PLUS) = false
  /\ ((c =? 120) || (c =? 88)) = false.
Proof.
  unfold isxdigitW, hex_digit_value, digit_value, is_decimal, is_lower, is_upper, isspaceW,
    digit.
  intros Hc.
  assert (Hr : 48 <= c <= 57 \/ 97 <= c <= 102 \/ 65 <= c <= 70).
  { apply orb_prop in Hc as [Hc|Hc]; [apply orb_prop in Hc as [Hc|Hc]|];
      apply andb_prop in Hc as [H1 H2]; apply Z.leb_le in H1, H2; lia. }
  split.
  - destruct Hr as [Hr|[Hr|Hr]].
    + exists (c - 48).
      replace ((48 <=? c) && (c <=? 57)) with true by (symmetry; apply andb_true_intro; split; apply Z.leb_le; lia).
      replace (c - 48 <? 16) with true by (symmetry; apply Z.ltb_lt; lia).
      split; [reflexivity|lia].
    + exists (c - 97 + 10).
      replace ((48 <=? c) && (c <=? 57)) with false
        by (symmetry; apply andb_false_intro2, Z.leb_gt; lia).
      replace ((97 <=? c) && (c <=? 122)) with true by (symmetry; apply andb_true_intro; split; apply Z.leb_le; lia).
      replace (c - 97 + 10 <? 16) with true by (symmetry; apply Z.ltb_lt; lia).
      split; [reflexivity|lia].
    + exists (c - 65 + 10).
      replace ((48 <=? c) && (c <=? 57)) with false
        by (symmetry; apply andb_false_intro2, Z.leb_gt; lia).
      replace ((97 <=? c) && (c <=? 122)) with false
        by (symmetry; apply andb_false_intro1, Z.leb_gt; lia).
      replace ((65 <=? c) && (c <=? 90)) with true by (symmetry; apply andb_true_intro; split; apply Z.leb_le; lia).
      replace (c - 65 + 10 <? 16) with true by (symmetry; apply Z.ltb_lt; lia).
      split; [reflexivity|lia].
  - repeat split.
    + apply orb_false_intro; [apply andb_false_intro2, Z.leb_gt|apply Z.eqb_neq]; lia.
    + apply Z.eqb_neq. lia.
    + apply Z.eqb_neq. lia.
    + apply orb_false_intro; apply Z.eqb_neq; lia.
Qed.

(** The number that hexadecimal digits write is below 16 to the power
    of their number. *)
Lemma digits_value_bound (vals : list Z) :
  Forall digit vals -> 0 <= digits_value vals < 16 ^ Z.of_nat (length vals).
Proof.
  intros Hvals.
  assert (Hb : forall l acc, Forall digit l -> 0 <= acc ->
                0 <= fold_left (fun a d => 16 * a + d) l acc
                < 16 ^ Z.of_nat (length l) * (acc + 1)).
  { induction l as [|x l IH]; intros acc Hl Hacc.
    - cbn [fold_left length]. change (16 ^ Z.of_nat 0) with 1. lia.
    - inversion Hl as [|? ? Hx Hl']; subst. cbn [fold_left length].
      unfold digit in Hx.
      specialize (IH (16 * acc + x) Hl' ltac:(lia)).
      rewrite Nat2Z.inj_succ, Z.pow_succ_r by lia.
      assert (0 < 16 ^ Z.of_nat (length l)) by (apply Z.pow_pos_nonneg; lia).
      split; [lia|].
      apply Z.lt_le_trans with (16 ^ Z.of_nat (length l) * (16 * acc + x + 1)); [lia|].
      replace (16 * 16 ^ Z.of_nat (length l) * (acc + 1))
        with (16 ^ Z.of_nat (length l) * (16 * (acc + 1))) by ring.
      apply Z.mul_le_mono_nonneg_l; lia. }
  specialize (Hb vals 0 Hvals ltac:(lia)). unfold digits_value. lia.
Qed.

Lemma scan_hex_xdigits (ds : wstr) :
  forallb isxdigitW ds = true ->
  exists vals,
    Forall2 (fun c v => hex_digit_value c = Some v) ds vals
    /\ Forall digit vals
    /\ forall acc n,
         scan_hex ds acc n
         = (fold_left (fun a d => 16 * a + d) vals acc, (n + length ds)%nat, []).
Proof.
  induction ds as [|c ds IH]; intros Hds.
  - exists []. split; [constructor|]. split; [constructor|].
    intros acc n. cbn. now rewrite Nat.add_0_r.
  - cbn [forallb] in Hds. apply andb_prop in Hds as [Hc Hds].
    destruct (IH Hds) as (vals & H2 & Hd & Hscan).
    destruct (isxdigitW_value c Hc) as [(v & Hv & Hdv) _].
    exists (v :: vals). split; [now constructor|]. split; [now constructor|].
    intros acc n. cbn [scan_hex fold_left length]. rewrite Hv, Hscan.
    now rewrite Nat.add_succ_r.
Qed.

(** [strtoul] on up to eight hexadecimal digits and nothing else: the
    value is the number that the digits write, and it fits. *)
Lemma strtoul16_xdigits (ds : wstr) :
  forallb isxdigitW ds = true -> (length ds <= 8)%nat ->
  exists vals,
    Forall2 (fun c v => hex_digit_value c = Some v) ds vals
    /\ strtoul16 ds
       = {| ul_value := digits_value vals;
            ul_end := match ds with [] => ds | _ :: _ => [] end;
            ul_erange := false |}.
Proof.
  intros Hds Hlen.
  destruct (scan_hex_xdigits ds Hds) as (vals & H2 & Hd & Hscan).
  exists vals. split; [exact H2|].
  destruct ds as [|c ds].
  - inversion H2; subst. reflexivity.
  - cbn [forallb] in Hds. apply andb_prop in Hds as [Hc Hds'].
    destruct (isxdigitW_value c Hc) as (_ & Hsp & Hm & Hp & _).
    unfold strtoul16. cbn [skip_space]. rewrite Hsp, Hm, Hp.
    assert (Hprefix : match ds with
                      | x :: _ => ((x =? 120) || (x =? 88)) = false
                      | [] => True
                      end).
    { destruct ds as [|x ds]; [exact I|].
      cbn [forallb] in Hds'. apply andb_prop in Hds' as [Hx _].
      apply (isxdigitW_value x Hx). }
    pose proof (digits_value_bound vals Hd) as Hb.
    assert (Hlv : length vals = length (c :: ds)).
    { clear - H2. induction H2; cbn [length]; congruence. }
    assert (Hmax : (ULONG_MAX <? digits_value vals) = false).
    { apply Z.ltb_ge. unfold ULONG_MAX.
      assert (16 ^ Z.of_nat (length vals) <= 16 ^ 8) by (apply Z.pow_le_mono_r; lia).
      change (16 ^ 8) with 4294967296 in *. lia. }
    specialize (Hscan 0 0%nat). fold (digits_value vals) in Hscan.
    destruct ds as [|x ds].
    + rewrite Hscan. cbn [length Nat.add]. now rewrite Hmax.
    + rewrite Hprefix, andb_false_r. rewrite Hscan. cbn [length Nat.add]. now rewrite Hmax.
Qed.

Lemma count_xdigits_firstn (s : wstr) :
  forallb isxdigitW (firstn (count_xdigits s) s) = true
  /\ length (firstn (count_xdigits s) s) = count_xdigits s.
Proof.
  induction s as [|c s [IH1 IH2]]; [now split|].
  cbn [count_xdigits]. destruct (isxdigitW c) eqn:Ec; [|now split].
  cbn [firstn forallb length]. rewrite Ec, IH1, IH2. now split.
Qed.

(** X8: [convert_hex_to_dword] accepts nothing but a number of at most
    eight hexadecimal digits, in either case, with blanks before it and
    with blanks and a comment behind it; without a digit, the comment
    sign must be there.  The value stored is the number that the digits
    write: after the check of their count [strtoulW] cannot overflow. *)
Theorem dword_is_what_the_digits_write (str : wstr) (dw : Z) :
  convert_hex_to_dword str = Some dw ->
  exists before digits after vals,
    str = before ++ digits ++ after
    /\ blanks before
    /\ Forall2 (fun c v => hex_digit_value c = Some v) digits vals
    /\ (length digits <= 8)%nat
    /\ at_eol_or_comment (skip_blanks after) = true
    /\ (digits = [] -> exists comment, after = SEMICOLON :: comment)
    /\ dw = digits_value vals
    /\ ul_erange (strtoul16 digits) = false.
Proof.
  unfold convert_hex_to_dword.
  destruct (skip_blanks_split str) as (before & Hbefore & Hstr & Hhead).
  destruct (skip_blanks str) as [|c r]; [discriminate|].
  set (s := c :: r) in *.
  destruct (8 <? Z.of_nat (count_xdigits s)) eqn:Ecount; [discriminate|].
  apply Z.ltb_ge in Ecount.
  destruct (at_eol_or_comment (skip_blanks (skipn (count_xdigits s) s))) eqn:Eeol;
    [|discriminate].
  cbn [negb]. intros [= <-].
  destruct (count_xdigits_firstn s) as [Hx Hlen].
  destruct (strtoul16_xdigits (firstn (count_xdigits s) s) Hx ltac:(lia))
    as (vals & H2 & Hval).
  exists before, (firstn (count_xdigits s) s), (skipn (count_xdigits s) s), vals.
  rewrite firstn_skipn, Hval. cbn [ul_value ul_erange].
  repeat split; try assumption; try lia.
  - intros Hnone. rewrite Hnone in Hlen. cbn [length] in Hlen. rewrite <- Hlen in *.
    subst s. cbn [skipn skip_blanks] in *.
    rewrite Hhead in Eeol. cbn [at_eol_or_comment] in Eeol.
    apply Z.eqb_eq in Eeol. subst c. now exists r.
  - change (if isxdigitW c then S (count_xdigits r) else 0%nat) with (count_xdigits s).
    now rewrite Hval.
Qed.

Lemma dword_is_what_the_digits_write_witness :
  exists before digits after vals,
    W " fF ; x" = before ++ digits ++ after
    /\ blanks before
    /\ Forall2 (fun c v => hex_digit_value c = Some v) digits vals
    /\ (length digits <= 8)%nat
    /\ at_eol_or_comment (skip_blanks after) = true
    /\ (digits = [] -> exists comment, after = SEMICOLON :: comment)
    /\ 255 = digits_value vals
    /\ ul_erange (strtoul16 digits) = false.
Proof. apply (dword_is_what_the_digits_write (W " fF ; x") 255). reflexivity. Defined.

Lemma count_xdigits_app (vals : list Z) (tail : wstr) :
  Forall digit vals ->
  match tail with c :: _ => isxdigitW c = false | [] => True end ->
  count_xdigits (map hex_char vals ++ tail) = length vals.
Proof.
  intros Hvals Htail. induction Hvals as [|d vals Hd _ IH].
  - destruct tail as [|c t]; [reflexivity|]. cbn [map app count_xdigits]. now rewrite Htail.
  - cbn [map app count_xdigits length].
    destruct (hex_char_digit d Hd) as (_ & _ & _ & _ & _ & _ & _ & _ & _ & -> & _).
    now rewrite IH.
Qed.

(** X7: [convert_hex_to_dword] takes one to eight hexadecimal digits,
    written as the exporter writes them (0 to 9 and a to f), with blanks
    before them and with blanks and a comment after them, and gives the
    number that the digits write. *)
Theorem dword_with_blanks_and_comment (before after comment : wstr) (vals : list Z)
    (commented : bool) :
  blanks before -> blanks after ->
  vals <> [] -> Forall digit vals -> (length vals <= 8)%nat ->
  convert_hex_to_dword
    (before ++ map hex_char vals ++ after ++ (if commented then SEMICOLON :: comment else []))
  = Some (digits_value vals).
Proof.
  intros Hbefore Hafter Hne Hvals Hlen.
  set (tail := after ++ (if commented then SEMICOLON :: comment else [])).
  assert (Htail : match tail with c :: _ => isxdigitW c = false | [] => True end).
  { subst tail. destruct Hafter as [|c ws Hc _].
    - destruct commented; [reflexivity|exact I].
    - cbn [app]. unfold is_blank in Hc. apply orb_prop in Hc as [Hc|Hc];
        apply Z.eqb_eq in Hc; subst c; reflexivity. }
  assert (Heol : at_eol_or_comment (skip_blanks tail) = true).
  { subst tail. rewrite skip_blanks_app by exact Hafter. now destruct commented. }
  assert (Hskip : forall t, skip_blanks (map hex_char vals ++ t) = map hex_char vals ++ t).
  { intros t. destruct vals as [|d vals]; [contradiction|].
    inversion Hvals as [|? ? Hd _]; subst. cbn [map app skip_blanks].
    destruct (hex_char_digit d Hd) as (_ & _ & _ & _ & _ & _ & _ & _ & _ & _ & ->).
    reflexivity. }
  assert (Hval : ul_value (strtoul16 (map hex_char vals)) = digits_value vals).
  { pose proof (convert_hex_to_dword_digits vals Hne Hvals Hlen) as Hplain.
    revert Hplain. unfold convert_hex_to_dword.
    pose proof (Hskip []) as Hskip0. rewrite app_nil_r in Hskip0. rewrite Hskip0.
    rewrite count_xdigits_digits by exact Hvals.
    rewrite <- (length_map hex_char vals), skipn_all, firstn_all.
    destruct (map hex_char vals) as [|c0 t0]; [discriminate|].
    destruct (8 <? _); [discriminate|]. destruct (negb _); [discriminate|].
    now intros [= ->]. }
  unfold convert_hex_to_dword.
  rewrite skip_blanks_app by exact Hbefore.
  rewrite Hskip.
  rewrite count_xdigits_app by assumption.
  replace (8 <? Z.of_nat (length vals)) with false by (symmetry; apply Z.ltb_ge; lia).
  rewrite <- (length_map hex_char vals).
  rewrite skipn_app, firstn_app, skipn_all, firstn_all, Nat.sub_diag.
  cbn [skipn firstn app]. rewrite Heol, app_nil_r, Hval. cbn [negb].
  destruct (map hex_char vals) as [|c0 t0] eqn:E; [|reflexivity].
  destruct vals; [contradiction|discriminate].
Qed.

Lemma dword_with_blanks_and_comment_witness :
  convert_hex_to_dword (W "  " ++ map hex_char [1; 10] ++ W " " ++ SEMICOLON :: W "note")
  = Some 26.
Proof.
  apply (dword_with_blanks_and_comment (W "  ") (W " ") (W "note") [1; 10] true).
  - repeat constructor.
  - repeat constructor.
  - discriminate.
  - repeat constructor; unfold digit; lia.
  - cbn. lia.
Defined.

(** X5: the prefix that [export_hex_data_type] writes for a type is
    read back by [parse_data_type] as this type, for every DWORD: the
    data is parsed as bytes, the type of the value is the one written
    and the line goes on after the colon.  For the type 0xffffffff the
    [errno] left by an earlier call must not be ERANGE. *)
Theorem hex_type_prefix_reads_back (fp : list BYTE) (unicode : bool) (p : parser)
    (type : Z) (rest : wstr) `{CodePage} :
  0 <= type < 2 ^ 32 ->
  (type = ULONG_MAX -> errno_erange p = false) ->
  exists text,
    export_hex_data_type fp type unicode
    = (REGPROC_write_line fp text unicode, Z.of_nat (length text))
    /\ parse_data_type p (text ++ rest) = (true, set_types p REG_BINARY type, rest).
Proof.
  intros Ht He. exists (hex_prefix type). split; [reflexivity|].
  unfold hex_prefix.
  destruct (type =? REG_BINARY) eqn:E3.
  - apply Z.eqb_eq in E3. subst type. reflexivity.
  - unfold parse_data_type.
    change (W "hex(") with [104; 101; 120; 40].
    change (W "hex:") with [104; 101; 120; 58].
    change (W "):") with [RPAREN; COLON].
    cbn [app starts_with Z.eqb Pos.eqb andb skipn].
    rewrite <- app_assoc.
    pose proof (strtoul16_hex_of_dword type (RPAREN :: COLON :: rest) Ht) as Hnum.
    assert (Hend : number_end (RPAREN :: COLON :: rest)).
    { cbn. repeat split; discriminate. }
    specialize (Hnum Hend).
    unfold hex_of_dword in *. rewrite hex_digits_vals in *.
    pose proof (hex_vals_nonempty 7 (type mod 2 ^ 32)) as Hne.
    pose proof (hex_vals_digits 8 (type mod 2 ^ 32)) as Hds.
    destruct (hex_vals 8 (type mod 2 ^ 32)) as [|d0 vals]; [contradiction|].
    inversion Hds as [|? ? Hd0 Hvals]; subst.
    cbn [map app] in *.
    assert (Hx : match map hex_char vals ++ RPAREN :: COLON :: rest with
                 | x :: _ => tolowerW x =? 120
                 | [] => false
                 end = false).
    { destruct vals as [|d1 vals]; [reflexivity|].
      inversion Hvals; subst. cbn [map app]. now apply tolowerW_hex_char. }
    rewrite Hx, Hnum. cbn [ul_erange ul_value ul_end app Z.eqb Pos.eqb negb orb].
    change (W "dword:") with [100; 119; 111; 114; 100; 58].
    cbn [starts_with Z.eqb Pos.eqb andb].
    destruct_parser p. cbn [errno_erange] in He. norm_parser.
    destruct (type =? ULONG_MAX) eqn:Emax; [|reflexivity].
    apply Z.eqb_eq in Emax. now rewrite (He Emax).
Qed.

Lemma hex_type_prefix_reads_back_witness :
  exists text,
    export_hex_data_type (H := latin1) [] REG_MULTI_SZ true
    = (REGPROC_write_line (H := latin1) [] text true, Z.of_nat (length text))
    /\ parse_data_type (initial_parser true 255 254 [] empty_registry true) (text ++ W "00,00")
       = (true,
          set_types (initial_parser true 255 254 [] empty_registry true) REG_BINARY REG_MULTI_SZ,
          W "00,00").
Proof.
  apply (hex_type_prefix_reads_back [] true
           (initial_parser true 255 254 [] empty_registry true) REG_MULTI_SZ (W "00,00")
           (H := latin1)).
  - cbn. lia.
  - discriminate.
Defined.

(** X6: the text that [export_dword_data] writes for the four bytes of
    a DWORD is [dword:] and eight digits, and [convert_hex_to_dword]
    reads from the digits the number whose bytes in memory are these
    four. *)
Theorem dword_text_reads_back (b0 b1 b2 b3 : BYTE) (more : list BYTE) :
  byte_range b0 -> byte_range b1 -> byte_range b2 -> byte_range b3 ->
  exists digits dw,
    export_dword_data (b0 :: b1 :: b2 :: b3 :: more) = Some (W "dword:" ++ digits)
    /\ length digits = 8%nat
    /\ convert_hex_to_dword digits = Some dw
    /\ dword_bytes dw = [b0; b1; b2; b3].
Proof.
  intros H0 H1 H2 H3.
  exists (hex8 (b0 + 256 * b1 + 65536 * b2 + 16777216 * b3)),
         (b0 + 256 * b1 + 65536 * b2 + 16777216 * b3).
  split; [reflexivity|]. split; [reflexivity|]. split.
  - apply convert_hex_to_dword_hex8. unfold byte_range in *.
    change (2 ^ 32) with 4294967296. lia.
  - now apply dword_bytes_of_bytes.
Qed.

Lemma dword_text_reads_back_witness :
  exists digits dw,
    export_dword_data [120; 86; 52; 18] = Some (W "dword:" ++ digits)
    /\ length digits = 8%nat
    /\ convert_hex_to_dword digits = Some dw
    /\ dword_bytes dw = [120; 86; 52; 18].
Proof.
  apply (dword_text_reads_back 120 86 52 18 []); unfold byte_range; lia.
Defined.

(** ** Byte lists *)

Lemma hex_csv_loop_appends (fuel : nat) :
  forall p s ret p' s',
    hex_csv_loop fuel p s = Some (ret, p', s') ->
    data_cap p' = data_cap p
    /\ exists bs, data p' = data p ++ bs /\ Forall byte_range bs
                  /\ (2 * length bs <= length s + 1)%nat.
Proof.
  induction fuel as [|fuel IH]; intros p s ret p' s'; [discriminate|].
  cbn [hex_csv_loop]. destruct s as [|c0 s0].
  { intros [= _ <- _]. split; [reflexivity|]. exists []. rewrite app_nil_r.
    repeat split; [constructor|cbn; lia]. }
  destruct (strtoul16_facts (c0 :: s0)) as [Hrange Hprogress].
  set (res := strtoul16 (c0 :: s0)) in *.
  set (p1 := if ul_erange res then set_errno p true else p).
  assert (H1 : data p1 = data p /\ data_cap p1 = data_cap p).
  { subst p1. destruct (ul_erange res); [|now split]. destruct_parser p. now split. }
  destruct H1 as [Hd1 Hc1].
  assert (Hnone : forall q, data q = data p -> data_cap q = data_cap p ->
             data_cap q = data_cap p
             /\ exists bs, data q = data p ++ bs /\ Forall byte_range bs
                           /\ (2 * length bs <= length (c0 :: s0) + 1)%nat).
  { intros q Hq Hcq. split; [exact Hcq|]. exists []. rewrite app_nil_r.
    repeat split; [exact Hq|constructor|cbn; lia]. }
  destruct (255 <? ul_value res) eqn:E255; [intros [= _ <- _]; now apply Hnone|].
  apply Z.ltb_ge in E255.
  destruct (Nat.eqb (length (ul_end res)) (length (c0 :: s0)) && (ul_value res =? 0)) eqn:Esame.
  - destruct (skip_blanks (ul_end res)) as [|c e']; [intros [= _ <- _]; now apply Hnone|].
    destruct (c =? BACKSLASH).
    { intros [= _ <- _]. apply Hnone; destruct_parser p1; assumption. }
    destruct (c =? SEMICOLON); intros [= _ <- _]; now apply Hnone.
  - assert (Hshorter : (length (ul_end res) < length (c0 :: s0))%nat).
    { destruct Hprogress as [[Hv He]|Hlt]; [|exact Hlt].
      rewrite He, Hv, Nat.eqb_refl in Esame. discriminate. }
    assert (Hbyte : byte_range (ul_value res)) by (unfold byte_range; lia).
    set (p2 := set_data p1 (data p1 ++ [ul_value res]) (data_cap p1)).
    assert (H2 : data p2 = data p ++ [ul_value res] /\ data_cap p2 = data_cap p).
    { subst p2. destruct_parser p1. cbn in *. now subst. }
    destruct H2 as [Hd2 Hc2].
    assert (Hone : data_cap p2 = data_cap p
                   /\ exists bs, data p2 = data p ++ bs /\ Forall byte_range bs
                                 /\ (2 * length bs <= length (c0 :: s0) + 1)%nat).
    { split; [exact Hc2|]. exists [ul_value res].
      repeat split; [exact Hd2|constructor; [exact Hbyte|constructor]|cbn [length]; lia]. }
    assert (Hmore : forall e', (length e' + 2 <= length (c0 :: s0))%nat ->
               hex_csv_loop fuel p2 e' = Some (ret, p', s') ->
               data_cap p' = data_cap p
               /\ exists bs, data p' = data p ++ bs /\ Forall byte_range bs
                             /\ (2 * length bs <= length (c0 :: s0) + 1)%nat).
    { intros e' He' Hloop. destruct (IH _ _ _ _ _ Hloop) as (Hcap & bs & Hdata & Hbs & Hlen).
      split; [congruence|]. exists (ul_value res :: bs).
      repeat split.
      - rewrite Hdata, Hd2, <- app_assoc. reflexivity.
      - constructor; assumption.
      - cbn [length] in *. lia. }
    destruct (ul_end res) as [|c e'] eqn:Ee.
    + destruct fuel as [|fuel']; [discriminate|]. cbn [hex_csv_loop].
      intros [= _ <- _]. exact Hone.
    + destruct (negb (c =? COMMA)); [intros [= _ <- _]; exact Hone|].
      apply Hmore. cbn [length] in *. lia.
Qed.

(** X9: whatever the line holds, [convert_hex_csv_to_hex] keeps the
    bytes read from the lines before, adds only bytes from 0 to 255, and
    never more of them than half the length of the line, rounded up: the
    buffer that it sizes for the worst case is never written past its
    end. *)
Theorem hex_bytes_are_appended (p : parser) (str : wstr) :
  exists bs,
    data (snd (fst (convert_hex_csv_to_hex p str))) = data p ++ bs
    /\ Forall byte_range bs
    /\ (length bs <= Nat.div (length str + 1) 2)%nat
    /\ (length (data (snd (fst (convert_hex_csv_to_hex p str))))
        <= data_cap (snd (fst (convert_hex_csv_to_hex p str))))%nat.
Proof.
  unfold convert_hex_csv_to_hex.
  set (size := (Nat.div (length str + 1) 2 + length (data (set_backslash p false)))%nat).
  set (p0 := set_data (set_backslash p false) (data (set_backslash p false)) size).
  assert (H0 : data p0 = data p /\ data_cap p0 = (Nat.div (length str + 1) 2 + length (data p))%nat).
  { subst p0 size. destruct_parser p. now split. }
  destruct H0 as [Hd0 Hc0].
  assert (Hhalf : forall n, (2 * n <= length str + 1 -> n <= Nat.div (length str + 1) 2)%nat).
  { intros n Hn. apply Nat.div_le_lower_bound; lia. }
  destruct (hex_csv_loop (S (length str)) p0 str) as [[[ret p'] s']|] eqn:E.
  - destruct (hex_csv_loop_appends _ _ _ _ _ _ E) as (Hcap & bs & Hdata & Hbs & Hlen).
    assert (Hres : data p' = data p ++ bs
                   /\ (length (data p') <= data_cap p')%nat).
    { split; [congruence|]. rewrite Hdata, Hcap, Hd0, Hc0, length_app.
      specialize (Hhalf _ Hlen). lia. }
    exists bs. destruct s'; cbn [fst snd]; repeat split; try apply Hres; auto.
  - exfalso. revert E. apply hex_csv_loop_fuel. lia.
Qed.

Lemma hex_csv_loop_last_then (fuel : nat) (p : parser) (b : BYTE) (c : WCHAR) (tail : wstr) :
  byte_range b -> number_end (c :: tail) -> c <> COMMA ->
  hex_csv_loop (S fuel) p (hex2 b ++ c :: tail)
  = Some (at_eol_or_comment (skip_blanks (c :: tail)),
          set_data p (data p ++ [b]) (data_cap p), None).
Proof.
  intros Hb Hend Hc.
  pose proof (strtoul16_hex2 b (c :: tail) Hb Hend) as E.
  cbn [hex_csv_loop hex2 app] in *. rewrite E.
  cbn [ul_erange ul_value ul_end].
  assert (H255 : (255 <? b) = false) by (apply Z.ltb_ge; unfold byte_range in Hb; lia).
  rewrite H255.
  replace (Nat.eqb (length (c :: tail))
             (length (hex_char ((b / 16) mod 16) :: hex_char (b mod 16) :: c :: tail)))
    with false by (symmetry; apply Nat.eqb_neq; cbn [length]; lia).
  apply Z.eqb_neq in Hc. rewrite Hc. reflexivity.
Qed.

(** X10: blanks and a comment after the last byte of a line do no
    harm: [convert_hex_csv_to_hex] adds the bytes of the line to the
    data, leaves the continuation flag clear and returns TRUE. *)
Theorem hex_list_with_comment (p : parser) (bs : list BYTE) (after comment : wstr)
    (commented : bool) :
  bs <> [] -> Forall byte_range bs -> blanks after ->
  exists cap,
    convert_hex_csv_to_hex p
      (hex_csv bs ++ after ++ (if commented then SEMICOLON :: comment else []))
    = (true, set_backslash (set_data p (data p ++ bs) cap) false,
       hex_csv bs ++ after ++ (if commented then SEMICOLON :: comment else [])).
Proof.
  intros Hne Hbs Hafter.
  set (tail := after ++ (if commented then SEMICOLON :: comment else [])).
  destruct tail as [|c tail'] eqn:Etail.
  { rewrite app_nil_r. now apply convert_last_line. }
  assert (Hfirst : number_end (c :: tail') /\ c <> COMMA
                   /\ at_eol_or_comment (skip_blanks (c :: tail')) = true).
  { rewrite <- Etail. subst tail. split; [|split].
    - destruct Hafter as [|x ws Hx _].
      + destruct commented; [|discriminate Etail]. cbn. repeat split; discriminate.
      + cbn [app]. unfold is_blank in Hx. apply orb_prop in Hx as [Hx|Hx];
          apply Z.eqb_eq in Hx; subst x; cbn; repeat split; discriminate.
    - destruct Hafter as [|x ws Hx _].
      + destruct commented; [|discriminate Etail]. injection Etail as <- _. discriminate.
      + injection Etail as <- _. unfold is_blank in Hx. apply orb_prop in Hx as [Hx|Hx];
          apply Z.eqb_eq in Hx; subst x; discriminate.
    - rewrite skip_blanks_app by exact Hafter. now destruct commented. }
  destruct Hfirst as (Hend & Hcomma & Heol).
  destruct (exists_last Hne) as (bs0 & b0 & ->).
  apply Forall_app in Hbs as [Hbs0 Hb0]. inversion Hb0 as [|? ? Hb _]; subst.
  unfold convert_hex_csv_to_hex. rewrite hex_csv_snoc, <- app_assoc.
  replace (S (length (hex_commas bs0 ++ hex2 b0 ++ c :: tail')))
    with (length bs0 + S (2 * length bs0 + 2 + length (c :: tail')))%nat
    by (rewrite length_app, length_hex_commas, length_app; cbn [length hex2]; lia).
  rewrite (hex_csv_loop_commas bs0 Hbs0).
  rewrite hex_csv_loop_last_then by assumption.
  rewrite Heol. destruct_parser p. eexists. norm_parser. rewrite <- app_assoc. reflexivity.
Qed.

Lemma hex_list_with_comment_witness :
  exists cap,
    convert_hex_csv_to_hex (initial_parser true 255 254 [] empty_registry false)
      (hex_csv [1; 255] ++ W "  " ++ SEMICOLON :: W "two bytes")
    = (true,
       set_backslash
         (set_data (initial_parser true 255 254 [] empty_registry false) ([] ++ [1; 255]) cap)
         false,
       hex_csv [1; 255] ++ W "  " ++ SEMICOLON :: W "two bytes").
Proof.
  apply (hex_list_with_comment (initial_parser true 255 254 [] empty_registry false)
           [1; 255] (W "  ") (W "two bytes") true).
  - discriminate.
  - repeat constructor; unfold byte_range; lia.
  - repeat constructor.
Defined.

(** ** Lines *)

Section ReaderLines.
Context `{CodePage}.

(** X18: a line that the reader hands out of a text without NUL holds
    no CR and no LF, and the text is this line, one line terminator and
    the text that the reader holds afterwards; the terminator is CR LF,
    a CR that no LF follows, or LF.  The LF of a CR LF is looked for in
    the buffer alone: when the CR is the last unit that [fread] gave,
    the LF stays in the text, and the line handed out next is empty.
    Text without a terminator is the last line, after which the reader
    is at its end. *)
Theorem lines_end_at_cr_lf (p : parser) (t : list Z) :
  reads (file p) t ->
  exists f' l cells,
    get_line p
    = (set_behind (set_file p f') (if is_unicode p then cells else []),
       Some (if is_unicode p then l else map mb_to_wc l))
    /\ no_eol l
    /\ ((t = l /\ next f' = None /\ stream f' = [] /\ size f' <> 0%nat)
        \/ (exists rest,
              t = l ++ CR :: LF :: rest
              /\ (reads f' rest \/ (buffered f' = Some [] /\ reads f' (LF :: rest))))
        \/ (exists rest, t = l ++ CR :: rest
              /\ match rest with c :: _ => c <> LF | [] => True end
              /\ reads f' rest)
        \/ (exists rest, t = l ++ LF :: rest /\ reads f' rest)).
Proof. apply get_line_cases. Qed.

End ReaderLines.

Lemma lines_end_at_cr_lf_witness :
  exists f' l cells,
    get_line (H := latin1)
      (parser_between_lines true (W "ab" ++ CRLF ++ W "cd") None empty_registry)
    = (set_behind
         (set_file (parser_between_lines true (W "ab" ++ CRLF ++ W "cd") None empty_registry)
            f')
         cells,
       Some l)
    /\ no_eol l
    /\ ((W "ab" ++ CRLF ++ W "cd" = l /\ next f' = None /\ stream f' = [] /\ size f' <> 0%nat)
        \/ (exists rest,
              W "ab" ++ CRLF ++ W "cd" = l ++ CR :: LF :: rest
              /\ (reads f' rest \/ (buffered f' = Some [] /\ reads f' (LF :: rest))))
        \/ (exists rest, W "ab" ++ CRLF ++ W "cd" = l ++ CR :: rest
              /\ match rest with c :: _ => c <> LF | [] => True end
              /\ reads f' rest)
        \/ (exists rest, W "ab" ++ CRLF ++ W "cd" = l ++ LF :: rest /\ reads f' rest)).
Proof.
  apply (lines_end_at_cr_lf (H := latin1)
           (parser_between_lines true (W "ab" ++ CRLF ++ W "cd") None empty_registry)
           (W "ab" ++ CRLF ++ W "cd")).
  apply reads_between_lines, nul_free_check. vm_compute. reflexivity.
Defined.

(** The CR of a line is the last unit of the first 4095 that [fread]
    gives: the line is handed out, the LF is read with the next units,
    and an empty line comes before the line [b]. *)
Lemma lf_comes_with_the_next_units :
  let text := repeat 97 4094 ++ CRLF ++ W "b" in
  let p0 := parser_between_lines true text None empty_registry in
  let p1 := fst (get_line (H := latin1) p0) in
  let p2 := fst (get_line (H := latin1) p1) in
  snd (get_line (H := latin1) p0) = Some (repeat 97 4094)
  /\ next (file p1) = Some [] /\ stream (file p1) = LF :: W "b"
  /\ snd (get_line (H := latin1) p1) = Some []
  /\ snd (get_line (H := latin1) p2) = Some (W "b").
Proof. vm_compute. repeat split. Qed.
Section OtherLines.
Context `{CodePage}.

(** X11: a line of no known form is skipped.  When the first character
    of a line after its blanks is neither an opening bracket, nor an at
    sign, nor a quote (a comment, an empty line, anything else),
    [line_start_state] goes on to the next line: the key that is open,
    the registry and the calls made so far are as before. *)
Theorem other_lines_are_skipped (p p1 : parser) (line pos : wstr) :
  get_line p = (p1, Some line) ->
  match skip_blanks line with
  | c :: _ => c <> LBRACKET /\ c <> ATSIGN /\ c <> DQUOTE
  | [] => True
  end ->
  line_start_state p pos = Next p1 (skip_blanks line)
  /\ state p1 = state p /\ hkey p1 = hkey p /\ reg p1 = reg p /\ calls p1 = calls p.
Proof.
  intros Hline Hother. split.
  - unfold line_start_state. rewrite Hline. clear Hline.
    induction line as [|c r IH]; [reflexivity|].
    cbn [line_start_scan skip_blanks] in *.
    destruct (is_blank c) eqn:Eb.
    + unfold is_blank in Eb. apply orb_prop in Eb as [Eb|Eb]; apply Z.eqb_eq in Eb; subst c;
        cbn [Z.eqb Pos.eqb]; now apply IH.
    + destruct Hother as (H1 & H2 & H3). apply Z.eqb_neq in H1, H2, H3.
      now rewrite H1, H2, H3.
  - pose proof (get_line_file _ _ _ Hline) as E. rewrite E.
    destruct_parser p. now repeat split.
Qed.

End OtherLines.

Lemma other_lines_are_skipped_witness :
  exists p1,
    line_start_state (H := latin1)
      (parser_between_lines false (W "  ; a comment" ++ CRLF ++ W "next") None empty_registry)
      []
    = Next p1 (W "; a comment")
    /\ next (file p1) = Some (W "next") /\ reg p1 = empty_registry /\ calls p1 = [].
Proof.
  destruct (other_lines_are_skipped (H := latin1)
              (parser_between_lines false (W "  ; a comment" ++ CRLF ++ W "next") None
                 empty_registry)
              (fst (get_line (H := latin1)
                      (parser_between_lines false (W "  ; a comment" ++ CRLF ++ W "next") None
                         empty_registry)))
              (W "  ; a comment") [])
    as (Hstep & _ & _ & Hreg & Hcalls).
  - vm_compute. reflexivity.
  - cbn. repeat split; discriminate.
  - eexists. split; [exact Hstep|]. repeat split.
Defined.

Lemma blanks_clean `{CodePage} (u : bool) (ws : wstr) : blanks ws -> clean u ws /\ no_eol ws.
Proof.
  induction 1 as [|c ws Hc _ [IH1 IH2]]; [split; constructor|].
  unfold is_blank in Hc. apply orb_prop in Hc as [Hc|Hc]; apply Z.eqb_eq in Hc; subst c;
    (split; constructor; [|assumption| |assumption]);
    try (split; discriminate); (split; [discriminate|apply storable_ascii; lia]).
Qed.

Section CommentLines.
Context `{CodePage}.

(** A comment or empty line between the lines of a byte list. *)
Lemma import_hex_comment_line (u : bool) (h : option HKEY) (r : registry) (X : wstr)
    (vn : option wstr) (pt dt : Z) (d : list BYTE) (p : parser) (pos : wstr)
    (ws comment : wstr) (commented : bool) :
  blanks ws -> clean u comment -> no_eol comment ->
  midline HEX_MULTILINE u h r
    ((ws ++ (if commented then SEMICOLON :: comment else [])) ++ CR :: LF :: X) vn pt dt d p ->
  exists p' pos', run p pos p' pos' /\ midline HEX_MULTILINE u h r X vn pt dt d p'.
Proof.
  intros Hws Hc Heol Hp0.
  destruct (settle_hex_multiline u h r _ vn pt dt d p pos Hp0) as (q & posq & Hrunq & Hp).
  enough (exists p' pos', run q posq p' pos' /\ midline HEX_MULTILINE u h r X vn pt dt d p')
    as (p' & pos' & Hrun' & Hp')
    by (exists p', pos'; split; [eapply run_trans; eassumption|exact Hp']).
  clear Hp0 Hrunq p. rename q into p.
  destruct (blanks_clean u ws Hws) as [Hws1 Hws2].
  set (l := ws ++ (if commented then SEMICOLON :: comment else [])) in *.
  assert (Hl : clean u l /\ no_eol l).
  { subst l. destruct commented.
    - split; [apply clean_app|apply no_eol_app]; try assumption.
      + constructor; [split; [discriminate|apply storable_ascii; lia]|exact Hc].
      + constructor; [split; discriminate|exact Heol].
    - rewrite app_nil_r. now split. }
  destruct (get_line_text u l X p) as (f1 & b1 & Hline & Hf1);
    [apply Hl|apply Hl|apply Hp|apply Hp|].
  assert (Hskip : at_eol_or_comment (skip_blanks l) = true).
  { subst l. rewrite skip_blanks_app by exact Hws. now destruct commented. }
  flat_midline Hp p. revert Hline. norm_parser. intros Hline.
  eexists; eexists. split.
  - eapply run_step; [|apply run_refl].
    cbn [state parser_funcs]. unfold hex_multiline_state. rewrite Hline, Hskip. reflexivity.
  - midline_tac.
Qed.

(** X12: a comment line between the lines of a byte list is skipped:
    the value is set to the bytes of the line before it and of the line
    after it, as if the comment were not there. *)
Theorem comment_between_byte_lines (u : bool) (h : option HKEY) (r : registry)
    (name : wstr) (bs1 bs2 : list BYTE) (ws comment X : wstr) (p : parser) (pos : wstr) :
  clean u name ->
  bs1 <> [] -> Forall byte_range bs1 -> bs2 <> [] -> Forall byte_range bs2 ->
  blanks ws -> clean u comment -> no_eol comment ->
  ready u h r
    ((value_name_text name ++ W "hex:" ++ hex_commas bs1 ++ [BACKSLASH] ++ CRLF
        ++ (ws ++ SEMICOLON :: comment) ++ CRLF
        ++ W "  " ++ hex_csv bs2 ++ CRLF) ++ X) p ->
  exists p' pos',
    run p pos p' pos'
    /\ ready u h (RegSetValueExW r h (pending_name name) REG_BINARY (bs1 ++ bs2)) X p'.
Proof.
  intros Hname Hne1 Hbs1 Hne2 Hbs2 Hws Hc Heol Hp.
  destruct bs2 as [|b bs2]; [contradiction|].
  destruct (hex_csv_head b bs2) as (l2 & El2 & Hl2).
  assert (Etext :
            (value_name_text name ++ W "hex:" ++ hex_commas bs1 ++ [BACKSLASH] ++ CRLF
               ++ (ws ++ SEMICOLON :: comment) ++ CRLF
               ++ W "  " ++ hex_csv (b :: bs2) ++ CRLF) ++ X
            = (value_name_text name ++ hex_prefix REG_BINARY ++ hex_commas bs1 ++ [BACKSLASH])
                ++ CR :: LF
                :: (ws ++ SEMICOLON :: comment)
                     ++ CR :: LF :: (SPACE :: SPACE :: hex2 b ++ l2) ++ CR :: LF :: X).
  { rewrite El2. change (hex_prefix REG_BINARY) with (W "hex:").
    change (W "  ") with [SPACE; SPACE]. text_eq. }
  rewrite Etext in Hp.
  assert (Hl1 : printable (hex_commas bs1 ++ [BACKSLASH])).
  { apply printable_app; [apply hex_commas_printable|]. constructor; [lia|constructor]. }
  assert (Hlast : is_blank (last (hex_commas bs1 ++ [BACKSLASH]) 0) = false).
  { rewrite last_app_cons. reflexivity. }
  destruct (import_hex_first u h r name REG_BINARY _ _ p pos Hname ltac:(cbn; lia) Hl1
              (or_intror Hlast) Hp) as (p1 & Hrun1 & Hp1).
  destruct (import_hex_more u h r _ _ _ _ [] bs1 p1 Hbs1 Hp1) as (p2 & pos2 & Hrun2 & Hp2).
  destruct (import_hex_comment_line u h r _ _ _ _ _ p2 pos2 ws comment true Hws Hc Heol Hp2)
    as (p3 & pos3 & Hrun3 & Hp3).
  destruct (import_hex_line u h r _ _ _ _ _ p3 pos3 b l2 Hl2 Hp3) as (p4 & Hrun4 & Hp4).
  rewrite <- El2 in Hrun4.
  destruct (import_hex_last u h r X _ _ REG_BINARY ([] ++ bs1) (b :: bs2) p4 Hbs2
              ltac:(discriminate) Hp4) as (p5 & pos5 & Hrun5 & Hp5).
  destruct (import_set_value u h r X _ _ _ _ p5 pos5 Hp5) as (p6 & pos6 & Hrun6 & Hp6).
  exists p6, pos6. split; [|exact Hp6].
  eapply run_trans; [exact Hrun1|]. eapply run_trans; [exact Hrun2|].
  eapply run_trans; [exact Hrun3|]. eapply run_trans; [exact Hrun4|].
  eapply run_trans; eassumption.
Qed.

End CommentLines.

Lemma comment_between_byte_lines_witness :
  exists p' pos',
    run (H := latin1)
      (parser_between_lines false
         (value_name_text (W "b") ++ W "hex:" ++ hex_commas [1] ++ [BACKSLASH] ++ CRLF
            ++ (W " " ++ SEMICOLON :: W "more") ++ CRLF
            ++ W "  " ++ hex_csv [2; 3] ++ CRLF)
         (Some (HKEY_CURRENT_USER, [])) empty_registry)
      [] p' pos'
    /\ ready (H := latin1) false (Some (HKEY_CURRENT_USER, []))
         (RegSetValueExW empty_registry (Some (HKEY_CURRENT_USER, []))
            (pending_name (W "b")) REG_BINARY ([1] ++ [2; 3]))
         [] p'.
Proof.
  assert (Hascii : forall t, Forall (fun c => 0 < c < 128) t -> clean (H := latin1) false t).
  { intros t. apply Forall_impl. intros c Hc. split; [lia|]. split; [lia|].
    intros _. cbn. replace (0 <=? c) with true by (symmetry; apply Z.leb_le; lia).
    replace (c <? 256) with true by (symmetry; apply Z.ltb_lt; lia). reflexivity. }
  apply (comment_between_byte_lines (H := latin1) false (Some (HKEY_CURRENT_USER, []))
           empty_registry (W "b") [1] [2; 3] (W " ") (W "more") []).
  - apply Hascii. repeat (constructor; [cbn; lia|]). constructor.
  - discriminate.
  - repeat constructor; unfold byte_range; lia.
  - discriminate.
  - repeat constructor; unfold byte_range; lia.
  - repeat constructor.
  - apply Hascii. repeat (constructor; [cbn; lia|]). constructor.
  - repeat (constructor; [split; discriminate|]). constructor.
  - apply (ready_between_lines (H := latin1) false).
    apply nul_free_check. vm_compute. reflexivity.
Defined.

(** ** Lines that delete, and keys that cannot be opened *)

Section Deletions.
Context `{CodePage}.

(** The name of a value and the equals sign, whatever follows. *)
Lemma import_value_name_start (u : bool) (h : option HKEY) (r : registry)
    (name D X : wstr) (p : parser) (pos : wstr) :
  clean u name -> clean u D -> no_eol D ->
  ready u h r ((value_name_text name ++ D) ++ CR :: LF :: X) p ->
  exists p' pt dt,
    run p pos p' (EQUALS :: D)
    /\ midline DATA_START u h r X (pending_name name) pt dt [] p'.
Proof.
  intros Hname HD Heol Hready.
  destruct name as [|c name].
  - destruct (ready_line u h r (ATSIGN :: EQUALS :: D) X p)
      as (f1 & b1 & Hline & Hf1); [| |exact Hready|].
    { constructor; [split; discriminate|]. constructor; [split; discriminate|exact Heol]. }
    { apply (clean_app u [ATSIGN; EQUALS] D); [|exact HD].
      apply printable_clean. repeat (constructor; [lia|]). constructor. }
    destruct Hready as (vn & pt & dt & Hp).
    flat_midline Hp p. revert Hline. norm_parser. intros Hline.
    eexists; exists pt, dt. split.
    + eapply run_step.
      { cbn [state parser_funcs]. unfold line_start_state. rewrite Hline.
        cbn [line_start_scan Z.eqb Pos.eqb]. norm_parser. reflexivity. }
      eapply run_step; [|apply run_refl].
      cbn [state parser_funcs]. unfold default_value_name_state. norm_parser. reflexivity.
    + midline_tac.
  - assert (Hcstr : value_name_text (c :: name)
                    = quoted (REGPROC_escape_string (c :: name)) ++ [EQUALS]).
    { unfold value_name_text. rewrite (cstr_nul_free (c :: name)).
      - reflexivity.
      - apply (clean_nul_free u), Hname. }
    rewrite Hcstr in Hready.
    set (e := REGPROC_escape_string (c :: name)) in *.
    assert (Hesc : clean u e /\ no_eol e).
    { subst e. split; [apply escape_string_clean, Hname|apply escape_string_no_eol]. }
    destruct (ready_line u h r ((quoted e ++ [EQUALS]) ++ D) X p)
      as (f1 & b1 & Hline & Hf1); [| |exact Hready|].
    { apply no_eol_app; [|exact Heol].
      unfold quoted. apply no_eol_app; [|repeat constructor; discriminate].
      constructor; [split; discriminate|].
      apply no_eol_app; [apply Hesc|repeat constructor; discriminate]. }
    { apply clean_app; [|exact HD]. unfold quoted.
      apply clean_app; [apply clean_app; [|apply clean_app; [apply Hesc|]]|];
        apply printable_clean; repeat (constructor; [lia|]); constructor. }
    replace ((quoted e ++ [EQUALS]) ++ D) with (DQUOTE :: e ++ DQUOTE :: EQUALS :: D) in Hline
      by (unfold quoted; cbn [app]; rewrite <- !app_assoc; reflexivity).
    destruct Hready as (vn & pt & dt & Hp).
    flat_midline Hp p. revert Hline. norm_parser. intros Hline.
    eexists; exists pt, dt. split.
    + eapply run_step.
      { cbn [state parser_funcs]. unfold line_start_state. rewrite Hline.
        cbn [line_start_scan Z.eqb Pos.eqb]. norm_parser. reflexivity. }
      eapply run_step; [|apply run_refl].
      cbn [state parser_funcs]. unfold quoted_value_name_state.
      subst e. rewrite unescape_escape_string.
      rewrite (cstr_nul_free _ (clean_nul_free u _ Hname)). norm_parser. reflexivity.
    + midline_tac.
Qed.

(** X13: a value line whose data is a minus sign deletes the value:
    after the name and the equals sign, a minus sign with nothing but
    blanks and a comment behind it makes the importer call
    [RegDeleteValueW] on the open key with this name, and go on with the
    next line. *)
Theorem minus_deletes_the_value (u : bool) (h : option HKEY) (r : registry)
    (name after comment X : wstr) (commented : bool) (p : parser) (pos : wstr) :
  clean u name -> blanks after -> clean u comment -> no_eol comment ->
  ready u h r
    ((value_name_text name
        ++ MINUS :: after ++ (if commented then SEMICOLON :: comment else []))
       ++ CR :: LF :: X) p ->
  exists p' pos',
    run p pos p' pos'
    /\ ready u h (RegDeleteValueW r h (pending_name name)) X p'.
Proof.
  intros Hname Hafter Hc Heol Hp.
  destruct (blanks_clean u after Hafter) as [Ha1 Ha2].
  set (D := MINUS :: after ++ (if commented then SEMICOLON :: comment else [])) in *.
  assert (HD : clean u D /\ no_eol D).
  { subst D. split.
    - constructor; [split; [discriminate|apply storable_ascii; lia]|].
      apply clean_app; [exact Ha1|]. destruct commented; [|constructor].
      constructor; [split; [discriminate|apply storable_ascii; lia]|exact Hc].
    - constructor; [split; discriminate|].
      apply no_eol_app; [exact Ha2|]. destruct commented; [|constructor].
      constructor; [split; discriminate|exact Heol]. }
  assert (Htrim : exists t, trim_trailing (skip_blanks D) = MINUS :: t
                            /\ at_eol_or_comment (skip_blanks t) = true).
  { subst D. cbn [skip_blanks is_blank Z.eqb Pos.eqb orb]. destruct commented.
    - exists (after ++ SEMICOLON :: trim_trailing comment). split.
      + change (MINUS :: after ++ SEMICOLON :: comment)
          with ((MINUS :: after) ++ SEMICOLON :: comment).
        now rewrite trim_trailing_app.
      + now rewrite skip_blanks_app.
    - exists []. split; [|reflexivity].
      rewrite app_nil_r, trim_trailing_cons by reflexivity.
      now rewrite trim_trailing_blanks. }
  destruct Htrim as (t & Etrim & Hcomment).
  destruct (import_value_name_start u h r name D X p pos Hname (proj1 HD) (proj2 HD) Hp)
    as (p1 & pt & dt & Hrun1 & Hp1).
  flat_midline Hp1 p1.
  apply run_to_ready. eexists; eexists. split.
  - eapply run_trans; [exact Hrun1|].
    eapply run_step.
    { cbn [state parser_funcs]. unfold data_start_state.
      cbn [skip_blanks is_blank Z.eqb Pos.eqb orb]. rewrite Etrim.
      cbn [Z.eqb Pos.eqb]. norm_parser. reflexivity. }
    eapply run_step; [|apply run_refl].
    cbn [state parser_funcs]. unfold delete_value_state. cbn [tl]. rewrite Hcomment.
    norm_parser. reflexivity.
  - exists (pending_name name), pt, dt. midline_tac.
Qed.

(** X14: a key line with a minus sign before the name of a key below
    a root class deletes the key: the importer calls [RegDeleteTreeW]
    on the root class with the path of the key, and goes on with the
    next line; the key that was open stays open. *)
Theorem minus_deletes_the_key (u : bool) (h : option HKEY) (r : registry)
    (c : root_class) (names : list wstr) (X : wstr) (p : parser) (pos : wstr) :
  names <> [] -> Forall (key_name_ok u) names ->
  ready u h r
    ((LBRACKET :: MINUS :: key_path c names ++ [RBRACKET]) ++ CR :: LF :: X) p ->
  exists p' pos',
    run p pos p' pos'
    /\ ready u h (RegDeleteTreeW r c (tl (flat_map (fun n => BACKSLASH :: n) names))) X p'
    /\ RegDeleteTreeW r c (tl (flat_map (fun n => BACKSLASH :: n) names))
       = set_root r c (delete_tree names (get_root r c)).
Proof.
  intros Hne Hnames Hready.
  destruct (key_path_clean u c names Hnames) as [Hclean Heol].
  destruct (key_path_head c names) as [t Ht].
  destruct (ready_line u h r (LBRACKET :: MINUS :: key_path c names ++ [RBRACKET]) X p)
    as (f1 & b1 & Hline & Hf1); [| |exact Hready|].
  { constructor; [split; discriminate|]. constructor; [split; discriminate|].
    apply no_eol_app; [exact Heol|repeat constructor; discriminate]. }
  { constructor; [split; [discriminate|apply storable_ascii; lia]|].
    constructor; [split; [discriminate|apply storable_ascii; lia]|].
    apply clean_app; [exact Hclean|].
    constructor; [split; [discriminate|apply storable_ascii; lia]|constructor]. }
  destruct Hready as (vn & pt & dt & Hp).
  pose proof (key_names_split u names Hnames) as Hsplit.
  assert (Hpath : exists k kp, tl (flat_map (fun n => BACKSLASH :: n) names) = k :: kp).
  { destruct names as [|n names]; [contradiction|].
    inversion Hnames as [|? ? (Hn & _) _]; subst.
    cbn [flat_map app tl]. destruct n as [|k n]; [contradiction|].
    now exists k, (n ++ flat_map (fun n => BACKSLASH :: n) names). }
  destruct Hpath as (k & kp & Epath).
  flat_midline Hp p. revert Hline. norm_parser. intros Hline.
  enough (Hrun : exists p' pos',
             run
               {| file := pfile; two_wchars := ptwo; is_unicode := u; reg_version := pver;
                  hkey := h; key_name := pkname; value_name := vn; parse_type := pt;
                  data_type := dt; data := []; data_cap := pcap; backslash := pbs;
                  state := LINE_START; reg := r; calls := pcalls; errno_erange := false;
                  behind := pbehind |}
               pos p' pos'
             /\ ready u h (RegDeleteTreeW r c (tl (flat_map (fun n => BACKSLASH :: n) names)))
                  X p').
  { destruct Hrun as (p' & pos' & Hrun & Hp'). exists p', pos'.
    split; [exact Hrun|]. split; [exact Hp'|].
    unfold RegDeleteTreeW. destruct names as [|n names]; [contradiction|].
    now rewrite Hsplit. }
  apply run_to_ready. eexists; eexists. split.
  - eapply run_step.
    { cbn [state parser_funcs]. unfold line_start_state. rewrite Hline.
      cbn [line_start_scan Z.eqb Pos.eqb]. norm_parser. reflexivity. }
    eapply run_step.
    { cbn [state parser_funcs]. unfold key_name_state.
      cbn [is_blank Z.eqb Pos.eqb orb].
      change (MINUS :: key_path c names ++ [RBRACKET])
        with ((MINUS :: key_path c names) ++ [RBRACKET]).
      rewrite cut_at_last_snoc. cbn [Z.eqb Pos.eqb]. norm_parser. reflexivity. }
    eapply run_step; [|apply run_refl].
    cbn [state parser_funcs]. unfold delete_key_state.
    rewrite Ht. cbn [Z.eqb Pos.eqb orb]. rewrite <- Ht.
    unfold delete_registry_key. rewrite Ht at 1. rewrite parse_key_name_path.
    destruct names as [|n names]; [contradiction|].
    rewrite Epath. norm_parser. reflexivity.
  - exists vn, pt, dt. rewrite <- Epath. midline_tac.
Qed.

(** X15: a key line with a name that begins with no root class opens
    no key and closes the one that was open: the value lines that follow
    it are read, and set nothing. *)
Theorem values_under_unknown_root_are_dropped (u : bool) (h : option HKEY) (r : registry)
    (key : wstr) (name : wstr) (v : reg_value) (T X : wstr) (p : parser) (pos : wstr) :
  fst (parse_key_name key) = None ->
  match key with c :: _ => is_blank c = false /\ c <> MINUS | [] => True end ->
  clean u key -> no_eol key ->
  value_name_ok u name -> exportable_value u v -> value_text name v u = Some T ->
  ready u h r ((LBRACKET :: key ++ [RBRACKET]) ++ CR :: LF :: T ++ X) p ->
  exists p' pos', run p pos p' pos' /\ ready u None r X p'.
Proof.
  intros Hclass Hfirst Hclean Heol Hname Hv HT Hready.
  destruct (ready_line u h r (LBRACKET :: key ++ [RBRACKET]) (T ++ X) p)
    as (f1 & b1 & Hline & Hf1); [| |exact Hready|].
  { constructor; [split; discriminate|].
    apply no_eol_app; [exact Heol|repeat constructor; discriminate]. }
  { constructor; [split; [discriminate|apply storable_ascii; lia]|].
    apply clean_app; [exact Hclean|].
    constructor; [split; [discriminate|apply storable_ascii; lia]|constructor]. }
  destruct Hready as (vn & pt & dt & Hp).
  assert (Hstate : forall q, key_name_state q (key ++ [RBRACKET])
                             = Next (set_state (close_key q) LINE_START) key).
  { intros q. unfold key_name_state. rewrite cut_at_last_snoc.
    assert (Hblank : match key ++ [RBRACKET] with c :: _ => is_blank c | [] => false end
                     = false).
    { destruct key as [|c0 key0]; [reflexivity|apply Hfirst]. }
    rewrite Hblank. unfold open_key.
    destruct (parse_key_name key) as [cls kp]. cbn [fst] in Hclass. subst cls. cbn [snd].
    destruct key as [|c0 key0]; [reflexivity|].
    destruct Hfirst as [_ Hminus]. apply Z.eqb_neq in Hminus. now rewrite Hminus. }
  assert (Hkey : exists p2 pos2, run p pos p2 pos2 /\ ready u None r (T ++ X) p2).
  { flat_midline Hp p. revert Hline. norm_parser. intros Hline.
    apply run_to_ready. eexists; eexists. split.
    - eapply run_step.
      { cbn [state parser_funcs]. unfold line_start_state. rewrite Hline.
        cbn [line_start_scan Z.eqb Pos.eqb]. norm_parser. reflexivity. }
      eapply run_step; [|apply run_refl].
      cbn [state parser_funcs]. apply Hstate.
    - unfold close_key. destruct h; exists vn, pt, dt; midline_tac. }
  destruct Hkey as (p2 & pos2 & Hrun2 & Hp2).
  destruct (import_value_line u None r name v T X p2 pos2 Hname Hv HT Hp2)
    as (p3 & pos3 & Hrun3 & Hp3).
  exists p3, pos3. split; [eapply run_trans; eassumption|exact Hp3].
Qed.

End Deletions.

Lemma latin1_ascii_clean (u : bool) (t : wstr) :
  Forall (fun c => 0 < c < 128) t -> clean (H := latin1) u t.
Proof. apply clean_ascii. Qed.

Lemma minus_deletes_the_value_witness :
  exists p' pos',
    run (H := latin1)
      (parser_between_lines true (quoted (W "v") ++ W "=- ; gone" ++ CRLF)
         (Some (HKEY_CURRENT_USER, []))
         (registry_with HKEY_CURRENT_USER []
            (Key [(W "v", {| val_type := REG_BINARY; val_data := [1] |})] [])))
      [] p' pos'
    /\ ready (H := latin1) true (Some (HKEY_CURRENT_USER, []))
         (registry_with HKEY_CURRENT_USER [] (Key [] [])) [] p'.
Proof.
  apply (minus_deletes_the_value (H := latin1) true (Some (HKEY_CURRENT_USER, []))
           (registry_with HKEY_CURRENT_USER []
              (Key [(W "v", {| val_type := REG_BINARY; val_data := [1] |})] []))
           (W "v") (W " ") (W " gone") [] true).
  - apply latin1_ascii_clean. repeat (constructor; [cbn; lia|]). constructor.
  - repeat constructor.
  - apply latin1_ascii_clean. repeat (constructor; [cbn; lia|]). constructor.
  - repeat (constructor; [split; discriminate|]). constructor.
  - apply (ready_between_lines (H := latin1) true).
    apply nul_free_check. vm_compute. reflexivity.
Defined.

Lemma minus_deletes_the_key_witness :
  exists p' pos',
    run (H := latin1)
      (parser_between_lines false (W "[-HKEY_CURRENT_USER\K]" ++ CRLF)
         None (registry_with HKEY_CURRENT_USER [W "K"] (Key [] [])))
      [] p' pos'
    /\ ready (H := latin1) false None
         (RegDeleteTreeW (registry_with HKEY_CURRENT_USER [W "K"] (Key [] []))
            HKEY_CURRENT_USER (W "K"))
         [] p'
    /\ RegDeleteTreeW (registry_with HKEY_CURRENT_USER [W "K"] (Key [] []))
         HKEY_CURRENT_USER (W "K")
       = set_root (registry_with HKEY_CURRENT_USER [W "K"] (Key [] [])) HKEY_CURRENT_USER
           (delete_tree [W "K"]
              (get_root (registry_with HKEY_CURRENT_USER [W "K"] (Key [] []))
                 HKEY_CURRENT_USER)).
Proof.
  apply (minus_deletes_the_key (H := latin1) false None
           (registry_with HKEY_CURRENT_USER [W "K"] (Key [] [])) HKEY_CURRENT_USER [W "K"] []).
  - discriminate.
  - constructor; [|constructor]. repeat split; try discriminate; try (cbn; lia).
    + apply latin1_ascii_clean. repeat (constructor; [cbn; lia|]). constructor.
    + repeat (constructor; [repeat split; discriminate|]). constructor.
  - apply (ready_between_lines (H := latin1) false).
    apply nul_free_check. vm_compute. reflexivity.
Defined.

Lemma values_under_unknown_root_are_dropped_witness :
  exists p' pos',
    run (H := latin1)
      (parser_between_lines false
         (W "[HKEY_FOO\K]" ++ CRLF ++ quoted (W "v") ++ W "=dword:00000001" ++ CRLF)
         (Some (HKEY_CURRENT_USER, [])) empty_registry)
      [] p' pos'
    /\ ready (H := latin1) false None empty_registry [] p'.
Proof.
  apply (values_under_unknown_root_are_dropped (H := latin1) false
           (Some (HKEY_CURRENT_USER, [])) empty_registry (W "HKEY_FOO\K") (W "v")
           {| val_type := REG_DWORD; val_data := [1; 0; 0; 0] |}
           (quoted (W "v") ++ W "=dword:00000001" ++ CRLF) []).
  - reflexivity.
  - split; [reflexivity|discriminate].
  - apply latin1_ascii_clean. repeat (constructor; [cbn; lia|]). constructor.
  - repeat (constructor; [split; discriminate|]). constructor.
  - apply latin1_ascii_clean. repeat (constructor; [cbn; lia|]). constructor.
  - split; [cbn; lia|]. split; [reflexivity|].
    repeat (constructor; [unfold byte_range; lia|]). constructor.
  - reflexivity.
  - apply (ready_between_lines (H := latin1) false).
    apply nul_free_check. vm_compute. reflexivity.
Defined.

(** ** The lines of a version 3.1 file *)

Lemma key_end_app (a b : wstr) :
  Forall (fun c => isspaceW c = false) a ->
  key_end (a ++ SPACE :: b) = length a.
Proof.
  induction 1 as [|c a Hc _ IH]; [reflexivity|].
  cbn [app key_end length]. now rewrite Hc, IH.
Qed.

Lemma starts_with_app (tag rest : wstr) : starts_with tag (tag ++ rest) = true.
Proof.
  induction tag as [|c tag IH]; [reflexivity|].
  cbn [app starts_with]. now rewrite Z.eqb_refl, IH.
Qed.

Section Win31.
Context `{CodePage}.

(** X16: in a file with the header REGEDIT, a line with the name of a
    key below HKEY_CLASSES_ROOT, a blank, an equals sign, a blank and a
    text opens the key, creating it where it is missing, and sets its
    default value to the text as a terminated string of type REG_SZ;
    the next line is read in the same way, from the text behind the
    line. *)
Theorem win31_line_sets_default_value (u : bool) (p : parser) (pos : wstr)
    (names : list wstr) (value X : wstr) :
  state p = PARSE_WIN31_LINE -> reg_version p = Some REG_VERSION_31 ->
  is_unicode p = u ->
  reads (file p)
    (reader_text u
       ((key_path HKEY_CLASSES_ROOT names ++ W " = " ++ value) ++ CR :: LF :: X)) ->
  Forall (key_name_ok u) names ->
  Forall (Forall (fun c => isspaceW c = false)) names ->
  clean u value -> no_eol value ->
  exists p',
    run p pos p' value
    /\ state p' = PARSE_WIN31_LINE
    /\ reads_late (file p') (reader_text u X)
    /\ hkey p' = Some (HKEY_CLASSES_ROOT, names)
    /\ reg p'
       = RegSetValueExW
           (set_root (reg p) HKEY_CLASSES_ROOT
              (create_path names (get_root (reg p) HKEY_CLASSES_ROOT)))
           (Some (HKEY_CLASSES_ROOT, names)) None REG_SZ (wide_bytes (value ++ [NUL])).
Proof.
  intros Hst Hver Hu Hfile Hnames Hspace Hvalue Heol.
  set (key := key_path HKEY_CLASSES_ROOT names) in *.
  destruct (key_path_clean u HKEY_CLASSES_ROOT names Hnames) as [Hkclean Hkeol].
  fold key in Hkclean, Hkeol.
  assert (Hkspace : Forall (fun c => isspaceW c = false) key).
  { subst key. unfold key_path. apply Forall_app. split.
    - repeat (constructor; [reflexivity|]). constructor.
    - clear - Hspace. induction Hspace as [|n names Hn _ IH]; [constructor|].
      cbn [flat_map]. constructor; [reflexivity|]. apply Forall_app. now split. }
  assert (Hsep : clean u (W " = ") /\ no_eol (W " = ")).
  { split; [apply clean_ascii|]; repeat (constructor; [cbn; (lia || (split; discriminate))|]);
      constructor. }
  destruct (get_line_text u (key ++ W " = " ++ value) X p)
    as (f1 & b1 & Hline & Hf1); try assumption.
  { apply no_eol_app; [exact Hkeol|]. apply no_eol_app; [apply Hsep|exact Heol]. }
  { apply clean_app; [exact Hkclean|]. apply clean_app; [apply Hsep|exact Hvalue]. }
  assert (Hstart : starts_with (W "HKEY_CLASSES_ROOT") (key ++ W " = " ++ value) = true).
  { subst key. unfold key_path. cbn [class_name]. rewrite <- app_assoc. apply starts_with_app. }
  assert (Hend : key_end (key ++ W " = " ++ value) = length key).
  { change (W " = " ++ value) with (SPACE :: EQUALS :: SPACE :: value).
    now apply key_end_app. }
  pose proof (key_names_split u names Hnames) as Hsplit.
  clear Hfile. destruct_parser p. cbn [state reg_version is_unicode] in Hst, Hver, Hu.
  subst pstate pver puni.
  revert Hline. norm_parser. intros Hline.
  assert (Hopen : exists cs,
             open_key
               {| file := f1; two_wchars := ptwo;
                  is_unicode := u; reg_version := Some REG_VERSION_31; hkey := phkey;
                  key_name := pkname; value_name := pvname; parse_type := pptype;
                  data_type := pdtype; data := pdata; data_cap := pcap; backslash := pbs;
                  state := PARSE_WIN31_LINE; reg := preg; calls := pcalls;
                  errno_erange := perr; behind := b1 |}
               key
             = (true,
                {| file := f1; two_wchars := ptwo;
                   is_unicode := u; reg_version := Some REG_VERSION_31;
                   hkey := Some (HKEY_CLASSES_ROOT, names);
                   key_name := Some key; value_name := pvname;
                   parse_type := pptype;
                   data_type := pdtype; data := pdata; data_cap := pcap; backslash := pbs;
                   state := PARSE_WIN31_LINE;
                   reg := set_root preg HKEY_CLASSES_ROOT
                            (create_path names (get_root preg HKEY_CLASSES_ROOT));
                   calls := cs; errno_erange := perr; behind := b1 |})).
  { unfold open_key, close_key. subst key. rewrite parse_key_name_path.
    unfold RegCreateKeyExW.
    destruct phkey as [hk|]; norm_parser;
      (destruct names as [|n names]; [|rewrite Hsplit]); eexists; reflexivity. }
  destruct Hopen as [cs Hopen].
  eexists. split; [eapply run_step|].
  { cbn [state parser_funcs]. unfold parse_win31_line_state.
      rewrite Hline, Hstart. cbn [negb]. rewrite Hend.
      rewrite skipn_app, firstn_app, skipn_all, firstn_all, Nat.sub_diag.
      cbn [skipn firstn app]. rewrite app_nil_r.
      change (W " = " ++ value) with (SPACE :: EQUALS :: SPACE :: value).
      cbn [skip_blanks is_blank Z.eqb Pos.eqb orb].
      replace (Nat.eqb (length value) (length (SPACE :: EQUALS :: SPACE :: value)))
        with false by (symmetry; apply Nat.eqb_neq; cbn [length]; lia).
    rewrite Hopen. norm_parser. reflexivity. }
  { eapply run_step; [|apply run_refl].
    cbn [state parser_funcs]. unfold set_value_state. norm_parser. reflexivity. }
  norm_parser. repeat match goal with |- _ /\ _ => split end; try reflexivity. exact Hf1.
Qed.

End Win31.

Lemma win31_line_sets_default_value_witness :
  exists p',
    run (H := latin1)
      (set_state
         (set_reg_version
            (initial_parser false 82 69
               (W "HKEY_CLASSES_ROOT\.txt = txtfile" ++ CRLF) empty_registry false)
            (Some REG_VERSION_31))
         PARSE_WIN31_LINE)
      [] p' (W "txtfile")
    /\ state p' = PARSE_WIN31_LINE
    /\ reads_late (file p') []
    /\ hkey p' = Some (HKEY_CLASSES_ROOT, [W ".txt"])
    /\ reg p'
       = registry_with HKEY_CLASSES_ROOT [W ".txt"]
           (Key [([], {| val_type := REG_SZ; val_data := wide_bytes (W "txtfile" ++ [NUL]) |})]
                []).
Proof.
  apply (win31_line_sets_default_value (H := latin1) false
           (set_state
              (set_reg_version
                 (initial_parser false 82 69
                    (W "HKEY_CLASSES_ROOT\.txt = txtfile" ++ CRLF) empty_registry false)
                 (Some REG_VERSION_31))
              PARSE_WIN31_LINE)
           [] [W ".txt"] (W "txtfile") []).
  - reflexivity.
  - reflexivity.
  - reflexivity.
  - apply reads_initial, nul_free_check. vm_compute. reflexivity.
  - constructor; [|constructor]. repeat split; try discriminate; try (cbn; lia).
    + apply latin1_ascii_clean. repeat (constructor; [cbn; lia|]). constructor.
    + repeat (constructor; [repeat split; discriminate|]). constructor.
  - repeat constructor.
  - apply latin1_ascii_clean. repeat (constructor; [cbn; lia|]). constructor.
  - repeat (constructor; [split; discriminate|]). constructor.
Defined.

(** ** The whole registry *)

Section ExportAllRoundTrip.
Context `{CodePage}.

(** X17: without a path, [export_registry_key] writes the keys of
    HKEY_LOCAL_MACHINE and then those of HKEY_USERS, and nothing of the
    other root classes.  For a registry that holds keys below these two
    root classes only, with names and values that can come back, the
    file is imported into an empty registry with the result TRUE, and
    the registry is then the one that was exported. *)
Theorem export_all_round_trip (u : bool) (machine users : reg_key) :
  exportable_key u machine -> exportable_key u users ->
  exists file calls,
    export_registry_key
      (set_root (set_root empty_registry HKEY_LOCAL_MACHINE machine) HKEY_USERS users) None u
    = Some (Some file)
    /\ imports file empty_registry false
         (Imported true
            (set_root (set_root empty_registry HKEY_LOCAL_MACHINE machine) HKEY_USERS users)
            calls).
Proof.
  intros Hm Hu.
  destruct (key_text_clean u HKEY_LOCAL_MACHINE machine [] ltac:(constructor) Hm)
    as (T1 & ET1 & HT1).
  destruct (key_text_clean u HKEY_USERS users [] ltac:(constructor) Hu) as (T2 & ET2 & HT2).
  set (r := set_root (set_root empty_registry HKEY_LOCAL_MACHINE machine) HKEY_USERS users).
  destruct (import_exported_text u (T1 ++ T2) empty_registry r (clean_app u _ _ HT1 HT2))
    as [calls Himp].
  { intros p pos Hp.
    destruct (import_key_text u HKEY_LOCAL_MACHINE empty_registry machine [] T1 T2 p pos None
                empty_key ltac:(constructor) Hm ET1 eq_refl Hp)
      as (p1 & pos1 & h1 & Hrun1 & Hp1).
    rewrite <- (app_nil_r T2) in Hp1.
    destruct (import_key_text u HKEY_USERS
                (set_root empty_registry HKEY_LOCAL_MACHINE machine) users [] T2 [] p1 pos1 h1
                empty_key ltac:(constructor) Hu ET2 eq_refl Hp1)
      as (p2 & pos2 & h2 & Hrun2 & Hp2).
    exists p2, pos2, h2. split; [eapply run_trans; eassumption|exact Hp2]. }
  exists (REGPROC_open_export_file u ++ encode u (T1 ++ T2)), calls.
  split; [|exact Himp].
  unfold export_registry_key, export_all.
  change (nth 0 reg_class_namesW []) with (key_path HKEY_LOCAL_MACHINE []).
  change (nth 1 reg_class_namesW []) with (key_path HKEY_USERS []).
  change (get_root r HKEY_LOCAL_MACHINE) with machine.
  change (get_root r HKEY_USERS) with users.
  rewrite export_key_text, ET1, export_key_text, ET2.
  now rewrite encode_app, app_assoc.
Qed.

End ExportAllRoundTrip.

Lemma export_all_round_trip_witness :
  exists file calls,
    export_registry_key (H := latin1)
      (set_root
         (set_root empty_registry HKEY_LOCAL_MACHINE
            (Key [] [(W "Soft", Key [([], {| val_type := REG_DWORD;
                                             val_data := [1; 0; 0; 0] |})] [])]))
         HKEY_USERS (Key [] []))
      None false
    = Some (Some file)
    /\ imports (H := latin1) file empty_registry false
         (Imported true
            (set_root
               (set_root empty_registry HKEY_LOCAL_MACHINE
                  (Key [] [(W "Soft", Key [([], {| val_type := REG_DWORD;
                                                   val_data := [1; 0; 0; 0] |})] [])]))
               HKEY_USERS (Key [] []))
            calls).
Proof.
  apply (export_all_round_trip (H := latin1) false).
  - cbn [exportable_key subkeys_ok]. repeat split.
    + constructor.
    + constructor.
    + cbn [map fst]. repeat (constructor; [cbn; intuition discriminate|]). constructor.
    + discriminate.
    + cbn; lia.
    + apply latin1_ascii_clean. repeat (constructor; [cbn; lia|]). constructor.
    + repeat (constructor; [repeat split; discriminate|]). constructor.
    + cbn [map fst]. repeat (constructor; [cbn; intuition discriminate|]). constructor.
    + constructor; [|constructor]. split; [constructor|].
      split; [cbn; lia|]. split; [reflexivity|].
      repeat (constructor; [unfold byte_range; lia|]). constructor.
    + constructor.
  - cbn [exportable_key subkeys_ok]. repeat split; constructor.
Defined.

(** ** Root classes *)

Lemma starts_with_nocase_lower (n s : wstr) :
  starts_with_nocase n s = starts_with (map tolowerW n) (map tolowerW s).
Proof.
  revert s. induction n as [|t n IH]; intros [|c s]; cbn [starts_with_nocase starts_with map];
    try reflexivity.
  now rewrite IH.
Qed.

(** X19: [parse_key_name] takes the name of a root class in any mix of
    upper and lower case: a name that is one of the six root class names
    but for the case of its letters gives this root class and no path,
    and with a backslash and a path behind it gives this root class and
    the path. *)
Theorem root_class_in_any_case (c : root_class) (name path : wstr) :
  map tolowerW name = map tolowerW (class_name c) ->
  parse_key_name name = (Some c, None)
  /\ parse_key_name (name ++ BACKSLASH :: path) = (Some c, Some path).
Proof.
  intros Hmap.
  assert (Hlen : length name = length (class_name c)).
  { rewrite <- (length_map tolowerW name), Hmap. apply length_map. }
  assert (Hbs : Forall (fun x => x <> BACKSLASH) name).
  { apply Forall_forall. intros x Hx ->.
    apply (in_map tolowerW) in Hx. rewrite Hmap in Hx.
    destruct c; cbn in Hx; intuition discriminate. }
  assert (Hclass : forall tail,
             match tail with [] => True | x :: _ => x = BACKSLASH end ->
             find_class reg_class_namesW reg_class_keys (name ++ tail) = Some c).
  { intros tail Htail.
    assert (Hskip : skipn (length (class_name c)) (name ++ tail) = tail).
    { rewrite <- Hlen, skipn_app, skipn_all, Nat.sub_diag. reflexivity. }
    assert (Hnext : match tail with [] => true | x :: _ => x =? BACKSLASH end = true).
    { destruct tail; [reflexivity|]. now subst. }
    unfold reg_class_namesW, reg_class_keys. cbn [find_class].
    rewrite !starts_with_nocase_lower, !map_app, Hmap.
    destruct c; cbn [class_name] in *; rewrite ?Hskip, ?Hnext;
      cbn [map W wc tolowerW is_upper starts_with app andb Z.leb Z.eqb Z.compare Pos.compare
           Pos.compare_cont Pos.eqb N_of_ascii N_of_digits Z.of_N Z.add Pos.add Z.mul
           Ascii.N_of_ascii] ;
      try reflexivity. }
  unfold parse_key_name. split.
  - rewrite <- (app_nil_r name) at 1. rewrite (Hclass [] I).
    f_equal. rewrite <- (app_nil_r name). now rewrite strchrW_app.
  - rewrite (Hclass (BACKSLASH :: path) eq_refl). f_equal.
    rewrite strchrW_app by exact Hbs. cbn [strchrW Z.eqb Pos.eqb]. reflexivity.
Qed.

Lemma root_class_in_any_case_witness :
  parse_key_name (W "hkey_Current_User") = (Some HKEY_CURRENT_USER, None)
  /\ parse_key_name (W "hkey_Current_User" ++ BACKSLASH :: W "Software\Wine")
     = (Some HKEY_CURRENT_USER, Some (W "Software\Wine")).
Proof. apply (root_class_in_any_case HKEY_CURRENT_USER). reflexivity. Defined.

(** ** Without a minus sign nothing is deleted *)

Lemma no_minus_app (a b : list Z) : no_minus (a ++ b) <-> no_minus a /\ no_minus b.
Proof. apply Forall_app. Qed.

Lemma no_minus_tl (s : list Z) : no_minus s -> no_minus (tl s).
Proof. intros Hs. destruct s; [constructor|]. now inversion Hs. Qed.

Lemma no_minus_skipn (n : nat) (s : list Z) : no_minus s -> no_minus (skipn n s).
Proof.
  intros Hs. rewrite <- (firstn_skipn n s) in Hs. now apply no_minus_app in Hs.
Qed.

Lemma no_minus_firstn (n : nat) (s : list Z) : no_minus s -> no_minus (firstn n s).
Proof.
  intros Hs. rewrite <- (firstn_skipn n s) in Hs. now apply no_minus_app in Hs.
Qed.

Lemma no_minus_skip_blanks (s : wstr) : no_minus s -> no_minus (skip_blanks s).
Proof.
  induction 1 as [|c s Hc Hs IH]; [constructor|].
  cbn [skip_blanks]. destruct (is_blank c); [exact IH|now constructor].
Qed.

Lemma no_minus_skip_space (s : wstr) : no_minus s -> no_minus (skip_space s).
Proof.
  induction 1 as [|c s Hc Hs IH]; [constructor|].
  cbn [skip_space]. destruct (isspaceW c); [exact IH|now constructor].
Qed.

Lemma no_minus_trim_trailing (s : wstr) : no_minus s -> no_minus (trim_trailing s).
Proof.
  induction 1 as [|c s Hc Hs IH]; [constructor|].
  cbn [trim_trailing]. destruct (trim_trailing s) as [|d t].
  - destruct (is_blank c); [constructor|now repeat constructor].
  - now constructor.
Qed.

Lemma no_minus_cut_at_last (s k : wstr) (c : WCHAR) :
  cut_at_last s c = Some k -> no_minus s -> no_minus k.
Proof.
  revert k. induction s as [|x r IH]; intros k; cbn [cut_at_last]; [discriminate|].
  intros Hcut Hs. inversion Hs as [|? ? Hx Hr]; subst.
  destruct (cut_at_last r c) as [k0|].
  - injection Hcut as <-. constructor; [exact Hx|now apply IH].
  - destruct (x =? c); [injection Hcut as <-; constructor|discriminate].
Qed.


Lemma no_minus_scan_hex (s : wstr) :
  forall acc n, no_minus s -> no_minus (snd (scan_hex s acc n)).
Proof.
  induction s as [|c r IH]; intros acc n Hs; [constructor|].
  cbn [scan_hex]. destruct (hex_digit_value c).
  - apply IH. now inversion Hs.
  - exact Hs.
Qed.

Lemma no_minus_strtoul16_end (s : wstr) : no_minus s -> no_minus (ul_end (strtoul16 s)).
Proof.
  intros Hs. unfold strtoul16.
  pose proof (no_minus_skip_space s Hs) as H1.
  set (s1 := skip_space s) in *.
  destruct (match s1 with
            | c :: r => if c =? MINUS then (true, r)
                        else if c =? PLUS then (false, r) else (false, s1)
            | [] => (false, s1)
            end) as [neg s2] eqn:E2.
  assert (H2 : no_minus s2).
  { destruct s1 as [|c r]; [now injection E2 as _ <-|].
    destruct (c =? MINUS); [injection E2 as _ <-; now inversion H1|].
    destruct (c =? PLUS); injection E2 as _ <-; [now inversion H1|exact H1]. }
  destruct (match s2 with
            | c0 :: x :: r =>
                if (c0 =? 48) && ((x =? 120) || (x =? 88)) then (true, r) else (false, s2)
            | _ => (false, s2)
            end) as [prefixed s3] eqn:E3.
  assert (H3 : no_minus s3).
  { destruct s2 as [|c0 [|x r]]; try (now injection E3 as _ <-).
    destruct ((c0 =? 48) && ((x =? 120) || (x =? 88))); injection E3 as _ <-; [|exact H2].
    apply (no_minus_skipn 2 (c0 :: x :: r)), H2. }
  pose proof (no_minus_scan_hex s3 0 0 H3) as H4.
  destruct (scan_hex s3 0 0) as [[v n] rest]. cbn [snd] in H4.
  destruct n as [|n].
  - destruct prefixed; cbn [ul_end]; [now apply no_minus_tl|exact Hs].
  - destruct (ULONG_MAX <? v); exact H4.
Qed.

Lemma no_minus_unescape_rest (str : wstr) :
  forall value rest,
    REGPROC_unescape_string str = Closed value rest -> no_minus str -> no_minus rest.
Proof.
  assert (Hall : forall n (s : wstr), (length s <= n)%nat ->
             forall value rest,
               REGPROC_unescape_string s = Closed value rest -> no_minus s -> no_minus rest).
  { induction n as [|n IH]; intros s Hn value rest.
    - destruct s; [discriminate|cbn in Hn; lia].
    - destruct s as [|c r]; [discriminate|]. cbn [REGPROC_unescape_string].
      intros Hu Hs. inversion Hs as [|? ? Hc Hr]; subst.
      destruct (c =? NUL); [discriminate|].
      destruct (c =? BACKSLASH).
      + destruct r as [|e r']; [discriminate|].
        destruct (e =? NUL); [discriminate|].
        destruct (REGPROC_unescape_string r') as [v u0|v|] eqn:E; try discriminate.
        injection Hu as _ <-. apply (IH r' ltac:(cbn [length] in Hn; lia) v u0 E).
        now inversion Hr.
      + destruct (c =? DQUOTE); [now injection Hu as _ <-|].
        destruct (REGPROC_unescape_string r) as [v u0|v|] eqn:E; try discriminate.
        injection Hu as _ <-. apply (IH r ltac:(cbn [length] in Hn; lia) v u0 E Hr). }
  intros value rest. apply (Hall (length str)), Nat.le_refl.
Qed.

Lemma keeps_refl (p : parser) : keeps p p.
Proof. now repeat split. Qed.

Lemma keeps_trans (p1 p2 p3 : parser) : keeps p1 p2 -> keeps p2 p3 -> keeps p1 p3.
Proof.
  intros (A1 & A2 & A3 & A4 & A5) (B1 & B2 & B3 & B4 & B5).
  repeat split; try congruence. auto.
Qed.

Ltac keeps_setter p := destruct_parser p; repeat split; cbn; auto.

Lemma hex_csv_loop_keeps (fuel : nat) :
  forall p s ret p' s',
    hex_csv_loop fuel p s = Some (ret, p', s') ->
    no_minus s ->
    keeps p p' /\ match s' with Some e => no_minus e | None => True end.
Proof.
  induction fuel as [|fuel IH]; intros p s ret p' s'; [discriminate|].
  cbn [hex_csv_loop]. destruct s as [|c0 s0].
  { intros [= _ <- <-] _. split; [apply keeps_refl|exact I]. }
  intros Hloop Hs. revert Hloop.
  pose proof (no_minus_strtoul16_end (c0 :: s0) Hs) as Hend.
  set (res := strtoul16 (c0 :: s0)) in *.
  set (p1 := if ul_erange res then set_errno p true else p).
  assert (H1 : keeps p p1).
  { subst p1. destruct (ul_erange res); [|apply keeps_refl]. keeps_setter p. }
  destruct (255 <? ul_value res); [intros [= _ <- <-]; now split|].
  destruct (Nat.eqb (length (ul_end res)) (length (c0 :: s0)) && (ul_value res =? 0)).
  - pose proof (no_minus_skip_blanks _ Hend) as Hskip.
    destruct (skip_blanks (ul_end res)) as [|c e']; [intros [= _ <- <-]; now split|].
    destruct (c =? BACKSLASH).
    { intros [= _ <- <-]. split; [|now inversion Hskip].
      apply (keeps_trans p p1); [exact H1|]. keeps_setter p1. }
    destruct (c =? SEMICOLON); intros [= _ <- <-]; now split.
  - set (p2 := set_data p1 (data p1 ++ [ul_value res]) (data_cap p1)).
    assert (H2 : keeps p p2).
    { apply (keeps_trans p p1); [exact H1|]. subst p2. keeps_setter p1. }
    destruct (ul_end res) as [|c e'].
    + intros Hloop. destruct (IH _ _ _ _ _ Hloop ltac:(constructor)) as [Hk Hs'].
      split; [eapply keeps_trans; eassumption|exact Hs'].
    + destruct (negb (c =? COMMA)); [intros [= _ <- <-]; now split|].
      intros Hloop. destruct (IH _ _ _ _ _ Hloop ltac:(now inversion Hend)) as [Hk Hs'].
      split; [eapply keeps_trans; eassumption|exact Hs'].
Qed.

Lemma convert_hex_csv_to_hex_keeps (p : parser) (str : wstr) :
  no_minus str ->
  keeps p (snd (fst (convert_hex_csv_to_hex p str)))
  /\ no_minus (snd (convert_hex_csv_to_hex p str)).
Proof.
  intros Hs. unfold convert_hex_csv_to_hex.
  set (p0 := set_data (set_backslash p false) _ _).
  assert (H0 : keeps p p0) by (subst p0; keeps_setter p).
  destruct (hex_csv_loop (S (length str)) p0 str) as [[[ret p'] s']|] eqn:E.
  - destruct (hex_csv_loop_keeps _ _ _ _ _ _ E Hs) as [Hk Hs'].
    destruct s' as [e|]; cbn [fst snd];
      (split; [exact (keeps_trans _ _ _ H0 Hk)|first [exact Hs'|exact Hs]]).
  - cbn [fst snd]. now split.
Qed.

Lemma parse_data_type_keeps (p : parser) (line : wstr) :
  no_minus line ->
  keeps p (snd (fst (parse_data_type p line))) /\ no_minus (snd (parse_data_type p line)).
Proof.
  intros Hl. unfold parse_data_type.
  destruct (starts_with [DQUOTE] line).
  { cbn [fst snd]. split; [keeps_setter p|now apply no_minus_skipn]. }
  destruct (starts_with (W "hex:") line).
  { cbn [fst snd]. split; [keeps_setter p|now apply no_minus_skipn]. }
  destruct (starts_with (W "dword:") line).
  { cbn [fst snd]. split; [keeps_setter p|now apply no_minus_skipn]. }
  destruct (starts_with (W "hex(") line); [|cbn [fst snd]; split; [apply keeps_refl|exact Hl]].
  pose proof (no_minus_skipn 4 line Hl) as H4.
  destruct (skipn 4 line) as [|x rest] eqn:E4.
  { cbn [fst snd]. split; [keeps_setter p|constructor]. }
  destruct (match rest with y :: _ => tolowerW y =? 120 | [] => false end).
  { cbn [fst snd]. split; [keeps_setter p|exact H4]. }
  pose proof (no_minus_strtoul16_end (x :: rest) H4) as Hend.
  set (res := strtoul16 (x :: rest)) in *.
  set (q := if ul_erange res then set_errno (set_types p REG_BINARY REG_BINARY) true
            else set_types p REG_BINARY REG_BINARY).
  assert (Hq : keeps p q).
  { subst q. destruct (ul_erange res); keeps_setter p. }
  destruct (ul_end res) as [|c1 [|c2 rest']]; cbn [fst snd];
    try (split; [exact Hq|exact H4]).
  destruct (negb (c1 =? RPAREN) || negb (c2 =? COLON)
            || (ul_value res =? ULONG_MAX) && errno_erange q); cbn [fst snd].
  - split; [exact Hq|exact H4].
  - split.
    + apply (keeps_trans p q); [exact Hq|]. keeps_setter q.
    + apply (no_minus_skipn 2 (c1 :: c2 :: rest')), Hend.
Qed.

Lemma prepare_hex_string_data_keeps `{CodePage} (p p' : parser) :
  prepare_hex_string_data p = Some p' -> keeps p p'.
Proof.
  unfold prepare_hex_string_data. destruct_parser p. norm_parser.
  repeat match goal with
         | |- context [if ?b then _ else _] => destruct b
         | |- context [match ?l with [] => _ | _ :: _ => _ end] => destruct l
         end;
    norm_parser; try discriminate; intros [= <-]; repeat split; cbn; auto.
Qed.

Lemma close_key_keeps (p : parser) : keeps p (close_key p).
Proof.
  unfold close_key. destruct_parser p. norm_parser.
  destruct phkey; repeat split; cbn; auto.
Qed.

Lemma open_key_keeps (p : parser) (path : wstr) : keeps p (snd (open_key p path)).
Proof.
  unfold open_key.
  apply (keeps_trans p (close_key p)); [apply close_key_keeps|].
  generalize (close_key p). intros q.
  destruct (parse_key_name path) as [[c|] kp]; cbn [snd]; [|apply keeps_refl].
  unfold RegCreateKeyExW. cbn [snd]. keeps_setter q.
Qed.

Lemma no_minus_drop (s : wstr) (c : WCHAR) :
  no_minus s -> no_minus (match s with x :: r => if x =? c then r else s | [] => s end).
Proof.
  intros Hs. destruct s as [|x r]; [exact Hs|].
  destruct (x =? c); [now inversion Hs|exact Hs].
Qed.

Lemma Forall_cstr (P : Z -> Prop) (s : list Z) : Forall P s -> Forall P (cstr s).
Proof.
  induction 1 as [|c s Hc Hs IH]; [constructor|].
  cbn [cstr]. destruct (c =? NUL); [constructor|now constructor].
Qed.

Lemma break_line_forall (P : Z -> Prop) (text : list Z) :
  forall l rest,
    break_line text = Some (l, rest) -> Forall P text -> Forall P l /\ Forall P rest.
Proof.
  induction text as [|c r IH]; intros l rest; cbn [break_line]; [discriminate|].
  intros Hb Ht. inversion Ht as [|? ? Hc Hr]; subst.
  destruct (c =? CR).
  { injection Hb as <- <-. split; [constructor|].
    destruct r as [|d r']; [constructor|].
    destruct (d =? LF); [now inversion Hr|exact Hr]. }
  destruct (c =? LF).
  { injection Hb as <- <-. split; [constructor|exact Hr]. }
  destruct (break_line r) as [[l0 rest0]|]; [|discriminate].
  injection Hb as <- <-. destruct (IH l0 rest0 eq_refl Hr) as [Hl Hrest].
  split; [now constructor|exact Hrest].
Qed.

Lemma read_line_forall (P : Z -> Prop) (fuel : nat) :
  P NUL ->
  forall sz buf st f' l cells,
    read_line fuel sz buf st = Some (f', l, cells) ->
    Forall P buf -> Forall P st ->
    Forall P l /\ Forall P cells /\ Forall P (stream f')
    /\ match next f' with Some n => Forall P n | None => True end.
Proof.
  intros HP0.
  assert (Hskip : forall n (t : list Z), Forall P t -> Forall P (skipn n t)).
  { intros n t Ht. rewrite <- (firstn_skipn n t) in Ht. now apply Forall_app in Ht. }
  assert (Hfirst : forall n (t : list Z), Forall P t -> Forall P (firstn n t)).
  { intros n t Ht. rewrite <- (firstn_skipn n t) in Ht. now apply Forall_app in Ht. }
  induction fuel as [|fuel IH]; intros sz buf st f' l cells; rewrite read_line_eq;
    (destruct (break_line buf) as [[l0 rest]|] eqn:Hbreak;
     [intros [= <- <- <-] Hbuf Hst; cbn [stream next];
      destruct (break_line_forall P _ _ _ Hbreak Hbuf) as [Hl Hrest];
      repeat split; try assumption;
      apply Forall_app; split; [exact (Hskip (S (length l0)) buf Hbuf)|now constructor]|]);
    cbv zeta;
    destruct (Nat.min _ (length st)) as [|k] eqn:Ecount; try discriminate;
    try (intros [= <- <- <-] Hbuf Hst; cbn [stream next]; repeat split;
         try assumption; constructor).
  intros Hread Hbuf Hst. apply (IH _ _ _ _ _ _ Hread).
  - apply Forall_app. split; [exact Hbuf|]. now apply Forall_cstr, Hfirst.
  - now apply Hskip.
Qed.

Lemma wide_chars_no_minus (b : list BYTE) :
  Forall (fun x => 0 <= x < 256) b -> ~ In MINUS b -> no_minus (wide_chars b).
Proof.
  assert (Hall : forall n (l : list BYTE), (length l <= n)%nat ->
             Forall (fun x => 0 <= x < 256) l -> ~ In MINUS l -> no_minus (wide_chars l)).
  { induction n as [|n IH]; intros l Hn Hr Hm.
    - destruct l; [constructor|cbn in Hn; lia].
    - destruct l as [|lo [|hi r]]; try constructor.
      + inversion Hr as [|? ? Hlo Hr']; subst. inversion Hr' as [|? ? Hhi Hr'']; subst.
        assert (lo <> MINUS) by (intros ->; apply Hm; now left).
        lia.
      + apply IH.
        * cbn [length] in Hn. lia.
        * inversion Hr as [|? ? _ Hr']; subst. now inversion Hr'.
        * intros Hin. apply Hm. now right; right. }
  apply (Hall (length b)), Nat.le_refl.
Qed.

Lemma keeps_set_reg_version (p q : parser) (x : option reg_versions) :
  keeps p q -> keeps p (set_reg_version q x).
Proof. intros Hk. apply (keeps_trans p q); [exact Hk|]. keeps_setter q. Qed.

Lemma keeps_set_key (p q : parser) (h : option HKEY) (n : option wstr) :
  keeps p q -> keeps p (set_key q h n).
Proof. intros Hk. apply (keeps_trans p q); [exact Hk|]. keeps_setter q. Qed.

Lemma keeps_set_value_name (p q : parser) (x : option wstr) :
  keeps p q -> keeps p (set_value_name q x).
Proof. intros Hk. apply (keeps_trans p q); [exact Hk|]. keeps_setter q. Qed.

Lemma keeps_set_types (p q : parser) (pt dt : Z) :
  keeps p q -> keeps p (set_types q pt dt).
Proof. intros Hk. apply (keeps_trans p q); [exact Hk|]. keeps_setter q. Qed.

Lemma keeps_set_data (p q : parser) (d : list BYTE) (cap : nat) :
  keeps p q -> keeps p (set_data q d cap).
Proof. intros Hk. apply (keeps_trans p q); [exact Hk|]. keeps_setter q. Qed.

Lemma keeps_free_parser_data (p q : parser) : keeps p q -> keeps p (free_parser_data q).
Proof. apply keeps_set_data. Qed.

Lemma keeps_set_value (p q : parser) (r : registry) (h : option HKEY)
    (n : option wstr) (t : Z) (d : list BYTE) :
  keeps p q -> keeps p (set_reg q r (CallSetValue h n t d)).
Proof. intros Hk. apply (keeps_trans p q); [exact Hk|]. keeps_setter q. Qed.

Lemma keeps_open_key (p q : parser) (path : wstr) :
  keeps p q -> keeps p (snd (open_key q path)).
Proof. intros Hk. apply (keeps_trans p q); [exact Hk|apply open_key_keeps]. Qed.

Lemma keeps_close_key (p q : parser) : keeps p q -> keeps p (close_key q).
Proof. intros Hk. apply (keeps_trans p q); [exact Hk|apply close_key_keeps]. Qed.

Create HintDb keeps.
#[local] Hint Resolve keeps_refl keeps_set_reg_version keeps_set_key keeps_set_value_name
  keeps_set_types keeps_set_data keeps_free_parser_data keeps_set_value keeps_open_key
  keeps_close_key : keeps.

Create HintDb minus.
#[local] Hint Resolve no_minus_tl no_minus_skipn no_minus_firstn no_minus_skip_blanks
  no_minus_trim_trailing no_minus_drop : minus.

Section NoMinus.
Context `{CodePage}.

Lemma mb_to_wc_minus (b : BYTE) : b <> MINUS -> mb_to_wc b <> MINUS.
Proof.
  intros Hb E.
  destruct (Z_lt_le_dec b 0) as [Hlo|Hlo].
  - apply (mb_to_wc_high b); lia.
  - destruct (Z_lt_le_dec b 128) as [Hhi|Hhi].
    + rewrite mb_to_wc_ascii in E by lia. contradiction.
    + apply (mb_to_wc_high b); lia.
Qed.

Lemma get_line_minus_free (p p1 : parser) (l : option wstr) :
  get_line p = (p1, l) ->
  no_minus (pending_text p) -> no_minus (behind p) ->
  state p1 = state p /\ calls p1 = calls p
  /\ no_minus (pending_text p1) /\ no_minus (behind p1)
  /\ match l with Some line => no_minus line | None => True end.
Proof.
  intros Hg Ht Hb.
  set (P := fun b => (if is_unicode p then b else mb_to_wc b) <> MINUS).
  assert (HP0 : P NUL).
  { subst P. cbv beta. destruct (is_unicode p); [discriminate|].
    apply mb_to_wc_minus. discriminate. }
  assert (Hall : Forall P (match buffered (file p) with Some n => n | None => [] end
                             ++ stream (file p))).
  { unfold pending_text in Ht. subst P. destruct (is_unicode p); [exact Ht|].
    exact (proj1 (Forall_map mb_to_wc (fun c => c <> MINUS) _) Ht). }
  assert (Hout : forall t, Forall P t -> no_minus (if is_unicode p then t else map mb_to_wc t)).
  { intros t Ht'. subst P. destruct (is_unicode p); [exact Ht'|].
    exact (proj2 (Forall_map mb_to_wc (fun c => c <> MINUS) t) Ht'). }
  assert (Hcells : forall t, Forall P t -> no_minus (if is_unicode p then t else [])).
  { intros t Ht'. subst P. destruct (is_unicode p); [exact Ht'|constructor]. }
  assert (Hline : forall sz n f' l0 cells,
             read_line (length (stream (file p))) sz n (stream (file p)) = Some (f', l0, cells) ->
             Forall P (n ++ stream (file p)) ->
             Forall P (match buffered f' with Some n' => n' | None => [] end ++ stream f')
             /\ Forall P cells /\ Forall P l0).
  { intros sz n f' l0 cells Hread Hn. apply Forall_app in Hn as [Hn Hst].
    destruct (read_line_forall P _ HP0 _ _ _ _ _ _ Hread Hn Hst) as (Hl & Hc & Hs & Hnext).
    split; [|now split]. apply Forall_app. split; [|exact Hs].
    unfold buffered. destruct (size f' =? 0)%nat; [constructor|].
    destruct (next f'); [exact Hnext|constructor]. }
  revert Hg. unfold get_line. unfold buffered in Hall.
  destruct (size (file p) =? 0)%nat.
  - destruct (read_line (length (stream (file p))) REG_VAL_BUF_SIZE [] (stream (file p)))
      as [[[f' l0] cells]|] eqn:Er.
    + destruct (Hline _ _ _ _ _ Er Hall) as (Hp1 & Hc & Hl).
      specialize (Hout _ Hp1) as Hp1'. specialize (Hout _ Hl) as Hl'.
      specialize (Hcells _ Hc) as Hc'.
      unfold pending_text.
      destruct (is_unicode p) eqn:Eu; intros [= <- <-];
        cbn [state calls file is_unicode behind set_behind set_file]; rewrite ?Eu;
        now repeat split.
    + intros [= <- <-]. now repeat split.
  - destruct (next (file p)) as [buf|].
    + destruct (read_line (length (stream (file p))) (size (file p)) buf (stream (file p)))
        as [[[f' l0] cells]|] eqn:Er.
      * destruct (Hline _ _ _ _ _ Er Hall) as (Hp1 & Hc & Hl).
        specialize (Hout _ Hp1) as Hp1'. specialize (Hout _ Hl) as Hl'.
        specialize (Hcells _ Hc) as Hc'.
        unfold pending_text.
        destruct (is_unicode p) eqn:Eu; intros [= <- <-];
          cbn [state calls file is_unicode behind set_behind set_file]; rewrite ?Eu;
          now repeat split.
      * intros [= <- <-]. now repeat split.
    + intros [= <- <-]. unfold pending_text, buffered.
      cbn [state calls file is_unicode behind set_behind set_file size stream next Nat.eqb app].
      specialize (Hout _ Hall). cbn [app] in Hout.
      repeat split; [exact Hout|constructor].
Qed.

Lemma minus_free_next (p q : parser) (pos : wstr) (s : parser_state) :
  keeps p q ->
  no_minus (pending_text p) -> no_minus (behind p) ->
  forallb harmless (calls p) = true ->
  s <> DELETE_KEY -> s <> DELETE_VALUE ->
  no_minus pos ->
  minus_free (set_state q s) pos.
Proof.
  intros (Hf & Hu & _ & Hb & Hc) Ht Hbehind Hcalls H1 H2 Hpos.
  unfold minus_free, pending_text in *. destruct_parser q. norm_parser.
  cbn in Hf, Hu, Hb, Hc. subst. auto 10.
Qed.

Lemma minus_free_same (p q : parser) (pos : wstr) :
  keeps p q ->
  no_minus (pending_text p) -> no_minus (behind p) ->
  forallb harmless (calls p) = true ->
  state p <> DELETE_KEY -> state p <> DELETE_VALUE ->
  no_minus pos ->
  minus_free q pos.
Proof.
  intros (Hf & Hu & Hs & Hb & Hc) Ht Hbehind Hcalls H1 H2 Hpos.
  unfold minus_free, pending_text in *. rewrite Hf, Hu, Hs, Hb. auto 10.
Qed.

Lemma line_start_scan_minus_free (p : parser) (l : wstr) :
  no_minus (pending_text p) -> no_minus (behind p) ->
  forallb harmless (calls p) = true ->
  state p <> DELETE_KEY -> state p <> DELETE_VALUE ->
  no_minus l ->
  exists p' pos', line_start_scan p l = Next p' pos' /\ minus_free p' pos'.
Proof.
  intros Ht Hbehind Hcalls H1 H2.
  induction 1 as [|c r Hc Hr IH]; cbn [line_start_scan].
  - eexists _, _. split; [reflexivity|].
    apply (minus_free_same p); auto with keeps. constructor.
  - destruct (c =? LBRACKET).
    { eexists _, _. split; [reflexivity|].
      apply (minus_free_next p); auto with keeps; discriminate. }
    destruct (c =? ATSIGN).
    { eexists _, _. split; [reflexivity|].
      apply (minus_free_next p); auto with keeps; try discriminate. now constructor. }
    destruct (c =? DQUOTE).
    { eexists _, _. split; [reflexivity|].
      apply (minus_free_next p); auto with keeps; discriminate. }
    destruct (is_blank c); [exact IH|].
    eexists _, _. split; [reflexivity|].
    apply (minus_free_same p); auto with keeps. now constructor.
Qed.

Ltac next_turn base :=
  lazymatch goal with
  | |- minus_free (set_state _ _) _ => apply (minus_free_next base)
  | |- minus_free _ _ => apply (minus_free_same base)
  end;
  try solve [auto 10 with keeps | assumption | congruence | discriminate
            | auto 10 with minus | constructor].

(** One turn of the main loop keeps the minus signs and the deletions
    away, and does not call [error_exit]. *)
Lemma turn_minus_free (p : parser) (pos : wstr) :
  minus_free p pos ->
  match parser_funcs (state p) p pos with
  | Next p' pos' => minus_free p' pos'
  | Stop p' => forallb harmless (calls p') = true
  | Exit _ => False
  | Fault => True
  | Astray p' => forallb harmless (calls p') = true
  end.
Proof.
  intros (Hpos & Htext & Hbehind & Hdk & Hdv & Hcalls).
  destruct (state p) eqn:Est; try congruence; cbn [parser_funcs].
  - (* HEADER *)
    unfold header_state.
    destruct (get_line p) as [p1 [line|]] eqn:Eg;
      destruct (get_line_minus_free _ _ _ Eg Htext Hbehind) as (Hs1 & Hc1 & Ht1 & Hb1 & Hl);
      rewrite <- Hc1 in Hcalls; [|exact Hcalls].
    cbv zeta.
    destruct (if negb (is_unicode p1)
              then parse_file_header (cstr (fst (two_wchars p1) :: snd (two_wchars p1) :: line))
              else parse_file_header line);
      try next_turn p1. all: destruct_parser p1; exact Hcalls.
  - (* PARSE_WIN31_LINE *)
    unfold parse_win31_line_state.
    destruct (get_line p) as [p1 [line|]] eqn:Eg;
      destruct (get_line_minus_free _ _ _ Eg Htext Hbehind) as (Hs1 & Hc1 & Ht1 & Hb1 & Hl);
      rewrite <- Hc1 in Hcalls; [|exact Hcalls].
    destruct (negb (starts_with (W "HKEY_CLASSES_ROOT") line)); [next_turn p1|].
    cbv zeta.
    pose proof (open_key_keeps p1 (firstn (key_end line) line)) as Hk.
    destruct (open_key p1 (firstn (key_end line) line)) as [[|] q]; cbn [snd] in Hk.
    + next_turn p1.
      match goal with |- no_minus (if ?b then _ else _) => destruct b end;
        [constructor|auto 10 with minus].
    + next_turn p1.
  - (* LINE_START *)
    unfold line_start_state.
    destruct (get_line p) as [p1 [line|]] eqn:Eg;
      destruct (get_line_minus_free _ _ _ Eg Htext Hbehind) as (Hs1 & Hc1 & Ht1 & Hb1 & Hl);
      rewrite <- Hc1 in Hcalls; [|exact Hcalls].
    destruct (line_start_scan_minus_free p1 line) as (p' & pos' & -> & Hfree);
      try assumption; congruence.
  - (* KEY_NAME *)
    unfold key_name_state.
    destruct (match pos with c :: _ => is_blank c | [] => false end); [next_turn p|].
    destruct (cut_at_last pos RBRACKET) as [name|] eqn:Ecut; [|next_turn p].
    pose proof (no_minus_cut_at_last _ _ _ Ecut Hpos) as Hname.
    destruct name as [|c r]; [next_turn p|].
    destruct (c =? MINUS) eqn:Em; [|next_turn p].
    apply Z.eqb_eq in Em. inversion Hname; congruence.
  - (* DEFAULT_VALUE_NAME *)
    unfold default_value_name_state. next_turn p.
  - (* QUOTED_VALUE_NAME *)
    unfold quoted_value_name_state. cbv zeta.
    destruct (REGPROC_unescape_string pos) as [v rest|v|] eqn:Eu.
    + pose proof (no_minus_unescape_rest _ _ _ Eu Hpos). next_turn p.
    + next_turn p.
    + cbn [behind is_unicode set_value_name].
      destruct (behind p) as [|x m] eqn:Eb;
        [destruct (is_unicode p); [destruct_parser p; exact Hcalls|exact I]|].
      destruct (x =? DQUOTE); [destruct_parser p; exact Hcalls|].
      assert (Hm : no_minus (cstr m)) by (apply Forall_cstr; now inversion Hbehind).
      next_turn p.
  - (* DATA_START *)
    unfold data_start_state. cbv zeta.
    pose proof (no_minus_skip_blanks _ Hpos) as Hl.
    destruct (skip_blanks pos) as [|c r]; [next_turn p|].
    destruct (c =? EQUALS); [|next_turn p].
    assert (Hr : no_minus (trim_trailing (skip_blanks r))).
    { apply no_minus_trim_trailing, no_minus_skip_blanks. now inversion Hl. }
    set (q := set_behind p (behind_trimmed (skip_blanks r) (behind p))).
    assert (Hq : minus_free q pos /\ state q = state p).
    { subst q. unfold minus_free, pending_text in *. destruct_parser p.
      cbn [state calls file is_unicode behind set_behind] in *.
      split; [|reflexivity]. repeat split; try assumption; try congruence.
      unfold behind_trimmed. apply no_minus_tl, no_minus_skipn, no_minus_app.
      split; [apply no_minus_skip_blanks; now inversion Hl|].
      constructor; [discriminate|exact Hbehind]. }
    destruct Hq as [(_ & Htq & Hbq & Hdkq & Hdvq & Hcq) Hsq]. clearbody q.
    destruct (trim_trailing (skip_blanks r)) as [|d t]; [next_turn q|].
    destruct (d =? MINUS) eqn:Em; [|next_turn q].
    apply Z.eqb_eq in Em. inversion Hr; congruence.
  - (* DATA_TYPE *)
    unfold data_type_state.
    destruct (parse_data_type_keeps p pos Hpos) as [Hk Hl].
    destruct (parse_data_type p pos) as [[[|] q] line]; cbn [fst snd] in Hk, Hl.
    + destruct (parse_type q =? REG_SZ); [next_turn p|].
      destruct (parse_type q =? REG_DWORD); [next_turn p|].
      destruct (parse_type q =? REG_BINARY); next_turn p.
    + next_turn p.
  - (* STRING_DATA *)
    unfold string_data_state.
    destruct (REGPROC_unescape_string pos) as [v rest|v|] eqn:Eu.
    + pose proof (no_minus_unescape_rest _ _ _ Eu Hpos). cbv zeta.
      destruct (at_eol_or_comment (skip_blanks rest)); next_turn p.
    + next_turn p.
    + destruct (behind p) as [|x m] eqn:Eb;
        [destruct (is_unicode p); [exact Hcalls|exact I]|].
      destruct (x =? DQUOTE); [exact Hcalls|].
      assert (Hm : no_minus (cstr m)) by (apply Forall_cstr; now inversion Hbehind).
      rewrite <- Eb in Hbehind. next_turn p.
  - (* DWORD_DATA *)
    unfold dword_data_state. destruct (convert_hex_to_dword pos); next_turn p.
  - (* HEX_DATA *)
    unfold hex_data_state.
    destruct (convert_hex_csv_to_hex_keeps p pos Hpos) as [Hk Hl].
    destruct (convert_hex_csv_to_hex p pos) as [[[|] q] line]; cbn [fst snd] in Hk, Hl.
    + destruct (backslash q); [next_turn p|].
      destruct (prepare_hex_string_data q) as [q'|] eqn:Ep; [|exact I].
      pose proof (keeps_trans _ _ _ Hk (prepare_hex_string_data_keeps _ _ Ep)).
      next_turn p.
    + next_turn p.
  - (* EOL_BACKSLASH *)
    unfold eol_backslash_state. cbv zeta.
    destruct (at_eol_or_comment (skip_blanks pos)); next_turn p.
  - (* HEX_MULTILINE *)
    unfold hex_multiline_state.
    destruct (get_line p) as [p1 [line|]] eqn:Eg;
      destruct (get_line_minus_free _ _ _ Eg Htext Hbehind) as (Hs1 & Hc1 & Ht1 & Hb1 & Hl);
      rewrite <- Hc1 in Hcalls.
    + cbv zeta. pose proof (no_minus_skip_blanks _ Hl).
      destruct (at_eol_or_comment (skip_blanks line)); [next_turn p1|].
      destruct (match skip_blanks line with c :: _ => isxdigitW c | [] => false end);
        next_turn p1.
    + destruct (prepare_hex_string_data p1) as [q'|] eqn:Ep; [|exact I].
      pose proof (prepare_hex_string_data_keeps _ _ Ep). next_turn p1.
  - (* UNKNOWN_DATA *)
    unfold unknown_data_state. next_turn p.
  - (* SET_VALUE *)
    unfold set_value_state. cbv zeta.
    match goal with |- context [reg_version ?q] => destruct (reg_version q) as [[| | | |]|] end;
      next_turn p.
Qed.

Lemma parser_loop_minus_free (fuel : nat) :
  forall p pos,
    minus_free p pos ->
    match parser_loop fuel p pos with
    | Some (Finished p') | Some (Strayed p') => forallb harmless (calls p') = true
    | Some (Exited _) => False
    | _ => True
    end.
Proof.
  induction fuel as [|fuel IH]; intros p pos Hfree; [exact I|].
  cbn [parser_loop]. pose proof (turn_minus_free p pos Hfree) as Hturn.
  destruct (parser_funcs (state p) p pos) as [p' pos'|p'|p'| |p'];
    [now apply IH|exact Hturn|exact Hturn|exact I|exact Hturn].
Qed.

(** X20: a file without a minus sign deletes nothing.  When none of its
    bytes is the minus sign, the import does not call [RegDeleteValueW]
    and does not call [RegDeleteTreeW], whatever else the file holds, and
    it does not end in [error_exit].  Where the parser of a Unicode file
    leaves its line, this holds of the import up to there. *)
Theorem no_minus_sign_no_deletion (reg_file : list BYTE) (r0 : registry) (erange0 : bool)
    (fuel : nat) :
  Forall (fun b => 0 <= b < 256) reg_file ->
  ~ In MINUS reg_file ->
  match import_registry_file fuel reg_file r0 erange0 with
  | Some (Imported _ _ calls) | Some (ImportAstray _ calls) => forallb harmless calls = true
  | Some (ImportExit _ _) => False
  | _ => True
  end.
Proof.
  intros Hrange Hminus.
  destruct reg_file as [|s0 [|s1 rest]]; try reflexivity.
  rewrite import_registry_file_eq.
  set (u := (s0 =? 255) && (s1 =? 254)).
  set (text := if u then wide_chars rest else rest).
  assert (Hrest : Forall (fun b => b <> MINUS) rest).
  { apply Forall_forall. intros b Hb ->. apply Hminus. now right; right. }
  assert (Hfree : minus_free (initial_parser u s0 s1 text r0 erange0) [s0; s1]).
  { unfold minus_free, pending_text, initial_parser, buffered. norm_parser.
    cbn [size stream Nat.eqb app].
    repeat split; try discriminate.
    - repeat constructor; intros ->; apply Hminus; [now left|now right; left].
    - subst text. destruct u.
      + apply wide_chars_no_minus.
        * inversion Hrange as [|? ? _ Hr]; subst. now inversion Hr.
        * intros Hin. apply Hminus. now right; right.
      + apply (proj2 (Forall_map mb_to_wc (fun c => c <> MINUS) _)).
        revert Hrest. apply Forall_impl. intros b. apply mb_to_wc_minus.
    - constructor. }
  pose proof (parser_loop_minus_free fuel _ _ Hfree) as Hloop.
  destruct (parser_loop fuel (initial_parser u s0 s1 text r0 erange0) [s0; s1])
    as [[p|p| |p]|]; try exact Hloop; try exact I.
  destruct (reg_version p) as [[| | | |]|]; try exact Hloop;
    apply (close_key_keeps p), Hloop.
Qed.

End NoMinus.

Lemma no_minus_sign_no_deletion_witness :
  match
    import_registry_file (H := latin1) 400
      (W "REGEDIT4" ++ CRLF ++ W "[HKEY_CURRENT_USER\A]" ++ CRLF ++ W "@=dword:1" ++ CRLF)
      empty_registry false
  with
  | Some (Imported _ _ calls) | Some (ImportAstray _ calls) => forallb harmless calls = true
  | Some (ImportExit _ _) => False
  | _ => True
  end.
Proof.
  apply (no_minus_sign_no_deletion (H := latin1)).
  - apply Forall_forall. intros b Hb. vm_compute in Hb.
    repeat destruct Hb as [<-|Hb]; try lia; contradiction.
  - intros Hin. vm_compute in Hin.
    repeat destruct Hin as [Heq|Hin]; try discriminate; contradiction.
Defined.

